(** * The rule engine of [scripts/util/vm-optimize.py]

    A shallow embedding of [optimize_xml]: the element tree that lxml hands
    to the function, the five sections of the function (disk, NIC, video,
    SPICE GL, CPU) with their in-place mutations, the list of change tuples
    they accumulate, and the exceptions the body can raise. *)

From Stdlib Require Import String Ascii List ZArith Bool Arith Lia DecimalString.
Import ListNotations.
Open Scope string_scope.
Open Scope list_scope.

(** ** Exceptions and the state the function threads *)

(** The exceptions that can leave [optimize_xml].  [StaleReference] is not a
    Python exception: an element reference is modelled as a path from the
    root, and the model raises [StaleReference] if such a path no longer
    leads to an element.  [loops_never_stale] shows it is never raised. *)
Inductive Exn : Type :=
| ParseError
| UnboundLocalError
| ValueError
| TypeError
| StaleReference.

Inductive Res (A : Type) : Type :=
| Ok (a : A)
| Raise (e : Exn).
Arguments Ok {A} a.
Arguments Raise {A} e.

(** A change tuple [(optimization_key, old_value, new_value)]. *)
Definition Change : Type := (string * string * string)%type.

Definition key (c : Change) : string := fst (fst c).

(** The locals of [optimize_xml] that outlive a loop iteration: the list
    [changes] and the variable [new_dev], which is bound only inside
    [if old_dev:] and read after it. *)
Record St : Type := mkSt {
  changes : list Change;
  new_dev : option string
}.

Definition M (A : Type) : Type := St -> Res (A * St).

Definition ret {A} (a : A) : M A := fun s => Ok (a, s).

Definition bind {A B} (m : M A) (k : A -> M B) : M B :=
  fun s => match m s with
           | Ok (a, s') => k a s'
           | Raise e => Raise e
           end.

Definition raise {A} (e : Exn) : M A := fun _ => Raise e.

(** [changes.append(c)] *)
Definition append (c : Change) : M unit :=
  fun s => Ok (tt, mkSt (changes s ++ [c]) (new_dev s)).

Notation "x <- m ;; k" := (bind m (fun x => k))
  (at level 61, m at next level, right associativity).
Notation "m ;;; k" := (bind m (fun _ => k))
  (at level 61, right associativity).

(** ** The element tree *)

(** An lxml element: tag, attributes in authored order, text, children.
    Tail text, comments and processing instructions are left out: no
    statement of [optimize_xml] reads or writes them. *)
#[local] Unset Elimination Schemes.
Inductive Node : Type :=
| Element (tag : string) (attrib : list (string * string))
          (text : option string) (children : list Node).
#[local] Set Elimination Schemes.

Definition tag (n : Node) : string :=
  match n with Element t _ _ _ => t end.
Definition attrib (n : Node) : list (string * string) :=
  match n with Element _ a _ _ => a end.
Definition text (n : Node) : option string :=
  match n with Element _ _ x _ => x end.
Definition children (n : Node) : list Node :=
  match n with Element _ _ _ cs => cs end.

Definition with_attrib (n : Node) (a : list (string * string)) : Node :=
  Element (tag n) a (text n) (children n).
Definition with_children (n : Node) (cs : list Node) : Node :=
  Element (tag n) (attrib n) (text n) cs.

(** *** Attributes: [elem.get(k)], [elem.get(k, default)], [elem.set(k, v)] *)

Fixpoint lookup (k : string) (a : list (string * string)) : option string :=
  match a with
  | [] => None
  | (k', v) :: a' => if String.eqb k' k then Some v else lookup k a'
  end.

(** An existing key keeps its position, a new key goes last. *)
Fixpoint update (k v : string) (a : list (string * string))
  : list (string * string) :=
  match a with
  | [] => [(k, v)]
  | (k', v') :: a' =>
      if String.eqb k' k then (k, v) :: a' else (k', v') :: update k v a'
  end.

Definition get_opt (n : Node) (k : string) : option string :=
  lookup k (attrib n).

Definition get (n : Node) (k default : string) : string :=
  match get_opt n k with Some v => v | None => default end.

Definition set_attr (n : Node) (k v : string) : Node :=
  with_attrib n (update k v (attrib n)).

(** *** Children: [elem.find(tag)], [etree.SubElement], [addnext], [append] *)

(** Index and value of the first child with the given tag. *)
Fixpoint find_from (i : nat) (t : string) (cs : list Node)
  : option (nat * Node) :=
  match cs with
  | [] => None
  | c :: cs' =>
      if String.eqb (tag c) t then Some (i, c) else find_from (S i) t cs'
  end.

Definition find (n : Node) (t : string) : option (nat * Node) :=
  find_from 0 t (children n).

Fixpoint replace_nth (i : nat) (x : Node) (cs : list Node) : list Node :=
  match cs, i with
  | [], _ => []
  | _ :: cs', O => x :: cs'
  | c :: cs', S i' => c :: replace_nth i' x cs'
  end.

(** Writing through a child reference: the child at index [i] becomes [c]. *)
Definition put_child (n : Node) (i : nat) (c : Node) : Node :=
  with_children n (replace_nth i c (children n)).

(** [etree.SubElement(parent, t)]: a new empty last child; the result is
    the parent together with the index of the new child. *)
Definition SubElement (parent : Node) (t : string) : Node * nat :=
  (with_children parent (children parent ++ [Element t [] None []]),
   length (children parent)).

(** [root.append(c)] *)
Definition append_child (n c : Node) : Node :=
  with_children n (children n ++ [c]).

Fixpoint insert_at (i : nat) (x : Node) (cs : list Node) : list Node :=
  match i, cs with
  | O, _ => x :: cs
  | S i', c :: cs' => c :: insert_at i' x cs'
  | S _, [] => [x]
  end.

(** [child_i.addnext(c)] seen from the parent: [c] becomes the sibling
    right after the child at index [i]. *)
Definition addnext (parent : Node) (i : nat) (c : Node) : Node :=
  with_children parent (insert_at (S i) c (children parent)).

(** *** References into the tree *)

Definition path : Type := list nat.

Fixpoint get_at (n : Node) (p : path) : option Node :=
  match p with
  | [] => Some n
  | i :: p' =>
      match nth_error (children n) i with
      | Some c => get_at c p'
      | None => None
      end
  end.

Fixpoint set_at (n : Node) (p : path) (x : Node) : Node :=
  match p with
  | [] => x
  | i :: p' =>
      match nth_error (children n) i with
      | Some c => put_child n i (set_at c p' x)
      | None => n
      end
  end.

(** [root.xpath("//t[...]")]: the references to every element of the
    document that satisfies [sel], in document order. *)
Fixpoint xpath (sel : Node -> bool) (n : Node) : list path :=
  match n with
  | Element _ _ _ cs =>
      (if sel n then [[]] else [])
      ++ (fix go (i : nat) (l : list Node) : list path :=
            match l with
            | [] => []
            | c :: l' => map (cons i) (xpath sel c) ++ go (S i) l'
            end) 0 cs
  end.

Fixpoint xpath_from (sel : Node -> bool) (i : nat) (l : list Node)
  : list path :=
  match l with
  | [] => []
  | c :: l' => map (cons i) (xpath sel c) ++ xpath_from sel (S i) l'
  end.

(** [for x in refs: body(x)]: each reference is read in the tree as the
    earlier iterations left it, and the body's mutations are written back
    at the same place. *)
Fixpoint for_each (body : Node -> M Node) (refs : list path) (root : Node)
  : M Node :=
  match refs with
  | [] => ret root
  | p :: refs' =>
      match get_at root p with
      | None => raise StaleReference
      | Some x =>
          x' <- body x ;;
          for_each body refs' (set_at root p x')
      end
  end.

(** ** Python built-ins used by the rules *)

Definition mem (x : string) (l : list string) : bool :=
  existsb (String.eqb x) l.

(** [re.sub(r'^[hs]d', 'vd', s)] *)
Definition re_sub_hs_d (s : string) : string :=
  match s with
  | String c (String "d" rest) =>
      if (Ascii.eqb c "h" || Ascii.eqb c "s")%bool
      then String "v" (String "d" rest)
      else s
  | _ => s
  end.

(** [str(n)] for an integer. *)
Definition str (n : Z) : string := NilZero.string_of_int (Z.to_int n).

(** *** Text as Python sees it

    A [string] holds the UTF-8 encoding of a Python [str].  [code_points]
    lists the characters of the [str], each with the bytes that encode it.
    A byte that opens no well-formed sequence (no [str] encodes to one)
    stands alone, as [no_char]. *)
Definition continuation (c : ascii) : option N :=
  let b := N_of_ascii c in
  if ((128 <=? b) && (b <=? 191))%N then Some (b - 128)%N else None.

Definition no_char : N := 1114112%N.

Fixpoint code_points (s : string) : list (N * string) :=
  match s with
  | EmptyString => []
  | String c1 s1 =>
      let b1 := N_of_ascii c1 in
      let alone :=
        (if (b1 <? 128)%N then b1 else no_char, String c1 EmptyString) in
      match s1 with
      | String c2 s2 =>
          match continuation c2 with
          | Some x2 =>
              if ((194 <=? b1) && (b1 <=? 223))%N
              then ((b1 - 192) * 64 + x2,
                    String c1 (String c2 EmptyString))%N
                   :: code_points s2
              else
                match s2 with
                | String c3 s3 =>
                    match continuation c3 with
                    | Some x3 =>
                        if ((224 <=? b1) && (b1 <=? 239))%N
                        then (((b1 - 224) * 64 + x2) * 64 + x3,
                              String c1 (String c2 (String c3 EmptyString)))%N
                             :: code_points s3
                        else
                          match s3 with
                          | String c4 s4 =>
                              match continuation c4 with
                              | Some x4 =>
                                  if ((240 <=? b1) && (b1 <=? 244))%N
                                  then ((((b1 - 240) * 64 + x2) * 64 + x3) * 64
                                        + x4,
                                        String c1
                                          (String c2
                                             (String c3
                                                (String c4 EmptyString))))%N
                                       :: code_points s4
                                  else alone :: code_points s1
                              | None => alone :: code_points s1
                              end
                          | EmptyString => alone :: code_points s1
                          end
                    | None => alone :: code_points s1
                    end
                | EmptyString => alone :: code_points s1
                end
          | None => alone :: code_points s1
          end
      | EmptyString => [alone]
      end
  end.

(** [c.isspace()]: the characters [str.strip()] drops. *)
Definition isspace (cp : N) : bool :=
  ((9 <=? cp) && (cp <=? 13) || (28 <=? cp) && (cp <=? 32)
   || (cp =? 133) || (cp =? 160) || (cp =? 5760)
   || (8192 <=? cp) && (cp <=? 8202)
   || (cp =? 8232) || (cp =? 8233) || (cp =? 8239) || (cp =? 8287)
   || (cp =? 12288))%N.

(** The white space [int()] allows around a number: that of [isspace]
    without the four separators U+001C to U+001F. *)
Definition int_space (cp : N) : bool :=
  (isspace cp && negb ((28 <=? cp) && (cp <=? 31)))%N.

(** The digit zero of every decimal script of Unicode 14.0 (CPython
    3.11); the digits one to nine follow each of them. *)
Definition decimal_zeros : list N :=
  [48; 1632; 1776; 1984; 2406; 2534; 2662; 2790; 2918; 3046; 3174; 3302;
   3430; 3558; 3664; 3792; 3872; 4160; 4240; 6112; 6160; 6470; 6608; 6784;
   6800; 6992; 7088; 7232; 7248; 42528; 43216; 43264; 43472; 43504; 43600;
   44016; 65296; 66720; 68912; 69734; 69872; 69942; 70096; 70384; 70736;
   70864; 71248; 71360; 71472; 71904; 72016; 72784; 73040; 73120; 92768;
   92864; 93008; 120782; 120792; 120802; 120812; 120822; 123200; 123632;
   125264; 130032]%N.

(** The value of a decimal digit of any script. *)
Definition digit_of (cp : N) : option Z :=
  match List.find (fun z => ((z <=? cp) && (cp <=? z + 9))%N) decimal_zeros
  with
  | Some z => Some (Z.of_N (cp - z))
  | None => None
  end.

(** Digits after at least one digit has been read: [acc] is their value
    and [count] their number.  An underscore stands between two digits;
    after the digits only white space may follow. *)
Fixpoint digits_rest (acc : Z) (count : nat) (l : list N)
  : option (Z * nat) :=
  match l with
  | [] => Some (acc, count)
  | cp :: l' =>
      match digit_of cp with
      | Some d => digits_rest (10 * acc + d)%Z (S count) l'
      | None =>
          if (cp =? 95)%N then
            match l' with
            | cp' :: l'' =>
                match digit_of cp' with
                | Some d => digits_rest (10 * acc + d)%Z (S count) l''
                | None => None
                end
            | [] => None
            end
          else if forallb int_space l then Some (acc, count) else None
      end
  end.

(** [sys.get_int_max_str_digits()], as the interpreter starts. *)
Definition int_max_str_digits : nat := 4300.

Definition digits (l : list N) : option Z :=
  match l with
  | cp :: l' =>
      match digit_of cp with
      | Some d =>
          match digits_rest d 1 l' with
          | Some (n, count) =>
              if (count <=? int_max_str_digits)%nat then Some n else None
          | None => None
          end
      | None => None
      end
  | [] => None
  end.

Fixpoint drop_while {A} (f : A -> bool) (l : list A) : list A :=
  match l with
  | a :: l' => if f a then drop_while f l' else l
  | [] => []
  end.

(** [int(s)]: white space is dropped on both sides, one sign is allowed,
    then come decimal digits of any script, single underscores allowed
    between them, at most [int_max_str_digits] digits.  [None] stands for
    [ValueError]. *)
Definition int (s : string) : option Z :=
  match drop_while int_space (map fst (code_points s)) with
  | 45%N :: l => option_map Z.opp (digits l)
  | 43%N :: l => digits l
  | l => digits l
  end.

(** An f-string: the pieces joined. *)
Definition fstr (pieces : list string) : string := String.concat EmptyString pieces.

(** Truth value of a string in [if s:]. *)
Definition truthy (s : string) : bool :=
  match s with EmptyString => false | _ => true end.

(** [int(s)] as a step of the function. *)
Definition int_or_raise (s : string) : M Z :=
  match int s with
  | Some n => ret n
  | None => raise ValueError
  end.

(** Assignment to, and use of, the local [new_dev]. *)
Definition bind_new_dev (v : string) : M unit :=
  fun s => Ok (tt, mkSt (changes s) (Some v)).

Definition read_new_dev : M string :=
  fun s => match new_dev s with
           | Some v => Ok (v, s)
           | None => Raise UnboundLocalError
           end.

(** ** The five sections of [optimize_xml] *)

(** *** Disk optimization (lines 157-190) *)

(** [//disk[@device='disk']] *)
Definition disk_sel (n : Node) : bool :=
  (String.eqb (tag n) "disk"
   && match get_opt n "device" with
      | Some v => String.eqb v "disk"
      | None => false
      end)%bool.

Definition disk_body (disk : Node) : M Node :=
  let target := find disk "target" in
  let driver := find disk "driver" in
  disk <- match target with
          | Some (i, target) =>
              let old_bus := get target "bus" "unknown" in
              if mem old_bus ["ide"; "sata"; "scsi"] then
                let target := set_attr target "bus" "virtio" in
                let old_dev := get target "dev" EmptyString in
                target <- (if truthy old_dev then
                             let nd := re_sub_hs_d old_dev in
                             bind_new_dev nd ;;;
                             ret (set_attr target "dev" nd)
                           else ret target) ;;
                nd <- read_new_dev ;;
                append ("disk_bus",
                        fstr [old_bus; " ("; old_dev; ")"],
                        fstr ["virtio ("; nd; ")"]) ;;;
                ret (put_child disk i target)
              else ret disk
          | None => ret disk
          end ;;
  match driver with
  | Some (j, driver) =>
      let old_cache := get driver "cache" "default" in
      let old_discard := get driver "discard" "none" in
      let old_io := get driver "io" "default" in
      let needs_change :=
        (negb (String.eqb old_cache "writeback")
         || negb (String.eqb old_discard "unmap")
         || negb (String.eqb old_io "threads"))%bool in
      if needs_change then
        let driver := set_attr driver "cache" "writeback" in
        let driver := set_attr driver "discard" "unmap" in
        let driver := set_attr driver "io" "threads" in
        append ("disk_cache",
                fstr ["cache="; old_cache; ", discard="; old_discard;
                      ", io="; old_io],
                "cache=writeback, discard=unmap, io=threads") ;;;
        ret (put_child disk j driver)
      else ret disk
  | None => ret disk
  end.

(** *** NIC optimization (lines 192-199) *)

Definition nic_sel (n : Node) : bool := String.eqb (tag n) "interface".

Definition nic_body (iface : Node) : M Node :=
  match find iface "model" with
  | Some (i, model) =>
      let old_type := get model "type" "unknown" in
      if mem old_type ["rtl8139"; "e1000"; "e1000e"] then
        let model := set_attr model "type" "virtio" in
        append ("nic_model", old_type, "virtio") ;;;
        ret (put_child iface i model)
      else ret iface
  | None => ret iface
  end.

(** *** Video optimization (lines 201-220) *)

Definition video_sel (n : Node) : bool := String.eqb (tag n) "video".

Definition video_body (video : Node) : M Node :=
  match find video "model" with
  | Some (i, model) =>
      let old_type := get model "type" "unknown" in
      if mem old_type ["qxl"; "vga"; "cirrus"] then
        let model := set_attr model "type" "virtio" in
        let model := set_attr model "heads" "1" in
        let model := set_attr model "primary" "yes" in
        let '(model, k, accel) :=
          match find model "acceleration" with
          | Some (k, accel) => (model, k, accel)
          | None =>
              let '(model, k) := SubElement model "acceleration" in
              (model, k, Element "acceleration" [] None [])
          end in
        let old_accel := get accel "accel3d" "no" in
        let accel := set_attr accel "accel3d" "yes" in
        let model := put_child model k accel in
        append ("video_model", old_type, "virtio") ;;;
        (if negb (String.eqb old_accel "yes") then
           append ("video_accel", fstr ["accel3d="; old_accel], "accel3d=yes")
         else ret tt) ;;;
        ret (put_child video i model)
      else ret video
  | None => ret video
  end.

(** *** SPICE GL optimization (lines 222-233) *)

(** [//graphics[@type='spice']] *)
Definition spice_sel (n : Node) : bool :=
  (String.eqb (tag n) "graphics"
   && match get_opt n "type" with
      | Some v => String.eqb v "spice"
      | None => false
      end)%bool.

Definition spice_body (graphics : Node) : M Node :=
  let '(graphics, k, gl) :=
    match find graphics "gl" with
    | Some (k, gl) => (graphics, k, gl)
    | None =>
        let '(graphics, k) := SubElement graphics "gl" in
        (graphics, k, Element "gl" [] None [])
    end in
  let old_enable := get gl "enable" "no" in
  if negb (String.eqb old_enable "yes") then
    let gl := set_attr gl "enable" "yes" in
    let gl := match get_opt gl "rendernode" with
              | None => set_attr gl "rendernode" "/dev/dri/renderD128"
              | Some _ => gl
              end in
    append ("spice_gl", fstr ["enable="; old_enable], "enable=yes") ;;;
    ret (put_child graphics k gl)
  else ret graphics.

(** *** CPU optimization (lines 235-278) *)

(** The five [topology.set(...)] calls. *)
Definition set_topology (topology : Node) (vcpu_count : Z) : Node :=
  let topology := set_attr topology "sockets" "1" in
  let topology := set_attr topology "dies" "1" in
  let topology := set_attr topology "clusters" "1" in
  let topology := set_attr topology "cores" (str vcpu_count) in
  set_attr topology "threads" "1".

Definition topology_note (vcpu_count : Z) : string :=
  fstr ["1 socket × "; str vcpu_count; " cores × 1 thread"].

(** [s or "1"] for an optional string. *)
Definition or_1 (s : option string) : string :=
  match s with
  | Some t => if truthy t then t else "1"
  | None => "1"
  end.

Definition cpu_section (root : Node) : M Node :=
  match find root "cpu" with
  | Some (i, cpu) =>
      let old_mode := get cpu "mode" "custom" in
      cpu <- (if negb (String.eqb old_mode "host-passthrough") then
                let cpu := set_attr cpu "mode" "host-passthrough" in
                let cpu := set_attr cpu "check" "none" in
                let cpu := set_attr cpu "migratable" "on" in
                append ("cpu_mode", old_mode, "host-passthrough") ;;;
                ret cpu
              else ret cpu) ;;
      match find root "vcpu" with
      | Some (_, vcpu_elem) =>
          vcpu_count <- int_or_raise (or_1 (text vcpu_elem)) ;;
          match find cpu "topology" with
          | None =>
              let '(cpu, k) := SubElement cpu "topology" in
              let topology :=
                set_topology (Element "topology" [] None []) vcpu_count in
              let cpu := put_child cpu k topology in
              append ("cpu_topology", "none", topology_note vcpu_count) ;;;
              ret (put_child root i cpu)
          | Some _ => ret (put_child root i cpu)
          end
      | None => ret (put_child root i cpu)
      end
  | None =>
      let vcpu_elem := find root "vcpu" in
      vcpu_count <- match vcpu_elem with
                    | Some (_, v) =>
                        match text v with
                        | Some t => int_or_raise t
                        | None => raise TypeError
                        end
                    | None => ret 1%Z
                    end ;;
      let cpu := Element "cpu" [("mode", "host-passthrough"); ("check", "none");
                                ("migratable", "on")] None [] in
      let '(cpu, k) := SubElement cpu "topology" in
      let topology :=
        set_topology (Element "topology" [] None []) vcpu_count in
      let cpu := put_child cpu k topology in
      let root := match vcpu_elem with
                  | Some (j, _) => addnext root j cpu
                  | None => append_child root cpu
                  end in
      append ("cpu_mode", "default", "host-passthrough") ;;;
      append ("cpu_topology", "none", topology_note vcpu_count) ;;;
      ret root
  end.

(** ** The function *)

(** Lines 157-278, on the parsed tree. *)
Definition apply_rules (root : Node) : M Node :=
  root <- for_each disk_body (xpath disk_sel root) root ;;
  root <- for_each nic_body (xpath nic_sel root) root ;;
  root <- for_each video_body (xpath video_sel root) root ;;
  root <- for_each spice_body (xpath spice_sel root) root ;;
  cpu_section root.

(** The engine of the specification, [transform(Document)]: the rules run
    on the tree with [changes = []] and [new_dev] unbound. *)
Definition transform (root : Node) : Res (Node * list Change) :=
  match apply_rules root (mkSt [] None) with
  | Ok (root', s) => Ok (root', changes s)
  | Raise e => Raise e
  end.

Section Text.

(** lxml's parser and serializer: [etree.fromstring(text.encode())], with
    [None] for [XMLSyntaxError], and
    [etree.tostring(root, encoding='unicode', pretty_print=True)]. *)
Variable fromstring : string -> option Node.
Variable tostring : Node -> string.

Definition dquote : string := String (ascii_of_nat 34) EmptyString.
Definition newline : string := String (ascii_of_nat 10) EmptyString.

Definition xml_declaration : string :=
  fstr ["<?xml version="; dquote; "1.0"; dquote;
        " encoding="; dquote; "UTF-8"; dquote; "?>"; newline].

Definition optimize_xml (xml_str : string) : Res (string * list Change) :=
  match fromstring xml_str with
  | None => Raise ParseError
  | Some root =>
      match transform root with
      | Ok (root', chs) =>
          let optimized := tostring root' in
          let optimized :=
            if String.prefix "<?xml" optimized then optimized
            else String.append xml_declaration optimized in
          Ok (optimized, chs)
      | Raise e => Raise e
      end
  end.

End Text.

(** * Vocabulary of the statements *)

(** What an element shows of itself: everything but its children. *)
Definition head (n : Node) : string * list (string * string) * option string :=
  (tag n, attrib n, text n).

(** ** When a rule has nothing to do on an element *)

(** The condition of line 164 on a disk. *)
Definition bus_pending (disk : Node) : bool :=
  match find disk "target" with
  | Some (_, target) => mem (get target "bus" "unknown") ["ide"; "sata"; "scsi"]
  | None => false
  end.

(** [needs_change] of line 180 on a disk. *)
Definition cache_pending (disk : Node) : bool :=
  match find disk "driver" with
  | Some (_, driver) =>
      (negb (String.eqb (get driver "cache" "default") "writeback")
       || negb (String.eqb (get driver "discard" "none") "unmap")
       || negb (String.eqb (get driver "io" "default") "threads"))%bool
  | None => false
  end.

Definition disk_done (disk : Node) : bool :=
  (negb (bus_pending disk) && negb (cache_pending disk))%bool.

(** The condition of line 197 on an interface. *)
Definition nic_pending (iface : Node) : bool :=
  match find iface "model" with
  | Some (_, model) =>
      mem (get model "type" "unknown") ["rtl8139"; "e1000"; "e1000e"]
  | None => false
  end.

Definition nic_done (iface : Node) : bool := negb (nic_pending iface).

(** The condition of line 206 on a video element. *)
Definition video_pending (video : Node) : bool :=
  match find video "model" with
  | Some (_, model) => mem (get model "type" "unknown") ["qxl"; "vga"; "cirrus"]
  | None => false
  end.

Definition video_done (video : Node) : bool := negb (video_pending video).

(** The 3D-acceleration flag of a video element's model, as line 215 reads
    it: ["no"] when the sub-element or the attribute is absent. *)
Definition accel_flag (video : Node) : string :=
  match find video "model" with
  | Some (_, model) =>
      match find model "acceleration" with
      | Some (_, accel) => get accel "accel3d" "no"
      | None => "no"
      end
  | None => "no"
  end.

(** A SPICE graphics element needs nothing when it has a [gl] child with
    [enable="yes"] (line 229). *)
Definition spice_done (graphics : Node) : bool :=
  match find graphics "gl" with
  | Some (_, gl) => String.eqb (get gl "enable" "no") "yes"
  | None => false
  end.

(** The CPU section needs nothing: a [cpu] child in host-passthrough mode
    and, when there is a [vcpu] child, a readable count and a [topology]. *)
Definition cpu_done (root : Node) : bool :=
  match find root "cpu" with
  | Some (_, cpu) =>
      (String.eqb (get cpu "mode" "custom") "host-passthrough"
       && match find root "vcpu" with
          | Some (_, vcpu_elem) =>
              match int (or_1 (text vcpu_elem)), find cpu "topology" with
              | Some _, Some _ => true
              | _, _ => false
              end
          | None => true
          end)%bool
  | None => false
  end.

(** The elements selected by [sel] on which [done] fails, in document
    order. *)
Definition pending (sel done : Node -> bool) (root : Node) : list path :=
  filter (fun p => match get_at root p with
                   | Some n => negb (done n)
                   | None => false
                   end)
         (xpath sel root).

(** No device loop has anything to do. *)
Definition devices_done (root : Node) : Prop :=
  pending disk_sel disk_done root = [] /\
  pending nic_sel nic_done root = [] /\
  pending video_sel video_done root = [] /\
  pending spice_sel spice_done root = [].

(** The document is in the target state of every rule. *)
Definition optimized (root : Node) : Prop :=
  devices_done root /\ cpu_done root = true.

(** Every element selected by [sel], anywhere in the tree, satisfies
    [done]. *)
Definition settled (sel done : Node -> bool) (root : Node) : Prop :=
  forall p n, get_at root p = Some n -> sel n = true -> done n = true.

(** The [cpu] element the CPU section builds for a given vcpu count
    (lines 263-269). *)
Definition new_cpu (vcpu_count : Z) : Node :=
  Element "cpu"
    [("mode", "host-passthrough"); ("check", "none"); ("migratable", "on")]
    None
    [Element "topology"
       [("sockets", "1"); ("dies", "1"); ("clusters", "1");
        ("cores", str vcpu_count); ("threads", "1")]
       None []].

(** ** What a loop body may change *)

(** A new child as [SubElement] leaves it: a tag in [T], no children. *)
Definition fresh (T : string -> bool) (e : Node) : Prop :=
  T (tag e) = true /\ children e = [].

(** [tweak T c c']: [c'] is [c] after mutations confined to elements whose
    tag is in [T]: such an element may get attribute values set and
    attributes added, and new last children with tags in [T]; every other
    element is left as it is. *)
#[local] Unset Elimination Schemes.
Inductive tweak (T : string -> bool) : Node -> Node -> Prop :=
| tweak_same n : tweak T n n
| tweak_node t a a' x cs cs' extra :
    T t = true ->
    incl (map fst a) (map fst a') ->
    Forall2 (tweak T) cs cs' ->
    Forall (fresh T) extra ->
    tweak T (Element t a x cs) (Element t a' x (cs' ++ extra)).
#[local] Set Elimination Schemes.

Definition kids (T : string -> bool) (cs cs'' : list Node) : Prop :=
  exists cs' extra,
    cs'' = cs' ++ extra /\ Forall2 (tweak T) cs cs' /\ Forall (fresh T) extra.

(** The effect of a loop body on the element it is applied to: the element
    itself keeps tag, attributes and text; below it, mutations are confined
    to tags in [T]. *)
Definition body_frame (T : string -> bool) (n n' : Node) : Prop :=
  head n' = head n /\ kids T (children n) (children n').

(** A property of an element that only looks at its tag, attributes and
    text. *)
Definition head_only {A} (f : Node -> A) : Prop :=
  forall n n', head n = head n' -> f n = f n'.

(** A property of an element that only looks at tag, attributes and text of
    the element and of its children. *)
Definition shallow {A} (f : Node -> A) : Prop :=
  forall n n',
    head n = head n' ->
    Forall2 (fun c c' => head c = head c') (children n) (children n') ->
    f n = f n'.

(** A property of an element that looks at tag, attributes and text of the
    element and of its children, and, for the children whose tag is in [S],
    of their children too. *)
Definition shallow_in {A} (S : string -> bool) (f : Node -> A) : Prop :=
  forall n n',
    head n = head n' ->
    Forall2 (fun c c' =>
               head c = head c' /\
               (S (tag c) = true ->
                Forall2 (fun d d' => head d = head d')
                        (children c) (children c')))
            (children n) (children n') ->
    f n = f n'.

Definition no_tag (t : string) : bool := false.

(** The references of a loop lead to elements whose tag is not in [S]. *)
Definition refs_ok (S : string -> bool) (root : Node) (refs : list path)
  : Prop :=
  forall p, In p refs -> exists n, get_at root p = Some n /\ S (tag n) = false.

(** The tags the device loops write to. *)
Definition T_disk (t : string) : bool := mem t ["target"; "driver"].
Definition T_nic (t : string) : bool := mem t ["model"].
Definition T_video (t : string) : bool := mem t ["model"; "acceleration"].
Definition T_spice (t : string) : bool := mem t ["gl"].

(** ** The CPU section in closed form *)

Definition T_cpu (t : string) : bool := mem t ["cpu"; "topology"].

(** Lines 240-242. *)
Definition cpu_mode_set (cpu : Node) : Node :=
  set_attr (set_attr (set_attr cpu "mode" "host-passthrough") "check" "none")
           "migratable" "on".

(** The [topology] element of lines 251-256 and 264-269. *)
Definition topology_elem (vcpu_count : Z) : Node :=
  Element "topology"
    [("sockets", "1"); ("dies", "1"); ("clusters", "1");
     ("cores", str vcpu_count); ("threads", "1")]
    None [].

(** [changes.append] of each record of [l], in order. *)
Definition add_changes (s : St) (l : list Change) : St :=
  mkSt (changes s ++ l) (new_dev s).

(** [root] with [c] as a new child at index [k]. *)
Definition insert_child (root : Node) (k : nat) (c : Node) : Node :=
  with_children root
    (firstn k (children root) ++ c :: skipn k (children root)).

(** ** The record keys a document calls for *)

(** Keys recorded for one disk (lines 164-190): the bus record, then the
    cache record. *)
Definition disk_keys (disk : Node) : list string :=
  (if bus_pending disk then ["disk_bus"] else [])
  ++ (if cache_pending disk then ["disk_cache"] else []).

Definition nic_keys (iface : Node) : list string :=
  if nic_pending iface then ["nic_model"] else [].

(** Keys recorded for one video element (lines 206-220): the acceleration
    record only together with, and right after, the model record. *)
Definition video_keys (video : Node) : list string :=
  if video_pending video
  then "video_model"
       :: (if String.eqb (accel_flag video) "yes" then [] else ["video_accel"])
  else [].

Definition spice_keys (graphics : Node) : list string :=
  if spice_done graphics then [] else ["spice_gl"].

(** Keys recorded by the CPU section. *)
Definition cpu_keys (root : Node) : list string :=
  match find root "cpu" with
  | Some (_, cpu) =>
      (if String.eqb (get cpu "mode" "custom") "host-passthrough"
       then [] else ["cpu_mode"])
      ++ match find root "vcpu", find cpu "topology" with
         | Some _, None => ["cpu_topology"]
         | _, _ => []
         end
  | None => ["cpu_mode"; "cpu_topology"]
  end.

Definition keys_at (keys_of : Node -> list string) (root : Node) (p : path)
  : list string :=
  match get_at root p with Some n => keys_of n | None => [] end.

(** The keys called for by the elements selected by [sel], in document
    order. *)
Definition scan (sel : Node -> bool) (keys_of : Node -> list string)
    (root : Node) : list string :=
  flat_map (keys_at keys_of root) (xpath sel root).

(** The keys a read-only pass over the input document gives: section by
    section, and within a section element by element in document order. *)
Definition expected_keys (root : Node) : list string :=
  scan disk_sel disk_keys root
  ++ scan nic_sel nic_keys root
  ++ scan video_sel video_keys root
  ++ scan spice_sel spice_keys root
  ++ cpu_keys root.

Definition S_model (t : string) : bool := String.eqb t "model".
Definition S_cpu (t : string) : bool := String.eqb t "cpu".

(** ** Nothing is deleted *)

(** [embeds n n']: [n'] has the tag and text of [n], every attribute name
    of [n], and among its children, in the same order, a child embedding
    each child of [n]. *)
Inductive embeds : Node -> Node -> Prop :=
| embeds_node t a a' x cs cs' :
    incl (map fst a) (map fst a') -> embeds_list cs cs' ->
    embeds (Element t a x cs) (Element t a' x cs')
with embeds_list : list Node -> list Node -> Prop :=
| embeds_nil : embeds_list [] []
| embeds_cons c c' cs cs' :
    embeds c c' -> embeds_list cs cs' -> embeds_list (c :: cs) (c' :: cs')
| embeds_new c' cs cs' : embeds_list cs cs' -> embeds_list cs (c' :: cs').

(** ** Sample documents *)

(** A small domain: four vcpus, no [cpu] element, one IDE disk with a
    driver. *)
Definition sample_domain : Node :=
  Element "domain" [("type", "kvm")] None
    [Element "name" [] (Some "vm") [];
     Element "vcpu" [] (Some "4") [];
     Element "devices" [] None
       [Element "disk" [("type", "file"); ("device", "disk")] None
          [Element "driver" [("name", "qemu"); ("type", "qcow2")] None [];
           Element "target" [("dev", "hda"); ("bus", "ide")] None []]]].

Definition sample_domain_optimized : Node :=
  Element "domain" [("type", "kvm")] None
    [Element "name" [] (Some "vm") [];
     Element "vcpu" [] (Some "4") [];
     new_cpu 4;
     Element "devices" [] None
       [Element "disk" [("type", "file"); ("device", "disk")] None
          [Element "driver"
             [("name", "qemu"); ("type", "qcow2"); ("cache", "writeback");
              ("discard", "unmap"); ("io", "threads")] None [];
           Element "target" [("dev", "vda"); ("bus", "virtio")] None []]]].

Definition sample_domain_changes : list Change :=
  [("disk_bus", "ide (hda)", "virtio (vda)");
   ("disk_cache", "cache=default, discard=none, io=default",
    "cache=writeback, discard=unmap, io=threads");
   ("cpu_mode", "default", "host-passthrough");
   ("cpu_topology", "none", "1 socket × 4 cores × 1 thread")].

(** Two IDE disks, each with a driver that needs the cache settings; the
    [cpu] element is already in its target state. *)
Definition two_ide_disks : Node :=
  Element "domain" [] None
    [Element "cpu" [("mode", "host-passthrough")] None [];
     Element "devices" [] None
       [Element "disk" [("device", "disk")] None
          [Element "driver" [("name", "qemu")] None [];
           Element "target" [("dev", "hda"); ("bus", "ide")] None []];
        Element "disk" [("device", "disk")] None
          [Element "driver" [("name", "qemu")] None [];
           Element "target" [("dev", "hdb"); ("bus", "ide")] None []]]].

(** The position of a rule key in the rule table of the specification. *)
Definition rule_rank (k : string) : nat :=
  if String.eqb k "disk_bus" then 0
  else if String.eqb k "disk_cache" then 1
  else if String.eqb k "nic_model" then 2
  else if String.eqb k "video_model" then 3
  else if String.eqb k "video_accel" then 4
  else if String.eqb k "spice_gl" then 5
  else if String.eqb k "cpu_mode" then 6
  else 7.

Fixpoint nondecreasing (l : list nat) : bool :=
  match l with
  | a :: (b :: _) as l' => (Nat.leb a b && nondecreasing l')%bool
  | _ => true
  end.

(** "Ordered by rule": every record of an earlier rule comes before every
    record of a later rule. *)
Definition ordered_by_rule (chs : list Change) : bool :=
  nondecreasing (map (fun c => rule_rank (key c)) chs).

(** An IDE disk whose target has no [dev] attribute. *)
Definition ide_disk_without_dev : Node :=
  Element "domain" [] None
    [Element "devices" [] None
       [Element "disk" [("type", "file"); ("device", "disk")] None
          [Element "target" [("bus", "ide")] None []]]].

(** A disk whose target has no [bus] attribute at all. *)
Definition disk_without_bus : Node :=
  Element "domain" [] None
    [Element "cpu" [("mode", "host-passthrough")] None [];
     Element "devices" [] None
       [Element "disk" [("type", "file"); ("device", "disk")] None
          [Element "target" [("dev", "hda")] None []]]].

(** A domain in the target state of every rule except for one IDE disk. *)
Definition ide_disk_only : Node :=
  Element "domain" [] None
    [Element "vcpu" [] (Some "2") [];
     Element "cpu" [("mode", "host-passthrough")] None
       [Element "topology" [("cores", "2")] None []];
     Element "devices" [] None
       [Element "disk" [("type", "file"); ("device", "disk")] None
          [Element "target" [("dev", "hda"); ("bus", "ide")] None []];
        Element "interface" [("type", "user")] None
          [Element "model" [("type", "virtio")] None []]]].

(** A domain whose devices need nothing, with four vcpus and no [cpu]. *)
Definition four_vcpus_no_cpu : Node :=
  Element "domain" [] None
    [Element "name" [] (Some "vm") [];
     Element "vcpu" [("placement", "static")] (Some "4") [];
     Element "devices" [] None []].

(** A domain with neither [vcpu] nor [cpu]. *)
Definition no_vcpu_no_cpu : Node :=
  Element "domain" [] None [Element "devices" [] None []].

(** A stand-in for lxml in the examples: a parser that knows one document
    and a serializer that writes the root tag only. *)
Definition sample_fromstring (s : string) : option Node :=
  if String.eqb s "<domain/>" then Some (Element "domain" [] None [])
  else None.

Definition sample_tostring (n : Node) : string :=
  fstr ["<"; tag n; "/>"].


(** A QXL video element without an acceleration sub-element. *)
Definition qxl_video : Node :=
  Element "video" [] None [Element "model" [("type", "qxl")] None []].

(** A [cpu] element without topology next to an unreadable vcpu count. *)
Definition vcpu_not_a_number : Node :=
  Element "domain" [] None
    [Element "vcpu" [] (Some "four") [];
     Element "cpu" [("mode", "host-passthrough")] None []].

(** The same with a count of zero. *)
Definition vcpu_zero : Node :=
  Element "domain" [] None
    [Element "vcpu" [] (Some "0") [];
     Element "cpu" [("mode", "host-passthrough")] None []].

(** An empty [vcpu] element next to a [cpu] element without topology. *)
Definition vcpu_empty_with_cpu : Node :=
  Element "domain" [] None
    [Element "vcpu" [] None [];
     Element "cpu" [("mode", "host-passthrough")] None []].

(** An empty [vcpu] element and no [cpu] element. *)
Definition vcpu_empty_no_cpu : Node :=
  Element "domain" [] None [Element "vcpu" [] None []].

(** * What a run reports, read off the input document *)

(** What is left of a step of the function when the element it returns is
    dropped: the locals, or the exception. *)
Definition state_of {A} (r : Res (A * St)) : Res St :=
  match r with
  | Ok (_, s) => Ok s
  | Raise e => Raise e
  end.

(** A loop body applied to each element of a list in turn, for what it
    records and binds only: the elements it returns are dropped. *)
Fixpoint effects (body : Node -> M Node) (ns : list Node) (s : St) : Res St :=
  match ns with
  | [] => Ok s
  | n :: ns' =>
      match body n s with
      | Ok (_, s') => effects body ns' s'
      | Raise e => Raise e
      end
  end.

(** The elements of a document, in document order. *)
Fixpoint elements (n : Node) : list Node :=
  match n with
  | Element _ _ _ cs => n :: flat_map elements cs
  end.

(** The elements a selector matches, in document order. *)
Definition selected (sel : Node -> bool) (root : Node) : list Node :=
  filter sel (elements root).

(** The elements a list of references leads to. *)
Definition nodes_at (root : Node) (refs : list path) : list Node :=
  flat_map (fun p => match get_at root p with
                     | Some n => [n]
                     | None => []
                     end) refs.

Definition and_then {A B} (r : Res A) (k : A -> Res B) : Res B :=
  match r with
  | Ok a => k a
  | Raise e => Raise e
  end.

(** The five sections as a pass over the input document that writes
    nothing: each body sees the elements as the input has them. *)
Definition report_from (root : Node) (s : St) : Res St :=
  and_then (effects disk_body (selected disk_sel root) s) (fun s =>
  and_then (effects nic_body (selected nic_sel root) s) (fun s =>
  and_then (effects video_body (selected video_sel root) s) (fun s =>
  and_then (effects spice_body (selected spice_sel root) s) (fun s =>
  state_of (cpu_section root s))))).

Definition report (root : Node) : Res (list Change) :=
  and_then (report_from root (mkSt [] None)) (fun s => Ok (changes s)).

(** The records of a run, or the exception that ended it. *)
Definition records (r : Res (Node * list Change)) : Res (list Change) :=
  and_then r (fun x => Ok (snd x)).

(** What a body looks at: the attributes of the first child with a given
    tag. *)
Definition child_attrib (n : Node) (t : string)
  : option (list (string * string)) :=
  match find n t with
  | Some (_, c) => Some (attrib c)
  | None => None
  end.

Definition disk_view (disk : Node) :=
  (child_attrib disk "target", child_attrib disk "driver").

Definition nic_view (iface : Node) := child_attrib iface "model".

Definition video_view (video : Node) :=
  match find video "model" with
  | Some (_, model) => Some (attrib model, child_attrib model "acceleration")
  | None => None
  end.

Definition spice_view (graphics : Node) := child_attrib graphics "gl".

(** What the CPU section looks at: the attributes of the [cpu] child and
    whether it has a [topology], and the text of the [vcpu] child. *)
Definition cpu_view (root : Node) :=
  (match find root "cpu" with
   | Some (_, cpu) =>
       Some (attrib cpu,
             match find cpu "topology" with Some _ => true | None => false end)
   | None => None
   end,
   match find root "vcpu" with
   | Some (_, vcpu_elem) => Some (text vcpu_elem)
   | None => None
   end).

(** ** When a run fails *)

(** The [dev] attribute of a disk's target, as line 168 reads it. *)
Definition target_dev (disk : Node) : string :=
  match find disk "target" with
  | Some (_, target) => get target "dev" EmptyString
  | None => EmptyString
  end.

(** Line 172 reads [new_dev] before any iteration has bound it: the first
    disk whose bus is converted has no (or an empty) [dev]. *)
Fixpoint unbound_read (disks : list Node) : bool :=
  match disks with
  | [] => false
  | disk :: disks' =>
      if bus_pending disk then negb (truthy (target_dev disk))
      else unbound_read disks'
  end.

(** The exception of [int(...)] at lines 248 and 261. *)
Definition vcpu_error (root : Node) : option Exn :=
  match find root "vcpu" with
  | Some (_, vcpu_elem) =>
      match find root "cpu" with
      | Some _ =>
          match int (or_1 (text vcpu_elem)) with
          | Some _ => None
          | None => Some ValueError
          end
      | None =>
          match text vcpu_elem with
          | Some t =>
              match int t with
              | Some _ => None
              | None => Some ValueError
              end
          | None => Some TypeError
          end
      end
  | None => None
  end.

Definition failure (root : Node) : option Exn :=
  if unbound_read (selected disk_sel root) then Some UnboundLocalError
  else vcpu_error root.

(** * The device rules, element by element *)

(** Attribute [k] of the first child with tag [t], if both exist. *)
Definition child_get (n : Node) (t k : string) : option string :=
  match find n t with
  | Some (_, c) => get_opt c k
  | None => None
  end.

Definition or_default (o : option string) (default : string) : string :=
  match o with
  | Some v => v
  | None => default
  end.

(** ** Disks (lines 158-190) *)

(** The record of line 172, for a given value of [new_dev]. *)
Definition bus_record_as (new_dev : string) (disk : Node) : Change :=
  ("disk_bus",
   fstr [or_default (child_get disk "target" "bus") "unknown"; " (";
         target_dev disk; ")"],
   fstr ["virtio ("; new_dev; ")"]).

(** The record of line 172 when [dev] is present. *)
Definition bus_record (disk : Node) : Change :=
  bus_record_as (re_sub_hs_d (target_dev disk)) disk.

(** The record of lines 188-190. *)
Definition cache_record (disk : Node) : Change :=
  ("disk_cache",
   fstr ["cache="; or_default (child_get disk "driver" "cache") "default";
         ", discard="; or_default (child_get disk "driver" "discard") "none";
         ", io="; or_default (child_get disk "driver" "io") "default"],
   "cache=writeback, discard=unmap, io=threads").

Definition disk_records (disk : Node) : list Change :=
  (if bus_pending disk then [bus_record disk] else [])
  ++ (if cache_pending disk then [cache_record disk] else []).

(** What the disk body leaves of a disk: neither rule has anything left to
    do; on the target only [bus] and [dev] may have changed, on the driver
    only [cache], [discard] and [io]. *)
Definition disk_after (disk disk' : Node) : Prop :=
  bus_pending disk' = false /\ cache_pending disk' = false /\
  (forall k,
      child_get disk' "target" k
      = if bus_pending disk then
          if String.eqb "bus" k then Some "virtio"
          else if (String.eqb "dev" k && truthy (target_dev disk))%bool
               then Some (re_sub_hs_d (target_dev disk))
               else child_get disk "target" k
        else child_get disk "target" k) /\
  (forall k,
      child_get disk' "driver" k
      = if cache_pending disk then
          if String.eqb "cache" k then Some "writeback"
          else if String.eqb "discard" k then Some "unmap"
          else if String.eqb "io" k then Some "threads"
          else child_get disk "driver" k
        else child_get disk "driver" k).

(** ** Interfaces (lines 193-199) *)

Definition nic_records (iface : Node) : list Change :=
  if nic_pending iface
  then [("nic_model",
         or_default (child_get iface "model" "type") "unknown", "virtio")]
  else [].

Definition nic_after (iface iface' : Node) : Prop :=
  nic_pending iface' = false /\
  forall k,
    child_get iface' "model" k
    = if (nic_pending iface && String.eqb "type" k)%bool then Some "virtio"
      else child_get iface "model" k.

(** ** SPICE graphics (lines 223-233) *)

Definition spice_records (graphics : Node) : list Change :=
  if spice_done graphics then []
  else [("spice_gl",
         fstr ["enable=";
               or_default (child_get graphics "gl" "enable") "no"],
         "enable=yes")].

Definition spice_after (graphics graphics' : Node) : Prop :=
  spice_done graphics' = true /\
  forall k,
    child_get graphics' "gl" k
    = if spice_done graphics then child_get graphics "gl" k
      else if String.eqb "enable" k then Some "yes"
      else if String.eqb "rendernode" k
           then Some (or_default (child_get graphics "gl" "rendernode")
                                 "/dev/dri/renderD128")
           else child_get graphics "gl" k.

(** Every disk whose bus is converted has a [dev] to rename. *)
Definition devs_present (disks : list Node) : Prop :=
  forall disk, In disk disks ->
    bus_pending disk = true -> truthy (target_dev disk) = true.

(** ** Video (lines 202-220) *)

(** Attribute [k] of the first [t2] child of the first [t1] child. *)
Definition grandchild_get (n : Node) (t1 t2 k : string) : option string :=
  match find n t1 with
  | Some (_, c) => child_get c t2 k
  | None => None
  end.

Definition video_records (video : Node) : list Change :=
  if video_pending video
  then ("video_model",
        or_default (child_get video "model" "type") "unknown", "virtio")
       :: (if String.eqb (accel_flag video) "yes" then []
           else [("video_accel", fstr ["accel3d="; accel_flag video],
                  "accel3d=yes")])
  else [].

(** What the video body leaves of a video element: the rule's condition is
    false; on a converted model [type], [heads] and [primary] are virtio,
    1 and yes and the other attributes are as they were; its
    [acceleration] child is there with [accel3d="yes"] and its other
    attributes as they were; an element that is not converted keeps
    both. *)
Definition video_after (video video' : Node) : Prop :=
  video_pending video' = false /\
  (forall k,
      child_get video' "model" k
      = if video_pending video then
          if String.eqb "primary" k then Some "yes"
          else if String.eqb "heads" k then Some "1"
          else if String.eqb "type" k then Some "virtio"
          else child_get video "model" k
        else child_get video "model" k) /\
  (forall k,
      grandchild_get video' "model" "acceleration" k
      = if (video_pending video && String.eqb "accel3d" k)%bool
        then Some "yes"
        else grandchild_get video "model" "acceleration" k).

(** ** The records of a run, read off the input document *)

(** The records of the disk section for the disks in document order:
    each disk gives its [disk_bus] record, then its [disk_cache] record.
    [new_dev] is the device name bound so far (line 170), which line 172
    uses for a converted disk without [dev]; a run that reads it unbound
    fails and returns no records. *)
Fixpoint disk_report (new_dev : option string) (disks : list Node)
  : list Change :=
  match disks with
  | [] => []
  | disk :: disks' =>
      let new_dev' :=
        if (bus_pending disk && truthy (target_dev disk))%bool
        then Some (re_sub_hs_d (target_dev disk)) else new_dev in
      (if bus_pending disk
       then [bus_record_as (or_default new_dev' EmptyString) disk] else [])
      ++ (if cache_pending disk then [cache_record disk] else [])
      ++ disk_report new_dev' disks'
  end.

Definition or_default_Z (o : option Z) : Z :=
  match o with
  | Some n => n
  | None => 1%Z
  end.

(** The vcpu count of lines 248 and 261, where [int] reads it (a run in
    which it does not fails and returns no records). *)
Definition vcpu_count (root : Node) : Z :=
  match find root "vcpu" with
  | Some (_, vcpu_elem) =>
      match find root "cpu" with
      | Some _ => or_default_Z (int (or_1 (text vcpu_elem)))
      | None =>
          match text vcpu_elem with
          | Some t => or_default_Z (int t)
          | None => 1%Z
          end
      end
  | None => 1%Z
  end.

(** The records of the CPU section. *)
Definition cpu_records (root : Node) : list Change :=
  match find root "cpu" with
  | Some (_, cpu) =>
      (if String.eqb (get cpu "mode" "custom") "host-passthrough" then []
       else [("cpu_mode", get cpu "mode" "custom", "host-passthrough")])
      ++ match find root "vcpu", find cpu "topology" with
         | Some _, None =>
             [("cpu_topology", "none", topology_note (vcpu_count root))]
         | _, _ => []
         end
  | None =>
      [("cpu_mode", "default", "host-passthrough");
       ("cpu_topology", "none", topology_note (vcpu_count root))]
  end.

(** ** The place of the [vcpu] child *)

(** Index, tag, attributes and text of the first [vcpu] child. *)
Definition vcpu_place (root : Node)
  : option (nat * (string * list (string * string) * option string)) :=
  match find root "vcpu" with
  | Some (j, vcpu_elem) => Some (j, head vcpu_elem)
  | None => None
  end.

(** * What a run leaves alone *)

(** The tags of the elements the rules write to or create. *)
Definition T_rules (t : string) : bool :=
  mem t ["target"; "driver"; "model"; "acceleration"; "gl"; "cpu";
         "topology"].

(** [confined T n n']: [n'] is [n] after changes confined to [T].  Every
    element keeps its tag and text, an element whose tag is not in [T]
    keeps its attributes, the children stay in their order, and a child
    that was not there before consists of elements with tags in [T]. *)
Inductive confined (T : string -> bool) : Node -> Node -> Prop :=
| confined_node t a a' x cs cs' :
    (T t = false -> a' = a) -> confined_list T cs cs' ->
    confined T (Element t a x cs) (Element t a' x cs')
with confined_list (T : string -> bool) : list Node -> list Node -> Prop :=
| confined_nil : confined_list T [] []
| confined_cons c c' cs cs' :
    confined T c c' -> confined_list T cs cs' ->
    confined_list T (c :: cs) (c' :: cs')
| confined_new c' cs cs' :
    Forall (fun e => T (tag e) = true) (elements c') ->
    confined_list T cs cs' -> confined_list T cs (c' :: cs').

(** ** More sample elements *)

Definition rtl_iface : Node :=
  Element "interface" [("type", "user")] None
    [Element "model" [("type", "rtl8139")] None []].

Definition virtio_iface : Node :=
  Element "interface" [("type", "user")] None
    [Element "model" [("type", "virtio")] None []].

(** A SPICE display with a [gl] child that is off and names a render
    node. *)
Definition spice_gl_off : Node :=
  Element "graphics" [("type", "spice")] None
    [Element "gl" [("enable", "no"); ("rendernode", "/dev/dri/renderD129")]
       None []].

(** A SPICE display whose [gl] child is on and names no render node. *)
Definition spice_gl_on : Node :=
  Element "graphics" [("type", "spice")] None
    [Element "gl" [("enable", "yes")] None []].

(** A network card and a display, next to a [cpu] in its target state. *)
Definition net_and_display : Node :=
  Element "domain" [] None
    [Element "cpu" [("mode", "host-passthrough")] None [];
     Element "devices" [] None [rtl_iface; spice_gl_off]].

Definition sata_disk : Node :=
  Element "disk" [("type", "file"); ("device", "disk")] None
    [Element "driver" [("name", "qemu"); ("cache", "none")] None [];
     Element "target" [("dev", "sda"); ("bus", "sata")] None []].

Definition sata_disk_without_dev : Node :=
  Element "disk" [("type", "file"); ("device", "disk")] None
    [Element "target" [("bus", "sata")] None []].

(** * The command line around [optimize_xml] *)

From Stdlib Require Import Sorted Permutation.

(** ** More Python built-ins *)

(** [s.strip()]: the white space of [isspace] is dropped on both sides. *)
Definition strip (s : string) : string :=
  let space := fun x : N * string => isspace (fst x) in
  String.concat EmptyString
    (map snd
       (rev (drop_while space (rev (drop_while space (code_points s)))))).

(** [s * n] *)
Fixpoint times (s : string) (n : nat) : string :=
  match n with
  | O => EmptyString
  | S n' => String.append s (times s n')
  end.

(** [str(n)] for a length. *)
Definition str_nat (n : nat) : string := str (Z.of_nat n).

(** The format [{i:2}]: right-aligned in two columns. *)
Definition rjust2 (s : string) : string :=
  if Nat.ltb (String.length s) 2 then String.append " " s else s.

Definition byte (n : nat) : string := String (ascii_of_nat n) EmptyString.

(** [s.splitlines(keepends=True)] on UTF-8 text: a line ends after
    [\n], [\r], [\r\n], [\v], [\f], [\x1c], [\x1d], [\x1e], and after
    U+0085, U+2028 and U+2029 (the bytes C2 85, E2 80 A8 and E2 80 A9);
    [acc] is the line read so far. *)
Definition is_line_break (c : ascii) : bool :=
  let n := nat_of_ascii c in
  (Nat.eqb n 10 || Nat.eqb n 11 || Nat.eqb n 12 || Nat.eqb n 13
   || Nat.eqb n 28 || Nat.eqb n 29 || Nat.eqb n 30)%bool.

Fixpoint splitlines_acc (acc s : string) : list string :=
  match s with
  | EmptyString => if truthy acc then [acc] else []
  | String c s' =>
      let line := String.append acc (String c EmptyString) in
      let n := nat_of_ascii c in
      if Nat.eqb n 13 then
        match s' with
        | String c' s'' =>
            if Nat.eqb (nat_of_ascii c') 10
            then String.append line (String c' EmptyString)
                 :: splitlines_acc EmptyString s''
            else line :: splitlines_acc EmptyString s'
        | EmptyString => [line]
        end
      else if is_line_break c then line :: splitlines_acc EmptyString s'
      else if Nat.eqb n 194 then
        match s' with
        | String c' s'' =>
            if Nat.eqb (nat_of_ascii c') 133
            then String.append line (String c' EmptyString)
                 :: splitlines_acc EmptyString s''
            else splitlines_acc line s'
        | EmptyString => splitlines_acc line s'
        end
      else if Nat.eqb n 226 then
        match s' with
        | String c1 (String c2 s3) =>
            if (Nat.eqb (nat_of_ascii c1) 128
                && (Nat.eqb (nat_of_ascii c2) 168
                    || Nat.eqb (nat_of_ascii c2) 169))%bool
            then String.append line (String c1 (String c2 EmptyString))
                 :: splitlines_acc EmptyString s3
            else splitlines_acc line s'
        | _ => splitlines_acc line s'
        end
      else splitlines_acc line s'
  end.

Definition splitlines (s : string) : list string :=
  splitlines_acc EmptyString s.

(** [d.get(k)] on a dictionary written as a list of items. *)
Fixpoint dict_get {V} (d : list (string * V)) (k : string) : option V :=
  match d with
  | [] => None
  | (k', v) :: d' => if String.eqb k' k then Some v else dict_get d' k
  end.

(** [sorted(l, key=key)]: the stable sort, by insertion from the right. *)
Fixpoint insert_sorted {A} (key : A -> string) (x : A) (l : list A)
  : list A :=
  match l with
  | [] => [x]
  | y :: l' =>
      if String.ltb (key y) (key x) then y :: insert_sorted key x l'
      else x :: l
  end.

Definition sorted {A} (key : A -> string) (l : list A) : list A :=
  fold_right (insert_sorted key) [] l.

(** The order of the keys: [key(a) <= key(b)]. *)
Definition key_le {A} (key : A -> string) (a b : A) : Prop :=
  String.leb (key a) (key b) = true.

(** ** The table of optimizations (lines 36-69) *)

Record Optimization : Type := mkOptimization {
  desc : string;
  detail : string
}.

Definition OPTIMIZATIONS : list (string * Optimization) :=
  [("disk_bus",
    mkOptimization "Disk bus: IDE/SATA → VirtIO"
      "VirtIO disk provides ~3x throughput, lower CPU overhead, TRIM support");
   ("disk_cache",
    mkOptimization "Disk cache: → writeback + discard=unmap + io=threads"
      "Improves write performance and enables SSD TRIM passthrough");
   ("nic_model",
    mkOptimization "NIC model: rtl8139/e1000 → VirtIO"
      "VirtIO NIC provides ~10x throughput, lower latency");
   ("video_model",
    mkOptimization "Video: QXL/VGA → VirtIO-GPU"
      "Better Wayland support, enables 3D acceleration");
   ("video_accel",
    mkOptimization "3D acceleration: Enable"
      "Hardware-accelerated graphics via host GPU");
   ("spice_gl",
    mkOptimization "SPICE GL: Enable with rendernode"
      "GPU passthrough for display, reduces CPU usage");
   ("cpu_mode",
    mkOptimization "CPU mode: → host-passthrough"
      "Exposes full host CPU features to guest");
   ("cpu_topology",
    mkOptimization "CPU topology: Add cores/threads layout"
      "Helps guest scheduler optimize thread placement")].

(** ** The terminal, libvirt and the process *)

(** What [input()] finds on standard input; an exhausted input raises
    [EOFError]. *)
Inductive Input : Type :=
| Line (s : string)
| EOFError
| KeyboardInterrupt.

(** What the process does to the outside, in order. *)
Inductive Event : Type :=
| Print (s : string)
| PrintErr (s : string)
| Prompt (s : string)
| LibvirtOpen (uri : string)
| DefineXML (xml : string)
| ConnClose.

(** A domain object of libvirt-python, as the script uses it:
    [dom.name()]; [dom.isActive()] and [dom.XMLDesc(0)], which give their
    result or raise [libvirtError] with a message.  The script calls each
    method of a domain object at most once. *)
Record Domain : Type := mkDomain {
  dom_name : string;
  dom_isActive : bool + string;
  dom_XMLDesc : string + string
}.

(** A connection.  [conn.listAllDomains()], [conn.defineXML(xml)] and
    [conn.close()] give their result or raise [libvirtError]; a run calls
    each of them at most once.  [conn.lookupByName(name)] is called twice in
    a run (lines 142 and 352), and libvirt may answer differently the second
    time: its answer depends on what the process has done so far. *)
Record virConnect : Type := mkConnect {
  listAllDomains : list Domain + string;
  lookupByName : list Event -> string -> Domain + string;
  defineXML : string -> option string;
  close : option string
}.

(** What [libvirt.open(uri)] does. *)
Inductive Opened : Type :=
| Connected (conn : virConnect)
| OpenedNone
| OpenError (message : string).

Record Proc : Type := mkProc {
  stdin : list Input;
  events : list Event
}.

(** How a step ends when it does not return: [sys.exit(code)], an
    exception of [optimize_xml], or a [libvirtError], that nothing
    catches. *)
Inductive Stop : Type :=
| SysExit (code : Z)
| Uncaught (e : Exn)
| LibvirtError (message : string).

Definition IO (A : Type) : Type := Proc -> (A + Stop) * Proc.

Definition io_ret {A} (a : A) : IO A := fun p => (inl a, p).

Definition io_bind {A B} (m : IO A) (k : A -> IO B) : IO B :=
  fun p => match m p with
           | (inl a, p') => k a p'
           | (inr e, p') => (inr e, p')
           end.

Notation "x <~ m ;; k" := (io_bind m (fun x => k))
  (at level 61, m at next level, right associativity).
Notation "m ~~ k" := (io_bind m (fun _ => k))
  (at level 61, right associativity).

Definition emit (l : list Event) : IO unit :=
  fun p => (inl tt, mkProc (stdin p) (events p ++ l)).

Definition print (s : string) : IO unit := emit [Print s].
Definition print_err (s : string) : IO unit := emit [PrintErr s].

Definition sys_exit {A} (code : Z) : IO A := fun p => (inr (SysExit code), p).

Definition uncaught {A} (e : Exn) : IO A := fun p => (inr (Uncaught e), p).

Definition libvirt_error {A} (message : string) : IO A :=
  fun p => (inr (LibvirtError message), p).

(** [input(prompt)] *)
Definition input (prompt : string) : IO Input :=
  fun p => match stdin p with
           | [] => (inl EOFError, mkProc [] (events p ++ [Prompt prompt]))
           | i :: rest => (inl i, mkProc rest (events p ++ [Prompt prompt]))
           end.

Definition esc : string := byte 27.

(** The parsed command line. *)
Record Args : Type := mkArgs {
  uri : string;
  vm : option string;
  dry_run : bool;
  yes : bool
}.

(** What [parser.parse_args()] does with the command line: it returns the
    arguments, or it prints (the help on standard output, a usage error on
    standard error) and calls [sys.exit]. *)
Inductive Parsed : Type :=
| Namespace (args : Args)
| ParserExit (out err : list string) (code : Z).

Section CommandLine.

(** The two flags that the imports of lines 19-29 set. *)
Variable HAS_LIBVIRT : bool.
Variable HAS_LXML : bool.

(** What the script takes from libraries: [libvirt.open], lxml's parser
    and serializer, [difflib]'s [unified_diff(a, b, fromfile='original',
    tofile='optimized', lineterm='')] as a list, [str.lower], and the
    parser that lines 373-390 build. *)
Variable libvirt_open : string -> Opened.
Variable fromstring : string -> option Node.
Variable tostring : Node -> string.
Variable unified_diff : list string -> list string -> list string.
Variable str_lower : string -> string.
Variable parse_args : list string -> Parsed.

(** ** [check_dependencies] (lines 72-84) *)

Definition check_dependencies : IO unit :=
  let missing :=
    (if negb HAS_LIBVIRT
     then ["libvirt-python (dnf install python3-libvirt)"] else [])
    ++ (if negb HAS_LXML
        then ["lxml (pip install lxml --break-system-packages)"] else []) in
  match missing with
  | [] => io_ret tt
  | _ =>
      print_err "Missing dependencies:" ~~
      emit (map (fun dep => PrintErr (fstr ["  - "; dep])) missing) ~~
      sys_exit 1
  end.

(** ** [connect_libvirt] (lines 87-97) *)

Definition connect_libvirt (uri : string) : IO virConnect :=
  emit [LibvirtOpen uri] ~~
  match libvirt_open uri with
  | Connected conn => io_ret conn
  | OpenedNone =>
      print_err (fstr ["Failed to connect to "; uri]) ~~ sys_exit 1
  | OpenError e =>
      print_err (fstr ["Connection error: "; e]) ~~ sys_exit 1
  end.

(** ** [list_vms] (lines 100-107) *)

(** The loop of lines 103-106: it stops at the first domain whose
    [isActive()] raises. *)
Fixpoint read_domains (doms : list Domain) : list (string * bool) + string :=
  match doms with
  | [] => inl []
  | dom :: doms' =>
      match dom_isActive dom with
      | inl running =>
          match read_domains doms' with
          | inl vms => inl ((dom_name dom, running) :: vms)
          | inr e => inr e
          end
      | inr e => inr e
      end
  end.

Definition list_vms (conn : virConnect) : IO (list (string * bool)) :=
  match listAllDomains conn with
  | inl doms =>
      match read_domains doms with
      | inl vms => io_ret (sorted (fun x => str_lower (fst x)) vms)
      | inr e => libvirt_error e
      end
  | inr e => libvirt_error e
  end.

(** ** [select_vm] (lines 110-136) *)

Definition select_prompt : string :=
  fstr [newline; "Select VM number (or 'q' to quit): "].

(** The [while True] loop of lines 123-136, on what standard input has
    left: the answer, the input left over and what was printed. *)
Fixpoint select_loop (vms : list (string * bool)) (input_left : list Input)
  : option string * list Input * list Event :=
  match input_left with
  | [] => (None, [], [Prompt select_prompt; Print EmptyString])
  | Line l :: rest =>
      let choice := strip l in
      if String.eqb (str_lower choice) "q"
      then (None, rest, [Prompt select_prompt])
      else
        match int choice with
        | Some n =>
            let idx := (n - 1)%Z in
            if (Z.leb 0 idx && Z.ltb idx (Z.of_nat (length vms)))%bool
            then (option_map fst (nth_error vms (Z.to_nat idx)), rest,
                  [Prompt select_prompt])
            else
              let '(r, rest', ev) := select_loop vms rest in
              (r, rest',
               Prompt select_prompt
               :: Print (fstr ["Please enter 1-"; str_nat (length vms)])
               :: ev)
        | None =>
            let '(r, rest', ev) := select_loop vms rest in
            (r, rest', Prompt select_prompt :: Print "Invalid input" :: ev)
        end
  | _ :: rest => (None, rest, [Prompt select_prompt; Print EmptyString])
  end.

(** The line of the listing for the [i]-th VM. *)
Definition vm_line (i : nat) (vm : string * bool) : string :=
  let '(name, running) := vm in
  let status := if running then "🟢 running" else "⚪ stopped" in
  fstr ["  "; rjust2 (str_nat i); ". "; name; " ("; status; ")"].

(** [enumerate(vms, i)] *)
Fixpoint enumerate {A} (i : nat) (l : list A) : list (nat * A) :=
  match l with
  | [] => []
  | x :: l' => (i, x) :: enumerate (S i) l'
  end.

Definition select_vm (vms : list (string * bool)) : IO (option string) :=
  match vms with
  | [] => print_err "No VMs found." ~~ io_ret None
  | _ =>
      print (fstr [newline; "Available VMs:"]) ~~
      print (times "-" 40) ~~
      emit (map (fun iv => Print (vm_line (fst iv) (snd iv)))
                (enumerate 1 vms)) ~~
      print (times "-" 40) ~~
      fun p =>
        let '(r, rest, ev) := select_loop vms (stdin p) in
        (inl r, mkProc rest (events p ++ ev))
  end.

(** ** [get_vm_xml] (lines 139-146) *)

Definition get_vm_xml (conn : virConnect) (name : string) : IO string :=
  let failed e :=
    print_err (fstr ["Error getting VM config: "; e]) ~~ sys_exit 1 in
  fun p =>
    match lookupByName conn (events p) name with
    | inl dom =>
        match dom_XMLDesc dom with
        | inl xml => io_ret xml p
        | inr e => failed e p
        end
    | inr e => failed e p
    end.

(** ** [format_xml_for_diff] (lines 290-297) *)

Definition format_xml_for_diff (xml_str : string) : list string :=
  match fromstring xml_str with
  | Some root => splitlines (tostring root)
  | None => splitlines xml_str
  end.

(** ** [show_changes] (lines 300-346): what it prints, and its result *)

Definition colour (code line : string) : string :=
  fstr [esc; code; line; esc; "[0m"].

(** Lines 333-340. *)
Definition show_diff_line (line : string) : string :=
  if (String.prefix "+" line && negb (String.prefix "+++" line))%bool
  then colour "[32m" line
  else if (String.prefix "-" line && negb (String.prefix "---" line))%bool
  then colour "[31m" line
  else if String.prefix "@@" line then colour "[36m" line
  else line.

(** Lines 311-316. *)
Definition show_change (c : Change) : list string :=
  let '(key, old_val, new_val) := c in
  let opt := match dict_get OPTIMIZATIONS key with
             | Some o => o
             | None => mkOptimization key EmptyString
             end in
  [fstr [newline; "● "; desc opt];
   fstr ["  Before: "; old_val];
   fstr ["  After:  "; new_val]]
  ++ (if truthy (detail opt) then [fstr ["  → "; detail opt]] else []).

Definition show_changes (changes : list Change)
    (original_xml optimized_xml : string) : list string * bool :=
  match changes with
  | [] =>
      ([fstr [newline; "✓ VM is already optimized. No changes needed."]],
       false)
  | _ =>
      let orig_lines := format_xml_for_diff original_xml in
      let opt_lines := format_xml_for_diff optimized_xml in
      let diff := unified_diff orig_lines opt_lines in
      let diff_display := firstn 50 diff in
      ([fstr [newline; times "=" 60]; "PROPOSED OPTIMIZATIONS"; times "=" 60]
       ++ flat_map show_change changes
       ++ [fstr [newline; times "-" 60]; "XML DIFF (abbreviated)";
           times "-" 60]
       ++ map show_diff_line diff_display
       ++ (if Nat.ltb 50 (length diff)
           then [fstr [newline; "... ("; str_nat (length diff - 50);
                       " more lines)"]]
           else [])
       ++ [times "-" 60],
       true)
  end.

(** ** [apply_changes] (lines 349-369) *)

Definition apply_changes (conn : virConnect) (vm_name optimized_xml : string)
  : IO bool :=
  let failed e :=
    print_err (fstr [newline; "✗ Failed to apply changes: "; e]) ~~
    io_ret false in
  fun p =>
    match lookupByName conn (events p) vm_name with
    | inl dom =>
        match dom_isActive dom with
        | inl is_running =>
            ((if is_running
              then print (fstr [newline;
                                "⚠️  VM is running. Changes will apply on next boot."])
              else io_ret tt) ~~
             emit [DefineXML optimized_xml] ~~
             match defineXML conn optimized_xml with
             | None =>
                 print (fstr [newline; "✓ Configuration updated for '";
                              vm_name; "'"]) ~~
                 (if is_running
                  then print "  Restart the VM for changes to take effect."
                  else io_ret tt) ~~
                 io_ret true
             | Some e => failed e
             end) p
        | inr e => failed e p
        end
    | inr e => failed e p
    end.

(** ** [main] (lines 372-443) *)

(** [conn.close()] *)
Definition conn_close (conn : virConnect) : IO unit :=
  emit [ConnClose] ~~
  match close conn with
  | None => io_ret tt
  | Some e => libvirt_error e
  end.

(** Lines 409-443: the VM is chosen. *)
Definition optimize_vm (args : Args) (conn : virConnect) (vm_name : string)
  : IO Z :=
  print (fstr [newline; "Analyzing '"; vm_name; "'..."]) ~~
  original_xml <~ get_vm_xml conn vm_name ;;
  match optimize_xml fromstring tostring original_xml with
  | Raise e => uncaught e
  | Ok (optimized_xml, changes) =>
      let '(printed, has_changes) :=
        show_changes changes original_xml optimized_xml in
      emit (map Print printed) ~~
      if negb has_changes then conn_close conn ~~ io_ret 0%Z
      else if dry_run args then
        print (fstr [newline; "[Dry run - no changes applied]"]) ~~
        conn_close conn ~~ io_ret 0%Z
      else
        let apply :=
          success <~ apply_changes conn vm_name optimized_xml ;;
          conn_close conn ~~
          io_ret (if success then 0%Z else 1%Z) in
        if negb (yes args) then
          answer <~ input (fstr [newline; "Apply these changes? [y/N]: "]) ;;
          match answer with
          | Line l =>
              let confirm := str_lower (strip l) in
              if negb (mem confirm ["y"; "yes"])
              then print "Cancelled." ~~ conn_close conn ~~ io_ret 0%Z
              else apply
          | _ =>
              print (fstr [newline; "Cancelled."]) ~~
              conn_close conn ~~ io_ret 0%Z
          end
        else apply
  end.

(** Lines 403-407, then the rest. *)
Definition choose_vm (args : Args) (conn : virConnect) : IO Z :=
  vms <~ list_vms conn ;;
  selected <~ select_vm vms ;;
  match selected with
  | None => conn_close conn ~~ io_ret 0%Z
  | Some vm_name => optimize_vm args conn vm_name
  end.

Definition main (argv : list string) : IO Z :=
  match parse_args argv with
  | ParserExit out err code =>
      emit (map Print out ++ map PrintErr err) ~~ sys_exit code
  | Namespace args =>
      check_dependencies ~~
      print (fstr ["Connecting to "; uri args; "..."]) ~~
      conn <~ connect_libvirt (uri args) ;;
      match vm args with
      | Some name =>
          if truthy name then optimize_vm args conn name
          else choose_vm args conn
      | None => choose_vm args conn
      end
  end.

End CommandLine.

(** A domain on which every rule fires: an IDE disk with a driver, an
    rtl8139 network card, a QXL display, SPICE graphics, and no [cpu]. *)
Definition legacy_domain : Node :=
  Element "domain" [("type", "kvm")] None
    [Element "vcpu" [] (Some "2") [];
     Element "devices" [] None
       [Element "disk" [("type", "file"); ("device", "disk")] None
          [Element "driver" [("name", "qemu")] None [];
           Element "target" [("dev", "hda"); ("bus", "ide")] None []];
        rtl_iface;
        Element "graphics" [("type", "spice")] None [];
        qxl_video]].

(** The calls to libvirt among the events that change its state or the
    connection: what is left when the terminal output is dropped. *)
Definition is_call (e : Event) : bool :=
  match e with
  | LibvirtOpen _ | DefineXML _ | ConnClose => true
  | Print _ | PrintErr _ | Prompt _ => false
  end.

Definition calls (l : list Event) : list Event := filter is_call l.

(** The questions asked on the terminal among the events. *)
Definition is_prompt (e : Event) : bool :=
  match e with
  | Prompt _ => true
  | _ => false
  end.

Definition prompts (l : list Event) : list Event := filter is_prompt l.

(** Some line of the input says yes. *)
Definition confirmed (str_lower : string -> string)
    (input_left : list Input) : Prop :=
  exists l, In (Line l) input_left /\
            mem (str_lower (strip l)) ["y"; "yes"] = true.

(** The names of the domains a connection lists. *)
Definition listed (conn : virConnect) (name : string) : Prop :=
  exists doms, listAllDomains conn = inl doms /\ In name (map dom_name doms).

(** What lines 352 and 353 get when they run after the events [history]:
    the running state of the domain, or the message of the [libvirtError]
    of [lookupByName] or of [isActive()]. *)
Definition lookup_isActive (conn : virConnect) (history : list Event)
    (vm_name : string) : bool + string :=
  match lookupByName conn history vm_name with
  | inl dom => dom_isActive dom
  | inr e => inr e
  end.

(** ** Stand-ins for the libraries in the examples *)

(** [str.lower] on ASCII letters. *)
Definition lower_char (c : ascii) : ascii :=
  let n := nat_of_ascii c in
  if (Nat.leb 65 n && Nat.leb n 90)%bool then ascii_of_nat (n + 32) else c.

Fixpoint ascii_lower (s : string) : string :=
  match s with
  | EmptyString => EmptyString
  | String c s' => String (lower_char c) (ascii_lower s')
  end.

(** Three domains and a connection that lists them and always knows
    them. *)
Definition sample_domains : list Domain :=
  [mkDomain "web" (inl true) (inl "<domain/>");
   mkDomain "Build" (inl false) (inl "<domain/>");
   mkDomain "db" (inl false) (inr "no such domain")].

Fixpoint find_domain (name : string) (l : list Domain) : option Domain :=
  match l with
  | [] => None
  | dom :: l' =>
      if String.eqb (dom_name dom) name then Some dom
      else find_domain name l'
  end.

Definition sample_lookup (name : string) : Domain + string :=
  match find_domain name sample_domains with
  | Some dom => inl dom
  | None => inr "Domain not found"
  end.

Definition sample_conn : virConnect :=
  mkConnect (inl sample_domains) (fun _ => sample_lookup) (fun _ => None)
    None.

(** A connection that loses its domains once the changes have been
    shown: the lookup of line 142 succeeds, that of line 352 fails. *)
Definition shown (history : list Event) : bool :=
  existsb (fun e => match e with
                    | Print s => String.eqb s "PROPOSED OPTIMIZATIONS"
                    | _ => false
                    end) history.

Definition forgetful_conn : virConnect :=
  mkConnect (inl sample_domains)
    (fun history name =>
       if shown history then inr "Domain not found" else sample_lookup name)
    (fun _ => None) None.

(** A connection whose domain stops answering [isActive()]. *)
Definition unreachable_conn : virConnect :=
  mkConnect (inl sample_domains)
    (fun _ _ => inl (mkDomain "web" (inr "virDomainIsActive() failed")
                       (inl "<domain/>")))
    (fun _ => None) None.

(** A connection two of whose domains are gone when [list_vms] asks for
    their state. *)
Definition vanishing_conn : virConnect :=
  mkConnect
    (inl [mkDomain "web" (inl true) (inl "<domain/>");
          mkDomain "Build" (inr "Domain not found: Build") (inl "<domain/>");
          mkDomain "db" (inr "Domain not found: db") (inl "<domain/>")])
    (fun _ => sample_lookup) (fun _ => None) None.

(** A libvirt that knows three URIs. *)
Definition sample_open (uri : string) : Opened :=
  if String.eqb uri "qemu:///session" then Connected sample_conn
  else if String.eqb uri "qemu:///forgetful" then Connected forgetful_conn
  else if String.eqb uri "qemu:///unreachable"
       then Connected unreachable_conn
       else OpenedNone.

(** [unified_diff]: the two headers, then every line of the first text
    removed and every line of the second added. *)
Definition sample_unified_diff (a b : list string) : list string :=
  ["--- original"; "+++ optimized"]
  ++ map (String.append "-") a ++ map (String.append "+") b.

(** A parser of three command lines. *)
Definition sample_parse_args (argv : list string) : Parsed :=
  match argv with
  | ["--vm"; name; "--dry-run"] =>
      Namespace (mkArgs "qemu:///session" (Some name) true false)
  | ["--uri"; uri; "--vm"; name; "--yes"] =>
      Namespace (mkArgs uri (Some name) false true)
  | [] => Namespace (mkArgs "qemu:///session" None false false)
  | ["--help"] => ParserExit ["usage: vm-optimize.py [-h]"] [] 0
  | _ => ParserExit [] ["usage: vm-optimize.py [-h]"] 2
  end.

(** A parser of XML that knows two texts: the empty domain, and what
    [sample_tostring] and the declaration make of it once it has its
    [cpu] element. *)
Definition sample_fromstring_back (s : string) : option Node :=
  if String.eqb s "<domain/>" then Some (Element "domain" [] None [])
  else if String.eqb s (String.append xml_declaration "<domain/>")
       then Some (Element "domain" [] None [new_cpu 1])
       else None.

(** * Facts about the model *)

(** ** The monad *)

Lemma bind_ok A B (m : M A) (k : A -> M B) s b s' :
  bind m k s = Ok (b, s') ->
  exists a s1, m s = Ok (a, s1) /\ k a s1 = Ok (b, s').
Proof.
  unfold bind. destruct (m s) as [[a s1]|e]; [eauto | discriminate].
Qed.

Lemma bind_ret_l A B (a : A) (k : A -> M B) s : bind (ret a) k s = k a s.
Proof. reflexivity. Qed.

(** ** Trees *)

Lemma Node_ind (P : Node -> Prop) :
  (forall t a x cs, Forall P cs -> P (Element t a x cs)) ->
  forall n, P n.
Proof.
  intros H. fix IH 1. intros [t a x cs]. apply H.
  induction cs as [|c cs IHcs]; constructor; [apply IH | exact IHcs].
Qed.

Lemma with_children_id n : with_children n (children n) = n.
Proof. destruct n; reflexivity. Qed.

(** ** Writing through a child index *)

Lemma replace_nth_length i x cs : length (replace_nth i x cs) = length cs.
Proof.
  revert i; induction cs as [|c cs IH]; intros [|i]; simpl; auto.
Qed.

Lemma nth_error_replace_nth_eq i x cs c :
  nth_error cs i = Some c -> nth_error (replace_nth i x cs) i = Some x.
Proof.
  revert i; induction cs as [|c0 cs IH]; intros [|i]; simpl;
    try discriminate; auto.
Qed.

Lemma nth_error_replace_nth_neq i j x cs :
  i <> j -> nth_error (replace_nth i x cs) j = nth_error cs j.
Proof.
  revert i j; induction cs as [|c0 cs IH]; intros [|i] [|j] Hij; simpl;
    auto; congruence.
Qed.

Lemma replace_nth_same i cs c :
  nth_error cs i = Some c -> replace_nth i c cs = cs.
Proof.
  revert i; induction cs as [|c0 cs IH]; intros [|i]; simpl;
    try discriminate.
  - congruence.
  - intros H. f_equal. auto.
Qed.

Lemma replace_nth_app_last cs x y :
  replace_nth (length cs) x (cs ++ [y]) = cs ++ [x].
Proof. induction cs as [|c cs IH]; simpl; congruence. Qed.

Lemma put_child_same n i c :
  nth_error (children n) i = Some c -> put_child n i c = n.
Proof.
  intros H. unfold put_child. rewrite (replace_nth_same _ _ _ H).
  apply with_children_id.
Qed.

(** ** [find] *)

Lemma find_from_some i t cs k c :
  find_from i t cs = Some (k, c) ->
  exists j, k = i + j /\ nth_error cs j = Some c /\ tag c = t.
Proof.
  revert i; induction cs as [|c0 cs IH]; intros i; simpl; [discriminate|].
  destruct (String.eqb (tag c0) t) eqn:E.
  - intros [= <- <-]. exists 0. rewrite Nat.add_0_r.
    apply String.eqb_eq in E. auto.
  - intros H. destruct (IH _ H) as (j & -> & Hn & Ht).
    exists (S j). split; [lia | auto].
Qed.

Lemma find_some n t k c :
  find n t = Some (k, c) -> nth_error (children n) k = Some c /\ tag c = t.
Proof.
  intros H. destruct (find_from_some _ _ _ _ _ H) as (j & -> & Hn & Ht). auto.
Qed.

Lemma find_from_app_notag i t cs extra :
  Forall (fun e => tag e <> t) extra ->
  find_from i t (cs ++ extra) = find_from i t cs.
Proof.
  intros Hx. revert i; induction cs as [|c cs IH]; intros i; simpl.
  - induction Hx as [|e extra He _ IHx] in i |- *; simpl; auto.
    destruct (String.eqb_spec (tag e) t); [contradiction | auto].
  - destruct (String.eqb (tag c) t); auto.
Qed.

(** Two child lists with the same tags position by position find the same
    index, and the children found are related. *)
Lemma find_from_Forall2 (R : Node -> Node -> Prop) i t cs cs' :
  (forall c c', R c c' -> tag c = tag c') ->
  Forall2 R cs cs' ->
  match find_from i t cs, find_from i t cs' with
  | Some (k, c), Some (k', c') => k = k' /\ R c c'
  | None, None => True
  | _, _ => False
  end.
Proof.
  intros Htag H. revert i; induction H as [|c c' cs cs' Hc _ IH]; intros i;
    simpl; auto.
  rewrite <- (Htag _ _ Hc). destruct (String.eqb (tag c) t).
  - split; [reflexivity | assumption].
  - apply IH.
Qed.

(** ** References *)

Lemma set_at_get_id root p n : get_at root p = Some n -> set_at root p n = root.
Proof.
  revert root; induction p as [|i p IH]; intros root; simpl.
  - congruence.
  - destruct (nth_error (children root) i) as [c|] eqn:E; [|discriminate].
    intros H. rewrite (IH _ H). apply put_child_same; assumption.
Qed.

Lemma get_at_set_at_same root p n x :
  get_at root p = Some n -> get_at (set_at root p x) p = Some x.
Proof.
  revert root; induction p as [|i p IH]; intros root; simpl; auto.
  destruct (nth_error (children root) i) as [c|] eqn:E; [|discriminate].
  intros H. simpl. rewrite (nth_error_replace_nth_eq _ _ _ _ E). eauto.
Qed.

Lemma get_at_app n p q :
  get_at n (p ++ q) =
  match get_at n p with Some m => get_at m q | None => None end.
Proof.
  revert n; induction p as [|i p IH]; intros n; simpl; auto.
  destruct (nth_error (children n) i); auto.
Qed.

(** ** [xpath] *)

Lemma xpath_eq sel n :
  xpath sel n = (if sel n then [[]] else []) ++ xpath_from sel 0 (children n).
Proof.
  destruct n as [t a x cs]. simpl. f_equal.
  generalize 0. induction cs as [|c cs IH]; intros i; simpl; [auto|].
  now rewrite IH.
Qed.

Lemma in_xpath_from sel i cs p :
  In p (xpath_from sel i cs) <->
  exists j c p', p = (i + j) :: p' /\ nth_error cs j = Some c /\
                 In p' (xpath sel c).
Proof.
  revert i; induction cs as [|c0 cs IH]; intros i; simpl.
  - split; [tauto|]. intros (j & c & p' & _ & H & _). destruct j; discriminate.
  - rewrite in_app_iff, in_map_iff, IH. split.
    + intros [(p' & <- & Hp')|(j & c & p' & -> & Hn & Hp')].
      * exists 0, c0, p'. rewrite Nat.add_0_r. auto.
      * exists (S j), c, p'. split; [f_equal; lia | auto].
    + intros (j & c & p' & -> & Hn & Hp'). destruct j as [|j]; simpl in Hn.
      * injection Hn as ->. left. exists p'. rewrite Nat.add_0_r. auto.
      * right. exists j, c, p'. split; [f_equal; lia | auto].
Qed.

Lemma xpath_sound sel n p :
  In p (xpath sel n) -> exists m, get_at n p = Some m /\ sel m = true.
Proof.
  revert p; induction n as [t a x cs IH] using Node_ind; intros p.
  rewrite xpath_eq, in_app_iff, in_xpath_from. simpl children.
  intros [H|(j & c & p' & -> & Hn & Hp')].
  - destruct (sel (Element t a x cs)) eqn:E; simpl in H; [|tauto].
    destruct H as [<-|[]]. exists (Element t a x cs). auto.
  - simpl. rewrite Hn. rewrite Forall_forall in IH.
    apply (IH c); eauto using nth_error_In.
Qed.

Lemma xpath_complete sel n p m :
  get_at n p = Some m -> sel m = true -> In p (xpath sel n).
Proof.
  revert p; induction n as [t a x cs IH] using Node_ind; intros p.
  rewrite xpath_eq, in_app_iff, in_xpath_from. simpl children.
  destruct p as [|j p']; simpl.
  - intros [= <-] ->. left. now left.
  - destruct (nth_error cs j) as [c|] eqn:Hn; [|discriminate].
    intros Hg Hs. right. exists j, c, p'. rewrite Forall_forall in IH.
    eauto using nth_error_In.
Qed.

Lemma NoDup_map_cons (i : nat) (l : list path) :
  NoDup l -> NoDup (map (cons i) l).
Proof.
  induction 1 as [|p l Hp _ IH]; simpl; constructor; auto.
  rewrite in_map_iff. intros (q & [= ->] & Hq). contradiction.
Qed.

Lemma NoDup_xpath_from sel i cs :
  Forall (fun c => NoDup (xpath sel c)) cs -> NoDup (xpath_from sel i cs).
Proof.
  intros H. revert i; induction H as [|c cs Hc _ IH]; intros i; simpl.
  - constructor.
  - apply NoDup_app.
    + now apply NoDup_map_cons.
    + apply IH.
    + intros p Hp Hq. apply in_map_iff in Hp as (p' & <- & _).
      apply in_xpath_from in Hq as (j & c' & q' & [= Hj _] & _). lia.
Qed.

Lemma NoDup_xpath sel n : NoDup (xpath sel n).
Proof.
  induction n as [t a x cs IH] using Node_ind. rewrite xpath_eq.
  apply NoDup_app.
  - destruct (sel _); repeat constructor. simpl. tauto.
  - now apply NoDup_xpath_from.
  - intros p Hp Hq. apply in_xpath_from in Hq as (j & c & p' & Hj & _).
    subst p. destruct (sel _); simpl in Hp; intuition discriminate.
Qed.

(** ** Loops *)

(** A loop whose body leaves every referenced element and the state as they
    are leaves the tree and the state as they are. *)
Lemma for_each_quiet body refs root s :
  (forall p, In p refs ->
     exists x, get_at root p = Some x /\ body x s = Ok (x, s)) ->
  for_each body refs root s = Ok (root, s).
Proof.
  induction refs as [|p refs IH]; intros H; simpl; [reflexivity|].
  destruct (H p (or_introl eq_refl)) as (x & Hx & Hb). rewrite Hx.
  unfold bind. rewrite Hb. rewrite (set_at_get_id _ _ _ Hx).
  apply IH. intros q Hq. apply H. now right.
Qed.

(** ** A rule that has nothing to do does nothing *)

Lemma disk_body_done disk s :
  disk_done disk = true -> disk_body disk s = Ok (disk, s).
Proof.
  unfold disk_done, bus_pending, cache_pending, disk_body.
  intros H. apply andb_true_iff in H as [Hb Hc].
  apply negb_true_iff in Hb, Hc.
  destruct (find disk "target") as [[i target]|];
    [rewrite Hb|]; rewrite bind_ret_l;
    (destruct (find disk "driver") as [[j driver]|];
     [rewrite Hc|]; reflexivity).
Qed.

Lemma nic_body_done iface s :
  nic_done iface = true -> nic_body iface s = Ok (iface, s).
Proof.
  unfold nic_done, nic_pending, nic_body. intros H.
  apply negb_true_iff in H.
  destruct (find iface "model") as [[i model]|]; [rewrite H|]; reflexivity.
Qed.

Lemma video_body_done video s :
  video_done video = true -> video_body video s = Ok (video, s).
Proof.
  unfold video_done, video_pending, video_body. intros H.
  apply negb_true_iff in H.
  destruct (find video "model") as [[i model]|]; [rewrite H|]; reflexivity.
Qed.

Lemma spice_body_done graphics s :
  spice_done graphics = true -> spice_body graphics s = Ok (graphics, s).
Proof.
  unfold spice_done, spice_body.
  destruct (find graphics "gl") as [[k gl]|]; [|discriminate].
  intros H. rewrite H. reflexivity.
Qed.

Lemma cpu_section_done root s :
  cpu_done root = true -> cpu_section root s = Ok (root, s).
Proof.
  unfold cpu_done, cpu_section.
  destruct (find root "cpu") as [[i cpu]|] eqn:Hc; [|discriminate].
  intros H. apply andb_true_iff in H as [Hm Hv]. rewrite Hm.
  cbv beta iota delta [negb]. rewrite bind_ret_l. apply find_some in Hc as [Hc _].
  destruct (find root "vcpu") as [[j v]|].
  - unfold int_or_raise, bind.
    destruct (int (or_1 (text v))); [|discriminate]. simpl.
    destruct (find cpu "topology") as [[k tp]|]; [|discriminate].
    unfold ret. now rewrite (put_child_same _ _ _ Hc).
  - unfold ret. now rewrite (put_child_same _ _ _ Hc).
Qed.

(** ** Loops on documents where they have nothing to do *)

Lemma pending_nil sel done root p n :
  pending sel done root = [] ->
  In p (xpath sel root) -> get_at root p = Some n -> done n = true.
Proof.
  unfold pending. intros H Hp Hg.
  destruct (done n) eqn:E; [reflexivity|]. exfalso.
  assert (Hin : In p (filter (fun p => match get_at root p with
                                       | Some n => negb (done n)
                                       | None => false
                                       end) (xpath sel root))).
  { apply filter_In. split; [assumption|]. now rewrite Hg, E. }
  rewrite H in Hin. destruct Hin.
Qed.

Lemma pending_nil_settled sel done root :
  pending sel done root = [] <-> settled sel done root.
Proof.
  split.
  - intros H p n Hg Hs.
    eapply pending_nil; eauto using xpath_complete.
  - intros H. unfold pending.
    assert (Hx : forall p, In p (xpath sel root) ->
                 exists n, get_at root p = Some n /\ sel n = true)
      by (intros p; apply xpath_sound).
    induction (xpath sel root) as [|p l IH]; [reflexivity|]. simpl.
    destruct (Hx p (or_introl eq_refl)) as (n & Hg & Hs).
    rewrite Hg, (H _ _ Hg Hs). simpl. apply IH. intros q Hq. apply Hx.
    now right.
Qed.

Lemma loop_done sel done body root s :
  (forall n s, done n = true -> body n s = Ok (n, s)) ->
  pending sel done root = [] ->
  for_each body (xpath sel root) root s = Ok (root, s).
Proof.
  intros Hb Hp. apply for_each_quiet. intros p Hin.
  destruct (xpath_sound _ _ _ Hin) as (n & Hg & _).
  exists n. split; [assumption|]. apply Hb. eapply pending_nil; eauto.
Qed.

(** On a document whose devices need nothing, only the CPU section acts. *)
Lemma apply_rules_devices_done root s :
  devices_done root -> apply_rules root s = cpu_section root s.
Proof.
  intros (Hd & Hn & Hv & Hg). unfold apply_rules, bind.
  rewrite (loop_done _ _ _ _ _ disk_body_done Hd).
  rewrite (loop_done _ _ _ _ _ nic_body_done Hn).
  rewrite (loop_done _ _ _ _ _ video_body_done Hv).
  rewrite (loop_done _ _ _ _ _ spice_body_done Hg).
  reflexivity.
Qed.

Lemma insert_at_firstn_skipn i x cs :
  i <= length cs -> insert_at i x cs = firstn i cs ++ x :: skipn i cs.
Proof.
  revert cs; induction i as [|i IH]; intros [|c cs]; simpl; intros H;
    try reflexivity; try lia.
  f_equal. apply IH. lia.
Qed.

Lemma insert_at_length_app x cs : insert_at (length cs) x cs = cs ++ [x].
Proof.
  rewrite insert_at_firstn_skipn by lia.
  now rewrite firstn_all, skipn_all.
Qed.

(** ** Mutations confined to a set of tags *)

Lemma head_put_child n i c : head (put_child n i c) = head n.
Proof. destruct n; reflexivity. Qed.

Lemma tweak_tag T c c' : tweak T c c' -> tag c' = tag c.
Proof. destruct 1; reflexivity. Qed.

Lemma tweak_text T c c' : tweak T c c' -> text c' = text c.
Proof. destruct 1; reflexivity. Qed.

Lemma tweak_outside T c c' : tweak T c c' -> T (tag c) = false -> c' = c.
Proof. destruct 1; [reflexivity|]. simpl. congruence. Qed.

Lemma tweak_kids T c c' :
  tweak T c c' -> kids T (children c) (children c').
Proof.
  destruct 1 as [n|t a a' x cs cs' extra _ _ Hcs Hx]; simpl.
  - exists (children n), []. rewrite app_nil_r. repeat split.
    + induction (children n); constructor; auto using tweak_same.
    + constructor.
  - exists cs', extra. auto.
Qed.

Lemma tweak_intro T c c' :
  T (tag c) = true -> tag c' = tag c -> text c' = text c ->
  incl (map fst (attrib c)) (map fst (attrib c')) ->
  kids T (children c) (children c') ->
  tweak T c c'.
Proof.
  destruct c as [t a x cs], c' as [t' a' x' cs'']. simpl.
  intros HT -> -> Hk (cs' & extra & -> & Hcs & Hx).
  now apply tweak_node.
Qed.

Lemma Forall2_refl {A} (R : A -> A -> Prop) l :
  (forall a, R a a) -> Forall2 R l l.
Proof. intros H. induction l; constructor; auto. Qed.

Lemma kids_refl T cs : kids T cs cs.
Proof.
  exists cs, []. rewrite app_nil_r.
  repeat split; [apply Forall2_refl; apply tweak_same | constructor].
Qed.

Lemma Forall2_nth_l {A B} (R : A -> B -> Prop) l l' i a :
  Forall2 R l l' -> nth_error l i = Some a ->
  exists b, nth_error l' i = Some b /\ R a b.
Proof.
  intros H. revert i; induction H as [|a0 b0 l l' H0 _ IH]; intros [|i];
    simpl; try discriminate.
  - intros [= <-]. eauto.
  - apply IH.
Qed.

Lemma Forall2_nth_r {A B} (R : A -> B -> Prop) l l' i b :
  Forall2 R l l' -> nth_error l' i = Some b ->
  exists a, nth_error l i = Some a /\ R a b.
Proof.
  intros H. revert i; induction H as [|a0 b0 l l' H0 _ IH]; intros [|i];
    simpl; try discriminate.
  - intros [= <-]. eauto.
  - apply IH.
Qed.

Lemma kids_nth_l T cs cs'' i c :
  kids T cs cs'' -> nth_error cs i = Some c ->
  exists c', nth_error cs'' i = Some c' /\ tweak T c c'.
Proof.
  intros (cs' & extra & -> & Hcs & _) Hn.
  destruct (Forall2_nth_l _ _ _ _ _ Hcs Hn) as (c' & Hn' & Hc).
  exists c'. split; [|assumption].
  rewrite nth_error_app1; [assumption|].
  apply nth_error_Some. congruence.
Qed.

Lemma kids_nth_r T cs cs'' i c' :
  kids T cs cs'' -> nth_error cs'' i = Some c' ->
  (exists c, nth_error cs i = Some c /\ tweak T c c') \/ fresh T c'.
Proof.
  intros (cs' & extra & -> & Hcs & Hx) Hn.
  destruct (Nat.lt_ge_cases i (length cs')) as [Hi|Hi].
  - rewrite nth_error_app1 in Hn by assumption. left.
    eapply Forall2_nth_r; eauto.
  - rewrite nth_error_app2 in Hn by assumption. right.
    rewrite Forall_forall in Hx. eauto using nth_error_In.
Qed.

(** An element outside [T] is found at the same place before and after,
    and it is the same element. *)
Lemma tweak_get_l T r : forall c c' m,
  tweak T c c' -> get_at c r = Some m -> T (tag m) = false ->
  get_at c' r = Some m.
Proof.
  induction r as [|i r IH]; intros c c' m Hc; simpl.
  - intros [= <-] Hm. now rewrite (tweak_outside _ _ _ Hc Hm).
  - destruct (nth_error (children c) i) as [ci|] eqn:Hi; [|discriminate].
    destruct (kids_nth_l _ _ _ _ _ (tweak_kids _ _ _ Hc) Hi)
      as (ci' & -> & Hci).
    eauto.
Qed.

Lemma fresh_get T e r m :
  fresh T e -> get_at e r = Some m -> T (tag m) = true.
Proof.
  intros [Ht He]. destruct r as [|i r]; simpl.
  - now intros [= <-].
  - rewrite He. destruct i; discriminate.
Qed.

Lemma tweak_get_r T r : forall c c' m,
  tweak T c c' -> get_at c' r = Some m -> T (tag m) = false ->
  get_at c r = Some m.
Proof.
  induction r as [|i r IH]; intros c c' m Hc; simpl.
  - intros [= <-] Hm. rewrite (tweak_tag _ _ _ Hc) in Hm.
    now rewrite (tweak_outside _ _ _ Hc Hm).
  - destruct (nth_error (children c') i) as [ci'|] eqn:Hi; [|discriminate].
    intros Hg Hm.
    destruct (kids_nth_r _ _ _ _ _ (tweak_kids _ _ _ Hc) Hi)
      as [(ci & -> & Hci)|Hf].
    + eauto.
    + rewrite (fresh_get _ _ _ _ Hf Hg) in Hm. discriminate.
Qed.

(** The same below an element a body was applied to. *)
Lemma body_frame_get_l T n n' r m :
  body_frame T n n' -> r <> [] -> get_at n r = Some m ->
  T (tag m) = false -> get_at n' r = Some m.
Proof.
  intros [_ Hk]. destruct r as [|i r]; [congruence|]. intros _. simpl.
  destruct (nth_error (children n) i) as [ci|] eqn:Hi; [|discriminate].
  destruct (kids_nth_l _ _ _ _ _ Hk Hi) as (ci' & -> & Hci).
  apply tweak_get_l; assumption.
Qed.

Lemma body_frame_get_r T n n' r m :
  body_frame T n n' -> r <> [] -> get_at n' r = Some m ->
  T (tag m) = false -> get_at n r = Some m.
Proof.
  intros [_ Hk]. destruct r as [|i r]; [congruence|]. intros _. simpl.
  destruct (nth_error (children n') i) as [ci'|] eqn:Hi; [|discriminate].
  intros Hg Hm.
  destruct (kids_nth_r _ _ _ _ _ Hk Hi) as [(ci & -> & Hci)|Hf].
  - eapply tweak_get_r; eauto.
  - rewrite (fresh_get _ _ _ _ Hf Hg) in Hm. discriminate.
Qed.

Lemma body_frame_refl T n : body_frame T n n.
Proof. split; [reflexivity | apply kids_refl]. Qed.

(** ** Attribute and child edits *)

Lemma lookup_update k k' v a :
  lookup k (update k' v a) = if String.eqb k' k then Some v else lookup k a.
Proof.
  induction a as [|[k0 v0] a IH]; simpl.
  - destruct (String.eqb k' k); reflexivity.
  - destruct (String.eqb_spec k0 k') as [->|Hne]; simpl.
    + destruct (String.eqb k' k); reflexivity.
    + rewrite IH. destruct (String.eqb_spec k0 k) as [->|Hne2];
        [|reflexivity].
      destruct (String.eqb_spec k' k); [congruence | reflexivity].
Qed.

Lemma get_opt_set_attr n k' v k :
  get_opt (set_attr n k' v) k =
  if String.eqb k' k then Some v else get_opt n k.
Proof. unfold get_opt, set_attr. simpl. apply lookup_update. Qed.

Lemma get_set_attr n k' v k d :
  get (set_attr n k' v) k d = if String.eqb k' k then v else get n k d.
Proof.
  unfold get. rewrite get_opt_set_attr. destruct (String.eqb k' k); auto.
Qed.

Lemma keys_update k v a : incl (map fst a) (map fst (update k v a)).
Proof.
  induction a as [|[k0 v0] a IH]; simpl.
  - apply incl_nil_l.
  - destruct (String.eqb_spec k0 k) as [->|Hne]; simpl.
    + apply incl_refl.
    + apply incl_cons; [now left | now apply incl_tl].
Qed.

Lemma tag_set_attr n k v : tag (set_attr n k v) = tag n.
Proof. reflexivity. Qed.

Lemma text_set_attr n k v : text (set_attr n k v) = text n.
Proof. reflexivity. Qed.

Lemma children_set_attr n k v : children (set_attr n k v) = children n.
Proof. reflexivity. Qed.

Lemma children_put_child n i c :
  children (put_child n i c) = replace_nth i c (children n).
Proof. reflexivity. Qed.

Lemma put_child_SubElement n t e :
  put_child (fst (SubElement n t)) (snd (SubElement n t)) e
  = append_child n e.
Proof.
  unfold SubElement, put_child, append_child, with_children. simpl.
  now rewrite replace_nth_app_last.
Qed.

Lemma find_from_replace_nth i c c' cs t o :
  nth_error cs i = Some c -> tag c' = tag c ->
  find_from o t (replace_nth i c' cs) =
  match find_from o t cs with
  | Some (k, x) => Some (k, if Nat.eqb k (o + i) then c' else x)
  | None => None
  end.
Proof.
  revert i o; induction cs as [|c0 cs IH]; intros [|i] o; simpl;
    try discriminate.
  - intros [= ->] Ht. rewrite Ht. destruct (String.eqb (tag c) t).
    + now rewrite Nat.add_0_r, Nat.eqb_refl.
    + destruct (find_from (S o) t cs) as [[k x]|] eqn:E; [|reflexivity].
      apply find_from_some in E as (j & -> & _).
      replace (Nat.eqb (S o + j) (o + 0)) with false; [reflexivity|].
      symmetry. apply Nat.eqb_neq. lia.
  - intros Hn Ht. destruct (String.eqb (tag c0) t).
    + replace (Nat.eqb o (o + S i)) with false; [reflexivity|].
      symmetry. apply Nat.eqb_neq. lia.
    + rewrite (IH _ (S o) Hn Ht).
      replace (S o + i) with (o + S i) by lia. reflexivity.
Qed.

Lemma find_put_child n i c c' t :
  nth_error (children n) i = Some c -> tag c' = tag c ->
  find (put_child n i c') t =
  match find n t with
  | Some (k, x) => Some (k, if Nat.eqb k i then c' else x)
  | None => None
  end.
Proof.
  intros Hn Ht. unfold find. rewrite children_put_child.
  now rewrite (find_from_replace_nth _ _ _ _ _ 0 Hn Ht).
Qed.

Lemma find_from_none_app o t cs e :
  find_from o t cs = None ->
  find_from o t (cs ++ [e]) =
  if String.eqb (tag e) t then Some (o + length cs, e) else None.
Proof.
  revert o; induction cs as [|c cs IH]; intros o; simpl.
  - now rewrite Nat.add_0_r.
  - destruct (String.eqb (tag c) t); [discriminate|].
    intros H. rewrite (IH _ H). replace (S o + length cs) with
      (o + S (length cs)) by lia. reflexivity.
Qed.

Lemma find_from_some_app o t cs extra k c :
  find_from o t cs = Some (k, c) ->
  find_from o t (cs ++ extra) = Some (k, c).
Proof.
  revert o; induction cs as [|c0 cs IH]; intros o; simpl; [discriminate|].
  destruct (String.eqb (tag c0) t); auto.
Qed.

(** ** Keeping a frame through the edits *)

Lemma tweak_keys T c c' :
  tweak T c c' -> incl (map fst (attrib c)) (map fst (attrib c')).
Proof. destruct 1; simpl; [apply incl_refl | assumption]. Qed.

Lemma Forall2_replace_r {A} (R : A -> Node -> Prop) cs cs' k e e' :
  Forall2 R cs cs' -> nth_error cs k = Some e -> R e e' ->
  Forall2 R cs (replace_nth k e' cs').
Proof.
  intros H. revert k; induction H as [|a b cs cs' Hab Hcs IH]; intros [|k];
    simpl; try discriminate.
  - intros [= <-] He. now constructor.
  - intros Hn He. constructor; auto.
Qed.

Lemma replace_nth_app_l k x cs extra :
  k < length cs ->
  replace_nth k x (cs ++ extra) = replace_nth k x cs ++ extra.
Proof.
  revert k; induction cs as [|c cs IH]; intros [|k]; simpl; try lia.
  - reflexivity.
  - intros H. f_equal. apply IH. lia.
Qed.

Lemma kids_replace T cs cs'' k e e' :
  kids T cs cs'' -> nth_error cs k = Some e -> tweak T e e' ->
  kids T cs (replace_nth k e' cs'').
Proof.
  intros (cs' & extra & -> & Hcs & Hx) Hn He.
  exists (replace_nth k e' cs'), extra. repeat split.
  - apply replace_nth_app_l. rewrite <- (Forall2_length Hcs).
    apply nth_error_Some. congruence.
  - eapply Forall2_replace_r; eauto.
  - assumption.
Qed.

Lemma kids_append T cs cs'' e :
  kids T cs cs'' -> fresh T e -> kids T cs (cs'' ++ [e]).
Proof.
  intros (cs' & extra & -> & Hcs & Hx) He.
  exists cs', (extra ++ [e]). rewrite app_assoc. repeat split; auto.
  apply Forall_app. split; [assumption | now constructor].
Qed.

Lemma tweak_set_attr T c c' k v :
  T (tag c) = true -> tweak T c c' -> tweak T c (set_attr c' k v).
Proof.
  intros HT H. apply tweak_intro; auto.
  - exact (tweak_tag T c c' H).
  - exact (tweak_text T c c' H).
  - eapply incl_tran; [exact (tweak_keys T c c' H)|]. apply keys_update.
  - rewrite children_set_attr. now apply tweak_kids.
Qed.

Lemma tweak_put_child T c c' k e e' :
  T (tag c) = true -> tweak T c c' ->
  nth_error (children c) k = Some e -> tweak T e e' ->
  tweak T c (put_child c' k e').
Proof.
  intros HT H Hn He. apply tweak_intro; auto.
  - exact (tweak_tag T c c' H).
  - exact (tweak_text T c c' H).
  - exact (tweak_keys T c c' H).
  - rewrite children_put_child.
    eapply kids_replace; eauto using tweak_kids.
Qed.

Lemma tweak_append_child T c c' e :
  T (tag c) = true -> tweak T c c' -> fresh T e ->
  tweak T c (append_child c' e).
Proof.
  intros HT H He. apply tweak_intro; auto.
  - exact (tweak_tag T c c' H).
  - exact (tweak_text T c c' H).
  - exact (tweak_keys T c c' H).
  - apply kids_append; auto using tweak_kids.
Qed.

Lemma body_frame_put_child T n n' k e e' :
  body_frame T n n' -> nth_error (children n) k = Some e -> tweak T e e' ->
  body_frame T n (put_child n' k e').
Proof.
  intros [Hh Hk] Hn He. split.
  - now rewrite head_put_child.
  - eapply kids_replace; eauto.
Qed.

Lemma body_frame_append_child T n n' e :
  body_frame T n n' -> fresh T e -> body_frame T n (append_child n' e).
Proof.
  intros [Hh Hk] He. split.
  - destruct n'; exact Hh.
  - now apply kids_append.
Qed.

(** ** The four loop bodies stay within their frames *)

Lemma ret_ok {A} (a b : A) s s' : ret a s = Ok (b, s') -> b = a /\ s' = s.
Proof. unfold ret. now intros [= -> ->]. Qed.

Ltac ret_inv H :=
  apply ret_ok in H; destruct H as [? ?]; subst.

Ltac bind_inv H :=
  let a := fresh "a" in let s := fresh "s" in let Ha := fresh "Ha" in
  apply bind_ok in H; destruct H as (a & s & Ha & H).

Lemma disk_body_frame disk s disk' s' :
  disk_body disk s = Ok (disk', s') -> body_frame T_disk disk disk'.
Proof.
  unfold disk_body. intros H. bind_inv H.
  assert (F1 : body_frame T_disk disk a).
  { destruct (find disk "target") as [[i t]|] eqn:Ft.
    - apply find_some in Ft as [Hn Ht].
      assert (HT : T_disk (tag t) = true) by (rewrite Ht; reflexivity).
      destruct (mem _ _).
      + bind_inv Ha. bind_inv Ha. bind_inv Ha. ret_inv Ha.
        apply (body_frame_put_child _ _ _ _ _ _ (body_frame_refl _ _) Hn).
        destruct (truthy _).
        * bind_inv Ha0. ret_inv Ha0.
          repeat apply tweak_set_attr; auto using tweak_same.
        * ret_inv Ha0.
          repeat apply tweak_set_attr; auto using tweak_same.
      + ret_inv Ha. apply body_frame_refl.
    - ret_inv Ha. apply body_frame_refl. }
  destruct (find disk "driver") as [[j dr]|] eqn:Fd.
  - apply find_some in Fd as [Hn Ht].
    assert (HT : T_disk (tag dr) = true) by (rewrite Ht; reflexivity).
    destruct (_ || _)%bool.
    + bind_inv H. ret_inv H.
      apply (body_frame_put_child _ _ _ _ _ _ F1 Hn).
      repeat apply tweak_set_attr; auto using tweak_same.
    + ret_inv H. exact F1.
  - ret_inv H. exact F1.
Qed.

Lemma nic_body_frame iface s iface' s' :
  nic_body iface s = Ok (iface', s') -> body_frame T_nic iface iface'.
Proof.
  unfold nic_body. intros H.
  destruct (find iface "model") as [[i m]|] eqn:Fm.
  - apply find_some in Fm as [Hn Ht].
    assert (HT : T_nic (tag m) = true) by (rewrite Ht; reflexivity).
    destruct (mem _ _).
    + bind_inv H. ret_inv H.
      apply (body_frame_put_child _ _ _ _ _ _ (body_frame_refl _ _) Hn).
      repeat apply tweak_set_attr; auto using tweak_same.
    + ret_inv H. apply body_frame_refl.
  - ret_inv H. apply body_frame_refl.
Qed.

Lemma fresh_leaf T t a :
  T t = true -> fresh T (Element t a None []).
Proof. intros H. split; [exact H | reflexivity]. Qed.

Lemma video_body_frame video s video' s' :
  video_body video s = Ok (video', s') -> body_frame T_video video video'.
Proof.
  unfold video_body. intros H.
  destruct (find video "model") as [[i m]|] eqn:Fm.
  - apply find_some in Fm as [Hn Ht].
    assert (HT : T_video (tag m) = true) by (rewrite Ht; reflexivity).
    destruct (mem _ _).
    + set (m3 := set_attr (set_attr (set_attr m "type" "virtio") "heads" "1")
                          "primary" "yes") in *.
      assert (Hm3 : tweak T_video m m3)
        by (repeat apply tweak_set_attr; auto using tweak_same).
      destruct (find m3 "acceleration") as [[k acc]|] eqn:Fa.
      * apply find_some in Fa as [Hk Hta].
        bind_inv H. bind_inv H. ret_inv H.
        apply (body_frame_put_child _ _ _ _ _ _ (body_frame_refl _ _) Hn).
        apply (tweak_put_child _ _ _ _ acc); auto.
        apply tweak_set_attr; [rewrite Hta; reflexivity | apply tweak_same].
      * bind_inv H. bind_inv H. ret_inv H.
        apply (body_frame_put_child _ _ _ _ _ _ (body_frame_refl _ _) Hn).
        change (tweak T_video m
                  (put_child (fst (SubElement m3 "acceleration"))
                             (snd (SubElement m3 "acceleration"))
                             (set_attr (Element "acceleration" [] None [])
                                       "accel3d" "yes"))).
        rewrite put_child_SubElement.
        apply tweak_append_child; auto. now apply fresh_leaf.
    + ret_inv H. apply body_frame_refl.
  - ret_inv H. apply body_frame_refl.
Qed.

Lemma spice_body_frame graphics s graphics' s' :
  spice_body graphics s = Ok (graphics', s') ->
  body_frame T_spice graphics graphics'.
Proof.
  unfold spice_body. intros H.
  destruct (find graphics "gl") as [[k gl]|] eqn:Fg.
  - apply find_some in Fg as [Hn Ht].
    assert (HT : T_spice (tag gl) = true) by (rewrite Ht; reflexivity).
    destruct (negb _).
    + bind_inv H. ret_inv H.
      apply (body_frame_put_child _ _ _ _ _ _ (body_frame_refl _ _) Hn).
      destruct (get_opt _ _);
        repeat apply tweak_set_attr; auto using tweak_same.
    + ret_inv H. apply body_frame_refl.
  - simpl in H. bind_inv H. ret_inv H.
    change (body_frame T_spice graphics
              (put_child (fst (SubElement graphics "gl"))
                         (snd (SubElement graphics "gl"))
                         (set_attr (set_attr (Element "gl" [] None [])
                                             "enable" "yes")
                                   "rendernode" "/dev/dri/renderD128"))).
    rewrite put_child_SubElement.
    apply body_frame_append_child; [apply body_frame_refl|].
    now apply fresh_leaf.
Qed.

(** ** What the selectors and the conditions look at *)

Lemma disk_sel_tag m : disk_sel m = true -> tag m = "disk".
Proof.
  unfold disk_sel. intros H. apply andb_true_iff in H as [H _].
  now apply String.eqb_eq.
Qed.

Lemma nic_sel_tag m : nic_sel m = true -> tag m = "interface".
Proof. apply String.eqb_eq. Qed.

Lemma video_sel_tag m : video_sel m = true -> tag m = "video".
Proof. apply String.eqb_eq. Qed.

Lemma spice_sel_tag m : spice_sel m = true -> tag m = "graphics".
Proof.
  unfold spice_sel. intros H. apply andb_true_iff in H as [H _].
  now apply String.eqb_eq.
Qed.

Lemma head_eq n n' :
  head n = head n' ->
  tag n = tag n' /\ attrib n = attrib n' /\ text n = text n'.
Proof. unfold head. intros [= -> -> ->]. auto. Qed.

Lemma disk_sel_head : head_only disk_sel.
Proof.
  intros n n' H. apply head_eq in H as (Ht & Ha & _).
  unfold disk_sel, get_opt. now rewrite Ht, Ha.
Qed.

Lemma nic_sel_head : head_only nic_sel.
Proof.
  intros n n' H. apply head_eq in H as (Ht & _). unfold nic_sel.
  now rewrite Ht.
Qed.

Lemma video_sel_head : head_only video_sel.
Proof.
  intros n n' H. apply head_eq in H as (Ht & _). unfold video_sel.
  now rewrite Ht.
Qed.

Lemma spice_sel_head : head_only spice_sel.
Proof.
  intros n n' H. apply head_eq in H as (Ht & Ha & _).
  unfold spice_sel, get_opt. now rewrite Ht, Ha.
Qed.

(** The first child with a given tag, as far as its attributes go, is a
    shallow property. *)
Lemma find_shallow t n n' :
  Forall2 (fun c c' => head c = head c') (children n) (children n') ->
  match find n t, find n' t with
  | Some (k, c), Some (k', c') => k = k' /\ attrib c = attrib c'
  | None, None => True
  | _, _ => False
  end.
Proof.
  intros H. unfold find.
  pose proof (find_from_Forall2 (fun c c' => head c = head c') 0 t _ _
                (fun c c' Hc => proj1 (head_eq c c' Hc)) H) as Hf.
  destruct (find_from 0 t (children n)) as [[k c]|],
           (find_from 0 t (children n')) as [[k' c']|]; auto.
  destruct Hf as [Hk Hc]. apply head_eq in Hc as (_ & Ha & _). auto.
Qed.

Ltac shallow_find t :=
  let n := fresh "n" in let n' := fresh "n'" in
  let Hc := fresh "Hc" in let Hf := fresh "Hf" in
  intros n n' _ Hc; pose proof (find_shallow t n n' Hc) as Hf;
  destruct (find n t) as [[? ?]|], (find n' t) as [[? ?]|];
  try contradiction; [|reflexivity];
  destruct Hf as [_ Hf]; unfold get, get_opt; rewrite Hf; reflexivity.

Lemma bus_pending_shallow : shallow bus_pending.
Proof. unfold bus_pending. shallow_find "target". Qed.

Lemma cache_pending_shallow : shallow cache_pending.
Proof. unfold cache_pending. shallow_find "driver". Qed.

Lemma disk_done_shallow : shallow disk_done.
Proof.
  intros n n' Hh Hc. unfold disk_done.
  now rewrite (bus_pending_shallow n n' Hh Hc),
              (cache_pending_shallow n n' Hh Hc).
Qed.

Lemma nic_pending_shallow : shallow nic_pending.
Proof. unfold nic_pending. shallow_find "model". Qed.

Lemma nic_done_shallow : shallow nic_done.
Proof.
  intros n n' Hh Hc. unfold nic_done.
  now rewrite (nic_pending_shallow n n' Hh Hc).
Qed.

Lemma video_pending_shallow : shallow video_pending.
Proof. unfold video_pending. shallow_find "model". Qed.

Lemma video_done_shallow : shallow video_done.
Proof.
  intros n n' Hh Hc. unfold video_done.
  now rewrite (video_pending_shallow n n' Hh Hc).
Qed.

Lemma spice_done_shallow : shallow spice_done.
Proof. unfold spice_done. shallow_find "gl". Qed.

(** ** Writing to one child does not move the others *)

Lemma find_put_child_self n t i c c' :
  find n t = Some (i, c) -> tag c' = tag c ->
  find (put_child n i c') t = Some (i, c').
Proof.
  intros Hf Ht. destruct (find_some _ _ _ _ Hf) as [Hn _].
  rewrite (find_put_child _ _ _ _ t Hn Ht), Hf. now rewrite Nat.eqb_refl.
Qed.

Lemma find_put_child_other n t i c c' :
  nth_error (children n) i = Some c -> tag c' = tag c -> tag c <> t ->
  find (put_child n i c') t = find n t.
Proof.
  intros Hn Ht Hne. rewrite (find_put_child _ _ _ _ t Hn Ht).
  destruct (find n t) as [[k x]|] eqn:Hf; [|reflexivity].
  destruct (find_some _ _ _ _ Hf) as [Hk Hx].
  destruct (Nat.eqb_spec k i) as [->|]; [|reflexivity]. congruence.
Qed.

Lemma find_append_child_other n t e :
  tag e <> t -> find (append_child n e) t = find n t.
Proof.
  intros H. unfold find, append_child. simpl.
  apply find_from_app_notag. now constructor.
Qed.

Lemma find_append_child_new n t e :
  find n t = None -> tag e = t ->
  find (append_child n e) t = Some (length (children n), e).
Proof.
  intros Hf Ht. unfold find, append_child. simpl.
  rewrite (find_from_none_app _ _ _ _ Hf).
  apply String.eqb_eq in Ht. now rewrite Ht.
Qed.

(** ** One write through a reference, seen from another element *)

Lemma head_set_at root p n n' :
  get_at root p = Some n -> head n' = head n ->
  head (set_at root p n') = head root.
Proof.
  destruct p as [|i p]; simpl.
  - now intros [= <-].
  - destruct (nth_error (children root) i); [|reflexivity].
    intros _ _. apply head_put_child.
Qed.

Lemma Forall2_heads_replace_nth i c c' cs :
  nth_error cs i = Some c -> head c' = head c ->
  Forall2 (fun a b => head a = head b) (replace_nth i c' cs) cs.
Proof.
  revert i; induction cs as [|c0 cs IH]; intros [|i]; simpl;
    try discriminate.
  - intros [= <-] H. constructor; [auto | now apply Forall2_refl].
  - intros Hn H. constructor; auto.
Qed.

Lemma shallow_shallow_in {A} S (f : Node -> A) : shallow f -> shallow_in S f.
Proof.
  intros H n n' Hh Hc. apply H; [assumption|].
  eapply Forall2_impl; [|exact Hc]. now intros a b [Hab _].
Qed.

Lemma Forall2_replace_nth_l (R : Node -> Node -> Prop) i c c' cs :
  (forall a, R a a) -> nth_error cs i = Some c -> R c' c ->
  Forall2 R (replace_nth i c' cs) cs.
Proof.
  intros Hr. revert i; induction cs as [|c0 cs IH]; intros [|i]; simpl;
    try discriminate.
  - intros [= <-] H. constructor; [auto | now apply Forall2_refl].
  - intros Hn H. constructor; auto.
Qed.

(** A write below a child, seen from the parent. *)
Lemma set_at_above {A} S (dec : Node -> A) root i c p n n' :
  shallow_in S dec ->
  nth_error (children root) i = Some c -> get_at c p = Some n ->
  head n' = head n -> S (tag n) = false ->
  dec (put_child root i (set_at c p n')) = dec root.
Proof.
  intros Hsh Hi Hn Hh HS. apply Hsh; [apply head_put_child|].
  rewrite children_put_child.
  apply Forall2_replace_nth_l with (c := c); [| assumption |].
  { intros a. split; [reflexivity|]. intros _.
    now apply Forall2_refl. }
  split; [eapply head_set_at; eauto|].
  destruct p as [|j p]; simpl in *.
  - injection Hn as ->. apply head_eq in Hh as (Ht & _).
    rewrite Ht, HS. discriminate.
  - destruct (nth_error (children c) j) as [cj|] eqn:Hj; [|discriminate].
    intros _. rewrite children_put_child.
    eapply Forall2_heads_replace_nth; [eassumption|].
    eapply head_set_at; eauto.
Qed.

Lemma tweak_get_tag T r : forall c c' m,
  tweak T c c' -> get_at c r = Some m ->
  exists m', get_at c' r = Some m' /\ tag m' = tag m.
Proof.
  induction r as [|i r IH]; intros c c' m Hc; simpl.
  - intros [= <-]. exists c'. split; [reflexivity|].
    eapply tweak_tag; eauto.
  - destruct (nth_error (children c) i) as [ci|] eqn:Hi; [|discriminate].
    destruct (kids_nth_l _ _ _ _ _ (tweak_kids _ _ _ Hc) Hi)
      as (ci' & -> & Hci).
    eauto.
Qed.

(** A write keeps every element in place, with its tag. *)
Lemma set_at_keeps_tag T p : forall root n n' q m,
  get_at root p = Some n -> body_frame T n n' -> get_at root q = Some m ->
  exists m', get_at (set_at root p n') q = Some m' /\ tag m' = tag m.
Proof.
  induction p as [|i p IH]; intros root n n' q m; simpl.
  - intros [= <-] [Hh Hk] Hg. destruct q as [|j q]; simpl in *.
    + injection Hg as <-. exists n'. split; [reflexivity|].
      now apply head_eq in Hh.
    + destruct (nth_error (children root) j) as [cj|] eqn:Hj;
        [|discriminate].
      destruct (kids_nth_l _ _ _ _ _ Hk Hj) as (cj' & -> & Hc).
      eapply tweak_get_tag; eauto.
  - destruct (nth_error (children root) i) as [c|] eqn:Hi; [|discriminate].
    intros Hn Hf Hg. destruct q as [|j q]; simpl in Hg |- *.
    + injection Hg as <-. eexists. split; [reflexivity|].
      destruct root; reflexivity.
    + destruct (Nat.eq_dec j i) as [->|Hji].
      * rewrite Hi in Hg. rewrite (nth_error_replace_nth_eq _ _ _ _ Hi).
        eauto.
      * rewrite (nth_error_replace_nth_neq _ _ _ _ (not_eq_sym Hji)).
        destruct (nth_error (children root) j) as [cj|]; [|discriminate].
        exists m. auto.
Qed.

Section Observe.

(** The write: a body with frame [T] was applied to the element at [p],
    whose tag is not in [S]. *)
Variable T : string -> bool.
Variable S : string -> bool.

(** The observer: elements selected by [sel1], looked at through [dec]. *)
Variable sel1 : Node -> bool.
Variable A : Type.
Variable dec : Node -> A.
Hypothesis sel1_T : forall m, sel1 m = true -> T (tag m) = false.
Hypothesis dec_shallow : shallow_in S dec.

Lemma set_at_observe p : forall root n n' q m,
  get_at root p = Some n -> S (tag n) = false -> body_frame T n n' ->
  q <> p -> get_at root q = Some m -> sel1 m = true ->
  exists m', get_at (set_at root p n') q = Some m' /\
             head m' = head m /\ dec m' = dec m.
Proof.
  induction p as [|i p IH]; intros root n n' q m; simpl.
  - intros [= <-] HS Hf Hq Hg Hs. exists m.
    split; [|split; reflexivity].
    eapply body_frame_get_l; eauto.
  - destruct (nth_error (children root) i) as [c|] eqn:Hi; [|discriminate].
    intros Hn HS Hf Hq Hg Hs. destruct q as [|j q]; simpl in Hg |- *.
    + injection Hg as <-. eexists. split; [reflexivity|].
      split; [apply head_put_child|].
      eapply set_at_above; eauto. apply Hf.
    + destruct (Nat.eq_dec j i) as [->|Hji].
      * rewrite Hi in Hg.
        rewrite (nth_error_replace_nth_eq _ _ _ _ Hi).
        eapply IH; eauto. congruence.
      * rewrite (nth_error_replace_nth_neq _ _ _ _ (not_eq_sym Hji)).
        destruct (nth_error (children root) j) as [cj|]; [|discriminate].
        exists m. auto.
Qed.

Lemma set_at_observe_back p : forall root n n' q m',
  get_at root p = Some n -> S (tag n) = false -> body_frame T n n' ->
  get_at (set_at root p n') q = Some m' -> sel1 m' = true ->
  exists m, get_at root q = Some m /\ head m' = head m /\
            (q <> p -> dec m' = dec m).
Proof.
  induction p as [|i p IH]; intros root n n' q m'; simpl.
  - intros [= <-] HS Hf Hg Hs. destruct q as [|j q].
    + injection Hg as <-. exists root. split; [reflexivity|].
      split; [apply Hf | congruence].
    + exists m'. split; [|split; reflexivity].
      eapply body_frame_get_r; eauto. discriminate.
  - destruct (nth_error (children root) i) as [c|] eqn:Hi; [|discriminate].
    intros Hn HS Hf Hg Hs. destruct q as [|j q]; simpl in Hg |- *.
    + injection Hg as <-. exists root. split; [reflexivity|].
      split; [apply head_put_child|]. intros _.
      eapply set_at_above; eauto. apply Hf.
    + destruct (Nat.eq_dec j i) as [->|Hji].
      * rewrite (nth_error_replace_nth_eq _ _ _ _ Hi) in Hg. rewrite Hi.
        destruct (IH _ _ _ _ _ Hn HS Hf Hg Hs) as (m & Hm & Hh & Hd).
        exists m. repeat split; auto. intros Hne. apply Hd. congruence.
      * rewrite (nth_error_replace_nth_neq _ _ _ _ (not_eq_sym Hji)) in Hg.
        destruct (nth_error (children root) j) as [cj|]; [|discriminate].
        exists m'. auto.
Qed.

End Observe.

(** ** After its body, an element needs nothing more *)

Lemma disk_body_settles disk s disk' s' :
  disk_body disk s = Ok (disk', s') -> disk_done disk' = true.
Proof.
  unfold disk_body. intros H. bind_inv H.
  assert (F1 : bus_pending a = false /\ find a "driver" = find disk "driver").
  { unfold bus_pending. destruct (find disk "target") as [[i t]|] eqn:Ft.
    - destruct (find_some _ _ _ _ Ft) as [Hn Ht].
      destruct (mem (get t "bus" "unknown") _) eqn:Hm.
      + bind_inv Ha. bind_inv Ha. bind_inv Ha. ret_inv Ha.
        assert (Hfact : tag a0 = tag t /\ get a0 "bus" "unknown" = "virtio").
        { destruct (truthy _); [bind_inv Ha0|]; ret_inv Ha0;
            rewrite ?get_set_attr; auto. }
        destruct Hfact as [Htag Hbus]. split.
        * rewrite (find_put_child_self _ _ _ _ _ Ft Htag), Hbus. reflexivity.
        * apply (find_put_child_other _ _ _ _ _ Hn Htag). rewrite Ht.
          discriminate.
      + ret_inv Ha. rewrite Ft, Hm. auto.
    - ret_inv Ha. rewrite Ft. auto. }
  destruct F1 as [Hb Hd]. rewrite <- Hd in H. unfold disk_done.
  destruct (find a "driver") as [[j dr]|] eqn:Fd.
  - destruct (find_some _ _ _ _ Fd) as [Hn Ht].
    destruct (_ || _)%bool eqn:Hc.
    + bind_inv H. ret_inv H.
      match goal with |- context [put_child a j ?x] => set (dr' := x) end.
      assert (Htag : tag dr' = tag dr) by reflexivity.
      apply andb_true_iff. split; apply negb_true_iff.
      * unfold bus_pending in *.
        rewrite (find_put_child_other _ "target" _ _ _ Hn Htag); [exact Hb|].
        rewrite Ht. discriminate.
      * unfold cache_pending.
        rewrite (find_put_child_self _ _ _ _ _ Fd Htag). subst dr'.
        rewrite !get_set_attr. reflexivity.
    + ret_inv H. rewrite Hb. unfold cache_pending. rewrite Fd, Hc.
      reflexivity.
  - ret_inv H. rewrite Hb. unfold cache_pending. rewrite Fd. reflexivity.
Qed.

Lemma nic_body_settles iface s iface' s' :
  nic_body iface s = Ok (iface', s') -> nic_done iface' = true.
Proof.
  unfold nic_body, nic_done, nic_pending. intros H.
  destruct (find iface "model") as [[i m]|] eqn:Fm.
  - destruct (mem (get m "type" "unknown") _) eqn:Hm.
    + bind_inv H. ret_inv H.
      rewrite (find_put_child_self _ _ _ _ (set_attr m "type" "virtio") Fm
                 eq_refl).
      rewrite get_set_attr. reflexivity.
    + ret_inv H. now rewrite Fm, Hm.
  - ret_inv H. now rewrite Fm.
Qed.

Lemma video_body_settles video s video' s' :
  video_body video s = Ok (video', s') -> video_done video' = true.
Proof.
  unfold video_body, video_done, video_pending. intros H.
  destruct (find video "model") as [[i m]|] eqn:Fm.
  - destruct (mem (get m "type" "unknown") _) eqn:Hm.
    + set (m3 := set_attr (set_attr (set_attr m "type" "virtio") "heads" "1")
                          "primary" "yes") in *.
      assert (Hty : forall k x, get (put_child m3 k x) "type" "unknown"
                                = "virtio").
      { intros k x. unfold get, get_opt, put_child. simpl.
        rewrite !lookup_update. reflexivity. }
      destruct (find m3 "acceleration") as [[k acc]|].
      * bind_inv H. bind_inv H. ret_inv H.
        rewrite (find_put_child_self _ _ _ _ _ Fm
                   (eq_refl : tag (put_child m3 k _) = tag m)).
        now rewrite Hty.
      * bind_inv H. bind_inv H. ret_inv H.
        match goal with
        | |- context [put_child video i ?x] =>
            rewrite (find_put_child_self _ _ _ _ x Fm eq_refl);
            change x with
              (put_child (fst (SubElement m3 "acceleration"))
                         (snd (SubElement m3 "acceleration"))
                         (set_attr (Element "acceleration" [] None [])
                                   "accel3d" "yes"))
        end.
        unfold SubElement, fst, snd, get, get_opt, put_child. simpl.
        rewrite !lookup_update. reflexivity.
    + ret_inv H. now rewrite Fm, Hm.
  - ret_inv H. now rewrite Fm.
Qed.

Lemma spice_body_settles graphics s graphics' s' :
  spice_body graphics s = Ok (graphics', s') -> spice_done graphics' = true.
Proof.
  unfold spice_body, spice_done. intros H.
  destruct (find graphics "gl") as [[k gl]|] eqn:Fg.
  - destruct (String.eqb (get gl "enable" "no") "yes") eqn:He; simpl in H.
    + ret_inv H. now rewrite Fg.
    + bind_inv H. ret_inv H.
      match goal with
      | |- context [put_child graphics k ?x] =>
          assert (Hx : tag x = tag gl /\ get x "enable" "no" = "yes")
            by (destruct (get_opt _ _); rewrite ?get_set_attr; auto);
          destruct Hx as [Ht Hx];
          rewrite (find_put_child_self _ _ _ _ x Fg Ht), Hx
      end.
      reflexivity.
  - simpl in H. bind_inv H. ret_inv H.
    match goal with
    | |- context [find ?g "gl"] =>
        change g with
          (put_child (fst (SubElement graphics "gl"))
                     (snd (SubElement graphics "gl"))
                     (set_attr (set_attr (Element "gl" [] None [])
                                         "enable" "yes")
                               "rendernode" "/dev/dri/renderD128"))
    end.
    rewrite put_child_SubElement.
    erewrite find_append_child_new; [reflexivity | exact Fg | reflexivity].
Qed.

(** ** The bodies never lose a reference *)

Ltac case_inner :=
  match goal with
  | |- context [match ?x with _ => _ end] =>
      lazymatch x with
      | context [match _ with _ => _ end] => fail
      | _ => destruct x; simpl
      end
  end.

Lemma disk_body_not_stale n s : disk_body n s <> Raise StaleReference.
Proof.
  unfold disk_body, bind, ret, append, read_new_dev, bind_new_dev.
  repeat case_inner; discriminate.
Qed.

Lemma nic_body_not_stale n s : nic_body n s <> Raise StaleReference.
Proof.
  unfold nic_body, bind, ret, append. repeat case_inner; discriminate.
Qed.

Lemma video_body_not_stale n s : video_body n s <> Raise StaleReference.
Proof.
  unfold video_body, bind, ret, append. repeat case_inner; discriminate.
Qed.

Lemma spice_body_not_stale n s : spice_body n s <> Raise StaleReference.
Proof.
  unfold spice_body, bind, ret, append. repeat case_inner; discriminate.
Qed.

(** ** A whole loop, seen from the elements of some selector *)

Lemma refs_ok_tail S root p refs : refs_ok S root (p :: refs) -> refs_ok S root refs.
Proof. intros H q Hq. apply H. now right. Qed.

Lemma refs_ok_step T S root p refs x x' :
  refs_ok S root (p :: refs) ->
  get_at root p = Some x -> body_frame T x x' ->
  refs_ok S (set_at root p x') refs.
Proof.
  intros H Hx Hf q Hq. destruct (H q (or_intror Hq)) as (m & Hm & HS).
  destruct (set_at_keeps_tag T p root x x' q m Hx Hf Hm) as (m' & Hm' & Ht).
  exists m'. split; [assumption | now rewrite Ht].
Qed.

Lemma refs_ok_head S root p refs x :
  refs_ok S root (p :: refs) -> get_at root p = Some x -> S (tag x) = false.
Proof.
  intros H Hx. destruct (H p (or_introl eq_refl)) as (m & Hm & HS).
  congruence.
Qed.

Lemma refs_ok_no_tag root refs :
  (forall p, In p refs -> exists n, get_at root p = Some n) ->
  refs_ok no_tag root refs.
Proof.
  intros H p Hp. destruct (H p Hp) as (n & Hn). exists n. auto.
Qed.

Lemma refs_ok_xpath S sel root :
  (forall m, sel m = true -> S (tag m) = false) ->
  refs_ok S root (xpath sel root).
Proof.
  intros H p Hp. destruct (xpath_sound _ _ _ Hp) as (n & Hn & Hs).
  exists n. auto.
Qed.

Section Loop.

Variable T : string -> bool.
Variable S : string -> bool.
Variable body : Node -> M Node.
Hypothesis body_ok :
  forall n s n' s', body n s = Ok (n', s') -> body_frame T n n'.

Variable sel1 : Node -> bool.
Variable A : Type.
Variable dec : Node -> A.
Hypothesis sel1_T : forall m, sel1 m = true -> T (tag m) = false.
Hypothesis sel1_head : head_only sel1.
Hypothesis dec_shallow : shallow_in S dec.

(** Elements the loop does not visit keep their place and their look. *)
Lemma for_each_observe refs : forall root s root' s',
  refs_ok S root refs ->
  for_each body refs root s = Ok (root', s') ->
  forall q m,
    ~ In q refs -> get_at root q = Some m -> sel1 m = true ->
    exists m', get_at root' q = Some m' /\ head m' = head m /\
               dec m' = dec m.
Proof.
  induction refs as [|p refs IH]; intros root s root' s' Hok; simpl.
  - intros [= <- <-] q m _ Hg Hs. exists m. auto.
  - destruct (get_at root p) as [x|] eqn:Hx; [|discriminate].
    intros H q m Hq Hg Hs.
    apply bind_ok in H as (x' & s1 & Hb & H).
    assert (Hqp : q <> p) by (intros ->; apply Hq; now left).
    pose proof (body_ok _ _ _ _ Hb) as Hf.
    destruct (set_at_observe T S sel1 _ dec sel1_T dec_shallow p root x x' q m
                Hx (refs_ok_head _ _ _ _ _ Hok Hx) Hf Hqp Hg Hs)
      as (m1 & Hg1 & Hh1 & Hd1).
    assert (Hs1 : sel1 m1 = true) by (rewrite (sel1_head _ _ Hh1); exact Hs).
    destruct (IH _ _ _ _ (refs_ok_step _ _ _ _ _ _ _ Hok Hx Hf) H q m1)
      as (m' & Hg' & Hh' & Hd'); auto.
    exists m'. repeat split; congruence.
Qed.

(** Every selected element of the result was there before, with the same
    head, and with the same look unless the loop visited it. *)
Lemma for_each_observe_back refs : forall root s root' s',
  refs_ok S root refs ->
  for_each body refs root s = Ok (root', s') ->
  forall q m',
    get_at root' q = Some m' -> sel1 m' = true ->
    exists m, get_at root q = Some m /\ head m' = head m /\
              (~ In q refs -> dec m' = dec m).
Proof.
  induction refs as [|p refs IH]; intros root s root' s' Hok; simpl.
  - intros [= <- <-] q m' Hg Hs. exists m'. auto.
  - destruct (get_at root p) as [x|] eqn:Hx; [|discriminate].
    intros H q m' Hg Hs.
    apply bind_ok in H as (x' & s1 & Hb & H).
    pose proof (body_ok _ _ _ _ Hb) as Hf.
    destruct (IH _ _ _ _ (refs_ok_step _ _ _ _ _ _ _ Hok Hx Hf) H q m' Hg Hs)
      as (m1 & Hg1 & Hh1 & Hd1).
    assert (Hs1 : sel1 m1 = true) by (rewrite <- (sel1_head _ _ Hh1); exact Hs).
    destruct (set_at_observe_back T S sel1 _ dec sel1_T dec_shallow p root x
                x' q m1 Hx (refs_ok_head _ _ _ _ _ Hok Hx) Hf Hg1 Hs1)
      as (m & Hm & Hh & Hd).
    exists m. repeat split; [assumption | congruence |].
    intros Hn. simpl in Hn. rewrite Hd1 by tauto. apply Hd.
    intros ->. tauto.
Qed.

(** The references of a loop stay live while it runs. *)
Lemma for_each_live refs : forall root s e,
  NoDup refs -> refs_ok S root refs ->
  (forall p, In p refs -> exists n, get_at root p = Some n /\ sel1 n = true) ->
  (forall n s, body n s <> Raise StaleReference) ->
  for_each body refs root s = Raise e -> e <> StaleReference.
Proof.
  induction refs as [|p refs IH]; intros root s e Hnd Hok Hv Hb; simpl.
  - discriminate.
  - destruct (Hv p (or_introl eq_refl)) as (x & Hx & Hsx). rewrite Hx.
    unfold bind. destruct (body x s) as [[x' s1]|e1] eqn:Hbx.
    + inversion Hnd as [|? ? Hp Hnd']; subst.
      pose proof (body_ok _ _ _ _ Hbx) as Hf.
      apply IH; auto.
      { eapply refs_ok_step; eauto. }
      intros q Hq.
      destruct (Hv q (or_intror Hq)) as (m & Hm & Hsm).
      destruct (set_at_observe T S sel1 _ dec sel1_T dec_shallow p root x x'
                  q m Hx (refs_ok_head _ _ _ _ _ Hok Hx) Hf)
        as (m1 & Hg1 & Hh1 & _); auto.
      { intros ->. contradiction. }
      exists m1. split; [assumption|]. now rewrite (sel1_head _ _ Hh1).
    + intros [= <-] ->. eapply Hb; eauto.
Qed.

End Loop.

(** ** A loop settles the elements it selects *)

Section Settle.

Variable T : string -> bool.
Variable body : Node -> M Node.
Variable sel done : Node -> bool.
Hypothesis body_ok :
  forall n s n' s', body n s = Ok (n', s') -> body_frame T n n'.
Hypothesis body_done :
  forall n s n' s', body n s = Ok (n', s') -> done n' = true.
Hypothesis sel_T : forall m, sel m = true -> T (tag m) = false.
Hypothesis sel_head : head_only sel.
Hypothesis done_shallow : shallow done.

Lemma selected_refs_ok root refs :
  (forall p, In p refs -> exists n, get_at root p = Some n /\ sel n = true) ->
  refs_ok no_tag root refs.
Proof.
  intros H. apply refs_ok_no_tag. intros p Hp.
  destruct (H p Hp) as (n & Hn & _). eauto.
Qed.

Lemma for_each_visited refs : forall root s root' s',
  NoDup refs ->
  (forall p, In p refs -> exists n, get_at root p = Some n /\ sel n = true) ->
  for_each body refs root s = Ok (root', s') ->
  forall p, In p refs ->
    exists m', get_at root' p = Some m' /\ done m' = true.
Proof.
  induction refs as [|p refs IH]; intros root s root' s' Hnd Hv; simpl.
  - intros _ q [].
  - destruct (Hv p (or_introl eq_refl)) as (x & Hx & Hsx). rewrite Hx.
    intros H. apply bind_ok in H as (x' & s1 & Hb & H).
    inversion Hnd as [|? ? Hp Hnd']; subst.
    pose proof (body_ok _ _ _ _ Hb) as Hf.
    assert (Hv1 : forall r, In r refs ->
              exists n, get_at (set_at root p x') r = Some n /\ sel n = true).
    { intros r Hr. destruct (Hv r (or_intror Hr)) as (m & Hm & Hsm).
      destruct (set_at_observe T no_tag sel _ done sel_T (shallow_shallow_in no_tag done done_shallow) p root x x'
                  r m Hx eq_refl Hf) as (m1 & Hg1 & Hh1 & _); auto.
      { intros ->. contradiction. }
      exists m1. split; [assumption|]. now rewrite (sel_head _ _ Hh1). }
    intros q [<-|Hq].
    + destruct (for_each_observe T no_tag body body_ok sel _ done sel_T
                  sel_head (shallow_shallow_in no_tag done done_shallow) refs _ _ _ _ (selected_refs_ok _ _ Hv1)
                  H p x') as (m' & Hg' & _ & Hd'); auto.
      * eapply get_at_set_at_same; eauto.
      * rewrite (sel_head x' x); [assumption | apply Hf].
      * exists m'. split; [assumption|]. rewrite Hd'. eauto.
    + eapply (IH (set_at root p x')); eauto.
Qed.

Lemma for_each_settles root s root' s' :
  for_each body (xpath sel root) root s = Ok (root', s') ->
  settled sel done root'.
Proof.
  intros H q m' Hg Hs.
  destruct (for_each_observe_back T no_tag body body_ok sel _ done sel_T
              sel_head (shallow_shallow_in no_tag done done_shallow) _ _ _ _ _
              (selected_refs_ok _ _ (xpath_sound sel root)) H q m' Hg Hs)
    as (m & Hm & Hh & _).
  assert (Hin : In q (xpath sel root)).
  { apply (xpath_complete sel root q m Hm).
    now rewrite <- (sel_head _ _ Hh). }
  destruct (for_each_visited _ _ _ _ _ (NoDup_xpath sel root)
              (xpath_sound sel root) H q Hin) as (m2 & Hg2 & Hd2).
  congruence.
Qed.

End Settle.

(** ** A loop leaves alone what another selector has settled *)

Section Preserve.

Variable T : string -> bool.
Variable body : Node -> M Node.
Variable sel : Node -> bool.
Hypothesis body_ok :
  forall n s n' s', body n s = Ok (n', s') -> body_frame T n n'.

Variable sel1 done1 : Node -> bool.
Hypothesis sel1_T : forall m, sel1 m = true -> T (tag m) = false.
Hypothesis sel1_head : head_only sel1.
Hypothesis sel_head : head_only sel.
Hypothesis done1_shallow : shallow done1.
Hypothesis apart : forall m, sel1 m = true -> sel m = false.

Lemma for_each_preserves root s root' s' :
  for_each body (xpath sel root) root s = Ok (root', s') ->
  settled sel1 done1 root -> settled sel1 done1 root'.
Proof.
  intros H Hset q m' Hg Hs.
  destruct (for_each_observe_back T no_tag body body_ok sel1 _ done1 sel1_T
              sel1_head (shallow_shallow_in no_tag done1 done1_shallow)
              _ _ _ _ _
              (refs_ok_xpath no_tag sel root (fun _ _ => eq_refl))
              H q m' Hg Hs) as (m & Hm & Hh & Hd).
  assert (Hs1 : sel1 m = true) by (rewrite <- (sel1_head _ _ Hh); exact Hs).
  rewrite Hd; [eauto|].
  intros Hin. destruct (xpath_sound _ _ _ Hin) as (m2 & Hm2 & Hs2).
  rewrite Hm in Hm2. injection Hm2 as <-.
  rewrite (apart _ Hs1) in Hs2. discriminate.
Qed.

End Preserve.

(** ** The four device loops *)

Ltac sel_tag H :=
  first [ apply disk_sel_tag in H | apply nic_sel_tag in H
        | apply video_sel_tag in H | apply spice_sel_tag in H ].

(** A selected element has a tag no body writes to, and no two selectors
    select the same element. *)
Ltac sel_apart :=
  let m := fresh "m" in let H := fresh "H" in
  intros m H; sel_tag H;
  first [ rewrite H; reflexivity
        | unfold disk_sel, nic_sel, video_sel, spice_sel; rewrite H;
          reflexivity ].

Lemma disk_loop_settles root s root' s' :
  for_each disk_body (xpath disk_sel root) root s = Ok (root', s') ->
  settled disk_sel disk_done root'.
Proof.
  apply (for_each_settles T_disk disk_body disk_sel disk_done
           disk_body_frame disk_body_settles); auto using disk_sel_head,
    disk_done_shallow.
  sel_apart.
Qed.

Lemma nic_loop_settles root s root' s' :
  for_each nic_body (xpath nic_sel root) root s = Ok (root', s') ->
  settled nic_sel nic_done root'.
Proof.
  apply (for_each_settles T_nic nic_body nic_sel nic_done
           nic_body_frame nic_body_settles); auto using nic_sel_head,
    nic_done_shallow.
  sel_apart.
Qed.

Lemma video_loop_settles root s root' s' :
  for_each video_body (xpath video_sel root) root s = Ok (root', s') ->
  settled video_sel video_done root'.
Proof.
  apply (for_each_settles T_video video_body video_sel video_done
           video_body_frame video_body_settles); auto using video_sel_head,
    video_done_shallow.
  sel_apart.
Qed.

Lemma spice_loop_settles root s root' s' :
  for_each spice_body (xpath spice_sel root) root s = Ok (root', s') ->
  settled spice_sel spice_done root'.
Proof.
  apply (for_each_settles T_spice spice_body spice_sel spice_done
           spice_body_frame spice_body_settles); auto using spice_sel_head,
    spice_done_shallow.
  sel_apart.
Qed.

(** Each loop keeps what the loops of the other selectors have settled. *)
Ltac preserve_tac T body sel frame sel1 done1 :=
  apply (for_each_preserves T body sel frame sel1 done1);
  auto using disk_sel_head, nic_sel_head, video_sel_head, spice_sel_head,
    disk_done_shallow, nic_done_shallow, video_done_shallow,
    spice_done_shallow;
  sel_apart.

Lemma nic_loop_keeps_disk root s root' s' :
  for_each nic_body (xpath nic_sel root) root s = Ok (root', s') ->
  settled disk_sel disk_done root -> settled disk_sel disk_done root'.
Proof. preserve_tac T_nic nic_body nic_sel nic_body_frame disk_sel disk_done. Qed.

Lemma video_loop_keeps_disk root s root' s' :
  for_each video_body (xpath video_sel root) root s = Ok (root', s') ->
  settled disk_sel disk_done root -> settled disk_sel disk_done root'.
Proof.
  preserve_tac T_video video_body video_sel video_body_frame disk_sel disk_done.
Qed.

Lemma spice_loop_keeps_disk root s root' s' :
  for_each spice_body (xpath spice_sel root) root s = Ok (root', s') ->
  settled disk_sel disk_done root -> settled disk_sel disk_done root'.
Proof.
  preserve_tac T_spice spice_body spice_sel spice_body_frame disk_sel disk_done.
Qed.

Lemma video_loop_keeps_nic root s root' s' :
  for_each video_body (xpath video_sel root) root s = Ok (root', s') ->
  settled nic_sel nic_done root -> settled nic_sel nic_done root'.
Proof.
  preserve_tac T_video video_body video_sel video_body_frame nic_sel nic_done.
Qed.

Lemma spice_loop_keeps_nic root s root' s' :
  for_each spice_body (xpath spice_sel root) root s = Ok (root', s') ->
  settled nic_sel nic_done root -> settled nic_sel nic_done root'.
Proof.
  preserve_tac T_spice spice_body spice_sel spice_body_frame nic_sel nic_done.
Qed.

Lemma spice_loop_keeps_video root s root' s' :
  for_each spice_body (xpath spice_sel root) root s = Ok (root', s') ->
  settled video_sel video_done root -> settled video_sel video_done root'.
Proof.
  preserve_tac T_spice spice_body spice_sel spice_body_frame
               video_sel video_done.
Qed.

Lemma disk_loop_keeps_nic root s root' s' :
  for_each disk_body (xpath disk_sel root) root s = Ok (root', s') ->
  settled nic_sel nic_done root -> settled nic_sel nic_done root'.
Proof. preserve_tac T_disk disk_body disk_sel disk_body_frame nic_sel nic_done. Qed.

Lemma disk_loop_keeps_video root s root' s' :
  for_each disk_body (xpath disk_sel root) root s = Ok (root', s') ->
  settled video_sel video_done root -> settled video_sel video_done root'.
Proof.
  preserve_tac T_disk disk_body disk_sel disk_body_frame video_sel video_done.
Qed.

Lemma disk_loop_keeps_spice root s root' s' :
  for_each disk_body (xpath disk_sel root) root s = Ok (root', s') ->
  settled spice_sel spice_done root -> settled spice_sel spice_done root'.
Proof.
  preserve_tac T_disk disk_body disk_sel disk_body_frame spice_sel spice_done.
Qed.

(** ** The CPU section *)

Lemma add_changes_nil s : add_changes s [] = s.
Proof. destruct s. unfold add_changes. simpl. now rewrite app_nil_r. Qed.

Lemma add_changes_app s l1 l2 :
  add_changes (add_changes s l1) l2 = add_changes s (l1 ++ l2).
Proof. unfold add_changes. simpl. now rewrite app_assoc. Qed.

(** The section when the document has a [cpu] child. *)
Lemma cpu_section_present root s i cpu :
  find root "cpu" = Some (i, cpu) ->
  cpu_section root s =
  let fix_mode :=
    negb (String.eqb (get cpu "mode" "custom") "host-passthrough") in
  let cpu1 := if fix_mode then cpu_mode_set cpu else cpu in
  let ch1 := if fix_mode
             then [("cpu_mode", get cpu "mode" "custom", "host-passthrough")]
             else [] in
  match find root "vcpu" with
  | Some (_, vcpu_elem) =>
      match int (or_1 (text vcpu_elem)) with
      | Some n =>
          match find cpu "topology" with
          | None =>
              Ok (put_child root i (append_child cpu1 (topology_elem n)),
                  add_changes s
                    (ch1 ++ [("cpu_topology", "none", topology_note n)]))
          | Some _ => Ok (put_child root i cpu1, add_changes s ch1)
          end
      | None => Raise ValueError
      end
  | None => Ok (put_child root i cpu1, add_changes s ch1)
  end.
Proof.
  intros Hc. unfold cpu_section. rewrite Hc.
  destruct (negb (String.eqb (get cpu "mode" "custom") "host-passthrough"));
    cbv zeta; unfold bind at 1.
  - unfold bind at 1. unfold append at 1. unfold ret at 1.
    fold (cpu_mode_set cpu).
    destruct (find root "vcpu") as [[j v]|]; [|reflexivity].
    unfold bind at 1, int_or_raise.
    destruct (int (or_1 (text v))) as [n|]; [|reflexivity]. unfold ret at 1.
    change (find (cpu_mode_set cpu) "topology") with (find cpu "topology").
    destruct (find cpu "topology") as [[k tp]|]; [reflexivity|].
    unfold bind, append, ret, add_changes. simpl.
    rewrite <- app_assoc. do 3 f_equal.
    exact (put_child_SubElement (cpu_mode_set cpu) "topology"
             (topology_elem n)).
  - unfold ret at 1. rewrite add_changes_nil.
    destruct (find root "vcpu") as [[j v]|]; [|reflexivity].
    unfold bind at 1, int_or_raise.
    destruct (int (or_1 (text v))) as [n|]; [|reflexivity]. unfold ret at 1.
    destruct (find cpu "topology") as [[k tp]|]; [reflexivity|].
    unfold bind, append, ret, add_changes. simpl. do 3 f_equal.
    exact (put_child_SubElement cpu "topology" (topology_elem n)).
Qed.

(** The section when the document has no [cpu] child. *)
Lemma cpu_section_absent root s :
  find root "cpu" = None ->
  cpu_section root s =
  match find root "vcpu" with
  | Some (j, vcpu_elem) =>
      match text vcpu_elem with
      | Some t =>
          match int t with
          | Some n =>
              Ok (addnext root j (new_cpu n),
                  add_changes s [("cpu_mode", "default", "host-passthrough");
                                 ("cpu_topology", "none", topology_note n)])
          | None => Raise ValueError
          end
      | None => Raise TypeError
      end
  | None =>
      Ok (append_child root (new_cpu 1),
          add_changes s [("cpu_mode", "default", "host-passthrough");
                         ("cpu_topology", "none", topology_note 1)])
  end.
Proof.
  intros Hc. unfold cpu_section. rewrite Hc. cbv zeta.
  destruct (find root "vcpu") as [[j v]|].
  - unfold bind at 1. destruct (text v) as [t|]; [|reflexivity].
    unfold int_or_raise. destruct (int t) as [n|]; [|reflexivity].
    unfold ret at 1, bind, append, ret, add_changes. simpl.
    now rewrite <- app_assoc.
  - unfold bind, append, ret, add_changes. simpl. now rewrite <- app_assoc.
Qed.

Lemma find_from_insert_keep o t cs i c k x :
  find_from o t cs = Some (k, x) -> k < o + i ->
  find_from o t (insert_at i c cs) = Some (k, x).
Proof.
  revert o i; induction cs as [|c0 cs IH]; intros o i; simpl;
    [discriminate|].
  destruct (String.eqb (tag c0) t) eqn:E.
  - intros [= <- <-] Hk. destruct i as [|i]; [lia|]. simpl. now rewrite E.
  - intros Hf Hk. destruct (find_from_some _ _ _ _ _ Hf) as (j & -> & _).
    destruct i as [|i]; [lia|]. simpl. rewrite E. apply IH; [assumption|lia].
Qed.

Lemma find_from_insert_new o t cs i c :
  find_from o t cs = None -> tag c = t -> i <= length cs ->
  find_from o t (insert_at i c cs) = Some (o + i, c).
Proof.
  intros Hf Ht. apply String.eqb_eq in Ht.
  revert o i Hf; induction cs as [|c0 cs IH]; intros o i; simpl.
  - intros _ Hi. replace i with 0 by lia. simpl.
    now rewrite Ht, Nat.add_0_r.
  - destruct (String.eqb (tag c0) t) eqn:E; [discriminate|].
    intros Hf Hi. destruct i as [|i]; simpl.
    + now rewrite Ht, Nat.add_0_r.
    + rewrite E, (IH (S o) i Hf) by lia. do 2 f_equal. lia.
Qed.

Lemma find_from_insert_other o t cs i c :
  tag c <> t ->
  option_map snd (find_from o t (insert_at i c cs))
  = option_map snd (find_from o t cs).
Proof.
  intros Ht. apply String.eqb_neq in Ht.
  revert o i; induction cs as [|c0 cs IH]; intros o i; simpl.
  - destruct i; simpl; now rewrite Ht.
  - destruct i as [|i]; simpl.
    + rewrite Ht. simpl. destruct (String.eqb (tag c0) t); [reflexivity|].
      generalize (S o) at 2. generalize (S (S o)).
      clear. induction cs as [|c1 cs IH]; intros a b; simpl; [reflexivity|].
      destruct (String.eqb (tag c1) t); [reflexivity | apply IH].
    + destruct (String.eqb (tag c0) t); [reflexivity | apply IH].
Qed.

Lemma or_1_int t n : int t = Some n -> or_1 (Some t) = t.
Proof. destruct t; [discriminate | reflexivity]. Qed.

Lemma nth_error_lt {A} (l : list A) i x :
  nth_error l i = Some x -> i < length l.
Proof. intros H. apply nth_error_Some. congruence. Qed.

Lemma find_addnext_new root j c t :
  find root t = None -> tag c = t -> j < length (children root) ->
  find (addnext root j c) t = Some (S j, c).
Proof.
  intros Hf Ht Hj. unfold find, addnext in *. cbn [children with_children].
  now rewrite (find_from_insert_new 0 t _ (S j) c Hf Ht) by lia.
Qed.

Lemma find_addnext_keep root j c t k x :
  find root t = Some (k, x) -> k <= j ->
  find (addnext root j c) t = Some (k, x).
Proof.
  intros Hf Hk. unfold find, addnext in *. cbn [children with_children].
  apply find_from_insert_keep; [assumption | lia].
Qed.

Lemma find_addnext_other root j c t :
  tag c <> t ->
  option_map snd (find (addnext root j c) t) = option_map snd (find root t).
Proof.
  intros Ht. unfold find, addnext. cbn [children with_children].
  now apply find_from_insert_other.
Qed.

(** After the section the document has its [cpu] element in the target
    state. *)
Lemma cpu_section_settles root s root' s' :
  cpu_section root s = Ok (root', s') -> cpu_done root' = true.
Proof.
  destruct (find root "cpu") as [[i cpu]|] eqn:Hc.
  - rewrite (cpu_section_present _ _ _ _ Hc). cbv zeta.
    destruct (find_some _ _ _ _ Hc) as [Hn Ht].
    set (fix_mode := negb (String.eqb (get cpu "mode" "custom")
                                      "host-passthrough")).
    set (cpu1 := if fix_mode then cpu_mode_set cpu else cpu).
    assert (H1 : tag cpu1 = tag cpu /\ children cpu1 = children cpu /\
                 String.eqb (get cpu1 "mode" "custom") "host-passthrough"
                 = true).
    { subst cpu1 fix_mode.
      destruct (String.eqb (get cpu "mode" "custom") "host-passthrough")
        eqn:E; simpl; repeat split; auto.
      unfold cpu_mode_set. rewrite !get_set_attr. reflexivity. }
    destruct H1 as (Ht1 & Hk1 & Hm1).
    assert (Hv : forall c, tag c = tag cpu ->
                 find (put_child root i c) "vcpu" = find root "vcpu").
    { intros c Htc. apply (find_put_child_other _ _ _ _ _ Hn Htc).
      rewrite Ht. discriminate. }
    unfold cpu_done.
    destruct (find root "vcpu") as [[j v]|] eqn:Hvc.
    + destruct (int (or_1 (text v))) as [n|] eqn:Hi; [|discriminate].
      destruct (find cpu "topology") as [[k tp]|] eqn:Htp.
      * intros [= <- _].
        rewrite (find_put_child_self _ _ _ _ _ Hc Ht1), Hm1, (Hv _ Ht1), Hi.
        unfold find in *. rewrite Hk1, Htp. reflexivity.
      * intros [= <- _].
        rewrite (find_put_child_self _ _ _ _ (append_child cpu1 _) Hc Ht1).
        rewrite (Hv (append_child cpu1 (topology_elem n)) Ht1), Hi.
        erewrite (find_append_child_new cpu1 "topology");
          [| unfold find in *; now rewrite Hk1 | reflexivity].
        unfold get, get_opt in *. simpl. now rewrite Hm1.
    + intros [= <- _].
      rewrite (find_put_child_self _ _ _ _ _ Hc Ht1), Hm1, (Hv _ Ht1).
      reflexivity.
  - rewrite (cpu_section_absent _ _ Hc). unfold cpu_done.
    destruct (find root "vcpu") as [[j v]|] eqn:Hvc.
    + destruct (text v) as [t|] eqn:Htx; [|discriminate].
      destruct (int t) as [n|] eqn:Hi; [|discriminate].
      intros [= <- _]. destruct (find_some _ _ _ _ Hvc) as [Hn _].
      rewrite (find_addnext_new _ j (new_cpu n) _ Hc eq_refl)
        by (now apply nth_error_lt in Hn).
      rewrite (find_addnext_keep _ j (new_cpu n) _ _ _ Hvc) by lia.
      rewrite Htx, (or_1_int _ _ Hi), Hi. reflexivity.
    + intros [= <- _].
      rewrite (find_append_child_new _ "cpu" (new_cpu 1) Hc eq_refl).
      rewrite (find_append_child_other _ "vcpu" (new_cpu 1))
        by discriminate.
      now rewrite Hvc.
Qed.

(** *** The section and the device elements *)

Lemma match_find_snd {B} (o o' : option (nat * Node)) (f : Node -> B) d :
  option_map snd o = option_map snd o' ->
  match o with Some (_, c) => f c | None => d end
  = match o' with Some (_, c) => f c | None => d end.
Proof.
  destruct o as [[k c]|], o' as [[k' c']|]; simpl; congruence.
Qed.

(** The device conditions only look at the first [target], [driver],
    [model] and [gl] child. *)
Lemma device_done_by_find n n' :
  (forall t, T_cpu t = false ->
     option_map snd (find n' t) = option_map snd (find n t)) ->
  disk_done n' = disk_done n /\ nic_done n' = nic_done n /\
  video_done n' = video_done n /\ spice_done n' = spice_done n.
Proof.
  intros H.
  unfold disk_done, bus_pending, cache_pending, nic_done, nic_pending,
    video_done, video_pending, spice_done.
  pose proof (H "target" eq_refl) as H1. pose proof (H "driver" eq_refl) as H2.
  pose proof (H "model" eq_refl) as H3. pose proof (H "gl" eq_refl) as H4.
  destruct (find n' "target") as [[? ?]|], (find n "target") as [[? ?]|];
    simpl in H1; try discriminate; try injection H1 as ->;
  destruct (find n' "driver") as [[? ?]|], (find n "driver") as [[? ?]|];
    simpl in H2; try discriminate; try injection H2 as ->;
  destruct (find n' "model") as [[? ?]|], (find n "model") as [[? ?]|];
    simpl in H3; try discriminate; try injection H3 as ->;
  destruct (find n' "gl") as [[? ?]|], (find n "gl") as [[? ?]|];
    simpl in H4; try discriminate; try injection H4 as ->;
  auto.
Qed.

Lemma frame_keeps_settled T sel1 done1 root root' :
  body_frame T root root' ->
  (forall m, sel1 m = true -> T (tag m) = false) ->
  head_only sel1 -> shallow done1 ->
  done1 root' = done1 root ->
  settled sel1 done1 root -> settled sel1 done1 root'.
Proof.
  intros Hf HT Hh Hsh Hd Hset q m' Hg Hs.
  destruct (set_at_observe_back T no_tag sel1 _ done1 HT
              (shallow_shallow_in no_tag done1 Hsh) [] root root root' q m'
              eq_refl eq_refl Hf Hg Hs) as (m & Hm & Hhm & Hdm).
  assert (Hsm : sel1 m = true) by (rewrite <- (Hh _ _ Hhm); exact Hs).
  destruct q as [|j q].
  - simpl in Hg, Hm. injection Hg as <-. injection Hm as <-.
    rewrite Hd. apply (Hset [] root eq_refl Hsm).
  - rewrite Hdm by discriminate. eauto.
Qed.

Lemma nth_error_insert_at (x : Node) cs i j (y : Node) :
  nth_error (insert_at i x cs) j = Some y ->
  y = x \/ exists j', nth_error cs j' = Some y.
Proof.
  revert i j; induction cs as [|c cs IH]; intros [|i] [|j]; simpl.
  - intros [= <-]. now left.
  - destruct j; discriminate.
  - intros [= <-]. now left.
  - destruct j; discriminate.
  - intros [= <-]. now left.
  - intros H. right. exists j. exact H.
  - intros [= <-]. right. now exists 0.
  - intros H. destruct (IH _ _ H) as [->|(j' & Hj')]; [now left|].
    right. now exists (S j').
Qed.

Lemma insert_keeps_settled sel1 done1 root k c :
  head_only sel1 ->
  (forall r m, get_at c r = Some m -> sel1 m = false) ->
  done1 (with_children root (insert_at k c (children root))) = done1 root ->
  settled sel1 done1 root ->
  settled sel1 done1 (with_children root (insert_at k c (children root))).
Proof.
  intros Hh Hc Hd Hset q m' Hg Hs. destruct q as [|j q]; simpl in Hg.
  - injection Hg as <-. rewrite Hd. apply (Hset [] root eq_refl).
    rewrite <- Hs. apply Hh. destruct root; reflexivity.
  - destruct (nth_error (insert_at k c (children root)) j) as [y|] eqn:Hy;
      [|discriminate].
    apply nth_error_insert_at in Hy as [->|(j' & Hj')].
    + rewrite (Hc _ _ Hg) in Hs. discriminate.
    + apply (Hset (j' :: q) m'); [|assumption]. simpl. now rewrite Hj'.
Qed.

Lemma new_cpu_tags n r m :
  get_at (new_cpu n) r = Some m -> T_cpu (tag m) = true.
Proof.
  destruct r as [|[|i] [|j r]]; simpl; try discriminate;
    try (now intros [= <-]).
  - destruct j; discriminate.
  - destruct i; discriminate.
  - destruct i; discriminate.
Qed.

Lemma T_cpu_not_cpu t : T_cpu t = false -> "cpu" <> t.
Proof. intros H <-. discriminate. Qed.

(** What the section does to the tree: either it edits the [cpu] child in
    place, or it inserts a new [cpu] child. *)
Lemma cpu_section_shape root s root' s' :
  cpu_section root s = Ok (root', s') ->
  (exists i cpu cpu',
      find root "cpu" = Some (i, cpu) /\ root' = put_child root i cpu' /\
      tweak T_cpu cpu cpu')
  \/ (find root "cpu" = None /\
      exists k n, k <= length (children root) /\
                  root' = with_children root
                            (insert_at k (new_cpu n) (children root))).
Proof.
  destruct (find root "cpu") as [[i cpu]|] eqn:Hc.
  - rewrite (cpu_section_present _ _ _ _ Hc). cbv zeta. intros H. left.
    destruct (find_some _ _ _ _ Hc) as [_ Ht].
    assert (HT : T_cpu (tag cpu) = true) by (rewrite Ht; reflexivity).
    set (cpu1 := if negb _ then cpu_mode_set cpu else cpu) in H.
    assert (H1 : tweak T_cpu cpu cpu1).
    { subst cpu1. destruct (negb _); [|apply tweak_same].
      unfold cpu_mode_set.
      repeat apply tweak_set_attr; auto using tweak_same. }
    assert (H2 : forall n, tweak T_cpu cpu
                             (append_child cpu1 (topology_elem n))).
    { intros n. apply tweak_append_child; auto. now apply fresh_leaf. }
    exists i, cpu.
    destruct (find root "vcpu") as [[j v]|].
    + destruct (int (or_1 (text v))) as [n|]; [|discriminate].
      destruct (find cpu "topology"); injection H as <- _; eauto.
    + injection H as <- _; eauto.
  - rewrite (cpu_section_absent _ _ Hc). intros H. right.
    split; [reflexivity|].
    destruct (find root "vcpu") as [[j v]|] eqn:Hv.
    + destruct (text v) as [t|]; [|discriminate].
      destruct (int t) as [n|]; [|discriminate]. injection H as <- _.
      destruct (find_some _ _ _ _ Hv) as [Hn _]. apply nth_error_lt in Hn.
      exists (S j), n. split; [lia | reflexivity].
    + injection H as <- _. exists (length (children root)), 1%Z.
      split; [lia|]. unfold append_child.
      now rewrite insert_at_length_app.
Qed.

Lemma cpu_section_keeps_settled sel1 done1 root s root' s' :
  (forall m, sel1 m = true -> T_cpu (tag m) = false) ->
  head_only sel1 -> shallow done1 ->
  (forall n n',
     (forall t, T_cpu t = false ->
        option_map snd (find n' t) = option_map snd (find n t)) ->
     done1 n' = done1 n) ->
  cpu_section root s = Ok (root', s') ->
  settled sel1 done1 root -> settled sel1 done1 root'.
Proof.
  intros HT Hh Hsh Hd H.
  apply cpu_section_shape in H
    as [(i & cpu & cpu' & Hc & -> & Ht)|(Hc & k & n & Hk & ->)].
  - destruct (find_some _ _ _ _ Hc) as [Hn Htag].
    apply (frame_keeps_settled T_cpu); auto.
    + apply (body_frame_put_child _ _ _ _ _ _ (body_frame_refl _ _) Hn Ht).
    + apply Hd. intros t Htt. f_equal.
      apply (find_put_child_other _ _ _ _ _ Hn (tweak_tag _ _ _ Ht)).
      rewrite Htag. now apply T_cpu_not_cpu.
  - apply insert_keeps_settled; auto.
    + intros r m Hg. apply new_cpu_tags in Hg.
      destruct (sel1 m) eqn:E; [|reflexivity].
      rewrite (HT _ E) in Hg. discriminate.
    + apply Hd. intros t Htt. unfold find. cbn [children with_children].
      apply find_from_insert_other. now apply T_cpu_not_cpu.
Qed.

Lemma cpu_section_keeps_devices root s root' s' :
  cpu_section root s = Ok (root', s') ->
  (settled disk_sel disk_done root -> settled disk_sel disk_done root') /\
  (settled nic_sel nic_done root -> settled nic_sel nic_done root') /\
  (settled video_sel video_done root -> settled video_sel video_done root') /\
  (settled spice_sel spice_done root -> settled spice_sel spice_done root').
Proof.
  intros H. repeat split;
    apply (cpu_section_keeps_settled _ _ _ _ _ _) with (5 := H);
    auto using disk_sel_head, nic_sel_head, video_sel_head, spice_sel_head,
      disk_done_shallow, nic_done_shallow, video_done_shallow,
      spice_done_shallow;
    try sel_apart;
    intros n n' Hf; apply (device_done_by_find n n' Hf).
Qed.

(** ** Writes do not move the selected elements *)

Lemma xpath_from_Forall2 sel i cs cs' :
  Forall2 (fun c c' => xpath sel c' = xpath sel c) cs cs' ->
  xpath_from sel i cs' = xpath_from sel i cs.
Proof.
  intros H. revert i; induction H as [|c c' cs cs' Hc _ IH]; intros i; simpl.
  - reflexivity.
  - now rewrite Hc, IH.
Qed.

Lemma xpath_from_app sel i cs extra :
  xpath_from sel i (cs ++ extra)
  = xpath_from sel i cs ++ xpath_from sel (i + length cs) extra.
Proof.
  revert i; induction cs as [|c cs IH]; intros i; simpl.
  - now rewrite Nat.add_0_r.
  - rewrite IH, <- app_assoc. do 3 f_equal. lia.
Qed.

Lemma xpath_from_fresh T sel i extra :
  (forall m, sel m = true -> T (tag m) = false) ->
  Forall (fresh T) extra -> xpath_from sel i extra = [].
Proof.
  intros HT H. revert i; induction H as [|e extra [Ht He] _ IH]; intros i;
    simpl; [reflexivity|].
  rewrite IH, xpath_eq, He. simpl.
  destruct (sel e) eqn:E; [|reflexivity].
  rewrite (HT _ E) in Ht. discriminate.
Qed.

Lemma kids_xpath_from T sel i cs cs'' :
  (forall m, sel m = true -> T (tag m) = false) ->
  (forall c c', In c cs -> tweak T c c' -> xpath sel c' = xpath sel c) ->
  kids T cs cs'' -> xpath_from sel i cs'' = xpath_from sel i cs.
Proof.
  intros HT IH (cs' & extra & -> & Hcs & Hx).
  rewrite xpath_from_app, (xpath_from_fresh T sel _ extra HT Hx), app_nil_r.
  apply xpath_from_Forall2.
  clear Hx. induction Hcs as [|c c' cs cs' Hc _ IHcs]; constructor.
  - apply IH; [now left | assumption].
  - apply IHcs. intros d d' Hd. apply IH. now right.
Qed.

Lemma tweak_xpath T sel :
  (forall m, sel m = true -> T (tag m) = false) ->
  forall c c', tweak T c c' -> xpath sel c' = xpath sel c.
Proof.
  intros HT. induction c as [t a x cs IH] using Node_ind. intros c' H.
  pose proof (tweak_kids _ _ _ H) as Hk.
  pose proof (tweak_tag _ _ _ H) as Ht.
  destruct (T t) eqn:E.
  - rewrite (xpath_eq sel c'), (xpath_eq sel (Element t a x cs)).
    simpl children in *.
    rewrite (kids_xpath_from T sel 0 cs (children c') HT); auto.
    + f_equal.
      destruct (sel c') eqn:E1;
        [apply HT in E1; simpl in Ht; congruence|].
      destruct (sel (Element t a x cs)) eqn:E2;
        [apply HT in E2; simpl in E2; congruence|].
      reflexivity.
    + rewrite Forall_forall in IH. auto.
  - now rewrite (tweak_outside _ _ _ H E).
Qed.

Lemma body_frame_xpath T sel n n' :
  (forall m, sel m = true -> T (tag m) = false) -> head_only sel ->
  body_frame T n n' -> xpath sel n' = xpath sel n.
Proof.
  intros HT Hh [Hhd Hk]. rewrite (xpath_eq sel n'), (xpath_eq sel n).
  rewrite (Hh _ _ Hhd). f_equal.
  apply (kids_xpath_from T); auto.
  intros c c' _. now apply tweak_xpath.
Qed.

Lemma set_at_xpath sel p : forall root n n',
  head_only sel ->
  get_at root p = Some n -> head n' = head n ->
  xpath sel n' = xpath sel n ->
  xpath sel (set_at root p n') = xpath sel root.
Proof.
  induction p as [|i p IH]; intros root n n' Hh; simpl.
  - now intros [= <-].
  - destruct (nth_error (children root) i) as [c|] eqn:Hi; [|discriminate].
    intros Hn Hhd Hx.
    rewrite (xpath_eq sel (put_child _ _ _)), (xpath_eq sel root).
    rewrite (Hh _ _ (head_put_child root i _)). f_equal.
    rewrite children_put_child. apply xpath_from_Forall2.
    apply Forall2_flip.
    apply Forall2_replace_nth_l with (c := c); auto.
    simpl. eapply IH; eauto.
Qed.

Lemma for_each_xpath T body sel1 refs :
  (forall n s n' s', body n s = Ok (n', s') -> body_frame T n n') ->
  (forall m, sel1 m = true -> T (tag m) = false) -> head_only sel1 ->
  forall root s root' s',
    for_each body refs root s = Ok (root', s') ->
    xpath sel1 root' = xpath sel1 root.
Proof.
  intros Hb HT Hh. induction refs as [|p refs IH]; intros root s root' s';
    simpl.
  - now intros [= <- _].
  - destruct (get_at root p) as [x|] eqn:Hx; [|discriminate].
    intros H. apply bind_ok in H as (x' & s1 & Hbx & H).
    rewrite (IH _ _ _ _ H). pose proof (Hb _ _ _ _ Hbx) as Hf.
    apply (set_at_xpath sel1 p root x x' Hh Hx); [apply Hf|].
    now apply (body_frame_xpath T).
Qed.

(** * The order of the change records *)

Lemma flat_map_ext_in {A B} (f g : A -> list B) l :
  (forall a, In a l -> f a = g a) -> flat_map f l = flat_map g l.
Proof.
  induction l as [|a l IH]; intros H; simpl; [reflexivity|].
  rewrite (H a (or_introl eq_refl)), IH; [reflexivity|].
  intros b Hb. apply H. now right.
Qed.

Section Keys.

Variable T : string -> bool.
Variable S : string -> bool.
Variable body : Node -> M Node.
Variable sel : Node -> bool.
Variable keys_of : Node -> list string.
Hypothesis body_ok :
  forall n s n' s', body n s = Ok (n', s') -> body_frame T n n'.
Hypothesis body_keys :
  forall n s n' s', body n s = Ok (n', s') ->
    map key (changes s') = map key (changes s) ++ keys_of n.
Hypothesis sel_T : forall m, sel m = true -> T (tag m) = false.
Hypothesis sel_S : forall m, sel m = true -> S (tag m) = false.
Hypothesis sel_head : head_only sel.
Hypothesis keys_shallow : shallow_in S keys_of.

Lemma for_each_keys refs : forall root s root' s',
  NoDup refs ->
  (forall p, In p refs -> exists n, get_at root p = Some n /\ sel n = true) ->
  for_each body refs root s = Ok (root', s') ->
  map key (changes s')
  = map key (changes s) ++ flat_map (keys_at keys_of root) refs.
Proof.
  induction refs as [|p refs IH]; intros root s root' s' Hnd Hv; simpl.
  - intros [= _ <-]. now rewrite app_nil_r.
  - destruct (Hv p (or_introl eq_refl)) as (x & Hx & Hsx). rewrite Hx.
    intros H. apply bind_ok in H as (x' & s1 & Hb & H).
    inversion Hnd as [|? ? Hp Hnd']; subst.
    pose proof (body_ok _ _ _ _ Hb) as Hf.
    assert (Hstep : forall r, In r refs ->
              exists n, get_at (set_at root p x') r = Some n /\
                        sel n = true /\
                        keys_at keys_of (set_at root p x') r
                        = keys_at keys_of root r).
    { intros r Hr. destruct (Hv r (or_intror Hr)) as (m & Hm & Hsm).
      destruct (set_at_observe T S sel _ keys_of sel_T keys_shallow p root
                  x x' r m Hx (sel_S _ Hsx) Hf) as (m1 & Hg1 & Hh1 & Hk1);
        auto.
      { intros ->. contradiction. }
      exists m1. split; [assumption|].
      split; [now rewrite (sel_head _ _ Hh1)|].
      unfold keys_at. now rewrite Hg1, Hm. }
    rewrite (IH _ _ _ _ Hnd' (fun r Hr =>
               match Hstep r Hr with
               | ex_intro _ n (conj Hn (conj Hs _)) =>
                   ex_intro _ n (conj Hn Hs)
               end) H).
    rewrite (body_keys _ _ _ _ Hb), <- app_assoc. do 2 f_equal.
    + unfold keys_at. now rewrite Hx.
    + apply flat_map_ext_in. intros r Hr.
      now destruct (Hstep r Hr) as (n & _ & _ & Hk).
Qed.

Lemma loop_keys root s root' s' :
  for_each body (xpath sel root) root s = Ok (root', s') ->
  map key (changes s') = map key (changes s) ++ scan sel keys_of root.
Proof.
  apply for_each_keys; [apply NoDup_xpath | apply xpath_sound].
Qed.

End Keys.

(** ** The keys each body records *)

Lemma append_ok c s u s' :
  append c s = Ok (u, s') -> changes s' = changes s ++ [c].
Proof. unfold append. now intros [= _ <-]. Qed.

Lemma bind_new_dev_ok v s u s' :
  bind_new_dev v s = Ok (u, s') -> changes s' = changes s.
Proof. unfold bind_new_dev. now intros [= _ <-]. Qed.

Lemma read_new_dev_ok s v s' : read_new_dev s = Ok (v, s') -> s' = s.
Proof.
  unfold read_new_dev. destruct (new_dev s); [|discriminate].
  now intros [= _ <-].
Qed.

Lemma disk_body_keys disk s disk' s' :
  disk_body disk s = Ok (disk', s') ->
  map key (changes s') = map key (changes s) ++ disk_keys disk.
Proof.
  unfold disk_body, disk_keys, bus_pending, cache_pending. intros H.
  bind_inv H.
  assert (H1 : map key (changes s0)
               = map key (changes s)
                 ++ (if match find disk "target" with
                        | Some (_, target) =>
                            mem (get target "bus" "unknown")
                                ["ide"; "sata"; "scsi"]
                        | None => false
                        end then ["disk_bus"] else [])).
  { destruct (find disk "target") as [[i t]|].
    - destruct (mem _ _).
      + bind_inv Ha. bind_inv Ha. bind_inv Ha. ret_inv Ha.
        apply append_ok in Ha2. apply read_new_dev_ok in Ha1. subst.
        rewrite Ha2, map_app. simpl. do 2 f_equal.
        destruct (truthy _).
        * bind_inv Ha0. ret_inv Ha0. apply bind_new_dev_ok in Ha.
          now rewrite Ha.
        * now ret_inv Ha0.
      + ret_inv Ha. now rewrite app_nil_r.
    - ret_inv Ha. now rewrite app_nil_r. }
  rewrite app_assoc, <- H1.
  destruct (find disk "driver") as [[j dr]|].
  - destruct (_ || _)%bool.
    + bind_inv H. ret_inv H. apply append_ok in Ha0.
      now rewrite Ha0, map_app.
    + ret_inv H. now rewrite app_nil_r.
  - ret_inv H. now rewrite app_nil_r.
Qed.

Lemma nic_body_keys iface s iface' s' :
  nic_body iface s = Ok (iface', s') ->
  map key (changes s') = map key (changes s) ++ nic_keys iface.
Proof.
  unfold nic_body, nic_keys, nic_pending. intros H.
  destruct (find iface "model") as [[i m]|].
  - destruct (mem _ _).
    + bind_inv H. ret_inv H. apply append_ok in Ha.
      now rewrite Ha, map_app.
    + ret_inv H. now rewrite app_nil_r.
  - ret_inv H. now rewrite app_nil_r.
Qed.

Lemma video_body_keys video s video' s' :
  video_body video s = Ok (video', s') ->
  map key (changes s') = map key (changes s) ++ video_keys video.
Proof.
  unfold video_body, video_keys, video_pending, accel_flag. intros H.
  destruct (find video "model") as [[i m]|].
  - destruct (mem _ _).
    + change (find (set_attr (set_attr (set_attr m "type" "virtio")
                                       "heads" "1") "primary" "yes")
                   "acceleration")
        with (find m "acceleration") in H.
      destruct (find m "acceleration") as [[k acc]|].
      * bind_inv H. bind_inv H. ret_inv H. apply append_ok in Ha.
        destruct (String.eqb (get acc "accel3d" "no") "yes"); simpl in Ha0.
        -- ret_inv Ha0. now rewrite Ha, map_app.
        -- apply append_ok in Ha0. rewrite Ha0, Ha, !map_app, <- app_assoc.
           reflexivity.
      * bind_inv H. bind_inv H. ret_inv H. apply append_ok in Ha.
        simpl in Ha0. apply append_ok in Ha0.
        rewrite Ha0, Ha, !map_app, <- app_assoc. reflexivity.
    + ret_inv H. now rewrite app_nil_r.
  - ret_inv H. now rewrite app_nil_r.
Qed.

Lemma spice_body_keys graphics s graphics' s' :
  spice_body graphics s = Ok (graphics', s') ->
  map key (changes s') = map key (changes s) ++ spice_keys graphics.
Proof.
  unfold spice_body, spice_keys, spice_done. intros H.
  destruct (find graphics "gl") as [[k gl]|].
  - destruct (String.eqb (get gl "enable" "no") "yes"); simpl in H.
    + ret_inv H. now rewrite app_nil_r.
    + bind_inv H. ret_inv H. apply append_ok in Ha. now rewrite Ha, map_app.
  - simpl in H. bind_inv H. ret_inv H. apply append_ok in Ha.
    now rewrite Ha, map_app.
Qed.

Lemma cpu_section_keys root s root' s' :
  cpu_section root s = Ok (root', s') ->
  map key (changes s') = map key (changes s) ++ cpu_keys root.
Proof.
  unfold cpu_keys. destruct (find root "cpu") as [[i cpu]|] eqn:Hc.
  - rewrite (cpu_section_present _ _ _ _ Hc). cbv zeta.
    destruct (String.eqb (get cpu "mode" "custom") "host-passthrough");
      simpl negb; cbv iota;
      (destruct (find root "vcpu") as [[j v]|];
       [destruct (int (or_1 (text v))); [|discriminate];
        destruct (find cpu "topology") as [[k tp]|]|]);
      intros [= _ <-]; simpl; rewrite ?map_app; reflexivity.
  - rewrite (cpu_section_absent _ _ Hc).
    destruct (find root "vcpu") as [[j v]|].
    + destruct (text v); [|discriminate].
      destruct (int _); [|discriminate].
      intros [= _ <-]. simpl. now rewrite map_app.
    + intros [= _ <-]. simpl. now rewrite map_app.
Qed.

(** ** What the keys depend on *)

Lemma disk_keys_shallow : shallow disk_keys.
Proof.
  intros n n' Hh Hc. unfold disk_keys.
  now rewrite (bus_pending_shallow n n' Hh Hc),
              (cache_pending_shallow n n' Hh Hc).
Qed.

Lemma nic_keys_shallow : shallow nic_keys.
Proof.
  intros n n' Hh Hc. unfold nic_keys.
  now rewrite (nic_pending_shallow n n' Hh Hc).
Qed.

Lemma spice_keys_shallow : shallow spice_keys.
Proof.
  intros n n' Hh Hc. unfold spice_keys.
  now rewrite (spice_done_shallow n n' Hh Hc).
Qed.

Lemma disk_keys_in : shallow_in no_tag disk_keys.
Proof. apply shallow_shallow_in, disk_keys_shallow. Qed.

Lemma nic_keys_in : shallow_in no_tag nic_keys.
Proof. apply shallow_shallow_in, nic_keys_shallow. Qed.

Lemma spice_keys_in : shallow_in no_tag spice_keys.
Proof. apply shallow_shallow_in, spice_keys_shallow. Qed.

(** The first child with tag [t], when [t] is in [S]: same index, same
    attributes, and children with the same heads. *)
Lemma find_shallow_in S t n n' :
  S t = true ->
  Forall2 (fun c c' =>
             head c = head c' /\
             (S (tag c) = true ->
              Forall2 (fun d d' => head d = head d')
                      (children c) (children c')))
          (children n) (children n') ->
  match find n t, find n' t with
  | Some (k, c), Some (k', c') =>
      k = k' /\ head c = head c' /\
      Forall2 (fun d d' => head d = head d') (children c) (children c')
  | None, None => True
  | _, _ => False
  end.
Proof.
  intros HS H.
  pose proof (find_from_Forall2 _ 0 t _ _
                (fun c c' Hc => proj1 (head_eq c c' (proj1 Hc))) H) as Hf.
  unfold find.
  destruct (find_from 0 t (children n)) as [[k c]|] eqn:E,
           (find_from 0 t (children n')) as [[k' c']|]; auto.
  destruct Hf as (Hk & Hh & Hc). repeat split; auto.
  apply Hc. destruct (find_from_some _ _ _ _ _ E) as (_ & _ & _ & ->).
  exact HS.
Qed.

Lemma accel_flag_shallow : shallow_in S_model accel_flag.
Proof.
  intros n n' _ Hc. unfold accel_flag.
  pose proof (find_shallow_in S_model "model" n n' eq_refl Hc) as Hf.
  destruct (find n "model") as [[k m]|], (find n' "model") as [[k' m']|];
    try contradiction; [|reflexivity].
  destruct Hf as (_ & _ & Hk).
  pose proof (find_shallow "acceleration" m m' Hk) as Ha.
  destruct (find m "acceleration") as [[? ?]|],
           (find m' "acceleration") as [[? ?]|];
    try contradiction; [|reflexivity].
  destruct Ha as [_ Ha]. unfold get, get_opt. now rewrite Ha.
Qed.

Lemma video_keys_shallow : shallow_in S_model video_keys.
Proof.
  intros n n' Hh Hc. unfold video_keys.
  rewrite (accel_flag_shallow n n' Hh Hc).
  now rewrite (shallow_shallow_in S_model _ video_pending_shallow n n' Hh Hc).
Qed.

Lemma cpu_keys_shallow : shallow_in S_cpu cpu_keys.
Proof.
  intros n n' _ Hc. unfold cpu_keys.
  pose proof (find_shallow_in S_cpu "cpu" n n' eq_refl Hc) as Hf.
  assert (Hv : match find n "vcpu", find n' "vcpu" with
               | Some _, Some _ | None, None => True
               | _, _ => False
               end).
  { pose proof (find_from_Forall2 _ 0 "vcpu" _ _
                  (fun c c' Hc => proj1 (head_eq c c' (proj1 Hc))) Hc) as H.
    unfold find.
    destruct (find_from 0 "vcpu" (children n)) as [[? ?]|],
             (find_from 0 "vcpu" (children n')) as [[? ?]|]; auto. }
  destruct (find n "cpu") as [[k c]|], (find n' "cpu") as [[k' c']|];
    try contradiction; [|reflexivity].
  destruct Hf as (_ & Hh & Hk). apply head_eq in Hh as (_ & Ha & _).
  pose proof (find_shallow "topology" c c' Hk) as Ht.
  unfold get, get_opt. rewrite Ha. f_equal.
  destruct (find n "vcpu") as [[? ?]|], (find n' "vcpu") as [[? ?]|];
    try contradiction; [|reflexivity].
  destruct (find c "topology") as [[? ?]|], (find c' "topology") as [[? ?]|];
    try contradiction; reflexivity.
Qed.

(** ** A loop does not change what the other sections will record *)

Section KeepScan.

Variable T : string -> bool.
Variable S : string -> bool.
Variable body : Node -> M Node.
Variable sel : Node -> bool.
Hypothesis body_ok :
  forall n s n' s', body n s = Ok (n', s') -> body_frame T n n'.
Hypothesis sel_S : forall m, sel m = true -> S (tag m) = false.

Variable sel1 : Node -> bool.
Variable keys1 : Node -> list string.
Hypothesis sel1_T : forall m, sel1 m = true -> T (tag m) = false.
Hypothesis sel1_head : head_only sel1.
Hypothesis keys1_shallow : shallow_in S keys1.
Hypothesis apart : forall m, sel1 m = true -> sel m = false.

Lemma loop_keeps_scan root s root' s' :
  for_each body (xpath sel root) root s = Ok (root', s') ->
  scan sel1 keys1 root' = scan sel1 keys1 root.
Proof.
  intros H. unfold scan.
  rewrite (for_each_xpath T body sel1 _ body_ok sel1_T sel1_head _ _ _ _ H).
  apply flat_map_ext_in. intros q Hq.
  destruct (xpath_sound _ _ _ Hq) as (m & Hm & Hs).
  destruct (for_each_observe T S body body_ok sel1 _ keys1 sel1_T sel1_head
              keys1_shallow _ _ _ _ _ (refs_ok_xpath S sel root sel_S) H q m)
    as (m' & Hm' & _ & Hk); auto.
  - intros Hin. destruct (xpath_sound _ _ _ Hin) as (m2 & Hm2 & Hs2).
    rewrite Hm in Hm2. injection Hm2 as <-.
    rewrite (apart _ Hs) in Hs2. discriminate.
  - unfold keys_at. now rewrite Hm, Hm'.
Qed.

(** The same for what the root shows of itself. *)
Variable A : Type.
Variable view : Node -> A.
Hypothesis view_shallow : shallow_in S view.
Hypothesis view_frame : forall n n', body_frame T n n' -> view n' = view n.

Lemma for_each_root_view refs : forall root s root' s',
  refs_ok S root refs ->
  for_each body refs root s = Ok (root', s') -> view root' = view root.
Proof.
  induction refs as [|p refs IH]; intros root s root' s' Hok; simpl.
  - now intros [= <- _].
  - destruct (get_at root p) as [x|] eqn:Hx; [|discriminate].
    intros H. apply bind_ok in H as (x' & s1 & Hb & H).
    pose proof (body_ok _ _ _ _ Hb) as Hf.
    rewrite (IH _ _ _ _ (refs_ok_step _ _ _ _ _ _ _ Hok Hx Hf) H).
    destruct p as [|i p]; simpl in *.
    + injection Hx as <-. now apply view_frame.
    + destruct (nth_error (children root) i) as [c|] eqn:Hi; [|discriminate].
      eapply set_at_above; eauto.
      * apply Hf.
      * eapply refs_ok_head; [exact Hok|]. simpl. now rewrite Hi.
Qed.

End KeepScan.

(** A body with a device frame, applied to the root, does not touch what
    the CPU section looks at. *)
Lemma kids_find T cs cs'' o t :
  kids T cs cs'' -> T t = false -> find_from o t cs'' = find_from o t cs.
Proof.
  intros (cs' & extra & -> & Hcs & Hx) Ht.
  rewrite find_from_app_notag.
  - pose proof (find_from_Forall2 (tweak T) o t cs cs'
                  (fun c c' H => eq_sym (tweak_tag T c c' H)) Hcs) as Hf.
    destruct (find_from o t cs) as [[k c]|] eqn:E,
             (find_from o t cs') as [[k' c']|]; try contradiction; auto.
    destruct Hf as [-> Hc].
    destruct (find_from_some _ _ _ _ _ E) as (_ & _ & _ & Htc).
    rewrite (tweak_outside _ _ _ Hc); [reflexivity|]. now rewrite Htc.
  - eapply Forall_impl; [|exact Hx]. intros e [He _] Heq.
    rewrite Heq in He. congruence.
Qed.

Lemma body_frame_find T n n' t :
  body_frame T n n' -> T t = false -> find n' t = find n t.
Proof. intros [_ Hk] Ht. now apply kids_find with (T := T). Qed.

Lemma cpu_keys_frame T n n' :
  T "cpu" = false -> T "vcpu" = false ->
  body_frame T n n' -> cpu_keys n' = cpu_keys n.
Proof.
  intros Hc Hv Hf. unfold cpu_keys.
  now rewrite (body_frame_find T n n' "cpu" Hf Hc),
              (body_frame_find T n n' "vcpu" Hf Hv).
Qed.

(** ** What a loop does to each element it visits *)

Lemma for_each_raise body refs : forall root s e,
  for_each body refs root s = Raise e ->
  e = StaleReference \/ exists x sx, body x sx = Raise e.
Proof.
  induction refs as [|p refs IH]; intros root s e; simpl; [discriminate|].
  destruct (get_at root p) as [x|]; [|intros [= <-]; now left].
  unfold bind. destruct (body x s) as [[x' s1]|e1] eqn:Hb.
  - apply IH.
  - intros [= <-]. right. eauto.
Qed.

Section Trace.

Variable T : string -> bool.
Variable S : string -> bool.
Variable body : Node -> M Node.
Variable sel : Node -> bool.
Variable A : Type.
Variable view : Node -> A.
Hypothesis body_ok :
  forall n s n' s', body n s = Ok (n', s') -> body_frame T n n'.
Hypothesis sel_T : forall m, sel m = true -> T (tag m) = false.
Hypothesis sel_S : forall m, sel m = true -> S (tag m) = false.
Hypothesis sel_head : head_only sel.
Hypothesis view_shallow : shallow_in S view.

Lemma selected_refs_ok_in root refs :
  (forall p, In p refs -> exists n, get_at root p = Some n /\ sel n = true) ->
  refs_ok S root refs.
Proof.
  intros H p Hp. destruct (H p Hp) as (n & Hn & Hs). exists n. auto.
Qed.

Lemma selected_step root p refs x x' :
  ~ In p refs ->
  (forall q, In q (p :: refs) ->
     exists n, get_at root q = Some n /\ sel n = true) ->
  get_at root p = Some x -> body_frame T x x' ->
  forall q, In q refs ->
    exists n, get_at (set_at root p x') q = Some n /\ sel n = true /\
              exists m, get_at root q = Some m /\ view n = view m.
Proof.
  intros Hp Hv Hx Hf q Hq.
  destruct (Hv q (or_intror Hq)) as (m & Hm & Hsm).
  destruct (Hv p (or_introl eq_refl)) as (x0 & Hx0 & Hsx).
  assert (x0 = x) by congruence. subst x0.
  destruct (set_at_observe T S sel _ view sel_T view_shallow p root x x' q m
              Hx (sel_S _ Hsx) Hf) as (m1 & Hg1 & Hh1 & Hv1); auto.
  { intros ->. contradiction. }
  exists m1. split; [assumption|].
  split; [now rewrite (sel_head _ _ Hh1)|]. eauto.
Qed.

(** Each visited element is seen by the body as the input document shows
    it, and what the body left there is what the output document shows. *)
Lemma for_each_trace refs : forall root s root' s',
  NoDup refs ->
  (forall p, In p refs -> exists n, get_at root p = Some n /\ sel n = true) ->
  for_each body refs root s = Ok (root', s') ->
  forall p, In p refs ->
    exists m x sx x' sx' m',
      get_at root p = Some m /\ view x = view m /\
      body x sx = Ok (x', sx') /\
      get_at root' p = Some m' /\ view m' = view x'.
Proof.
  induction refs as [|p0 refs IH]; intros root s root' s' Hnd Hv; simpl.
  - intros _ p [].
  - destruct (Hv p0 (or_introl eq_refl)) as (x0 & Hx0 & Hs0). rewrite Hx0.
    intros H. apply bind_ok in H as (x0' & s1 & Hb & H).
    inversion Hnd as [|? ? Hp0 Hnd']; subst.
    pose proof (body_ok _ _ _ _ Hb) as Hf.
    pose proof (selected_step root p0 refs x0 x0' Hp0 Hv Hx0 Hf) as Hstep.
    assert (Hv1 : forall q, In q refs ->
              exists n, get_at (set_at root p0 x0') q = Some n /\
                        sel n = true).
    { intros q Hq. destruct (Hstep q Hq) as (n & Hn & Hs & _). eauto. }
    intros p [<-|Hp].
    + destruct (for_each_observe T S body body_ok sel _ view sel_T sel_head
                  view_shallow refs _ _ _ _ (selected_refs_ok_in _ _ Hv1) H
                  p0 x0') as (m' & Hg' & _ & Hd'); auto.
      * eapply get_at_set_at_same; eauto.
      * rewrite (sel_head x0' x0); [assumption | apply Hf].
      * exists x0, x0, s, x0', s1, m'. auto.
    + destruct (IH _ _ _ _ Hnd' Hv1 H p Hp)
        as (m1 & x & sx & x' & sx' & m' & Hm1 & Hx & Hbx & Hm' & Hvm').
      destruct (Hstep p Hp) as (n & Hn & _ & m & Hm & Hnm).
      assert (n = m1) by congruence. subst n.
      exists m, x, sx, x', sx', m'. repeat split; auto. congruence.
Qed.

(** A loop whose body never fails does not fail. *)
Lemma for_each_total root s :
  (forall n s, exists n' s', body n s = Ok (n', s')) ->
  exists root' s', for_each body (xpath sel root) root s = Ok (root', s').
Proof.
  intros Hb.
  destruct (for_each body (xpath sel root) root s) as [[r s1]|e] eqn:H;
    [eauto|].
  exfalso.
  destruct (for_each_raise _ _ _ _ _ H) as [->|(x & sx & Hx)].
  - apply (for_each_live T S body body_ok sel _ view sel_T sel_head
             view_shallow (xpath sel root) root s StaleReference
             (NoDup_xpath sel root)
             (selected_refs_ok_in _ _ (xpath_sound sel root))
             (xpath_sound sel root)); [|exact H|reflexivity].
    intros n s0 Hn. destruct (Hb n s0) as (n' & s' & Hn'). congruence.
  - destruct (Hb x sx) as (n' & s' & Hn'). congruence.
Qed.

End Trace.

(** * Idempotency *)

Lemma apply_rules_ok root s root' s' :
  apply_rules root s = Ok (root', s') ->
  exists r1 s1 r2 s2 r3 s3 r4 s4,
    for_each disk_body (xpath disk_sel root) root s = Ok (r1, s1) /\
    for_each nic_body (xpath nic_sel r1) r1 s1 = Ok (r2, s2) /\
    for_each video_body (xpath video_sel r2) r2 s2 = Ok (r3, s3) /\
    for_each spice_body (xpath spice_sel r3) r3 s3 = Ok (r4, s4) /\
    cpu_section r4 s4 = Ok (root', s').
Proof.
  unfold apply_rules. intros H.
  apply bind_ok in H as (r1 & s1 & H1 & H).
  apply bind_ok in H as (r2 & s2 & H2 & H).
  apply bind_ok in H as (r3 & s3 & H3 & H).
  apply bind_ok in H as (r4 & s4 & H4 & H).
  exists r1, s1, r2, s2, r3, s3, r4, s4. auto.
Qed.

(** A successful run ends in a document where every rule's condition is
    false. *)
Lemma apply_rules_optimizes root s root' s' :
  apply_rules root s = Ok (root', s') -> optimized root'.
Proof.
  intros H.
  apply apply_rules_ok in H
    as (r1 & s1 & r2 & s2 & r3 & s3 & r4 & s4 & H1 & H2 & H3 & H4 & H5).
  destruct (cpu_section_keeps_devices _ _ _ _ H5) as (Kd & Kn & Kv & Kg).
  split; [|eapply cpu_section_settles; eassumption].
  repeat split; apply pending_nil_settled.
  - apply Kd. eapply spice_loop_keeps_disk; [eassumption|].
    eapply video_loop_keeps_disk; [eassumption|].
    eapply nic_loop_keeps_disk; [eassumption|].
    eapply disk_loop_settles; eassumption.
  - apply Kn. eapply spice_loop_keeps_nic; [eassumption|].
    eapply video_loop_keeps_nic; [eassumption|].
    eapply nic_loop_settles; eassumption.
  - apply Kv. eapply spice_loop_keeps_video; [eassumption|].
    eapply video_loop_settles; eassumption.
  - apply Kg. eapply spice_loop_settles; eassumption.
Qed.

(** On such a document a run changes nothing and records nothing. *)
Lemma apply_rules_optimized root s :
  optimized root -> apply_rules root s = Ok (root, s).
Proof.
  intros [Hd Hc]. rewrite (apply_rules_devices_done _ _ Hd).
  now apply cpu_section_done.
Qed.

(** C1.  Idempotency: when a run of the rules on a document succeeds,
    running them again on the document it produced succeeds as well,
    leaves that document as it is and returns an empty list of changes:
    [transform(transform(D).document).changes == []]. *)
Theorem transform_idempotent root root' chs :
  transform root = Ok (root', chs) -> transform root' = Ok (root', []).
Proof.
  unfold transform.
  destruct (apply_rules root (mkSt [] None)) as [[r s]|e] eqn:H;
    [|discriminate].
  intros [= <- _]. apply apply_rules_optimizes in H.
  now rewrite (apply_rules_optimized _ _ H).
Qed.

Lemma transform_idempotent_witness :
  transform sample_domain = Ok (sample_domain_optimized, sample_domain_changes)
  /\ transform sample_domain_optimized = Ok (sample_domain_optimized, []).
Proof.
  split; [reflexivity|].
  apply (transform_idempotent sample_domain sample_domain_optimized
           sample_domain_changes).
  reflexivity.
Defined.

(** ** The keys of a run *)

Ltac keep_scan T S body sel frame sel1 keys1 :=
  apply (loop_keeps_scan T S body sel frame);
  auto using disk_sel_head, nic_sel_head, video_sel_head, spice_sel_head,
    video_keys_shallow, nic_keys_in, spice_keys_in;
  sel_apart.

Lemma disk_loop_keeps_scans root s root' s' :
  for_each disk_body (xpath disk_sel root) root s = Ok (root', s') ->
  scan nic_sel nic_keys root' = scan nic_sel nic_keys root /\
  scan video_sel video_keys root' = scan video_sel video_keys root /\
  scan spice_sel spice_keys root' = scan spice_sel spice_keys root /\
  cpu_keys root' = cpu_keys root.
Proof.
  intros H. repeat split.
  - revert H. keep_scan T_disk no_tag disk_body disk_sel disk_body_frame
                        nic_sel nic_keys.
  - revert H. keep_scan T_disk S_model disk_body disk_sel disk_body_frame
                        video_sel video_keys.
  - revert H. keep_scan T_disk no_tag disk_body disk_sel disk_body_frame
                        spice_sel spice_keys.
  - revert H.
    apply (for_each_root_view T_disk S_cpu disk_body disk_body_frame _
             cpu_keys cpu_keys_shallow
             (fun n n' => cpu_keys_frame T_disk n n' eq_refl eq_refl)).
    apply refs_ok_xpath. sel_apart.
Qed.

Lemma nic_loop_keeps_scans root s root' s' :
  for_each nic_body (xpath nic_sel root) root s = Ok (root', s') ->
  scan video_sel video_keys root' = scan video_sel video_keys root /\
  scan spice_sel spice_keys root' = scan spice_sel spice_keys root /\
  cpu_keys root' = cpu_keys root.
Proof.
  intros H. repeat split.
  - revert H. keep_scan T_nic S_model nic_body nic_sel nic_body_frame
                        video_sel video_keys.
  - revert H. keep_scan T_nic no_tag nic_body nic_sel nic_body_frame
                        spice_sel spice_keys.
  - revert H.
    apply (for_each_root_view T_nic S_cpu nic_body nic_body_frame _
             cpu_keys cpu_keys_shallow
             (fun n n' => cpu_keys_frame T_nic n n' eq_refl eq_refl)).
    apply refs_ok_xpath. sel_apart.
Qed.

Lemma video_loop_keeps_scans root s root' s' :
  for_each video_body (xpath video_sel root) root s = Ok (root', s') ->
  scan spice_sel spice_keys root' = scan spice_sel spice_keys root /\
  cpu_keys root' = cpu_keys root.
Proof.
  intros H. repeat split.
  - revert H. keep_scan T_video no_tag video_body video_sel video_body_frame
                        spice_sel spice_keys.
  - revert H.
    apply (for_each_root_view T_video S_cpu video_body video_body_frame _
             cpu_keys cpu_keys_shallow
             (fun n n' => cpu_keys_frame T_video n n' eq_refl eq_refl)).
    apply refs_ok_xpath. sel_apart.
Qed.

Lemma spice_loop_keeps_cpu_keys root s root' s' :
  for_each spice_body (xpath spice_sel root) root s = Ok (root', s') ->
  cpu_keys root' = cpu_keys root.
Proof.
  apply (for_each_root_view T_spice S_cpu spice_body spice_body_frame _
           cpu_keys cpu_keys_shallow
           (fun n n' => cpu_keys_frame T_spice n n' eq_refl eq_refl)).
  apply refs_ok_xpath. sel_apart.
Qed.

Ltac loop_keys_tac T S body sel keys_of frame bkeys :=
  apply (loop_keys T S body sel keys_of frame bkeys);
  auto using disk_sel_head, nic_sel_head, video_sel_head, spice_sel_head,
    video_keys_shallow, disk_keys_in, nic_keys_in, spice_keys_in;
  sel_apart.

Lemma apply_rules_keys root s root' s' :
  apply_rules root s = Ok (root', s') ->
  map key (changes s') = map key (changes s) ++ expected_keys root.
Proof.
  intros H.
  apply apply_rules_ok in H
    as (r1 & s1 & r2 & s2 & r3 & s3 & r4 & s4 & H1 & H2 & H3 & H4 & H5).
  destruct (disk_loop_keeps_scans _ _ _ _ H1) as (Dn & Dv & Dg & Dc).
  destruct (nic_loop_keeps_scans _ _ _ _ H2) as (Nv & Ng & Nc).
  destruct (video_loop_keeps_scans _ _ _ _ H3) as (Vg & Vc).
  pose proof (spice_loop_keeps_cpu_keys _ _ _ _ H4) as Gc.
  assert (K1 : map key (changes s1)
               = map key (changes s) ++ scan disk_sel disk_keys root).
  { revert H1. loop_keys_tac T_disk no_tag disk_body disk_sel disk_keys
                             disk_body_frame disk_body_keys. }
  assert (K2 : map key (changes s2)
               = map key (changes s1) ++ scan nic_sel nic_keys r1).
  { revert H2. loop_keys_tac T_nic no_tag nic_body nic_sel nic_keys
                             nic_body_frame nic_body_keys. }
  assert (K3 : map key (changes s3)
               = map key (changes s2) ++ scan video_sel video_keys r2).
  { revert H3. loop_keys_tac T_video S_model video_body video_sel video_keys
                             video_body_frame video_body_keys. }
  assert (K4 : map key (changes s4)
               = map key (changes s3) ++ scan spice_sel spice_keys r3).
  { revert H4. loop_keys_tac T_spice no_tag spice_body spice_sel spice_keys
                             spice_body_frame spice_body_keys. }
  rewrite (cpu_section_keys _ _ _ _ H5), K4, K3, K2, K1.
  unfold expected_keys. rewrite <- !app_assoc.
  congruence.
Qed.

(** * Rule isolation *)

Lemma for_each_app body l1 l2 root s :
  for_each body (l1 ++ l2) root s
  = bind (for_each body l1 root) (fun r => for_each body l2 r) s.
Proof.
  revert root s; induction l1 as [|p l1 IH]; intros root s; simpl.
  - reflexivity.
  - destruct (get_at root p) as [x|]; [|reflexivity].
    unfold bind. destruct (body x s) as [[x' s1]|e]; [|reflexivity].
    rewrite IH. reflexivity.
Qed.

Lemma filter_single {A} (f : A -> bool) l a :
  filter f l = [a] ->
  exists l1 l2, l = l1 ++ a :: l2 /\ f a = true /\
                (forall b, In b l1 -> f b = false) /\
                (forall b, In b l2 -> f b = false).
Proof.
  induction l as [|x l IH]; simpl; [discriminate|].
  destruct (f x) eqn:E.
  - intros [= -> Hl]. exists [], l. repeat split; auto.
    + intros b [].
    + intros b Hb. destruct (f b) eqn:Eb; [|reflexivity].
      assert (Hin : In b (filter f l)) by (apply filter_In; auto).
      rewrite Hl in Hin. destruct Hin.
  - intros H. destruct (IH H) as (l1 & l2 & -> & Ha & H1 & H2).
    exists (x :: l1), l2. repeat split; auto.
    intros b [<-|Hb]; auto.
Qed.

(** The disk body on a disk whose target is [bus="ide"], [dev="hda"] and
    whose driver needs nothing. *)
Lemma disk_body_ide_hda disk i target s :
  find disk "target" = Some (i, target) ->
  get_opt target "bus" = Some "ide" -> get_opt target "dev" = Some "hda" ->
  cache_pending disk = false ->
  disk_body disk s =
  Ok (put_child disk i (set_attr (set_attr target "bus" "virtio") "dev" "vda"),
      mkSt (changes s ++ [("disk_bus", "ide (hda)", "virtio (vda)")])
           (Some "vda")).
Proof.
  intros Hf Hb Hd Hc. unfold disk_body. rewrite Hf.
  assert (Hbus : get target "bus" "unknown" = "ide")
    by (unfold get; now rewrite Hb).
  assert (Hdev : get (set_attr target "bus" "virtio") "dev" EmptyString = "hda")
    by (rewrite get_set_attr; unfold get; now rewrite Hd).
  rewrite Hbus, Hdev.
  unfold bind, bind_new_dev, read_new_dev, append, ret. simpl.
  unfold cache_pending in Hc.
  destruct (find disk "driver") as [[j dr]|]; [rewrite Hc|]; reflexivity.
Qed.

Section Single.

Variable T : string -> bool.
Variable body : Node -> M Node.
Variable sel done : Node -> bool.
Hypothesis body_ok :
  forall n s n' s', body n s = Ok (n', s') -> body_frame T n n'.
Hypothesis body_quiet :
  forall n s, done n = true -> body n s = Ok (n, s).
Hypothesis sel_T : forall m, sel m = true -> T (tag m) = false.
Hypothesis done_shallow : shallow done.

(** A loop with exactly one element to work on writes there and nowhere
    else. *)
Lemma for_each_single root p x x' s s1 :
  pending sel done root = [p] ->
  get_at root p = Some x -> body x s = Ok (x', s1) ->
  for_each body (xpath sel root) root s = Ok (set_at root p x', s1).
Proof.
  intros Hp Hx Hb. unfold pending in Hp.
  pose proof (NoDup_xpath sel root) as Hnd.
  pose proof (xpath_sound sel root) as Hv.
  apply filter_single in Hp as (l1 & l2 & Hl & _ & H1 & H2).
  rewrite Hl in *. rewrite for_each_app. unfold bind at 1.
  assert (Hdone : forall q, In q (l1 ++ p :: l2) -> q <> p ->
            exists m, get_at root q = Some m /\ sel m = true /\
                      done m = true).
  { intros q Hq Hne. destruct (Hv q Hq) as (m & Hm & Hs).
    exists m. repeat split; auto.
    apply in_app_iff in Hq as [Hq|[Hq|Hq]]; [| congruence |].
    - specialize (H1 q Hq). rewrite Hm in H1. now apply negb_false_iff in H1.
    - specialize (H2 q Hq). rewrite Hm in H2. now apply negb_false_iff in H2. }
  apply NoDup_remove_2 in Hnd.
  rewrite for_each_quiet.
  - simpl. rewrite Hx. unfold bind at 1. rewrite Hb.
    apply for_each_quiet. intros q Hq.
    assert (Hne : q <> p).
    { intros ->. apply Hnd. apply in_app_iff. now right. }
    destruct (Hdone q) as (m & Hm & Hs & Hd); auto.
    { apply in_app_iff. right. now right. }
    destruct (set_at_observe T no_tag sel _ done sel_T
                (shallow_shallow_in no_tag done done_shallow) p root x x' q m
                Hx eq_refl (body_ok _ _ _ _ Hb) Hne Hm Hs)
      as (m1 & Hm1 & _ & Hd1).
    exists m1. split; [assumption|]. apply body_quiet. congruence.
  - intros q Hq.
    assert (Hne : q <> p).
    { intros ->. apply Hnd. apply in_app_iff. now left. }
    destruct (Hdone q) as (m & Hm & Hs & Hd); auto.
    { apply in_app_iff. now left. }
    exists m. auto.
Qed.

End Single.

(** ** The CPU condition under the device loops *)

Lemma cpu_done_shallow : shallow_in S_cpu cpu_done.
Proof.
  intros n n' _ Hc. unfold cpu_done.
  pose proof (find_shallow_in S_cpu "cpu" n n' eq_refl Hc) as Hf.
  assert (Hv : match find n "vcpu", find n' "vcpu" with
               | Some (_, v), Some (_, v') => text v = text v'
               | None, None => True
               | _, _ => False
               end).
  { pose proof (find_from_Forall2 _ 0 "vcpu" _ _
                  (fun c c' Hc => proj1 (head_eq c c' (proj1 Hc))) Hc) as H.
    unfold find.
    destruct (find_from 0 "vcpu" (children n)) as [[? ?]|],
             (find_from 0 "vcpu" (children n')) as [[? ?]|]; auto.
    destruct H as (_ & Hh & _). now apply head_eq in Hh. }
  destruct (find n "cpu") as [[k c]|], (find n' "cpu") as [[k' c']|];
    try contradiction; [|reflexivity].
  destruct Hf as (_ & Hh & Hk). apply head_eq in Hh as (_ & Ha & _).
  pose proof (find_shallow "topology" c c' Hk) as Ht.
  unfold get, get_opt. rewrite Ha. f_equal.
  destruct (find n "vcpu") as [[? v]|], (find n' "vcpu") as [[? v']|];
    try contradiction; [|reflexivity].
  rewrite Hv.
  destruct (find c "topology") as [[? ?]|], (find c' "topology") as [[? ?]|];
    try contradiction; reflexivity.
Qed.

Lemma cpu_done_frame T n n' :
  T "cpu" = false -> T "vcpu" = false ->
  body_frame T n n' -> cpu_done n' = cpu_done n.
Proof.
  intros Hc Hv Hf. unfold cpu_done.
  now rewrite (body_frame_find T n n' "cpu" Hf Hc),
              (body_frame_find T n n' "vcpu" Hf Hv).
Qed.

Lemma disk_loop_keeps_cpu_done root s root' s' :
  for_each disk_body (xpath disk_sel root) root s = Ok (root', s') ->
  cpu_done root' = cpu_done root.
Proof.
  apply (for_each_root_view T_disk S_cpu disk_body disk_body_frame _
           cpu_done cpu_done_shallow
           (fun n n' => cpu_done_frame T_disk n n' eq_refl eq_refl)).
  apply refs_ok_xpath. sel_apart.
Qed.

(** C4.  Rule isolation: in a document whose only element with a pending
    condition is one disk, with target [bus="ide"] and [dev="hda"] (the
    driver of that disk, every other disk, every interface, video and SPICE
    graphics element and the CPU configuration being in their target
    state), a run succeeds, sets [bus="virtio"] and [dev="vda"] on that
    target and changes nothing else, and returns exactly one record, the
    [disk_bus] record. *)
Theorem single_ide_disk root p disk i target :
  pending disk_sel disk_done root = [p] ->
  get_at root p = Some disk ->
  find disk "target" = Some (i, target) ->
  get_opt target "bus" = Some "ide" -> get_opt target "dev" = Some "hda" ->
  cache_pending disk = false ->
  pending nic_sel nic_done root = [] ->
  pending video_sel video_done root = [] ->
  pending spice_sel spice_done root = [] ->
  cpu_done root = true ->
  let target' := set_attr (set_attr target "bus" "virtio") "dev" "vda" in
  transform root
  = Ok (set_at root p (put_child disk i target'),
        [("disk_bus", "ide (hda)", "virtio (vda)")])
  /\ get_opt target' "bus" = Some "virtio"
  /\ get_opt target' "dev" = Some "vda".
Proof.
  intros Hp Hx Hf Hb Hd Hc Hn Hv Hg Hcpu target'.
  split; [|subst target'; rewrite !get_opt_set_attr; auto].
  set (s0 := mkSt [] None).
  pose proof (disk_body_ide_hda disk i target s0 Hf Hb Hd Hc) as Hbody.
  fold target' in Hbody.
  pose proof (for_each_single T_disk disk_body disk_sel disk_done
                disk_body_frame disk_body_done
                ltac:(sel_apart) disk_done_shallow
                root p disk _ s0 _ Hp Hx Hbody) as H1.
  set (root1 := set_at root p (put_child disk i target')) in *.
  assert (Hopt : optimized root1).
  { split; [|rewrite (disk_loop_keeps_cpu_done _ _ _ _ H1); exact Hcpu].
    repeat split; apply pending_nil_settled.
    - eapply disk_loop_settles; eassumption.
    - eapply disk_loop_keeps_nic; [eassumption|].
      now apply pending_nil_settled.
    - eapply disk_loop_keeps_video; [eassumption|].
      now apply pending_nil_settled.
    - eapply disk_loop_keeps_spice; [eassumption|].
      now apply pending_nil_settled. }
  destruct Hopt as [(_ & Hn1 & Hv1 & Hg1) Hc1].
  unfold transform, apply_rules, bind. fold s0. rewrite H1.
  rewrite (loop_done _ _ _ _ _ nic_body_done Hn1).
  rewrite (loop_done _ _ _ _ _ video_body_done Hv1).
  rewrite (loop_done _ _ _ _ _ spice_body_done Hg1).
  rewrite (cpu_section_done _ _ Hc1). reflexivity.
Qed.

Lemma single_ide_disk_witness :
  transform ide_disk_only
  = Ok (Element "domain" [] None
          [Element "vcpu" [] (Some "2") [];
           Element "cpu" [("mode", "host-passthrough")] None
             [Element "topology" [("cores", "2")] None []];
           Element "devices" [] None
             [Element "disk" [("type", "file"); ("device", "disk")] None
                [Element "target" [("dev", "vda"); ("bus", "virtio")] None []];
              Element "interface" [("type", "user")] None
                [Element "model" [("type", "virtio")] None []]]],
        [("disk_bus", "ide (hda)", "virtio (vda)")]).
Proof.
  apply (proj1 (single_ide_disk ide_disk_only [2; 0]
                  (Element "disk" [("type", "file"); ("device", "disk")] None
                     [Element "target" [("dev", "hda"); ("bus", "ide")]
                              None []])
                  0 (Element "target" [("dev", "hda"); ("bus", "ide")] None [])
                  eq_refl eq_refl eq_refl eq_refl eq_refl eq_refl eq_refl
                  eq_refl eq_refl eq_refl)).
Defined.

(** * The order of the records *)

(** C3, as stated, fails: with two disks that each need both disk rules
    the [disk_cache] record of the first disk comes before the [disk_bus]
    record of the second. *)
Lemma two_ide_disks_not_ordered_by_rule :
  exists root' chs,
    transform two_ide_disks = Ok (root', chs) /\
    map key chs = ["disk_bus"; "disk_cache"; "disk_bus"; "disk_cache"] /\
    ordered_by_rule chs = false.
Proof. do 2 eexists. split; [reflexivity|]. split; reflexivity. Qed.

(** * Failures *)

(** C2 fails on the code.  An IDE disk whose target has no [dev] attribute
    aborts the run: line 172 reads [new_dev], which line 170 binds only when
    [dev] is present. *)
Theorem ide_disk_without_dev_aborts :
  transform ide_disk_without_dev = Raise UnboundLocalError.
Proof. reflexivity. Qed.

(** A target without [bus] is skipped, as the claim says. *)
Lemma disk_without_bus_skipped :
  transform disk_without_bus = Ok (disk_without_bus, []).
Proof. reflexivity. Qed.

(** The run never fails on a lost reference. *)
Lemma cpu_section_not_stale root s :
  cpu_section root s <> Raise StaleReference.
Proof.
  destruct (find root "cpu") as [[i cpu]|] eqn:Hc.
  - rewrite (cpu_section_present _ _ _ _ Hc). cbv zeta.
    repeat case_inner; discriminate.
  - rewrite (cpu_section_absent _ _ Hc). repeat case_inner; discriminate.
Qed.

Lemma loop_not_stale T body sel root s :
  (forall n s n' s', body n s = Ok (n', s') -> body_frame T n n') ->
  (forall m, sel m = true -> T (tag m) = false) -> head_only sel ->
  (forall n s, body n s <> Raise StaleReference) ->
  for_each body (xpath sel root) root s <> Raise StaleReference.
Proof.
  intros Hf HT Hh Hb H.
  apply (for_each_live T no_tag body Hf sel unit (fun _ => tt) HT Hh
           (fun _ _ _ _ => eq_refl) (xpath sel root) root s StaleReference);
    auto using NoDup_xpath, xpath_sound.
  apply refs_ok_xpath. reflexivity.
Qed.

Theorem loops_never_stale root : transform root <> Raise StaleReference.
Proof.
  unfold transform, apply_rules, bind.
  destruct (for_each disk_body _ root _) as [[r1 s1]|e1] eqn:H1.
  2:{ intros [= ->]. revert H1.
      apply (loop_not_stale T_disk);
        [exact disk_body_frame | sel_apart | exact disk_sel_head
        | exact disk_body_not_stale]. }
  destruct (for_each nic_body _ r1 _) as [[r2 s2]|e2] eqn:H2.
  2:{ intros [= ->]. revert H2.
      apply (loop_not_stale T_nic);
        [exact nic_body_frame | sel_apart | exact nic_sel_head
        | exact nic_body_not_stale]. }
  destruct (for_each video_body _ r2 _) as [[r3 s3]|e3] eqn:H3.
  2:{ intros [= ->]. revert H3.
      apply (loop_not_stale T_video);
        [exact video_body_frame | sel_apart | exact video_sel_head
        | exact video_body_not_stale]. }
  destruct (for_each spice_body _ r3 _) as [[r4 s4]|e4] eqn:H4.
  2:{ intros [= ->]. revert H4.
      apply (loop_not_stale T_spice);
        [exact spice_body_frame | sel_apart | exact spice_sel_head
        | exact spice_body_not_stale]. }
  destruct (cpu_section r4 s4) as [[r5 s5]|e5] eqn:H5; [discriminate|].
  intros [= ->]. revert H5. apply cpu_section_not_stale.
Qed.

Section MalformedInput.

Variable fromstring : string -> option Node.
Variable tostring : Node -> string.

(** C9.  On text that lxml rejects, [optimize_xml] raises the parser's
    error: the parse is the first statement and nothing catches it, so no
    rule has run, and the result carries neither a document nor records. *)
Theorem optimize_xml_malformed xml_str :
  fromstring xml_str = None ->
  optimize_xml fromstring tostring xml_str = Raise ParseError
  /\ forall out chs,
       optimize_xml fromstring tostring xml_str <> Ok (out, chs).
Proof.
  intros H. unfold optimize_xml. rewrite H. split; [reflexivity|].
  discriminate.
Qed.

End MalformedInput.

Lemma optimize_xml_malformed_witness :
  optimize_xml sample_fromstring sample_tostring "<domain" = Raise ParseError
  /\ forall out chs,
       optimize_xml sample_fromstring sample_tostring "<domain"
       <> Ok (out, chs).
Proof.
  apply (optimize_xml_malformed sample_fromstring sample_tostring "<domain").
  reflexivity.
Defined.

(** * The missing [cpu] element *)

Lemma insert_child_addnext root j c :
  j < length (children root) -> addnext root j c = insert_child root (S j) c.
Proof.
  intros H. unfold addnext, insert_child.
  now rewrite insert_at_firstn_skipn by lia.
Qed.

Lemma insert_child_append root c :
  append_child root c = insert_child root (length (children root)) c.
Proof.
  unfold append_child, insert_child.
  now rewrite firstn_all, skipn_all.
Qed.


(** * The video rules *)

Lemma video_body_total n s : exists n' s', video_body n s = Ok (n', s').
Proof.
  unfold video_body, bind, append, ret. repeat case_inner; eauto.
Qed.


(** * The vcpu count *)

(** C6, as the code has it.  The count is [int] of the text of the first
    [vcpu] child.  Without a [vcpu] child a new [cpu] element gets the
    count 1; a text that [int] reads gives its value, whatever its sign;
    next to an existing [cpu] element an empty text gives 1; a text that
    [int] does not read aborts the run with [ValueError]. *)
Theorem vcpu_count_read root s :
  (find root "vcpu" = None -> find root "cpu" = None ->
   cpu_section root s
   = Ok (append_child root (new_cpu 1),
         add_changes s [("cpu_mode", "default", "host-passthrough");
                        ("cpu_topology", "none", topology_note 1)]))
  /\ (forall j v t n,
        find root "vcpu" = Some (j, v) -> text v = Some t ->
        int t = Some n ->
        (find root "cpu" = None ->
         cpu_section root s
         = Ok (addnext root j (new_cpu n),
               add_changes s [("cpu_mode", "default", "host-passthrough");
                              ("cpu_topology", "none", topology_note n)]))
        /\ (forall i cpu,
              find root "cpu" = Some (i, cpu) ->
              find cpu "topology" = None ->
              exists cpu1 ch1,
                cpu_section root s
                = Ok (put_child root i (append_child cpu1 (topology_elem n)),
                      add_changes s
                        (ch1 ++ [("cpu_topology", "none",
                                  topology_note n)]))))
  /\ (forall j v i cpu,
        find root "vcpu" = Some (j, v) ->
        text v = None \/ text v = Some EmptyString ->
        find root "cpu" = Some (i, cpu) -> find cpu "topology" = None ->
        exists cpu1 ch1,
          cpu_section root s
          = Ok (put_child root i (append_child cpu1 (topology_elem 1)),
                add_changes s
                  (ch1 ++ [("cpu_topology", "none", topology_note 1)])))
  /\ (forall j v t,
        find root "vcpu" = Some (j, v) -> text v = Some t ->
        truthy t = true -> int t = None ->
        cpu_section root s = Raise ValueError).
Proof.
  repeat split.
  - intros Hv Hc. now rewrite (cpu_section_absent _ _ Hc), Hv.
  - intros Hc. now rewrite (cpu_section_absent _ _ Hc), H, H0, H1.
  - intros i cpu Hc Ht. rewrite (cpu_section_present _ _ _ _ Hc). cbv zeta.
    rewrite H, H0, (or_1_int _ _ H1), H1, Ht. eauto.
  - intros j v i cpu Hv Htx Hc Ht.
    rewrite (cpu_section_present _ _ _ _ Hc). cbv zeta. rewrite Hv.
    assert (Ho : or_1 (text v) = "1") by (destruct Htx as [-> | ->]; auto).
    rewrite Ho, Ht. change (int "1") with (Some 1%Z). cbv iota. eauto.
  - intros j v t Hv Htx Htr Hi.
    destruct (find root "cpu") as [[i cpu]|] eqn:Hc.
    + rewrite (cpu_section_present _ _ _ _ Hc). cbv zeta.
      rewrite Hv, Htx. unfold or_1. now rewrite Htr, Hi.
    + now rewrite (cpu_section_absent _ _ Hc), Hv, Htx, Hi.
Qed.

Lemma vcpu_count_read_witness :
  cpu_section no_vcpu_no_cpu (mkSt [] None)
  = Ok (append_child no_vcpu_no_cpu (new_cpu 1),
        mkSt [("cpu_mode", "default", "host-passthrough");
              ("cpu_topology", "none", "1 socket × 1 cores × 1 thread")] None)
  /\ cpu_section four_vcpus_no_cpu (mkSt [] None)
     = Ok (addnext four_vcpus_no_cpu 1 (new_cpu 4),
           mkSt [("cpu_mode", "default", "host-passthrough");
                 ("cpu_topology", "none", "1 socket × 4 cores × 1 thread")]
                None)
  /\ (exists cpu1 ch1,
         cpu_section vcpu_zero (mkSt [] None)
         = Ok (put_child vcpu_zero 1 (append_child cpu1 (topology_elem 0)),
               add_changes (mkSt [] None)
                 (ch1 ++ [("cpu_topology", "none",
                           "1 socket × 0 cores × 1 thread")])))
  /\ (exists cpu1 ch1,
         cpu_section vcpu_empty_with_cpu (mkSt [] None)
         = Ok (put_child vcpu_empty_with_cpu 1
                 (append_child cpu1 (topology_elem 1)),
               add_changes (mkSt [] None)
                 (ch1 ++ [("cpu_topology", "none",
                           "1 socket × 1 cores × 1 thread")])))
  /\ cpu_section vcpu_not_a_number (mkSt [] None) = Raise ValueError.
Proof.
  split; [|split; [|split; [|split]]].
  - apply (proj1 (vcpu_count_read no_vcpu_no_cpu (mkSt [] None)));
      reflexivity.
  - apply (proj1 (proj1 (proj2 (vcpu_count_read four_vcpus_no_cpu
                                  (mkSt [] None)))
                    1 (Element "vcpu" [("placement", "static")] (Some "4") [])
                    "4" 4%Z eq_refl eq_refl eq_refl)).
    reflexivity.
  - apply (proj2 (proj1 (proj2 (vcpu_count_read vcpu_zero (mkSt [] None)))
                    0 (Element "vcpu" [] (Some "0") []) "0" 0%Z
                    eq_refl eq_refl eq_refl)
             1 (Element "cpu" [("mode", "host-passthrough")] None []));
      reflexivity.
  - apply (proj1 (proj2 (proj2 (vcpu_count_read vcpu_empty_with_cpu
                                  (mkSt [] None))))
             0 (Element "vcpu" [] None [])
             1 (Element "cpu" [("mode", "host-passthrough")] None []));
      auto.
  - apply (proj2 (proj2 (proj2 (vcpu_count_read vcpu_not_a_number
                                  (mkSt [] None))))
             0 (Element "vcpu" [] (Some "four") []) "four");
      reflexivity.
Defined.

(** C6, as stated, fails: a count that is not a number aborts the run, and
    a count of zero is used as it is. *)
Lemma vcpu_count_not_defaulted :
  transform vcpu_not_a_number = Raise ValueError
  /\ transform vcpu_zero
     = Ok (Element "domain" [] None
             [Element "vcpu" [] (Some "0") [];
              Element "cpu" [("mode", "host-passthrough")] None
                [Element "topology"
                   [("sockets", "1"); ("dies", "1"); ("clusters", "1");
                    ("cores", "0"); ("threads", "1")] None []]],
           [("cpu_topology", "none", "1 socket × 0 cores × 1 thread")]).
Proof. split; reflexivity. Qed.

(** An empty [vcpu] element and no [cpu] element: line 261 has no
    [or "1"], and [int(None)] aborts the run. *)
Lemma vcpu_empty_no_cpu_aborts :
  transform vcpu_empty_no_cpu = Raise TypeError.
Proof. reflexivity. Qed.

(** * Nothing is deleted *)

Lemma embeds_list_refl cs :
  Forall (fun c => embeds c c) cs -> embeds_list cs cs.
Proof. induction 1; constructor; auto. Qed.

Lemma embeds_refl n : embeds n n.
Proof.
  induction n as [t a x cs IH] using Node_ind.
  constructor; [apply incl_refl | now apply embeds_list_refl].
Qed.

Lemma embeds_list_trans cs :
  Forall (fun c => forall c' c'', embeds c c' -> embeds c' c'' ->
                                  embeds c c'') cs ->
  forall cs' cs'',
    embeds_list cs cs' -> embeds_list cs' cs'' -> embeds_list cs cs''.
Proof.
  intros HP cs' cs'' H1 H2. revert cs HP H1.
  induction H2 as [|c' c'' cs' cs'' Hc _ IH|c'' cs' cs'' _ IH];
    intros cs HP H1.
  - exact H1.
  - inversion H1 as [|c c0 cs0 cs1 Hcc Hl|c0 cs0 cs1 Hl]; subst.
    + inversion HP as [|? ? Hp HP']; subst.
      apply embeds_cons; [eapply Hp; eauto | auto].
    + apply embeds_new. auto.
  - apply embeds_new. auto.
Qed.

Lemma embeds_trans n : forall n' n'',
  embeds n n' -> embeds n' n'' -> embeds n n''.
Proof.
  induction n as [t a x cs IH] using Node_ind. intros n' n'' H1 H2.
  inversion H1 as [? ? a' ? ? cs' Ha Hl]; subst.
  inversion H2 as [? ? a'' ? ? cs'' Ha' Hl']; subst.
  constructor; [eapply incl_tran; eauto|].
  eapply embeds_list_trans; eauto.
Qed.

Lemma embeds_list_app cs cs' extra :
  embeds_list cs cs' -> embeds_list cs (cs' ++ extra).
Proof.
  induction 1 as [|c c' cs cs' Hc _ IH|c' cs cs' _ IH]; simpl.
  - induction extra; constructor; auto.
  - now apply embeds_cons.
  - now apply embeds_new.
Qed.

Lemma embeds_list_Forall2 cs cs' :
  Forall2 embeds cs cs' -> embeds_list cs cs'.
Proof. induction 1; constructor; auto. Qed.

Lemma tweak_embeds T c : forall c', tweak T c c' -> embeds c c'.
Proof.
  induction c as [t a x cs IH] using Node_ind. intros c' H.
  inversion H as [|? ? a' ? ? cs' extra HT Ha Hcs Hx]; subst.
  - apply embeds_refl.
  - constructor; [assumption|]. apply embeds_list_app, embeds_list_Forall2.
    clear H Hx. induction Hcs as [|c c' cs cs' Hc _ IHcs]; constructor.
    + inversion IH; subst. auto.
    + inversion IH; subst. auto.
Qed.

Lemma body_frame_embeds T n n' : body_frame T n n' -> embeds n n'.
Proof.
  intros [Hh (cs' & extra & Hk & Hcs & _)].
  destruct n as [t a x cs], n' as [t' a' x' cs'']. simpl in *.
  injection Hh as -> -> ->. subst cs''.
  constructor; [apply incl_refl|].
  apply embeds_list_app, embeds_list_Forall2.
  eapply Forall2_impl; [|exact Hcs]. intros c c'. apply tweak_embeds.
Qed.

Lemma embeds_list_replace_nth i c c' cs :
  nth_error cs i = Some c -> embeds c c' ->
  embeds_list cs (replace_nth i c' cs).
Proof.
  revert i; induction cs as [|c0 cs IH]; intros [|i]; simpl;
    try discriminate.
  - intros [= <-] H. apply embeds_cons; [assumption|].
    apply embeds_list_refl. apply Forall_forall. intros; apply embeds_refl.
  - intros Hn H. apply embeds_cons; [apply embeds_refl | eauto].
Qed.

Lemma set_at_embeds p : forall root n n',
  get_at root p = Some n -> embeds n n' -> embeds root (set_at root p n').
Proof.
  induction p as [|i p IH]; intros root n n'; simpl.
  - now intros [= <-].
  - destruct (nth_error (children root) i) as [c|] eqn:Hi; [|discriminate].
    intros Hn He. destruct root as [t a x cs]. simpl in *.
    constructor; [apply incl_refl|].
    eapply embeds_list_replace_nth; eauto.
Qed.

Lemma for_each_embeds T body refs :
  (forall n s n' s', body n s = Ok (n', s') -> body_frame T n n') ->
  forall root s root' s',
    for_each body refs root s = Ok (root', s') -> embeds root root'.
Proof.
  intros Hb. induction refs as [|p refs IH]; intros root s root' s'; simpl.
  - intros [= <- _]. apply embeds_refl.
  - destruct (get_at root p) as [x|] eqn:Hx; [|discriminate].
    intros H. apply bind_ok in H as (x' & s1 & Hbx & H).
    eapply embeds_trans; [|eapply IH; eauto].
    eapply set_at_embeds; eauto.
    eapply body_frame_embeds; eauto.
Qed.

Lemma embeds_list_insert_at k c cs : embeds_list cs (insert_at k c cs).
Proof.
  assert (Hr : forall l, embeds_list l l).
  { intros l. apply embeds_list_refl, Forall_forall.
    intros; apply embeds_refl. }
  revert k; induction cs as [|c0 cs IH]; intros [|k]; simpl.
  - apply embeds_new, embeds_nil.
  - apply embeds_new, embeds_nil.
  - apply embeds_new, Hr.
  - apply embeds_cons; [apply embeds_refl | apply IH].
Qed.

Lemma cpu_section_embeds root s root' s' :
  cpu_section root s = Ok (root', s') -> embeds root root'.
Proof.
  intros H. apply cpu_section_shape in H
    as [(i & cpu & cpu' & Hc & -> & Ht)|(Hc & k & n & Hk & ->)].
  - destruct (find_some _ _ _ _ Hc) as [Hn _].
    pose proof (set_at_embeds [i] root cpu cpu') as He. simpl in He.
    rewrite Hn in He. apply He; [reflexivity|].
    eapply tweak_embeds; eauto.
  - destruct root as [t a x cs]. constructor; [apply incl_refl|].
    apply embeds_list_insert_at.
Qed.

Lemma embeds_list_nth cs cs' :
  embeds_list cs cs' ->
  forall i c, nth_error cs i = Some c ->
    exists i' c', nth_error cs' i' = Some c' /\ embeds c c'.
Proof.
  induction 1 as [|c0 c0' cs cs' Hc _ IH|c0' cs cs' _ IH]; intros i c Hn.
  - destruct i; discriminate.
  - destruct i as [|i]; simpl in Hn.
    + injection Hn as <-. exists 0, c0'. auto.
    + destruct (IH _ _ Hn) as (i' & c' & Hn' & He).
      exists (S i'), c'. auto.
  - destruct (IH _ _ Hn) as (i' & c' & Hn' & He).
    exists (S i'), c'. auto.
Qed.

(** Every element of the embedded tree has its counterpart. *)
Lemma embeds_get p : forall root root' n,
  embeds root root' -> get_at root p = Some n ->
  exists p' n', get_at root' p' = Some n' /\ embeds n n'.
Proof.
  induction p as [|i p IH]; intros root root' n He; simpl.
  - intros [= <-]. exists [], root'. auto.
  - destruct (nth_error (children root) i) as [c|] eqn:Hi; [|discriminate].
    intros Hg. inversion He as [t a a' x cs cs' Ha Hl]; subst.
    simpl in Hi.
    destruct (embeds_list_nth _ _ Hl _ _ Hi) as (i' & c' & Hi' & Hc).
    destruct (IH _ _ _ Hc Hg) as (p' & n' & Hg' & Hn).
    exists (i' :: p'), n'. simpl. rewrite Hi'. auto.
Qed.

Lemma embeds_head n n' :
  embeds n n' ->
  tag n' = tag n /\ text n' = text n /\
  incl (map fst (attrib n)) (map fst (attrib n')).
Proof. destruct 1; simpl; auto. Qed.

(** C10.  Nothing is deleted: after a successful run the output document
    embeds the input document, so every element of the input has a
    counterpart in the output with the same tag and text and with every
    attribute name it had (values may have been set, attributes and
    elements added). *)
Theorem transform_deletes_nothing root root' chs :
  transform root = Ok (root', chs) ->
  embeds root root'
  /\ forall p n,
       get_at root p = Some n ->
       exists p' n',
         get_at root' p' = Some n' /\ tag n' = tag n /\ text n' = text n /\
         incl (map fst (attrib n)) (map fst (attrib n')).
Proof.
  unfold transform.
  destruct (apply_rules root (mkSt [] None)) as [[r s]|e] eqn:H;
    [|discriminate].
  intros [= <- _].
  apply apply_rules_ok in H
    as (r1 & s1 & r2 & s2 & r3 & s3 & r4 & s4 & H1 & H2 & H3 & H4 & H5).
  assert (He : embeds root r).
  { eapply embeds_trans;
      [exact (for_each_embeds T_disk _ _ disk_body_frame _ _ _ _ H1)|].
    eapply embeds_trans;
      [exact (for_each_embeds T_nic _ _ nic_body_frame _ _ _ _ H2)|].
    eapply embeds_trans;
      [exact (for_each_embeds T_video _ _ video_body_frame _ _ _ _ H3)|].
    eapply embeds_trans;
      [exact (for_each_embeds T_spice _ _ spice_body_frame _ _ _ _ H4)|].
    eapply cpu_section_embeds; eauto. }
  split; [exact He|]. intros p n Hg.
  destruct (embeds_get p _ _ _ He Hg) as (p' & n' & Hg' & Hn).
  exists p', n'. split; [assumption|]. now apply embeds_head.
Qed.

Lemma transform_deletes_nothing_witness :
  embeds sample_domain sample_domain_optimized
  /\ forall p n,
       get_at sample_domain p = Some n ->
       exists p' n',
         get_at sample_domain_optimized p' = Some n' /\
         tag n' = tag n /\ text n' = text n /\
         incl (map fst (attrib n)) (map fst (attrib n')).
Proof.
  apply (transform_deletes_nothing sample_domain sample_domain_optimized
           sample_domain_changes).
  reflexivity.
Defined.

(** * The records of a run come from the input document *)

(** ** The elements a selector matches *)

Lemma filter_flat_map {A B} (f : A -> list B) (g : B -> bool) l :
  filter g (flat_map f l) = flat_map (fun a => filter g (f a)) l.
Proof.
  induction l as [|a l IH]; simpl; [reflexivity|].
  now rewrite filter_app, IH.
Qed.

Lemma elements_eq n : elements n = n :: flat_map elements (children n).
Proof. destruct n; reflexivity. Qed.

Lemma nodes_at_app root l1 l2 :
  nodes_at root (l1 ++ l2) = nodes_at root l1 ++ nodes_at root l2.
Proof. apply flat_map_app. Qed.

Lemma nodes_at_cons root i c l :
  nth_error (children root) i = Some c ->
  nodes_at root (map (cons i) l) = nodes_at c l.
Proof.
  intros Hi. unfold nodes_at. induction l as [|p l IH]; simpl;
    [reflexivity|].
  now rewrite Hi, IH.
Qed.

Lemma nodes_at_xpath_from sel root pre : forall l,
  children root = pre ++ l ->
  Forall (fun c => nodes_at c (xpath sel c) = selected sel c) l ->
  nodes_at root (xpath_from sel (length pre) l)
  = flat_map (fun c => filter sel (elements c)) l.
Proof.
  intros l. revert pre. induction l as [|c l IH]; intros pre Hc Hl; simpl;
    [reflexivity|].
  inversion Hl as [|? ? Hc0 Hl']; subst.
  rewrite nodes_at_app. f_equal.
  - rewrite (nodes_at_cons root (length pre) c); [exact Hc0|].
    rewrite Hc, nth_error_app2, Nat.sub_diag by lia. reflexivity.
  - specialize (IH (pre ++ [c])). rewrite length_app in IH. simpl in IH.
    rewrite Nat.add_1_r in IH. apply IH; [|assumption].
    now rewrite <- app_assoc.
Qed.

(** The elements the references of [xpath] lead to are the elements of the
    document that the selector matches, in document order. *)
Lemma nodes_at_xpath sel root :
  nodes_at root (xpath sel root) = selected sel root.
Proof.
  induction root as [t a x cs IH] using Node_ind.
  rewrite xpath_eq, nodes_at_app. unfold selected.
  rewrite elements_eq. simpl filter. simpl children.
  rewrite filter_flat_map.
  rewrite <- (nodes_at_xpath_from sel (Element t a x cs) [] cs eq_refl IH).
  simpl length. destruct (sel (Element t a x cs)); reflexivity.
Qed.

Lemma nodes_at_Forall2 (R : Node -> Node -> Prop) r1 r2 refs :
  (forall q, In q refs ->
     exists n m, get_at r1 q = Some n /\ get_at r2 q = Some m /\ R n m) ->
  Forall2 R (nodes_at r1 refs) (nodes_at r2 refs).
Proof.
  induction refs as [|q refs IH]; intros H; simpl; [constructor|].
  destruct (H q (or_introl eq_refl)) as (n & m & -> & -> & Hr). simpl.
  constructor; [assumption|]. apply IH. intros p Hp. apply H. now right.
Qed.

(** ** A loop, for its records only *)

Lemma effects_total body ns :
  (forall n s, exists n' s', body n s = Ok (n', s')) ->
  forall s, exists s', effects body ns s = Ok s'.
Proof.
  intros Hb. induction ns as [|n ns IH]; intros s; simpl; [eauto|].
  destruct (Hb n s) as (n' & s' & ->). apply IH.
Qed.

Section Effects.

Variable T : string -> bool.
Variable S : string -> bool.
Variable body : Node -> M Node.
Variable sel : Node -> bool.
Variable A : Type.
Variable view : Node -> A.
Hypothesis body_ok :
  forall n s n' s', body n s = Ok (n', s') -> body_frame T n n'.
Hypothesis sel_T : forall m, sel m = true -> T (tag m) = false.
Hypothesis sel_S : forall m, sel m = true -> S (tag m) = false.
Hypothesis sel_head : head_only sel.
Hypothesis view_shallow : shallow_in S view.

(** What the body records and binds depends on the element through [view]
    only. *)
Hypothesis body_view :
  forall n m s, view n = view m -> state_of (body n s) = state_of (body m s).

Lemma effects_view ns ms :
  Forall2 (fun n m => view n = view m) ns ms ->
  forall s, effects body ns s = effects body ms s.
Proof.
  induction 1 as [|n m ns ms Hnm _ IH]; intros s; simpl; [reflexivity|].
  pose proof (body_view n m s Hnm) as Hb.
  destruct (body n s) as [[n' s1]|e], (body m s) as [[m' s2]|e2];
    simpl in Hb; try discriminate.
  - injection Hb as ->. apply IH.
  - congruence.
Qed.

(** The loop and the read-only pass over the elements it starts from
    record the same and fail alike. *)
Lemma for_each_effects refs : forall root s,
  NoDup refs ->
  (forall p, In p refs -> exists n, get_at root p = Some n /\ sel n = true) ->
  state_of (for_each body refs root s) = effects body (nodes_at root refs) s.
Proof.
  induction refs as [|p refs IH]; intros root s Hnd Hv; simpl;
    [reflexivity|].
  destruct (Hv p (or_introl eq_refl)) as (x & Hx & Hsx). rewrite Hx. simpl.
  unfold bind. destruct (body x s) as [[x' s1]|e] eqn:Hb; [|reflexivity].
  inversion Hnd as [|? ? Hp Hnd']; subst.
  pose proof (body_ok _ _ _ _ Hb) as Hf.
  pose proof (selected_step T S sel A view sel_T sel_S sel_head view_shallow
                root p refs x x' Hp Hv Hx Hf) as Hstep.
  rewrite IH; [|assumption|].
  - apply effects_view. apply nodes_at_Forall2. intros q Hq.
    destruct (Hstep q Hq) as (n & Hn & _ & m & Hm & Hnm). eauto.
  - intros q Hq. destruct (Hstep q Hq) as (n & Hn & Hs & _). eauto.
Qed.

Lemma loop_effects root s :
  state_of (for_each body (xpath sel root) root s)
  = effects body (selected sel root) s.
Proof.
  rewrite <- nodes_at_xpath.
  apply for_each_effects; [apply NoDup_xpath | apply xpath_sound].
Qed.

End Effects.

(** ** A loop does not change what a later section reports *)

Section KeepEffects.

Variable T : string -> bool.
Variable S : string -> bool.
Variable body : Node -> M Node.
Variable sel : Node -> bool.
Hypothesis body_ok :
  forall n s n' s', body n s = Ok (n', s') -> body_frame T n n'.
Hypothesis sel_S : forall m, sel m = true -> S (tag m) = false.

Variable body1 : Node -> M Node.
Variable sel1 : Node -> bool.
Variable A : Type.
Variable view1 : Node -> A.
Hypothesis sel1_T : forall m, sel1 m = true -> T (tag m) = false.
Hypothesis sel1_head : head_only sel1.
Hypothesis view1_shallow : shallow_in S view1.
Hypothesis apart : forall m, sel1 m = true -> sel m = false.
Hypothesis body1_view :
  forall n m s, view1 n = view1 m ->
                state_of (body1 n s) = state_of (body1 m s).

Lemma loop_keeps_effects root s root' s' :
  for_each body (xpath sel root) root s = Ok (root', s') ->
  forall s1,
    effects body1 (selected sel1 root') s1
    = effects body1 (selected sel1 root) s1.
Proof.
  intros H s1. rewrite <- !nodes_at_xpath.
  rewrite (for_each_xpath T body sel1 _ body_ok sel1_T sel1_head _ _ _ _ H).
  apply (effects_view body1 A view1 body1_view).
  apply nodes_at_Forall2. intros q Hq.
  destruct (xpath_sound _ _ _ Hq) as (m & Hm & Hs).
  destruct (for_each_observe T S body body_ok sel1 _ view1 sel1_T sel1_head
              view1_shallow _ _ _ _ _ (refs_ok_xpath S sel root sel_S) H q m)
    as (m' & Hm' & _ & Hk); auto.
  - intros Hin. destruct (xpath_sound _ _ _ Hin) as (m2 & Hm2 & Hs2).
    rewrite Hm in Hm2. injection Hm2 as <-.
    rewrite (apart _ Hs) in Hs2. discriminate.
  - eauto.
Qed.

End KeepEffects.

(** ** What each body looks at *)

Lemma get_attrib t t' k d : attrib t = attrib t' -> get t k d = get t' k d.
Proof. unfold get, get_opt. now intros ->. Qed.

Lemma child_attrib_shallow t : shallow (fun n => child_attrib n t).
Proof.
  intros n n' _ Hc. unfold child_attrib.
  pose proof (find_shallow t n n' Hc) as Hf.
  destruct (find n t) as [[k c]|], (find n' t) as [[k' c']|];
    try contradiction; [|reflexivity].
  destruct Hf as [_ ->]. reflexivity.
Qed.

Lemma disk_view_shallow : shallow_in no_tag disk_view.
Proof.
  apply shallow_shallow_in. intros n n' Hh Hc. unfold disk_view.
  now rewrite (child_attrib_shallow "target" n n' Hh Hc),
              (child_attrib_shallow "driver" n n' Hh Hc).
Qed.

Lemma nic_view_shallow : shallow_in no_tag nic_view.
Proof. apply shallow_shallow_in, child_attrib_shallow. Qed.

Lemma spice_view_shallow : shallow_in no_tag spice_view.
Proof. apply shallow_shallow_in, child_attrib_shallow. Qed.

Lemma video_view_in : shallow_in S_model video_view.
Proof.
  intros n n' _ Hc. unfold video_view.
  pose proof (find_shallow_in S_model "model" n n' eq_refl Hc) as Hf.
  destruct (find n "model") as [[k m]|], (find n' "model") as [[k' m']|];
    try contradiction; [|reflexivity].
  destruct Hf as (_ & Hh & Hk).
  rewrite (child_attrib_shallow "acceleration" m m' Hh Hk).
  apply head_eq in Hh as (_ & -> & _). reflexivity.
Qed.

Ltac same_get t t' H :=
  rewrite ?get_set_attr; cbn [String.eqb Ascii.eqb Bool.eqb];
  rewrite ?(fun k d => get_attrib t t' k d H).

Lemma disk_body_view n m s :
  disk_view n = disk_view m ->
  state_of (disk_body n s) = state_of (disk_body m s).
Proof.
  unfold disk_view, child_attrib, disk_body. intros H.
  assert (Ht := f_equal fst H). assert (Hd := f_equal snd H).
  simpl in Ht, Hd. clear H.
  destruct (find n "target") as [[i t]|], (find m "target") as [[i' t']|];
    try discriminate Ht;
    destruct (find n "driver") as [[j d]|], (find m "driver") as [[j' d']|];
    try discriminate Hd;
    try (injection Ht as Ht); try (injection Hd as Hd);
    try same_get t t' Ht; try same_get d d' Hd;
    unfold state_of, bind, ret, append, bind_new_dev, read_new_dev;
    repeat case_inner; reflexivity.
Qed.

Lemma nic_body_view n m s :
  nic_view n = nic_view m ->
  state_of (nic_body n s) = state_of (nic_body m s).
Proof.
  unfold nic_view, child_attrib, nic_body. intros H.
  destruct (find n "model") as [[i t]|], (find m "model") as [[i' t']|];
    try discriminate H; try (injection H as H); try same_get t t' H;
    unfold state_of, bind, ret, append; repeat case_inner; reflexivity.
Qed.

Lemma spice_body_view n m s :
  spice_view n = spice_view m ->
  state_of (spice_body n s) = state_of (spice_body m s).
Proof.
  unfold spice_view, child_attrib, spice_body. intros H.
  destruct (find n "gl") as [[i t]|], (find m "gl") as [[i' t']|];
    try discriminate H; try (injection H as H); try same_get t t' H;
    unfold state_of, bind, ret, append, SubElement;
    repeat case_inner; reflexivity.
Qed.

Lemma video_body_view n m s :
  video_view n = video_view m ->
  state_of (video_body n s) = state_of (video_body m s).
Proof.
  unfold video_view, child_attrib, video_body. intros H.
  destruct (find n "model") as [[i t]|], (find m "model") as [[i' t']|];
    try discriminate H; [|reflexivity].
  injection H as Ht Ha. same_get t t' Ht.
  destruct (mem (get t' "type" "unknown") ["qxl"; "vga"; "cirrus"]);
    [|reflexivity].
  change (find (set_attr (set_attr (set_attr t "type" "virtio")
                                   "heads" "1") "primary" "yes")
               "acceleration")
    with (find t "acceleration").
  change (find (set_attr (set_attr (set_attr t' "type" "virtio")
                                   "heads" "1") "primary" "yes")
               "acceleration")
    with (find t' "acceleration").
  destruct (find t "acceleration") as [[k a]|],
           (find t' "acceleration") as [[k' a']|];
    try discriminate Ha; try (injection Ha as Ha); try same_get a a' Ha;
    unfold state_of, bind, ret, append, SubElement;
    repeat case_inner; reflexivity.
Qed.

Lemma cpu_view_shallow : shallow_in S_cpu cpu_view.
Proof.
  intros n n' _ Hc. unfold cpu_view.
  pose proof (find_shallow_in S_cpu "cpu" n n' eq_refl Hc) as Hf.
  pose proof (find_from_Forall2 _ 0 "vcpu" _ _
                (fun c c' Hc => proj1 (head_eq c c' (proj1 Hc))) Hc) as Hv.
  fold (find n "vcpu") in Hv. fold (find n' "vcpu") in Hv.
  f_equal.
  - destruct (find n "cpu") as [[k c]|], (find n' "cpu") as [[k' c']|];
      try contradiction; [|reflexivity].
    destruct Hf as (_ & Hh & Hk). apply head_eq in Hh as (_ & -> & _).
    pose proof (find_shallow "topology" c c' Hk) as Ht.
    destruct (find c "topology") as [[? ?]|],
             (find c' "topology") as [[? ?]|];
      try contradiction; reflexivity.
  - destruct (find n "vcpu") as [[j v]|], (find n' "vcpu") as [[j' v']|];
      try contradiction; [|reflexivity].
    destruct Hv as (_ & Hh & _). apply head_eq in Hh as (_ & _ & ->).
    reflexivity.
Qed.

Lemma cpu_view_frame T n n' :
  T "cpu" = false -> T "vcpu" = false ->
  body_frame T n n' -> cpu_view n' = cpu_view n.
Proof.
  intros Hc Hv Hf. unfold cpu_view.
  now rewrite (body_frame_find T n n' "cpu" Hf Hc),
              (body_frame_find T n n' "vcpu" Hf Hv).
Qed.

Lemma cpu_section_view n m s :
  cpu_view n = cpu_view m ->
  state_of (cpu_section n s) = state_of (cpu_section m s).
Proof.
  unfold cpu_view. intros H.
  assert (Hc := f_equal fst H). assert (Hv := f_equal snd H).
  simpl in Hc, Hv. clear H.
  destruct (find n "cpu") as [[i c]|] eqn:Fn,
           (find m "cpu") as [[i' c']|] eqn:Fm; try discriminate Hc.
  - injection Hc as Ha Ht.
    rewrite (cpu_section_present _ _ _ _ Fn), (cpu_section_present _ _ _ _ Fm).
    cbv zeta. rewrite (get_attrib c c' _ _ Ha).
    destruct (find n "vcpu") as [[j v]|], (find m "vcpu") as [[j' v']|];
      try discriminate Hv; try (injection Hv as ->);
      repeat case_inner; try discriminate Ht; reflexivity.
  - rewrite (cpu_section_absent _ _ Fn), (cpu_section_absent _ _ Fm).
    destruct (find n "vcpu") as [[j v]|], (find m "vcpu") as [[j' v']|];
      try discriminate Hv; try (injection Hv as ->);
      repeat case_inner; reflexivity.
Qed.

(** ** The four loops and the CPU section, one after the other *)

Lemma disk_loop_effects root s :
  state_of (for_each disk_body (xpath disk_sel root) root s)
  = effects disk_body (selected disk_sel root) s.
Proof.
  apply (loop_effects T_disk no_tag disk_body disk_sel _ disk_view
           disk_body_frame); auto using disk_sel_head, disk_view_shallow,
    disk_body_view; sel_apart.
Qed.

Lemma nic_loop_effects root s :
  state_of (for_each nic_body (xpath nic_sel root) root s)
  = effects nic_body (selected nic_sel root) s.
Proof.
  apply (loop_effects T_nic no_tag nic_body nic_sel _ nic_view
           nic_body_frame); auto using nic_sel_head, nic_view_shallow,
    nic_body_view; sel_apart.
Qed.

Lemma video_loop_effects root s :
  state_of (for_each video_body (xpath video_sel root) root s)
  = effects video_body (selected video_sel root) s.
Proof.
  apply (loop_effects T_video S_model video_body video_sel _ video_view
           video_body_frame); auto using video_sel_head, video_view_in,
    video_body_view; sel_apart.
Qed.

Lemma spice_loop_effects root s :
  state_of (for_each spice_body (xpath spice_sel root) root s)
  = effects spice_body (selected spice_sel root) s.
Proof.
  apply (loop_effects T_spice no_tag spice_body spice_sel _ spice_view
           spice_body_frame); auto using spice_sel_head, spice_view_shallow,
    spice_body_view; sel_apart.
Qed.

Ltac keep_effects T S body sel frame b1 s1 vw :=
  apply (loop_keeps_effects T S body sel frame) with (view1 := vw);
  auto using disk_sel_head, nic_sel_head, video_sel_head, spice_sel_head,
    nic_view_shallow, video_view_in, spice_view_shallow,
    nic_body_view, video_body_view, spice_body_view;
  sel_apart.

Ltac keep_cpu_view T body frame :=
  apply (for_each_root_view T S_cpu body frame _ cpu_view cpu_view_shallow
           (fun n n' => cpu_view_frame T n n' eq_refl eq_refl));
  apply refs_ok_xpath; sel_apart.

Lemma disk_loop_keeps_effects root s root' s' :
  for_each disk_body (xpath disk_sel root) root s = Ok (root', s') ->
  (forall s1, effects nic_body (selected nic_sel root') s1
              = effects nic_body (selected nic_sel root) s1) /\
  (forall s1, effects video_body (selected video_sel root') s1
              = effects video_body (selected video_sel root) s1) /\
  (forall s1, effects spice_body (selected spice_sel root') s1
              = effects spice_body (selected spice_sel root) s1) /\
  cpu_view root' = cpu_view root.
Proof.
  intros H. split; [|split; [|split]].
  - revert H. keep_effects T_disk no_tag disk_body disk_sel disk_body_frame
                           nic_body nic_sel nic_view.
  - revert H. keep_effects T_disk S_model disk_body disk_sel disk_body_frame
                           video_body video_sel video_view.
  - revert H. keep_effects T_disk no_tag disk_body disk_sel disk_body_frame
                           spice_body spice_sel spice_view.
  - revert H. keep_cpu_view T_disk disk_body disk_body_frame.
Qed.

Lemma nic_loop_keeps_effects root s root' s' :
  for_each nic_body (xpath nic_sel root) root s = Ok (root', s') ->
  (forall s1, effects video_body (selected video_sel root') s1
              = effects video_body (selected video_sel root) s1) /\
  (forall s1, effects spice_body (selected spice_sel root') s1
              = effects spice_body (selected spice_sel root) s1) /\
  cpu_view root' = cpu_view root.
Proof.
  intros H. split; [|split].
  - revert H. keep_effects T_nic S_model nic_body nic_sel nic_body_frame
                           video_body video_sel video_view.
  - revert H. keep_effects T_nic no_tag nic_body nic_sel nic_body_frame
                           spice_body spice_sel spice_view.
  - revert H. keep_cpu_view T_nic nic_body nic_body_frame.
Qed.

Lemma video_loop_keeps_effects root s root' s' :
  for_each video_body (xpath video_sel root) root s = Ok (root', s') ->
  (forall s1, effects spice_body (selected spice_sel root') s1
              = effects spice_body (selected spice_sel root) s1) /\
  cpu_view root' = cpu_view root.
Proof.
  intros H. split.
  - revert H. keep_effects T_video no_tag video_body video_sel
                           video_body_frame spice_body spice_sel spice_view.
  - revert H. keep_cpu_view T_video video_body video_body_frame.
Qed.

Lemma spice_loop_keeps_cpu_view root s root' s' :
  for_each spice_body (xpath spice_sel root) root s = Ok (root', s') ->
  cpu_view root' = cpu_view root.
Proof. keep_cpu_view T_spice spice_body spice_body_frame. Qed.

(** The run and the read-only pass record the same, bind the same and fail
    alike, from any state of the locals. *)
Lemma apply_rules_report root s :
  state_of (apply_rules root s) = report_from root s.
Proof.
  unfold apply_rules, report_from, bind.
  rewrite <- disk_loop_effects.
  destruct (for_each disk_body _ root s) as [[r1 s1]|e1] eqn:H1;
    [|reflexivity].
  destruct (disk_loop_keeps_effects _ _ _ _ H1) as (Dn & Dv & Dg & Dc).
  simpl. rewrite <- Dn, <- nic_loop_effects.
  destruct (for_each nic_body _ r1 s1) as [[r2 s2]|e2] eqn:H2;
    [|reflexivity].
  destruct (nic_loop_keeps_effects _ _ _ _ H2) as (Nv & Ng & Nc).
  simpl. rewrite <- Dv, <- Nv, <- video_loop_effects.
  destruct (for_each video_body _ r2 s2) as [[r3 s3]|e3] eqn:H3;
    [|reflexivity].
  destruct (video_loop_keeps_effects _ _ _ _ H3) as (Vg & Vc).
  simpl. rewrite <- Dg, <- Ng, <- Vg, <- spice_loop_effects.
  destruct (for_each spice_body _ r3 s3) as [[r4 s4]|e4] eqn:H4;
    [|reflexivity].
  pose proof (spice_loop_keeps_cpu_view _ _ _ _ H4) as Gc.
  simpl. apply cpu_section_view. congruence.
Qed.

(** X1.  The records of a run, with their before and after texts, and the
    exception of a run that fails, are those of a pass over the input
    document that writes nothing: each loop body looks at the elements its
    selector matches in the input, in document order, and the CPU section
    at the root of the input.  What one rule writes never changes what a
    later rule records. *)
Theorem transform_report root : records (transform root) = report root.
Proof.
  unfold records, report, transform.
  rewrite <- apply_rules_report.
  destruct (apply_rules root (mkSt [] None)) as [[r s]|e]; reflexivity.
Qed.

(** * When a run fails *)

Lemma nic_body_total n s : exists n' s', nic_body n s = Ok (n', s').
Proof. unfold nic_body, bind, append, ret. repeat case_inner; eauto. Qed.

Lemma spice_body_total n s : exists n' s', spice_body n s = Ok (n', s').
Proof.
  unfold spice_body, bind, append, ret, SubElement.
  repeat case_inner; eauto.
Qed.

(** One disk: the body fails exactly when it converts the bus of a target
    without [dev] while [new_dev] is unbound; it binds [new_dev] exactly
    when it converts the bus of a target with a [dev]. *)
Lemma disk_body_outcome disk s :
  match disk_body disk s with
  | Ok (_, s') =>
      new_dev s'
      = (if (bus_pending disk && truthy (target_dev disk))%bool
         then Some (re_sub_hs_d (target_dev disk)) else new_dev s)
      /\ (bus_pending disk = true -> truthy (target_dev disk) = false ->
          new_dev s <> None)
  | Raise e =>
      e = UnboundLocalError /\ bus_pending disk = true /\
      truthy (target_dev disk) = false /\ new_dev s = None
  end.
Proof.
  unfold disk_body, bus_pending, target_dev. destruct s as [chs nd].
  destruct (find disk "target") as [[i t]|].
  - rewrite get_set_attr. cbn [String.eqb Ascii.eqb Bool.eqb].
    destruct (mem (get t "bus" "unknown") ["ide"; "sata"; "scsi"]).
    + destruct (truthy (get t "dev" EmptyString)).
      * unfold bind, ret, append, bind_new_dev, read_new_dev. simpl.
        repeat case_inner; split; auto; discriminate.
      * destruct nd as [v|].
        -- unfold bind, ret, append, bind_new_dev, read_new_dev. simpl.
           repeat case_inner; split; auto; discriminate.
        -- unfold bind, ret, append, bind_new_dev, read_new_dev. simpl.
           auto.
    + unfold bind, ret, append. simpl.
      repeat case_inner; split; auto; discriminate.
  - unfold bind, ret, append. simpl.
    repeat case_inner; split; auto; discriminate.
Qed.

(** The disk loop as a pass: it fails exactly when the first disk whose
    bus is converted has no [dev], unless [new_dev] is bound already. *)
Lemma effects_disk disks : forall s,
  match effects disk_body disks s with
  | Ok _ => new_dev s = None -> unbound_read disks = false
  | Raise e =>
      e = UnboundLocalError /\ new_dev s = None /\ unbound_read disks = true
  end.
Proof.
  induction disks as [|d disks IH]; intros s; simpl; [reflexivity|].
  pose proof (disk_body_outcome d s) as Hd.
  destruct (disk_body d s) as [[d' s1]|e].
  - destruct Hd as [Hn Hb]. specialize (IH s1).
    destruct (bus_pending d); simpl in Hn.
    + destruct (truthy (target_dev d)); simpl.
      * rewrite Hn in IH.
        destruct (effects disk_body disks s1); [reflexivity|].
        destruct IH as (_ & IH & _). discriminate.
      * rewrite Hn in IH.
        destruct (effects disk_body disks s1).
        -- intros H. now destruct (Hb eq_refl eq_refl).
        -- destruct IH as (_ & IH & _). now destruct (Hb eq_refl eq_refl).
    + rewrite Hn in IH. exact IH.
  - destruct Hd as (-> & -> & -> & ->). auto.
Qed.

Lemma cpu_section_outcome root s :
  match vcpu_error root with
  | Some e => cpu_section root s = Raise e
  | None => exists root' s', cpu_section root s = Ok (root', s')
  end.
Proof.
  unfold vcpu_error. destruct (find root "cpu") as [[i cpu]|] eqn:Hc.
  - rewrite (cpu_section_present _ _ _ _ Hc). cbv zeta.
    destruct (find root "vcpu") as [[j v]|]; [|eauto].
    destruct (int (or_1 (text v))); [|reflexivity].
    destruct (find cpu "topology"); eauto.
  - rewrite (cpu_section_absent _ _ Hc).
    destruct (find root "vcpu") as [[j v]|]; [|eauto].
    destruct (text v) as [t|]; [|reflexivity].
    destruct (int t); [eauto | reflexivity].
Qed.

(** X2.  A run fails in two ways only, decided by the input document.  It
    raises [UnboundLocalError] exactly when, among the disks matched by
    [//disk[@device='disk']] in document order, the first one whose target
    bus is ide, sata or scsi has no [dev] attribute, or an empty one.
    Otherwise it fails exactly when [int] does not read the text of the
    first [vcpu] child of the root: with [ValueError], or with [TypeError]
    when the text is absent and there is no [cpu] child.  In every other
    case the run returns a document and a list of records. *)
Theorem transform_failure root :
  match failure root with
  | Some e => transform root = Raise e
  | None => exists root' chs, transform root = Ok (root', chs)
  end.
Proof.
  pose proof (apply_rules_report root (mkSt [] None)) as H.
  unfold failure, transform. unfold report_from in H.
  pose proof (effects_disk (selected disk_sel root) (mkSt [] None)) as Hd.
  destruct (effects disk_body (selected disk_sel root) (mkSt [] None))
    as [s1|e1]; simpl in H.
  2:{ destruct Hd as (-> & _ & ->).
      destruct (apply_rules root (mkSt [] None)) as [[r s]|e];
        simpl in H; congruence. }
  rewrite (Hd eq_refl).
  destruct (effects_total nic_body (selected nic_sel root) nic_body_total s1)
    as (s2 & H2).
  destruct (effects_total video_body (selected video_sel root)
              video_body_total s2) as (s3 & H3).
  destruct (effects_total spice_body (selected spice_sel root)
              spice_body_total s3) as (s4 & H4).
  rewrite H2 in H. simpl in H. rewrite H3 in H. simpl in H.
  rewrite H4 in H. simpl in H.
  pose proof (cpu_section_outcome root s4) as Hc.
  destruct (vcpu_error root) as [e|].
  - rewrite Hc in H. simpl in H.
    destruct (apply_rules root (mkSt [] None)) as [[r s]|e'];
      simpl in H; congruence.
  - destruct Hc as (r' & s' & Hc). rewrite Hc in H. simpl in H.
    destruct (apply_rules root (mkSt [] None)) as [[r s]|e'];
      simpl in H; [eauto | discriminate].
Qed.

(** * The document a run returns *)

Lemma in_elements_get_at n : forall root,
  In n (elements root) <-> exists p, get_at root p = Some n.
Proof.
  intros root. induction root as [t a x cs IH] using Node_ind.
  rewrite elements_eq. simpl children. split.
  - intros [<-|H]; [now exists []|].
    apply in_flat_map in H as (c & Hc & Hn).
    rewrite Forall_forall in IH. apply (IH c Hc) in Hn as (p & Hp).
    apply In_nth_error in Hc as (i & Hi).
    exists (i :: p). simpl. now rewrite Hi.
  - intros ([|i p] & Hp); simpl in Hp.
    + injection Hp as <-. now left.
    + right. destruct (nth_error cs i) as [c|] eqn:Hi; [|discriminate].
      apply in_flat_map. exists c. apply nth_error_In in Hi.
      split; [assumption|]. rewrite Forall_forall in IH.
      apply (IH c Hi). eauto.
Qed.

(** X3.  After a successful run no rule has anything left to do, anywhere
    in the returned document: no disk matched by the disk selector has a
    target on an ide, sata or scsi bus or a driver whose cache, discard, io
    differ from writeback, unmap, threads; no interface has a model of type
    rtl8139, e1000 or e1000e; no video element has a model of type qxl, vga
    or cirrus; every SPICE graphics element has a [gl] child with
    [enable="yes"]; and the root has a [cpu] child in host-passthrough
    mode, with a [topology] when there is a [vcpu] child. *)
Theorem transform_settles root root' chs :
  transform root = Ok (root', chs) ->
  (forall n, In n (elements root') ->
     (disk_sel n = true ->
      bus_pending n = false /\ cache_pending n = false) /\
     (nic_sel n = true -> nic_pending n = false) /\
     (video_sel n = true -> video_pending n = false) /\
     (spice_sel n = true -> spice_done n = true))
  /\ cpu_done root' = true.
Proof.
  unfold transform.
  destruct (apply_rules root (mkSt [] None)) as [[r s]|e] eqn:H;
    [|discriminate].
  intros [= <- _]. apply apply_rules_optimizes in H as [(Hd & Hn & Hv & Hg) Hc].
  split; [|exact Hc]. intros n Hin.
  apply in_elements_get_at in Hin as (p & Hp).
  apply pending_nil_settled in Hd, Hn, Hv, Hg.
  split; [|split; [|split]]; intros Hs.
  - specialize (Hd p n Hp Hs). unfold disk_done in Hd.
    apply andb_true_iff in Hd as [H1 H2].
    now apply negb_true_iff in H1, H2.
  - specialize (Hn p n Hp Hs). now apply negb_true_iff in Hn.
  - specialize (Hv p n Hp Hs). now apply negb_true_iff in Hv.
  - exact (Hg p n Hp Hs).
Qed.

Lemma transform_settles_witness :
  (forall n, In n (elements sample_domain_optimized) ->
     (disk_sel n = true ->
      bus_pending n = false /\ cache_pending n = false) /\
     (nic_sel n = true -> nic_pending n = false) /\
     (video_sel n = true -> video_pending n = false) /\
     (spice_sel n = true -> spice_done n = true))
  /\ cpu_done sample_domain_optimized = true.
Proof.
  apply (transform_settles sample_domain sample_domain_optimized
           sample_domain_changes).
  reflexivity.
Defined.

(** ** No change without a record *)

Lemma scan_nil_pending sel keys_of done root :
  (forall n, keys_of n = [] -> done n = true) ->
  scan sel keys_of root = [] -> pending sel done root = [].
Proof.
  intros Hk. unfold scan, pending.
  induction (xpath sel root) as [|p l IH]; simpl; [reflexivity|].
  intros H. apply app_eq_nil in H as [Hp Hl]. unfold keys_at in Hp.
  destruct (get_at root p) as [n|]; [|auto].
  rewrite (Hk n Hp). simpl. auto.
Qed.

Lemma device_scans_nil root :
  scan disk_sel disk_keys root ++ scan nic_sel nic_keys root
  ++ scan video_sel video_keys root ++ scan spice_sel spice_keys root = [] ->
  devices_done root.
Proof.
  intros H.
  apply app_eq_nil in H as [Hd H]. apply app_eq_nil in H as [Hn H].
  apply app_eq_nil in H as [Hv Hg]. repeat split.
  - revert Hd. apply scan_nil_pending. intros n.
    unfold disk_keys, disk_done.
    destruct (bus_pending n), (cache_pending n); simpl;
      discriminate || reflexivity.
  - revert Hn. apply scan_nil_pending. intros n.
    unfold nic_keys, nic_done.
    destruct (nic_pending n); simpl; discriminate || reflexivity.
  - revert Hv. apply scan_nil_pending. intros n.
    unfold video_keys, video_done.
    destruct (video_pending n); simpl; discriminate || reflexivity.
  - revert Hg. apply scan_nil_pending. intros n.
    unfold spice_keys.
    destruct (spice_done n); simpl; discriminate || reflexivity.
Qed.

Lemma expected_keys_nil root :
  expected_keys root = [] -> devices_done root /\ cpu_keys root = [].
Proof.
  unfold expected_keys. intros H. rewrite !app_assoc in H.
  apply app_eq_nil in H as [H Hc]. rewrite <- !app_assoc in H.
  split; [now apply device_scans_nil | exact Hc].
Qed.

Lemma cpu_section_quiet root s root' s' :
  cpu_keys root = [] -> cpu_section root s = Ok (root', s') -> root' = root.
Proof.
  unfold cpu_keys. destruct (find root "cpu") as [[i cpu]|] eqn:Hc;
    [|discriminate].
  rewrite (cpu_section_present _ _ _ _ Hc). cbv zeta.
  destruct (find_some _ _ _ _ Hc) as [Hn _].
  destruct (String.eqb (get cpu "mode" "custom") "host-passthrough");
    [|discriminate].
  simpl negb. cbv iota.
  destruct (find root "vcpu") as [[j v]|].
  - destruct (int (or_1 (text v))); [|discriminate].
    destruct (find cpu "topology"); [|discriminate].
    intros _ [= <- _]. now apply put_child_same.
  - intros _ [= <- _]. now apply put_child_same.
Qed.

Lemma transform_quiet root root' :
  transform root = Ok (root', []) -> root' = root.
Proof.
  unfold transform.
  destruct (apply_rules root (mkSt [] None)) as [[r s]|e] eqn:H;
    [|discriminate].
  intros [= <- Hs]. pose proof (apply_rules_keys _ _ _ _ H) as Hk.
  rewrite Hs in Hk. simpl in Hk. symmetry in Hk.
  apply expected_keys_nil in Hk as [Hd Hc].
  rewrite (apply_rules_devices_done _ _ Hd) in H.
  eapply cpu_section_quiet; eauto.
Qed.

(** X5.  A run changes the document only if it reports a change: when the
    list of records is empty the returned document is the input document,
    and when the returned document is the input document the list is
    empty. *)
Theorem transform_silent root root' chs :
  transform root = Ok (root', chs) -> (chs = [] <-> root' = root).
Proof.
  intros H0. split.
  - intros ->. now apply transform_quiet.
  - intros ->. revert H0. unfold transform.
    destruct (apply_rules root (mkSt [] None)) as [[r s]|e] eqn:H;
      [|discriminate].
    intros [= -> <-]. pose proof (apply_rules_optimizes _ _ _ _ H) as Ho.
    rewrite (apply_rules_optimized _ _ Ho) in H. now injection H as <-.
Qed.

Lemma transform_silent_witness :
  (sample_domain_changes = [] <-> sample_domain_optimized = sample_domain)
  /\ (@nil Change = [] <-> sample_domain_optimized = sample_domain_optimized).
Proof.
  split.
  - apply (transform_silent sample_domain sample_domain_optimized
             sample_domain_changes).
    reflexivity.
  - apply (transform_silent sample_domain_optimized sample_domain_optimized
             []).
    reflexivity.
Defined.

(** ** The documents a run leaves alone *)

Lemma cpu_done_keys root :
  cpu_done root = true <->
  cpu_keys root = []
  /\ forall j vcpu_elem,
       find root "vcpu" = Some (j, vcpu_elem) ->
       int (or_1 (text vcpu_elem)) <> None.
Proof.
  unfold cpu_done, cpu_keys.
  destruct (find root "cpu") as [[i cpu]|]; [|now split; [|intros [? _]]].
  destruct (String.eqb (get cpu "mode" "custom") "host-passthrough");
    simpl; [|now split; [|intros [? _]]].
  destruct (find root "vcpu") as [[j v]|].
  - destruct (find cpu "topology") as [[k tp]|].
    + destruct (int (or_1 (text v))) as [n|] eqn:Hi.
      * split; [|reflexivity]. intros _. split; [reflexivity|].
        intros j0 v0 [= _ <-]. congruence.
      * split; [discriminate|]. intros [_ H]. now destruct (H j v eq_refl).
    + destruct (int (or_1 (text v))); now split; [|intros [? _]].
  - split; [|reflexivity]. intros _. split; [reflexivity | discriminate].
Qed.

(** X4.  A run returns the document it was given, with no records, exactly
    on the documents where no rule's condition holds (the read-only scan
    calls for no record) and [int] reads the text of the first [vcpu]
    child, if there is one.  Where no rule's condition holds and [int]
    does not read that text, the run fails with [ValueError] (line
    248). *)
Theorem transform_noop_iff root :
  (transform root = Ok (root, []) <->
   expected_keys root = []
   /\ forall j vcpu_elem,
        find root "vcpu" = Some (j, vcpu_elem) ->
        int (or_1 (text vcpu_elem)) <> None)
  /\ (expected_keys root = [] ->
      forall j vcpu_elem,
        find root "vcpu" = Some (j, vcpu_elem) ->
        int (or_1 (text vcpu_elem)) = None ->
        transform root = Raise ValueError).
Proof.
  split; [split|].
  - unfold transform.
    destruct (apply_rules root (mkSt [] None)) as [[r s]|e] eqn:H;
      [|discriminate].
    intros [= -> Hs]. pose proof (apply_rules_keys _ _ _ _ H) as Hk.
    rewrite Hs in Hk. simpl in Hk. symmetry in Hk. split; [exact Hk|].
    apply apply_rules_optimizes in H as [_ Hc].
    now apply cpu_done_keys in Hc.
  - intros [Hk Hv]. apply expected_keys_nil in Hk as [Hd Hc].
    unfold transform.
    rewrite (apply_rules_optimized root (mkSt [] None)); [reflexivity|].
    split; [exact Hd|]. apply cpu_done_keys. now split.
  - intros Hk j v Fv Hi. apply expected_keys_nil in Hk as [Hd Hc].
    unfold transform. rewrite (apply_rules_devices_done _ _ Hd).
    unfold cpu_keys in Hc.
    destruct (find root "cpu") as [[i cpu]|] eqn:Fc; [|discriminate].
    rewrite (cpu_section_present _ _ _ _ Fc). cbv zeta.
    now rewrite Fv, Hi.
Qed.

(** * The device rules, element by element *)

(** ** What a loop leaves of each element it visits *)

Section After.

Variable T : string -> bool.
Variable S : string -> bool.
Variable body : Node -> M Node.
Variable sel : Node -> bool.
Variable A : Type.
Variable view : Node -> A.
Hypothesis body_ok :
  forall n s n' s', body n s = Ok (n', s') -> body_frame T n n'.
Hypothesis sel_T : forall m, sel m = true -> T (tag m) = false.
Hypothesis sel_S : forall m, sel m = true -> S (tag m) = false.
Hypothesis sel_head : head_only sel.
Hypothesis view_shallow : shallow_in S view.

(** What the body leaves of an element, as a relation between the element
    before and after that only looks at them through [view]. *)
Variable R : Node -> Node -> Prop.
Hypothesis R_view :
  forall x x' m m', view x = view m -> view m' = view x' -> R x x' -> R m m'.
Hypothesis body_R : forall x sx x' sx', body x sx = Ok (x', sx') -> R x x'.

Lemma loop_after root s root' s' :
  for_each body (xpath sel root) root s = Ok (root', s') ->
  forall p m,
    get_at root p = Some m -> sel m = true ->
    exists m', get_at root' p = Some m' /\ R m m'.
Proof.
  intros H p m Hg Hs.
  destruct (for_each_trace T S body sel A view body_ok sel_T sel_S sel_head
              view_shallow _ _ _ _ _ (NoDup_xpath sel root)
              (xpath_sound sel root) H p (xpath_complete _ _ _ _ Hg Hs))
    as (m0 & x & sx & x' & sx' & m' & Hm & Hvx & Hb & Hm' & Hvm').
  assert (m0 = m) by congruence. subst m0.
  exists m'. split; [assumption|]. eapply R_view; eauto.
Qed.

(** A body that never fails and whose records are [recs] of the element. *)
Variable recs : Node -> list Change.
Hypothesis body_view :
  forall n m s, view n = view m -> state_of (body n s) = state_of (body m s).
Hypothesis body_recs :
  forall n s, exists n', body n s = Ok (n', add_changes s (recs n)).

Lemma effects_recs ns : forall s,
  effects body ns s = Ok (add_changes s (flat_map recs ns)).
Proof.
  induction ns as [|n ns IH]; intros s; simpl.
  - now rewrite add_changes_nil.
  - destruct (body_recs n s) as (n' & ->). rewrite IH.
    now rewrite add_changes_app.
Qed.

Lemma rule_loop root s :
  exists root',
    for_each body (xpath sel root) root s
    = Ok (root', add_changes s (flat_map recs (selected sel root)))
    /\ forall p m,
         get_at root p = Some m -> sel m = true ->
         exists m', get_at root' p = Some m' /\ R m m'.
Proof.
  pose proof (loop_effects T S body sel A view body_ok sel_T sel_S sel_head
                view_shallow body_view root s) as He.
  rewrite effects_recs in He.
  destruct (for_each body (xpath sel root) root s) as [[root' s']|e] eqn:H;
    [|discriminate].
  injection He as ->. exists root'. split; [reflexivity|].
  eapply loop_after; eauto.
Qed.

End After.

(** ** Reading a child's attribute *)

Lemma child_get_attrib n m t k :
  child_attrib n t = child_attrib m t -> child_get n t k = child_get m t k.
Proof.
  unfold child_attrib, child_get, get_opt.
  destruct (find n t) as [[i c]|], (find m t) as [[j d]|];
    try discriminate; [|reflexivity].
  now intros [= ->].
Qed.

Lemma child_get_put_child_self n t i c c' k :
  find n t = Some (i, c) -> tag c' = tag c ->
  child_get (put_child n i c') t k = get_opt c' k.
Proof.
  intros Hf Ht. unfold child_get.
  now rewrite (find_put_child_self _ _ _ _ _ Hf Ht).
Qed.

Lemma child_get_put_child_other n t i c c' k :
  nth_error (children n) i = Some c -> tag c' = tag c -> tag c <> t ->
  child_get (put_child n i c') t k = child_get n t k.
Proof.
  intros Hn Ht Hne. unfold child_get.
  now rewrite (find_put_child_other _ _ _ _ _ Hn Ht Hne).
Qed.

Lemma nic_pending_attrib n m :
  child_attrib n "model" = child_attrib m "model" ->
  nic_pending n = nic_pending m.
Proof.
  unfold child_attrib, nic_pending, get, get_opt.
  destruct (find n "model") as [[i c]|], (find m "model") as [[j d]|];
    try discriminate; [|reflexivity].
  now intros [= ->].
Qed.

Lemma spice_done_attrib n m :
  child_attrib n "gl" = child_attrib m "gl" -> spice_done n = spice_done m.
Proof.
  unfold child_attrib, spice_done, get, get_opt.
  destruct (find n "gl") as [[i c]|], (find m "gl") as [[j d]|];
    try discriminate; [|reflexivity].
  now intros [= ->].
Qed.

(** ** Interfaces *)

Lemma nic_body_spec iface s :
  exists iface',
    nic_body iface s = Ok (iface', add_changes s (nic_records iface))
    /\ nic_after iface iface'.
Proof.
  unfold nic_body, nic_records, nic_after, nic_pending, child_get.
  destruct (find iface "model") as [[i m]|] eqn:Fm.
  - change (or_default (get_opt m "type") "unknown")
      with (get m "type" "unknown").
    destruct (mem (get m "type" "unknown") _) eqn:Hm.
    + eexists. split; [reflexivity|].
      rewrite (find_put_child_self _ _ _ _ (set_attr m "type" "virtio") Fm
                 eq_refl).
      rewrite get_set_attr. split; [reflexivity|]. intros k.
      rewrite get_opt_set_attr. reflexivity.
    + exists iface. rewrite add_changes_nil. split; [reflexivity|].
      rewrite Fm, Hm. auto.
  - exists iface. rewrite add_changes_nil. split; [reflexivity|].
    rewrite Fm. auto.
Qed.

Lemma nic_after_view x x' m m' :
  nic_view x = nic_view m -> nic_view m' = nic_view x' ->
  nic_after x x' -> nic_after m m'.
Proof.
  unfold nic_view, nic_after. intros H H' [Hp Hk].
  rewrite (nic_pending_attrib _ _ H'), <- (nic_pending_attrib _ _ H).
  split; [assumption|]. intros k.
  rewrite (child_get_attrib _ _ _ k H'), <- (child_get_attrib _ _ _ k H).
  apply Hk.
Qed.

(** X6.  The NIC rule.  On an interface whose model type is rtl8139, e1000
    or e1000e the body sets the type to virtio, leaves every other
    attribute of the model as it is, and records
    [("nic_model", old type, "virtio")]; on every other interface it does
    nothing and records nothing.  The NIC section never fails; its records
    are those of the interfaces of the input in document order, and it
    leaves each interface as the body leaves it. *)
Theorem nic_rule :
  (forall iface s,
      exists iface',
        nic_body iface s = Ok (iface', add_changes s (nic_records iface))
        /\ nic_after iface iface')
  /\ (forall iface s,
        nic_pending iface = false -> nic_body iface s = Ok (iface, s))
  /\ (forall root s,
        exists root',
          for_each nic_body (xpath nic_sel root) root s
          = Ok (root',
                add_changes s (flat_map nic_records (selected nic_sel root)))
          /\ forall p iface,
               get_at root p = Some iface -> nic_sel iface = true ->
               exists iface',
                 get_at root' p = Some iface' /\ nic_after iface iface').
Proof.
  split; [exact nic_body_spec|]. split.
  - intros iface s H. apply nic_body_done. unfold nic_done. now rewrite H.
  - intros root s.
    apply (rule_loop T_nic no_tag nic_body nic_sel _ nic_view nic_body_frame);
      auto using nic_sel_head, nic_view_shallow, nic_body_view.
    + sel_apart.
    + exact nic_after_view.
    + intros x sx x' sx' Hb.
      destruct (nic_body_spec x sx) as (x'' & Hb' & Ha). congruence.
    + intros n s0. destruct (nic_body_spec n s0) as (n' & Hb & _). eauto.
Qed.

(** ** SPICE graphics *)

Lemma spice_body_spec graphics s :
  exists graphics',
    spice_body graphics s
    = Ok (graphics', add_changes s (spice_records graphics))
    /\ spice_after graphics graphics'.
Proof.
  unfold spice_body, spice_records, spice_after, spice_done, child_get.
  destruct (find graphics "gl") as [[i gl]|] eqn:Fg.
  - change (or_default (get_opt gl "enable") "no")
      with (get gl "enable" "no").
    destruct (String.eqb (get gl "enable" "no") "yes") eqn:He; simpl negb;
      cbv iota.
    + exists graphics. rewrite add_changes_nil. split; [reflexivity|].
      rewrite Fg, He. auto.
    + eexists. split; [reflexivity|].
      match goal with
      | |- context [put_child graphics i ?x] =>
          assert (Hx : tag x = tag gl
                       /\ forall k,
                            get_opt x k
                            = if String.eqb "enable" k then Some "yes"
                              else if String.eqb "rendernode" k
                                   then Some (or_default
                                                (get_opt gl "rendernode")
                                                "/dev/dri/renderD128")
                                   else get_opt gl k);
          [|destruct Hx as [Ht Hx];
            rewrite (find_put_child_self _ _ _ _ x Fg Ht)]
      end.
      { assert (E : String.eqb "enable" "rendernode" = false) by reflexivity.
        rewrite get_opt_set_attr, E.
        destruct (get_opt gl "rendernode") as [r|] eqn:Hr.
        - split; [reflexivity|]. intros k. rewrite get_opt_set_attr.
          destruct (String.eqb "enable" k); [reflexivity|].
          destruct (String.eqb_spec "rendernode" k) as [<-|];
            [assumption | reflexivity].
        - split; [reflexivity|]. intros k. rewrite !get_opt_set_attr.
          destruct (String.eqb_spec "rendernode" k) as [<-|];
            [reflexivity|].
          reflexivity. }
      split.
      * unfold get. rewrite Hx. reflexivity.
      * exact Hx.
  - simpl negb. cbv iota. eexists. split; [reflexivity|].
    match goal with
    | |- context [find ?g "gl"] =>
        change g with
          (put_child (fst (SubElement graphics "gl"))
                     (snd (SubElement graphics "gl"))
                     (set_attr (set_attr (Element "gl" [] None [])
                                         "enable" "yes")
                               "rendernode" "/dev/dri/renderD128"))
    end.
    rewrite put_child_SubElement.
    erewrite find_append_child_new; [|exact Fg|reflexivity].
    split; [reflexivity|]. intros k. rewrite !get_opt_set_attr.
    simpl or_default.
    destruct (String.eqb_spec "rendernode" k) as [<-|]; [reflexivity|].
    reflexivity.
Qed.

Lemma spice_after_view x x' m m' :
  spice_view x = spice_view m -> spice_view m' = spice_view x' ->
  spice_after x x' -> spice_after m m'.
Proof.
  unfold spice_view, spice_after. intros H H' [Hp Hk].
  rewrite (spice_done_attrib _ _ H'), <- (spice_done_attrib _ _ H).
  split; [assumption|]. intros k.
  rewrite (child_get_attrib _ _ _ k H'), <- (child_get_attrib _ _ _ k H),
    <- (child_get_attrib _ _ _ "rendernode" H).
  apply Hk.
Qed.

(** X7.  The SPICE GL rule.  A SPICE graphics element whose [gl] child
    has [enable="yes"] is left as it is, also when that child has no
    [rendernode].  On every other one the body sets [enable="yes"] on the
    [gl] child, which it creates when there is none, keeps a [rendernode]
    that is there and sets [/dev/dri/renderD128] otherwise, leaves every
    other attribute of [gl] as it is, and records
    [("spice_gl", "enable=" ++ old value or "no", "enable=yes")].  The section
    never fails; its records are those of the SPICE graphics elements of
    the input in document order. *)
Theorem spice_rule :
  (forall graphics s,
      exists graphics',
        spice_body graphics s
        = Ok (graphics', add_changes s (spice_records graphics))
        /\ spice_after graphics graphics')
  /\ (forall graphics s,
        spice_done graphics = true ->
        spice_body graphics s = Ok (graphics, s))
  /\ (forall root s,
        exists root',
          for_each spice_body (xpath spice_sel root) root s
          = Ok (root',
                add_changes s
                  (flat_map spice_records (selected spice_sel root)))
          /\ forall p graphics,
               get_at root p = Some graphics -> spice_sel graphics = true ->
               exists graphics',
                 get_at root' p = Some graphics'
                 /\ spice_after graphics graphics').
Proof.
  split; [exact spice_body_spec|]. split.
  - intros graphics s. apply spice_body_done.
  - intros root s.
    apply (rule_loop T_spice no_tag spice_body spice_sel _ spice_view
             spice_body_frame);
      auto using spice_sel_head, spice_view_shallow, spice_body_view.
    + sel_apart.
    + exact spice_after_view.
    + intros x sx x' sx' Hb.
      destruct (spice_body_spec x sx) as (x'' & Hb' & Ha). congruence.
    + intros n s0. destruct (spice_body_spec n s0) as (n' & Hb & _). eauto.
Qed.

Lemma nic_rule_witness :
  nic_body virtio_iface (mkSt [] None) = Ok (virtio_iface, mkSt [] None)
  /\ exists iface',
       nic_body rtl_iface (mkSt [] None)
       = Ok (iface', mkSt [("nic_model", "rtl8139", "virtio")] None)
       /\ nic_after rtl_iface iface'.
Proof.
  split.
  - apply (proj1 (proj2 nic_rule) virtio_iface (mkSt [] None)). reflexivity.
  - exact (proj1 nic_rule rtl_iface (mkSt [] None)).
Defined.

Lemma spice_rule_witness :
  spice_body spice_gl_on (mkSt [] None) = Ok (spice_gl_on, mkSt [] None)
  /\ exists graphics',
       spice_body spice_gl_off (mkSt [] None)
       = Ok (graphics', mkSt [("spice_gl", "enable=no", "enable=yes")] None)
       /\ spice_after spice_gl_off graphics'.
Proof.
  split.
  - apply (proj1 (proj2 spice_rule) spice_gl_on (mkSt [] None)). reflexivity.
  - exact (proj1 spice_rule spice_gl_off (mkSt [] None)).
Defined.

(** ** Video *)





Lemma video_body_after video s :
  exists video',
    video_body video s = Ok (video', add_changes s (video_records video))
    /\ video_after video video'.
Proof.
  unfold video_body, video_records, video_after, video_pending, accel_flag,
    grandchild_get.
  destruct (find video "model") as [[i m]|] eqn:Fm.
  2:{ exists video. rewrite add_changes_nil. split; [reflexivity|].
      rewrite Fm. auto. }
  unfold child_get at 1. rewrite Fm.
  change (or_default (get_opt m "type") "unknown")
    with (get m "type" "unknown").
  destruct (mem (get m "type" "unknown") ["qxl"; "vga"; "cirrus"]) eqn:Hm.
  2:{ exists video. rewrite add_changes_nil. split; [reflexivity|].
      rewrite Fm, Hm. auto. }
  set (m3 := set_attr (set_attr (set_attr m "type" "virtio") "heads" "1")
                      "primary" "yes").
  assert (Hm3 : forall k,
             get_opt m3 k
             = if String.eqb "primary" k then Some "yes"
               else if String.eqb "heads" k then Some "1"
               else if String.eqb "type" k then Some "virtio"
               else get_opt m k).
  { intros k. unfold m3. now rewrite !get_opt_set_attr. }
  change (find m3 "acceleration") with (find m "acceleration").
  destruct (find m "acceleration") as [[k acc]|] eqn:Fa.
  - eexists. split.
    + unfold bind, append, ret, add_changes.
      destruct (String.eqb (get acc "accel3d" "no") "yes"); simpl;
        rewrite <- ?app_assoc; reflexivity.
    + assert (Fa3 : find m3 "acceleration" = Some (k, acc)) by exact Fa.
      unfold child_get.
      rewrite (find_put_child_self _ _ _ _ (put_child m3 k _) Fm eq_refl).
      rewrite (find_put_child_self _ _ _ _ (set_attr acc "accel3d" "yes")
                 Fa3 eq_refl).
      rewrite Fm, Fa. split; [|split].
      * unfold get.
        change (get_opt (put_child m3 k (set_attr acc "accel3d" "yes")) "type")
          with (get_opt m3 "type").
        rewrite Hm3. reflexivity.
      * intros k0.
        change (get_opt (put_child m3 k (set_attr acc "accel3d" "yes")) k0)
          with (get_opt m3 k0).
        apply Hm3.
      * intros k0. rewrite get_opt_set_attr. reflexivity.
  - exists (put_child video i
              (append_child m3 (Element "acceleration" [("accel3d", "yes")]
                                        None []))).
    split.
    + unfold bind, append, ret, add_changes. simpl.
      rewrite <- app_assoc. do 3 f_equal.
      exact (put_child_SubElement m3 "acceleration" _).
    + assert (Fa3 : find m3 "acceleration" = None) by exact Fa.
      unfold child_get.
      rewrite (find_put_child_self _ _ _ _ (append_child m3 _) Fm eq_refl).
      rewrite (find_append_child_new m3 "acceleration"
                 (Element "acceleration" [("accel3d", "yes")] None [])
                 Fa3 eq_refl).
      rewrite Fm, Fa. split; [|split].
      * unfold get.
        change (get_opt (append_child m3 (Element "acceleration"
                                            [("accel3d", "yes")] None []))
                        "type")
          with (get_opt m3 "type").
        rewrite Hm3. reflexivity.
      * intros k0.
        change (get_opt (append_child m3 (Element "acceleration"
                                            [("accel3d", "yes")] None []))
                        k0)
          with (get_opt m3 k0).
        apply Hm3.
      * intros k0. unfold get_opt. simpl.
        destruct (String.eqb "accel3d" k0); reflexivity.
Qed.



(** ** Disks *)

Lemma bus_pending_attrib n m :
  child_attrib n "target" = child_attrib m "target" ->
  bus_pending n = bus_pending m.
Proof.
  unfold child_attrib, bus_pending, get, get_opt.
  destruct (find n "target") as [[i c]|], (find m "target") as [[j d]|];
    try discriminate; [|reflexivity].
  now intros [= ->].
Qed.

Lemma cache_pending_attrib n m :
  child_attrib n "driver" = child_attrib m "driver" ->
  cache_pending n = cache_pending m.
Proof.
  unfold child_attrib, cache_pending, get, get_opt.
  destruct (find n "driver") as [[i c]|], (find m "driver") as [[j d]|];
    try discriminate; [|reflexivity].
  now intros [= ->].
Qed.

Lemma target_dev_attrib n m :
  child_attrib n "target" = child_attrib m "target" ->
  target_dev n = target_dev m.
Proof.
  unfold child_attrib, target_dev, get, get_opt.
  destruct (find n "target") as [[i c]|], (find m "target") as [[j d]|];
    try discriminate; [|reflexivity].
  now intros [= ->].
Qed.

Lemma disk_after_view x x' m m' :
  disk_view x = disk_view m -> disk_view m' = disk_view x' ->
  disk_after x x' -> disk_after m m'.
Proof.
  unfold disk_view, disk_after. intros H H' (Hb & Hc & Ht & Hd).
  injection H as Ht1 Hd1. injection H' as Ht2 Hd2.
  rewrite (bus_pending_attrib _ _ Ht2), (cache_pending_attrib _ _ Hd2),
    <- (bus_pending_attrib _ _ Ht1), <- (cache_pending_attrib _ _ Hd1),
    <- (target_dev_attrib _ _ Ht1).
  split; [assumption|]. split; [assumption|]. split; intros k.
  - rewrite (child_get_attrib _ _ _ k Ht2), <- (child_get_attrib _ _ _ k Ht1).
    apply Ht.
  - rewrite (child_get_attrib _ _ _ k Hd2), <- (child_get_attrib _ _ _ k Hd1).
    apply Hd.
Qed.

(** What the body records and binds, in every case. *)
Lemma disk_body_state disk s :
  state_of (disk_body disk s)
  = if bus_pending disk then
      match (if truthy (target_dev disk)
             then Some (re_sub_hs_d (target_dev disk)) else new_dev s) with
      | Some nd =>
          Ok (mkSt (changes s
                    ++ bus_record_as nd disk
                       :: (if cache_pending disk then [cache_record disk]
                           else []))
                   (Some nd))
      | None => Raise UnboundLocalError
      end
    else Ok (mkSt (changes s
                   ++ (if cache_pending disk then [cache_record disk]
                       else []))
                  (new_dev s)).
Proof.
  unfold disk_body, bus_pending, cache_pending, target_dev, bus_record_as,
    cache_record, target_dev, child_get.
  destruct s as [chs nd0].
  destruct (find disk "target") as [[i t]|],
           (find disk "driver") as [[j dr]|];
    rewrite ?get_set_attr; cbn [String.eqb Ascii.eqb Bool.eqb];
    unfold or_default; try fold (get t "bus" "unknown");
    try fold (get dr "cache" "default"); try fold (get dr "discard" "none");
    try fold (get dr "io" "default");
    unfold state_of, bind, ret, append, bind_new_dev, read_new_dev;
    cbn [changes new_dev];
    repeat case_inner; rewrite <- ?app_assoc, ?app_nil_r; reflexivity.
Qed.

Lemma disk_body_after disk s disk' s' :
  disk_body disk s = Ok (disk', s') -> disk_after disk disk'.
Proof.
  intros H0. pose proof (disk_body_settles _ _ _ _ H0) as Hdone.
  unfold disk_done in Hdone. apply andb_true_iff in Hdone as [Hb Hc].
  apply negb_true_iff in Hb, Hc.
  split; [exact Hb|]. split; [exact Hc|]. clear Hb Hc.
  revert H0. unfold disk_body. intros H. bind_inv H.
  assert (F1 : find a "driver" = find disk "driver" /\
               forall k,
                 child_get a "target" k
                 = if bus_pending disk then
                     if String.eqb "bus" k then Some "virtio"
                     else if (String.eqb "dev" k
                              && truthy (target_dev disk))%bool
                          then Some (re_sub_hs_d (target_dev disk))
                          else child_get disk "target" k
                   else child_get disk "target" k).
  { unfold bus_pending, target_dev, child_get.
    destruct (find disk "target") as [[i t]|] eqn:Ft.
    - destruct (find_some _ _ _ _ Ft) as [Hn Ht].
      destruct (mem (get t "bus" "unknown") _) eqn:Hm.
      + bind_inv Ha. bind_inv Ha. bind_inv Ha. ret_inv Ha.
        rewrite get_set_attr in Ha0. cbn [String.eqb Ascii.eqb Bool.eqb] in Ha0.
        assert (Hfact : tag a0 = tag t /\
                        forall k,
                          get_opt a0 k
                          = if String.eqb "bus" k then Some "virtio"
                            else if (String.eqb "dev" k
                                     && truthy (get t "dev" EmptyString))%bool
                                 then Some (re_sub_hs_d
                                              (get t "dev" EmptyString))
                                 else get_opt t k).
        { destruct (truthy (get t "dev" EmptyString));
            [bind_inv Ha0|]; ret_inv Ha0;
            (split; [reflexivity|]); intros k; rewrite ?get_opt_set_attr.
          - destruct (String.eqb_spec "dev" k) as [<-|]; reflexivity.
          - now rewrite andb_false_r. }
        destruct Hfact as [Htag Hget]. split.
        * apply (find_put_child_other _ _ _ _ _ Hn Htag). rewrite Ht.
          discriminate.
        * intros k. rewrite (find_put_child_self _ _ _ _ _ Ft Htag).
          apply Hget.
      + ret_inv Ha. rewrite Ft. auto.
    - ret_inv Ha. rewrite Ft. auto. }
  destruct F1 as [Hd Ht]. rewrite <- Hd in H.
  assert (Hdr : forall k, child_get a "driver" k = child_get disk "driver" k)
    by (intros k; unfold child_get; now rewrite Hd).
  assert (Hcp : cache_pending disk = cache_pending a)
    by (unfold cache_pending; now rewrite Hd).
  rewrite Hcp. clear Hd Hcp.
  unfold cache_pending.
  destruct (find a "driver") as [[j dr]|] eqn:Fd.
  - destruct (find_some _ _ _ _ Fd) as [Hn Htd].
    destruct (_ || _)%bool eqn:Hc.
    + bind_inv H. ret_inv H.
      match goal with |- context [put_child a j ?x] => set (dr' := x) end.
      assert (Htag : tag dr' = tag dr) by reflexivity.
      split; intros k.
      * rewrite (child_get_put_child_other _ "target" _ _ _ k Hn Htag);
          [apply Ht|].
        rewrite Htd. discriminate.
      * rewrite (child_get_put_child_self _ _ _ _ _ k Fd Htag).
        rewrite <- Hdr. unfold child_get. rewrite Fd. subst dr'.
        rewrite !get_opt_set_attr.
        destruct (String.eqb_spec "io" k) as [<-|]; [reflexivity|].
        destruct (String.eqb_spec "discard" k) as [<-|]; [reflexivity|].
        destruct (String.eqb_spec "cache" k) as [<-|]; reflexivity.
    + ret_inv H. split; intros k; [apply Ht | apply Hdr].
  - ret_inv H. split; intros k; [apply Ht | apply Hdr].
Qed.

Lemma disk_body_recs disk s :
  (bus_pending disk = true -> truthy (target_dev disk) = true) ->
  exists disk',
    disk_body disk s
    = Ok (disk',
          mkSt (changes s ++ disk_records disk)
               (if bus_pending disk
                then Some (re_sub_hs_d (target_dev disk)) else new_dev s)).
Proof.
  intros Hd. pose proof (disk_body_state disk s) as H.
  unfold disk_records, bus_record.
  destruct (bus_pending disk); [rewrite (Hd eq_refl) in H|];
    (destruct (disk_body disk s) as [[d' s']|e]; [|discriminate]);
    simpl in H; injection H as ->; eauto.
Qed.

Lemma effects_disk_recs disks : forall s,
  devs_present disks ->
  exists nd,
    effects disk_body disks s
    = Ok (mkSt (changes s ++ flat_map disk_records disks) nd).
Proof.
  induction disks as [|d disks IH]; intros s Hd; simpl.
  - exists (new_dev s). rewrite app_nil_r. now destruct s.
  - destruct (disk_body_recs d s (Hd d (or_introl eq_refl))) as (d' & ->).
    destruct (IH (mkSt (changes s ++ disk_records d)
                       (if bus_pending d
                        then Some (re_sub_hs_d (target_dev d))
                        else new_dev s))) as (nd & ->).
    + intros x Hx. apply Hd. now right.
    + exists nd. simpl. now rewrite app_assoc.
Qed.

(** X8.  The disk rules.  Whenever the body returns, neither disk rule has
    anything left to do on the disk; on the target only [bus] (set to
    virtio) and [dev] (its leading [hd] or [sd] replaced by [vd]) have
    changed, and only when the bus was ide, sata or scsi; on the driver
    only [cache], [discard] and [io] have changed, to writeback, unmap and
    threads, and only when one of them differed.  A disk whose target has
    a [dev], or whose bus is not converted, records [disk_bus] (if the bus
    is converted) and then [disk_cache] (if the driver is changed), with
    the old values in the text.  When every disk to convert has a [dev]
    the disk section does not fail, and its records are those of the
    disks of the input in document order. *)
Theorem disk_rule :
  (forall disk s disk' s',
      disk_body disk s = Ok (disk', s') -> disk_after disk disk')
  /\ (forall disk s,
        (bus_pending disk = true -> truthy (target_dev disk) = true) ->
        exists disk',
          disk_body disk s
          = Ok (disk',
                mkSt (changes s ++ disk_records disk)
                     (if bus_pending disk
                      then Some (re_sub_hs_d (target_dev disk))
                      else new_dev s)))
  /\ (forall root s,
        devs_present (selected disk_sel root) ->
        exists root' s',
          for_each disk_body (xpath disk_sel root) root s = Ok (root', s')
          /\ changes s'
             = changes s ++ flat_map disk_records (selected disk_sel root)
          /\ forall p disk,
               get_at root p = Some disk -> disk_sel disk = true ->
               exists disk',
                 get_at root' p = Some disk' /\ disk_after disk disk').
Proof.
  split; [exact disk_body_after|]. split; [exact disk_body_recs|].
  intros root s Hd.
  pose proof (disk_loop_effects root s) as He.
  destruct (effects_disk_recs _ s Hd) as (nd & Hr). rewrite Hr in He.
  destruct (for_each disk_body (xpath disk_sel root) root s)
    as [[root' s']|e] eqn:H; [|discriminate].
  injection He as ->. exists root'. eexists. split; [reflexivity|].
  split; [reflexivity|].
  apply (loop_after T_disk no_tag disk_body disk_sel _ disk_view
           disk_body_frame ltac:(sel_apart) ltac:(sel_apart) disk_sel_head
           disk_view_shallow disk_after disk_after_view disk_body_after
           _ _ _ _ H).
Qed.

Lemma disk_rule_witness :
  exists disk',
    disk_body sata_disk (mkSt [] None)
    = Ok (disk',
          mkSt [("disk_bus", "sata (sda)", "virtio (vda)");
                ("disk_cache", "cache=none, discard=none, io=default",
                 "cache=writeback, discard=unmap, io=threads")]
               (Some "vda")).
Proof.
  apply (proj1 (proj2 disk_rule) sata_disk (mkSt [] None)).
  reflexivity.
Defined.

(** X9.  A disk whose bus is converted and whose target has no [dev]
    attribute (or an empty one): line 172 reads [new_dev], which only an
    earlier disk with a [dev] has bound.  If none has, the body raises
    [UnboundLocalError]; otherwise the disk is recorded under the new name
    of that earlier disk, and its own [dev] stays as it was. *)
Theorem disk_without_dev disk s :
  bus_pending disk = true -> truthy (target_dev disk) = false ->
  match new_dev s with
  | None => disk_body disk s = Raise UnboundLocalError
  | Some v =>
      exists disk',
        disk_body disk s
        = Ok (disk',
              mkSt (changes s
                    ++ bus_record_as v disk
                       :: (if cache_pending disk then [cache_record disk]
                           else []))
                   (Some v))
        /\ child_get disk' "target" "dev" = child_get disk "target" "dev"
  end.
Proof.
  intros Hb Hd. pose proof (disk_body_state disk s) as H.
  rewrite Hb, Hd in H.
  destruct (new_dev s) as [v|].
  - destruct (disk_body disk s) as [[d' s']|e] eqn:Hbody; [|discriminate].
    simpl in H. injection H as ->. exists d'. split; [reflexivity|].
    destruct (disk_body_after _ _ _ _ Hbody) as (_ & _ & Ht & _).
    rewrite Ht, Hb, Hd. reflexivity.
  - destruct (disk_body disk s) as [[d' s']|e]; simpl in H; congruence.
Qed.

Lemma disk_without_dev_witness :
  disk_body sata_disk_without_dev (mkSt [] None) = Raise UnboundLocalError
  /\ exists disk',
       disk_body sata_disk_without_dev (mkSt [] (Some "vdb"))
       = Ok (disk', mkSt [("disk_bus", "sata ()", "virtio (vdb)")] (Some "vdb"))
       /\ child_get disk' "target" "dev" = None.
Proof.
  split.
  - apply (disk_without_dev sata_disk_without_dev (mkSt [] None));
      reflexivity.
  - apply (disk_without_dev sata_disk_without_dev (mkSt [] (Some "vdb")));
      reflexivity.
Defined.

(** * The records in document order *)

Lemma effects_disk_report disks : forall s s',
  effects disk_body disks s = Ok s' ->
  changes s' = changes s ++ disk_report (new_dev s) disks.
Proof.
  induction disks as [|d ds IH]; intros s s' H; simpl in H.
  - injection H as <-. simpl. now rewrite app_nil_r.
  - pose proof (disk_body_state d s) as Hd.
    destruct (disk_body d s) as [[d' s1]|e]; [|discriminate].
    simpl in Hd. apply IH in H. rewrite H. clear H IH. simpl disk_report.
    destruct (bus_pending d); simpl andb.
    + destruct (truthy (target_dev d)).
      * injection Hd as ->. simpl. now rewrite <- !app_assoc.
      * destruct (new_dev s) as [nd|]; [|discriminate].
        injection Hd as ->. simpl. now rewrite <- !app_assoc.
    + injection Hd as ->. simpl. now rewrite <- !app_assoc.
Qed.

Lemma cpu_section_records root s root' s' :
  cpu_section root s = Ok (root', s') ->
  changes s' = changes s ++ cpu_records root.
Proof.
  unfold cpu_records, vcpu_count.
  destruct (find root "cpu") as [[i cpu]|] eqn:Hc.
  - rewrite (cpu_section_present _ _ _ _ Hc). cbv zeta.
    destruct (String.eqb (get cpu "mode" "custom") "host-passthrough");
      simpl negb; cbv iota;
      (destruct (find root "vcpu") as [[j v]|];
       [destruct (int (or_1 (text v))) as [n|]; [|discriminate];
        destruct (find cpu "topology") as [[k tp]|]|]);
      intros [= _ <-]; simpl; rewrite ?app_nil_r; reflexivity.
  - rewrite (cpu_section_absent _ _ Hc).
    destruct (find root "vcpu") as [[j v]|].
    + destruct (text v) as [t|]; [|discriminate].
      destruct (int t) as [n|]; [|discriminate].
      intros [= _ <-]. reflexivity.
    + intros [= _ <-]. reflexivity.
Qed.

Lemma report_from_records root s s' :
  report_from root s = Ok s' ->
  changes s'
  = changes s
    ++ disk_report (new_dev s) (selected disk_sel root)
    ++ flat_map nic_records (selected nic_sel root)
    ++ flat_map video_records (selected video_sel root)
    ++ flat_map spice_records (selected spice_sel root)
    ++ cpu_records root.
Proof.
  unfold report_from, and_then.
  destruct (effects disk_body (selected disk_sel root) s) as [s1|e] eqn:H1;
    [|discriminate].
  apply effects_disk_report in H1.
  rewrite (effects_recs nic_body nic_records
             (fun n s0 => match nic_body_spec n s0 with
                          | ex_intro _ n' (conj H _) => ex_intro _ n' H
                          end)).
  rewrite (effects_recs video_body video_records
             (fun n s0 => match video_body_after n s0 with
                          | ex_intro _ n' (conj H _) => ex_intro _ n' H
                          end)).
  rewrite (effects_recs spice_body spice_records
             (fun n s0 => match spice_body_spec n s0 with
                          | ex_intro _ n' (conj H _) => ex_intro _ n' H
                          end)).
  destruct (cpu_section root _) as [[r5 s5]|e] eqn:H5; [|discriminate].
  intros [= <-]. rewrite (cpu_section_records _ _ _ _ H5).
  unfold add_changes. simpl changes. rewrite H1.
  now rewrite <- !app_assoc.
Qed.

(** C3, as the code has it.  The records of a run are those of the
    elements of the input document, section by section in the order disk,
    NIC, video, SPICE GL, CPU, and within a section element by element in
    document order, each record with its before and after texts: a disk
    gives its [disk_bus] record and then its [disk_cache] record, a video
    element its [video_model] record and then its [video_accel] record.
    The records are grouped by section and element, not by rule key; their
    keys are those of the read-only scan. *)
Theorem transform_records root root' chs :
  transform root = Ok (root', chs) ->
  chs = disk_report None (selected disk_sel root)
        ++ flat_map nic_records (selected nic_sel root)
        ++ flat_map video_records (selected video_sel root)
        ++ flat_map spice_records (selected spice_sel root)
        ++ cpu_records root
  /\ map key chs = expected_keys root.
Proof.
  unfold transform.
  destruct (apply_rules root (mkSt [] None)) as [[r s]|e] eqn:H;
    [|discriminate].
  intros [= _ <-]. split.
  - pose proof (apply_rules_report root (mkSt [] None)) as Hr.
    rewrite H in Hr. simpl in Hr. symmetry in Hr.
    apply report_from_records in Hr. exact Hr.
  - now rewrite (apply_rules_keys _ _ _ _ H).
Qed.

Lemma transform_records_witness :
  sample_domain_changes
  = disk_report None (selected disk_sel sample_domain)
    ++ flat_map nic_records (selected nic_sel sample_domain)
    ++ flat_map video_records (selected video_sel sample_domain)
    ++ flat_map spice_records (selected spice_sel sample_domain)
    ++ cpu_records sample_domain
  /\ map key sample_domain_changes = expected_keys sample_domain.
Proof.
  apply (transform_records sample_domain sample_domain_optimized
           sample_domain_changes).
  reflexivity.
Defined.

(** * The missing [cpu] element, whatever the devices need *)

Lemma vcpu_place_shallow : shallow_in S_cpu vcpu_place.
Proof.
  intros n n' _ Hc. unfold vcpu_place.
  pose proof (find_from_Forall2 _ 0 "vcpu" _ _
                (fun c c' Hc => proj1 (head_eq c c' (proj1 Hc))) Hc) as Hv.
  fold (find n "vcpu") in Hv. fold (find n' "vcpu") in Hv.
  destruct (find n "vcpu") as [[j v]|], (find n' "vcpu") as [[j' v']|];
    try contradiction; [|reflexivity].
  destruct Hv as (-> & -> & _). reflexivity.
Qed.

Lemma vcpu_place_frame T n n' :
  T "vcpu" = false -> body_frame T n n' -> vcpu_place n' = vcpu_place n.
Proof.
  intros Hv Hf. unfold vcpu_place.
  now rewrite (body_frame_find T n n' "vcpu" Hf Hv).
Qed.

Ltac keep_vcpu_place T body frame :=
  apply (for_each_root_view T S_cpu body frame _ vcpu_place
           vcpu_place_shallow
           (fun n n' => vcpu_place_frame T n n' eq_refl));
  apply refs_ok_xpath; sel_apart.

(** The device sections leave the first [vcpu] child where it is, with
    its tag, attributes and text, and add no [cpu] child. *)
Lemma devices_keep_vcpu root s r1 s1 r2 s2 r3 s3 r4 s4 :
  for_each disk_body (xpath disk_sel root) root s = Ok (r1, s1) ->
  for_each nic_body (xpath nic_sel r1) r1 s1 = Ok (r2, s2) ->
  for_each video_body (xpath video_sel r2) r2 s2 = Ok (r3, s3) ->
  for_each spice_body (xpath spice_sel r3) r3 s3 = Ok (r4, s4) ->
  vcpu_place r4 = vcpu_place root /\ cpu_view r4 = cpu_view root.
Proof.
  intros H1 H2 H3 H4. split.
  - transitivity (vcpu_place r3);
      [revert H4; keep_vcpu_place T_spice spice_body spice_body_frame|].
    transitivity (vcpu_place r2);
      [revert H3; keep_vcpu_place T_video video_body video_body_frame|].
    transitivity (vcpu_place r1);
      [revert H2; keep_vcpu_place T_nic nic_body nic_body_frame|].
    revert H1. keep_vcpu_place T_disk disk_body disk_body_frame.
  - destruct (disk_loop_keeps_effects _ _ _ _ H1) as (_ & _ & _ & D).
    destruct (nic_loop_keeps_effects _ _ _ _ H2) as (_ & _ & N).
    destruct (video_loop_keeps_effects _ _ _ _ H3) as (_ & V).
    pose proof (spice_loop_keeps_cpu_view _ _ _ _ H4) as G.
    congruence.
Qed.

(** C7, as the code has it.  In a document without a [cpu] child, a run
    that succeeds ends by making one: a [cpu] element with
    [mode="host-passthrough"] and a [topology] whose [cores] is the vcpu
    count, [int] of the text of the first [vcpu] child, placed right after
    that child, which stays where it was; with no [vcpu] child the count
    is 1 and the [cpu] element is the last child.  The last two records
    are [cpu_mode] and [cpu_topology]; the records before them are those
    of the device sections, and there are none exactly when no device rule
    has anything to do, in which case the rest of the document is as it
    was. *)
Theorem missing_cpu_insertion root root' chs :
  find root "cpu" = None ->
  transform root = Ok (root', chs) ->
  exists n chs4,
    chs = chs4 ++ [("cpu_mode", "default", "host-passthrough");
                   ("cpu_topology", "none", topology_note n)]
    /\ map key chs4 ++ ["cpu_mode"; "cpu_topology"] = expected_keys root
    /\ (chs4 = [] <-> devices_done root)
    /\ match find root "vcpu" with
       | Some (j, vcpu_elem) =>
           (exists t, text vcpu_elem = Some t /\ int t = Some n)
           /\ (exists vcpu_elem',
                  find root' "vcpu" = Some (j, vcpu_elem')
                  /\ head vcpu_elem' = head vcpu_elem)
           /\ find root' "cpu" = Some (S j, new_cpu n)
           /\ (devices_done root ->
               root' = insert_child root (S j) (new_cpu n))
       | None =>
           n = 1%Z
           /\ find root' "vcpu" = None
           /\ find root' "cpu"
              = Some (length (children root') - 1, new_cpu 1)
           /\ (devices_done root ->
               root' = insert_child root (length (children root))
                         (new_cpu 1))
       end.
Proof.
  intros Hc. unfold transform.
  destruct (apply_rules root (mkSt [] None)) as [[r s]|e] eqn:H;
    [|discriminate].
  intros [= <- <-].
  pose proof (apply_rules_keys _ _ _ _ H) as Hkeys. simpl in Hkeys.
  destruct (apply_rules_ok _ _ _ _ H)
    as (r1 & s1 & r2 & s2 & r3 & s3 & r4 & s4 & H1 & H2 & H3 & H4 & H5).
  destruct (devices_keep_vcpu _ _ _ _ _ _ _ _ _ _ H1 H2 H3 H4) as [Hp Hv].
  assert (Hc4 : find r4 "cpu" = None).
  { apply (f_equal fst) in Hv. unfold cpu_view in Hv. simpl in Hv.
    rewrite Hc in Hv. destruct (find r4 "cpu") as [[i c]|];
      [discriminate | reflexivity]. }
  assert (Hquiet : devices_done root -> r4 = root /\ s4 = mkSt [] None).
  { intros Hd. destruct Hd as (Dd & Dn & Dv & Dg).
    rewrite (loop_done _ _ _ _ _ disk_body_done Dd) in H1.
    injection H1 as <- <-.
    rewrite (loop_done _ _ _ _ _ nic_body_done Dn) in H2.
    injection H2 as <- <-.
    rewrite (loop_done _ _ _ _ _ video_body_done Dv) in H3.
    injection H3 as <- <-.
    rewrite (loop_done _ _ _ _ _ spice_body_done Dg) in H4.
    injection H4 as <- <-. auto. }
  rewrite (cpu_section_absent _ _ Hc4) in H5.
  unfold vcpu_place in Hp.
  assert (Hiff : forall n,
             map key (changes s4 ++ [("cpu_mode", "default",
                                      "host-passthrough");
                                     ("cpu_topology", "none",
                                      topology_note n)])
             = expected_keys root ->
             map key (changes s4) ++ ["cpu_mode"; "cpu_topology"]
             = expected_keys root
             /\ (changes s4 = [] <-> devices_done root)).
  { intros n Hk. rewrite map_app in Hk. simpl in Hk.
    split; [exact Hk|]. split.
    - intros E. rewrite E in Hk. simpl in Hk.
      apply device_scans_nil.
      unfold expected_keys, cpu_keys in Hk. rewrite Hc in Hk.
      rewrite !app_assoc in Hk.
      apply (app_inv_tail ["cpu_mode"; "cpu_topology"] []) in Hk.
      rewrite <- !app_assoc in Hk. now symmetry.
    - intros Hd. now destruct (Hquiet Hd) as [_ ->]. }
  destruct (find root "vcpu") as [[j v]|] eqn:Fv.
  - destruct (find r4 "vcpu") as [[j4 v4]|] eqn:Fv4; [|discriminate].
    assert (Hh : j4 = j /\ head v4 = head v) by (split; congruence).
    clear Hp. destruct Hh as [-> Hh].
    destruct (head_eq _ _ Hh) as (_ & _ & Htx).
    destruct (text v4) as [t|] eqn:Ht; [|discriminate].
    destruct (int t) as [n|] eqn:Hi; [|discriminate].
    injection H5 as <- <-. exists n, (changes s4).
    split; [reflexivity|].
    destruct (Hiff n Hkeys) as [Hk1 Hk2].
    split; [exact Hk1|]. split; [exact Hk2|].
    destruct (find_some _ _ _ _ Fv4) as [Hn4 _].
    pose proof (nth_error_lt _ _ _ Hn4) as Hj.
    split; [exists t; split; congruence|].
    split; [exists v4; split;
            [now apply find_addnext_keep with (k := j) | assumption]|].
    split; [now apply find_addnext_new|].
    intros Hd. destruct (Hquiet Hd) as [-> _].
    now apply insert_child_addnext.
  - destruct (find r4 "vcpu") as [[j4 v4]|] eqn:Fv4; [discriminate|].
    injection H5 as <- <-. exists 1%Z, (changes s4).
    split; [reflexivity|].
    destruct (Hiff 1%Z Hkeys) as [Hk1 Hk2].
    split; [exact Hk1|]. split; [exact Hk2|].
    split; [reflexivity|].
    split; [rewrite find_append_child_other; [assumption | discriminate]|].
    split.
    + rewrite (find_append_child_new r4 "cpu" (new_cpu 1) Hc4 eq_refl).
      unfold append_child. cbn [children with_children].
      rewrite length_app. cbn [length]. do 2 f_equal. lia.
    + intros Hd. destruct (Hquiet Hd) as [-> _].
      apply insert_child_append.
Qed.

Lemma missing_cpu_insertion_witness :
  exists n chs4,
    sample_domain_changes
    = chs4 ++ [("cpu_mode", "default", "host-passthrough");
               ("cpu_topology", "none", topology_note n)]
    /\ map key chs4 ++ ["cpu_mode"; "cpu_topology"]
       = expected_keys sample_domain
    /\ (chs4 = [] <-> devices_done sample_domain)
    /\ (exists t,
           text (Element "vcpu" [] (Some "4") []) = Some t
           /\ int t = Some n)
    /\ (exists vcpu_elem',
           find sample_domain_optimized "vcpu" = Some (1, vcpu_elem')
           /\ head vcpu_elem' = head (Element "vcpu" [] (Some "4") []))
    /\ find sample_domain_optimized "cpu" = Some (2, new_cpu n)
    /\ (devices_done sample_domain ->
        sample_domain_optimized = insert_child sample_domain 2 (new_cpu n)).
Proof.
  exact (missing_cpu_insertion sample_domain sample_domain_optimized
           sample_domain_changes eq_refl eq_refl).
Defined.

(** C7, as stated, fails: a document with a vcpu count of 4, no [cpu]
    element and an IDE disk gets four records, the two of the disk before
    the two of the CPU section. *)
Lemma missing_cpu_not_only_two_records :
  find sample_domain "cpu" = None
  /\ (exists j vcpu_elem,
         find sample_domain "vcpu" = Some (j, vcpu_elem)
         /\ text vcpu_elem = Some "4")
  /\ exists root' chs,
       transform sample_domain = Ok (root', chs)
       /\ map key chs = ["disk_bus"; "disk_cache"; "cpu_mode"; "cpu_topology"].
Proof.
  split; [reflexivity|]. split; [do 2 eexists; split; reflexivity|].
  do 2 eexists. split; reflexivity.
Qed.

(** * What a run leaves alone *)

Lemma confined_list_refl T cs :
  Forall (fun c => confined T c c) cs -> confined_list T cs cs.
Proof. induction 1; constructor; auto. Qed.

Lemma confined_refl T n : confined T n n.
Proof.
  induction n as [t a x cs IH] using Node_ind.
  constructor; [reflexivity | now apply confined_list_refl].
Qed.

Lemma confined_list_same T cs : confined_list T cs cs.
Proof.
  apply confined_list_refl, Forall_forall. intros; apply confined_refl.
Qed.

Lemma confined_list_trans T cs :
  Forall (fun c => forall c' c'', confined T c c' -> confined T c' c'' ->
                                  confined T c c'') cs ->
  forall cs' cs'',
    confined_list T cs cs' -> confined_list T cs' cs'' ->
    confined_list T cs cs''.
Proof.
  intros HP cs' cs'' H1 H2. revert cs HP H1.
  induction H2 as [|c' c'' cs' cs'' Hc _ IH|c'' cs' cs'' Hn _ IH];
    intros cs HP H1.
  - exact H1.
  - inversion H1 as [|c c0 cs0 cs1 Hcc Hl|c0 cs0 cs1 Hn0 Hl]; subst.
    + inversion HP as [|? ? Hp HP']; subst.
      apply confined_cons; [eapply Hp; eauto | auto].
    + apply confined_new; [|auto].
      (* a new child stays new: it keeps its tags *)
      clear - Hn0 Hc. revert c'' Hc.
      induction c' as [t a x cs IHc] using Node_ind. intros c'' Hc.
      inversion Hc as [? ? a' ? ? cs' _ Hl]; subst.
      rewrite elements_eq in Hn0 |- *. simpl children in *.
      inversion Hn0 as [|? ? Ht Hrest]; subst.
      constructor; [exact Ht|].
      clear Hc Ht Hn0. revert Hrest IHc.
      induction Hl as [|d d' ds ds' Hd _ IHl|d' ds ds' Hd' _ IHl];
        intros Hrest IHc; simpl.
      * constructor.
      * simpl in Hrest. apply Forall_app in Hrest as [H1 H2].
        inversion IHc as [|? ? Hd0 IHc']; subst.
        apply Forall_app. split; [apply Hd0; auto | auto].
      * apply Forall_app. split; [exact Hd' | auto].
  - apply confined_new; auto.
Qed.

Lemma confined_trans T n : forall n' n'',
  confined T n n' -> confined T n' n'' -> confined T n n''.
Proof.
  induction n as [t a x cs IH] using Node_ind. intros n' n'' H1 H2.
  inversion H1 as [? ? a' ? ? cs' Ha Hl]; subst.
  inversion H2 as [? ? a'' ? ? cs'' Ha' Hl']; subst.
  constructor.
  - intros Ht. rewrite (Ha' Ht). auto.
  - eapply confined_list_trans; eauto.
Qed.

Lemma confined_list_app T cs cs' extra :
  confined_list T cs cs' ->
  Forall (fun e => Forall (fun d => T (tag d) = true) (elements e)) extra ->
  confined_list T cs (cs' ++ extra).
Proof.
  intros H Hx.
  induction H as [|c c' cs cs' Hc _ IH|c' cs cs' Hn _ IH]; simpl.
  - induction Hx; constructor; auto.
  - now apply confined_cons.
  - now apply confined_new.
Qed.

Lemma confined_list_Forall2 T cs cs' :
  Forall2 (confined T) cs cs' -> confined_list T cs cs'.
Proof. induction 1; constructor; auto. Qed.

(** Mutations confined to [T] are confined to any larger set of tags. *)
Lemma tweak_confined T T' c :
  (forall t, T t = true -> T' t = true) ->
  forall c', tweak T c c' -> confined T' c c'.
Proof.
  intros Hsub. induction c as [t a x cs IH] using Node_ind. intros c' H.
  inversion H as [|? ? a' ? ? cs' extra HT Ha Hcs Hx]; subst.
  - apply confined_refl.
  - constructor.
    + intros Hf. rewrite (Hsub _ HT) in Hf. discriminate.
    + apply confined_list_app.
      * apply confined_list_Forall2. clear H Hx.
        induction Hcs as [|c c' cs cs' Hc _ IHcs]; constructor.
        -- inversion IH; subst. auto.
        -- inversion IH; subst. auto.
      * eapply Forall_impl; [|exact Hx]. intros e [He Hk].
        rewrite elements_eq, Hk. simpl. constructor; auto.
Qed.

Lemma body_frame_confined T T' n n' :
  (forall t, T t = true -> T' t = true) ->
  body_frame T n n' -> confined T' n n'.
Proof.
  intros Hsub [Hh (cs' & extra & Hk & Hcs & Hx)].
  destruct n as [t a x cs], n' as [t' a' x' cs'']. simpl in *.
  injection Hh as -> -> ->. subst cs''.
  constructor; [reflexivity|].
  apply confined_list_app.
  - apply confined_list_Forall2.
    eapply Forall2_impl; [|exact Hcs]. intros c c'.
    now apply tweak_confined.
  - eapply Forall_impl; [|exact Hx]. intros e [He Hk].
    rewrite elements_eq, Hk. simpl. constructor; auto.
Qed.

Lemma confined_list_replace_nth T i c c' cs :
  nth_error cs i = Some c -> confined T c c' ->
  confined_list T cs (replace_nth i c' cs).
Proof.
  revert i; induction cs as [|c0 cs IH]; intros [|i]; simpl;
    try discriminate.
  - intros [= <-] H. apply confined_cons; [assumption|].
    apply confined_list_same.
  - intros Hn H. apply confined_cons; [apply confined_refl | eauto].
Qed.

Lemma set_at_confined T p : forall root n n',
  get_at root p = Some n -> confined T n n' ->
  confined T root (set_at root p n').
Proof.
  induction p as [|i p IH]; intros root n n'; simpl.
  - now intros [= <-].
  - destruct (nth_error (children root) i) as [c|] eqn:Hi; [|discriminate].
    intros Hn He. destruct root as [t a x cs]. simpl in *.
    constructor; [reflexivity|].
    eapply confined_list_replace_nth; eauto.
Qed.

Lemma for_each_confined T T' body refs :
  (forall t, T t = true -> T' t = true) ->
  (forall n s n' s', body n s = Ok (n', s') -> body_frame T n n') ->
  forall root s root' s',
    for_each body refs root s = Ok (root', s') -> confined T' root root'.
Proof.
  intros Hsub Hb.
  induction refs as [|p refs IH]; intros root s root' s'; simpl.
  - intros [= <- _]. apply confined_refl.
  - destruct (get_at root p) as [x|] eqn:Hx; [|discriminate].
    intros H. apply bind_ok in H as (x' & s1 & Hbx & H).
    eapply confined_trans; [|eapply IH; eauto].
    eapply set_at_confined; eauto.
    eapply body_frame_confined; eauto.
Qed.

Lemma confined_list_insert_at T k c cs :
  Forall (fun e => T (tag e) = true) (elements c) ->
  confined_list T cs (insert_at k c cs).
Proof.
  intros Hc. revert k; induction cs as [|c0 cs IH]; intros [|k]; simpl.
  - apply confined_new; [assumption | apply confined_nil].
  - apply confined_new; [assumption | apply confined_nil].
  - apply confined_new; [assumption | apply confined_list_same].
  - apply confined_cons; [apply confined_refl | apply IH].
Qed.

Lemma T_cpu_rules t : T_cpu t = true -> T_rules t = true.
Proof.
  unfold T_cpu, T_rules, mem. simpl. rewrite !orb_false_r.
  intros H. apply orb_true_iff in H as [->| ->];
    rewrite ?orb_true_r; reflexivity.
Qed.

Lemma cpu_section_confined root s root' s' :
  cpu_section root s = Ok (root', s') -> confined T_rules root root'.
Proof.
  intros H. apply cpu_section_shape in H
    as [(i & cpu & cpu' & Hc & -> & Ht)|(Hc & k & n & Hk & ->)].
  - destruct (find_some _ _ _ _ Hc) as [Hn _].
    pose proof (set_at_confined T_rules [i] root cpu cpu') as He.
    simpl in He. rewrite Hn in He. apply He; [reflexivity|].
    eapply tweak_confined; [exact T_cpu_rules | eauto].
  - destruct root as [t a x cs]. constructor; [reflexivity|].
    apply confined_list_insert_at. repeat constructor.
Qed.

Lemma confined_list_nth T cs cs' :
  confined_list T cs cs' ->
  forall i c, nth_error cs i = Some c ->
    exists i' c', nth_error cs' i' = Some c' /\ confined T c c'.
Proof.
  induction 1 as [|c0 c0' cs cs' Hc _ IH|c0' cs cs' Hn _ IH]; intros i c Hi.
  - destruct i; discriminate.
  - destruct i as [|i]; simpl in Hi.
    + injection Hi as <-. exists 0, c0'. auto.
    + destruct (IH _ _ Hi) as (i' & c' & Hi' & He).
      exists (S i'), c'. auto.
  - destruct (IH _ _ Hi) as (i' & c' & Hi' & He).
    exists (S i'), c'. auto.
Qed.

Lemma confined_list_nth_back T cs cs' :
  confined_list T cs cs' ->
  forall i' c', nth_error cs' i' = Some c' ->
    Forall (fun e => T (tag e) = true) (elements c')
    \/ exists i c, nth_error cs i = Some c /\ confined T c c'.
Proof.
  induction 1 as [|c0 c0' cs cs' Hc _ IH|c0' cs cs' Hn _ IH];
    intros i' c' Hi'.
  - destruct i'; discriminate.
  - destruct i' as [|i']; simpl in Hi'.
    + injection Hi' as <-. right. exists 0, c0. auto.
    + destruct (IH _ _ Hi') as [Hnew|(i & c & Hi & He)]; [now left|].
      right. exists (S i), c. auto.
  - destruct i' as [|i']; simpl in Hi'.
    + injection Hi' as <-. now left.
    + destruct (IH _ _ Hi') as [Hnew|(i & c & Hi & He)]; [now left|].
      right. exists i, c. auto.
Qed.

Lemma confined_head T n n' :
  confined T n n' ->
  tag n' = tag n /\ text n' = text n /\
  (T (tag n) = false -> attrib n' = attrib n).
Proof. destruct 1; simpl; auto. Qed.

(** Every element of the input has its counterpart in the output. *)
Lemma confined_get T p : forall root root' n,
  confined T root root' -> get_at root p = Some n ->
  exists p' n', get_at root' p' = Some n' /\ confined T n n'.
Proof.
  induction p as [|i p IH]; intros root root' n He; simpl.
  - intros [= <-]. exists [], root'. auto.
  - destruct (nth_error (children root) i) as [c|] eqn:Hi; [|discriminate].
    intros Hg. inversion He as [t a a' x cs cs' Ha Hl]; subst.
    simpl in Hi.
    destruct (confined_list_nth _ _ _ Hl _ _ Hi) as (i' & c' & Hi' & Hc).
    destruct (IH _ _ _ Hc Hg) as (p' & n' & Hg' & Hn).
    exists (i' :: p'), n'. simpl. rewrite Hi'. auto.
Qed.

(** Every element of the output is the counterpart of one of the input, or
    has a tag in [T]. *)
Lemma confined_get_back T p' : forall root root' n',
  confined T root root' -> get_at root' p' = Some n' ->
  T (tag n') = true \/
  exists p n, get_at root p = Some n /\ confined T n n'.
Proof.
  induction p' as [|i' p' IH]; intros root root' n' He; simpl.
  - intros [= <-]. right. exists [], root. auto.
  - destruct (nth_error (children root') i') as [c'|] eqn:Hi';
      [|discriminate].
    intros Hg. inversion He as [t a a' x cs cs' Ha Hl]; subst.
    simpl in Hi'.
    destruct (confined_list_nth_back _ _ _ Hl _ _ Hi')
      as [Hnew|(i & c & Hi & Hc)].
    + left. rewrite Forall_forall in Hnew. apply Hnew.
      apply in_elements_get_at. eauto.
    + destruct (IH _ _ _ Hc Hg) as [Ht|(p & n & Hp & Hn)]; [now left|].
      right. exists (i :: p), n. simpl. rewrite Hi. auto.
Qed.

Lemma for_each_head T body refs :
  (forall n s n' s', body n s = Ok (n', s') -> body_frame T n n') ->
  forall root s root' s',
    for_each body refs root s = Ok (root', s') -> head root' = head root.
Proof.
  intros Hb. induction refs as [|p refs IH]; intros root s root' s'; simpl.
  - now intros [= <- _].
  - destruct (get_at root p) as [x|] eqn:Hx; [|discriminate].
    intros H. apply bind_ok in H as (x' & s1 & Hbx & H).
    rewrite (IH _ _ _ _ H).
    apply (head_set_at root p x x' Hx). apply (Hb _ _ _ _ Hbx).
Qed.

Lemma cpu_section_head root s root' s' :
  cpu_section root s = Ok (root', s') -> head root' = head root.
Proof.
  intros H. apply cpu_section_shape in H
    as [(i & cpu & cpu' & Hc & -> & Ht)|(Hc & k & n & Hk & ->)].
  - apply head_put_child.
  - destruct root; reflexivity.
Qed.

Lemma T_disk_rules t : T_disk t = true -> T_rules t = true.
Proof.
  unfold T_disk, T_rules, mem. simpl. rewrite !orb_false_r.
  intros H. apply orb_true_iff in H as [->| ->];
    rewrite ?orb_true_r; reflexivity.
Qed.

Lemma T_nic_rules t : T_nic t = true -> T_rules t = true.
Proof.
  unfold T_nic, T_rules, mem. simpl. rewrite !orb_false_r.
  intros ->. rewrite ?orb_true_r; reflexivity.
Qed.

Lemma T_video_rules t : T_video t = true -> T_rules t = true.
Proof.
  unfold T_video, T_rules, mem. simpl. rewrite !orb_false_r.
  intros H. apply orb_true_iff in H as [->| ->];
    rewrite ?orb_true_r; reflexivity.
Qed.

Lemma T_spice_rules t : T_spice t = true -> T_rules t = true.
Proof.
  unfold T_spice, T_rules, mem. simpl. rewrite !orb_false_r.
  intros ->. rewrite ?orb_true_r; reflexivity.
Qed.

(** X10.  What a run leaves alone.  The root keeps its tag, attributes and
    text.  Every element keeps its tag and text and the order of its
    children; an element keeps its attributes unless it is a target,
    driver, model, acceleration, gl, cpu or topology element; and every
    element of the returned document either is such an element or is
    there in the input with the same tag, attributes and text. *)
Theorem transform_confined root root' chs :
  transform root = Ok (root', chs) ->
  head root' = head root
  /\ confined T_rules root root'
  /\ (forall p n,
        get_at root p = Some n ->
        exists p' n',
          get_at root' p' = Some n' /\ tag n' = tag n /\ text n' = text n /\
          (T_rules (tag n) = false -> attrib n' = attrib n))
  /\ (forall p' n',
        get_at root' p' = Some n' -> T_rules (tag n') = false ->
        exists p n, get_at root p = Some n /\ head n = head n').
Proof.
  unfold transform.
  destruct (apply_rules root (mkSt [] None)) as [[r s]|e] eqn:H;
    [|discriminate].
  intros [= <- _].
  apply apply_rules_ok in H
    as (r1 & s1 & r2 & s2 & r3 & s3 & r4 & s4 & H1 & H2 & H3 & H4 & H5).
  assert (Hh : head r = head root).
  { rewrite (cpu_section_head _ _ _ _ H5),
      (for_each_head T_spice _ _ spice_body_frame _ _ _ _ H4),
      (for_each_head T_video _ _ video_body_frame _ _ _ _ H3),
      (for_each_head T_nic _ _ nic_body_frame _ _ _ _ H2).
    exact (for_each_head T_disk _ _ disk_body_frame _ _ _ _ H1). }
  assert (Hc : confined T_rules root r).
  { eapply confined_trans;
      [exact (for_each_confined T_disk T_rules _ _ T_disk_rules
                disk_body_frame _ _ _ _ H1)|].
    eapply confined_trans;
      [exact (for_each_confined T_nic T_rules _ _ T_nic_rules
                nic_body_frame _ _ _ _ H2)|].
    eapply confined_trans;
      [exact (for_each_confined T_video T_rules _ _ T_video_rules
                video_body_frame _ _ _ _ H3)|].
    eapply confined_trans;
      [exact (for_each_confined T_spice T_rules _ _ T_spice_rules
                spice_body_frame _ _ _ _ H4)|].
    eapply cpu_section_confined; eauto. }
  split; [exact Hh|]. split; [exact Hc|]. split.
  - intros p n Hg.
    destruct (confined_get _ p _ _ _ Hc Hg) as (p' & n' & Hg' & Hn).
    exists p', n'. split; [assumption|]. now apply confined_head.
  - intros p' n' Hg' Ht.
    destruct (confined_get_back _ p' _ _ _ Hc Hg') as [Hn|(p & n & Hg & Hn)];
      [congruence|].
    exists p, n. split; [assumption|].
    apply confined_head in Hn as (Htag & Htext & Ha).
    unfold head. rewrite Htag, Htext, Ha; [reflexivity|]. congruence.
Qed.

Lemma transform_confined_witness :
  head sample_domain_optimized = head sample_domain
  /\ confined T_rules sample_domain sample_domain_optimized
  /\ (forall p n,
        get_at sample_domain p = Some n ->
        exists p' n',
          get_at sample_domain_optimized p' = Some n' /\
          tag n' = tag n /\ text n' = text n /\
          (T_rules (tag n) = false -> attrib n' = attrib n))
  /\ (forall p' n',
        get_at sample_domain_optimized p' = Some n' ->
        T_rules (tag n') = false ->
        exists p n, get_at sample_domain p = Some n /\ head n = head n').
Proof.
  apply (transform_confined sample_domain sample_domain_optimized
           sample_domain_changes).
  reflexivity.
Defined.

(** * The records and the table of optimizations *)

Lemma scan_known sel keys_of root (known : list string) :
  (forall n k, In k (keys_of n) -> In k known) ->
  forall k, In k (scan sel keys_of root) -> In k known.
Proof.
  intros Hk k H. unfold scan in H. apply in_flat_map in H as (p & _ & H).
  unfold keys_at in H. destruct (get_at root p) as [n|]; [eauto | destruct H].
Qed.

Lemma expected_keys_known root k :
  In k (expected_keys root) -> In k (map fst OPTIMIZATIONS).
Proof.
  unfold expected_keys. rewrite !in_app_iff.
  intros [H|[H|[H|[H|H]]]].
  - revert k H. apply scan_known. intros n k. unfold disk_keys.
    destruct (bus_pending n), (cache_pending n); simpl; tauto.
  - revert k H. apply scan_known. intros n k. unfold nic_keys.
    destruct (nic_pending n); simpl; tauto.
  - revert k H. apply scan_known. intros n k. unfold video_keys.
    destruct (video_pending n); [|simpl; tauto].
    destruct (String.eqb (accel_flag n) "yes"); simpl; tauto.
  - revert k H. apply scan_known. intros n k. unfold spice_keys.
    destruct (spice_done n); simpl; tauto.
  - revert H. unfold cpu_keys.
    destruct (find root "cpu") as [[i cpu]|]; [|simpl; tauto].
    destruct (String.eqb (get cpu "mode" "custom") "host-passthrough"),
             (find root "vcpu"), (find cpu "topology"); simpl; tauto.
Qed.

Lemma dict_get_known k :
  In k (map fst OPTIMIZATIONS) ->
  exists opt, dict_get OPTIMIZATIONS k = Some opt
              /\ truthy (detail opt) = true.
Proof.
  simpl. intros H.
  repeat (destruct H as [<-|H]; [eexists; split; reflexivity|]).
  destruct H.
Qed.

(** X11.  The table [OPTIMIZATIONS] and the rules agree.  Every record of
    a successful run has its key in the table, with a note that is not
    empty, so [show_changes] never falls back to the bare key and prints
    four lines for it; and the table has no entry that no rule records:
    on a document with an IDE disk, an rtl8139 card, a QXL display, SPICE
    graphics and no [cpu] element, the keys of the records are the keys of
    the table, in the table's order. *)
Theorem records_described :
  (forall root root' chs,
      transform root = Ok (root', chs) ->
      forall k old_val new_val,
        In (k, old_val, new_val) chs ->
        exists opt,
          dict_get OPTIMIZATIONS k = Some opt /\
          show_change (k, old_val, new_val)
          = [fstr [newline; "● "; desc opt];
             fstr ["  Before: "; old_val];
             fstr ["  After:  "; new_val];
             fstr ["  → "; detail opt]])
  /\ (exists root' chs,
        transform legacy_domain = Ok (root', chs) /\
        map key chs = map fst OPTIMIZATIONS).
Proof.
  split.
  - intros root root' chs H k old_val new_val Hin.
    assert (Hk : In k (map fst OPTIMIZATIONS)).
    { apply (expected_keys_known root).
      unfold transform in H.
      destruct (apply_rules root (mkSt [] None)) as [[r s]|e] eqn:Ha;
        [|discriminate].
      injection H as _ <-.
      rewrite <- (app_nil_l (expected_keys root)).
      change (@nil string) with (map key (changes (mkSt [] None))).
      rewrite <- (apply_rules_keys _ _ _ _ Ha).
      apply (in_map key) in Hin. exact Hin. }
    destruct (dict_get_known k Hk) as (opt & Hg & Hd).
    exists opt. split; [assumption|].
    unfold show_change. now rewrite Hg, Hd.
  - do 2 eexists. split; reflexivity.
Qed.

Lemma records_described_witness :
  exists opt,
    dict_get OPTIMIZATIONS "disk_bus" = Some opt /\
    show_change ("disk_bus", "ide (hda)", "virtio (vda)")
    = [fstr [newline; "● "; desc opt];
       fstr ["  Before: "; "ide (hda)"];
       fstr ["  After:  "; "virtio (vda)"];
       fstr ["  → "; detail opt]].
Proof.
  apply (proj1 records_described sample_domain sample_domain_optimized
           sample_domain_changes eq_refl).
  simpl. auto.
Defined.

(** * Listing and choosing a VM *)

(** ** [sorted] *)

Lemma ltb_leb s1 s2 : String.ltb s1 s2 = true -> String.leb s1 s2 = true.
Proof.
  unfold String.ltb, String.leb. now destruct (String.compare s1 s2).
Qed.

Lemma not_ltb_leb s1 s2 :
  String.ltb s1 s2 = false -> String.leb s2 s1 = true.
Proof.
  unfold String.ltb, String.leb. rewrite (String.compare_antisym s2 s1).
  now destruct (String.compare s1 s2).
Qed.

Lemma ltb_neq s1 s2 : String.ltb s1 s2 = true -> s1 <> s2.
Proof.
  unfold String.ltb. intros H ->.
  assert (E : String.compare s2 s2 = Eq).
  { pose proof (String.compare_antisym s2 s2) as Ha.
    destruct (String.compare s2 s2); simpl in Ha; congruence. }
  rewrite E in H. discriminate.
Qed.

Section Sorted.

Variable A : Type.
Variable key : A -> string.

Lemma insert_sorted_perm x l : Permutation (insert_sorted key x l) (x :: l).
Proof.
  induction l as [|y l IH]; simpl; [reflexivity|].
  destruct (String.ltb (key y) (key x)); [|reflexivity].
  rewrite IH. apply perm_swap.
Qed.

Lemma sorted_perm l : Permutation (sorted key l) l.
Proof.
  induction l as [|x l IH]; simpl; [reflexivity|].
  rewrite insert_sorted_perm. now constructor.
Qed.

Lemma insert_sorted_HdRel y x l :
  String.ltb (key y) (key x) = true -> HdRel (key_le key) y l ->
  HdRel (key_le key) y (insert_sorted key x l).
Proof.
  intros Hyx Hl. destruct l as [|z l]; simpl.
  - constructor. now apply ltb_leb.
  - destruct (String.ltb (key z) (key x)).
    + constructor. now inversion Hl.
    + constructor. now apply ltb_leb.
Qed.

Lemma insert_sorted_Sorted x l :
  Sorted (key_le key) l -> Sorted (key_le key) (insert_sorted key x l).
Proof.
  induction 1 as [|y l Hl IH Hy]; simpl.
  - repeat constructor.
  - destruct (String.ltb (key y) (key x)) eqn:E.
    + constructor; [assumption|]. now apply insert_sorted_HdRel.
    + constructor; [now constructor|]. constructor. now apply not_ltb_leb.
Qed.

Lemma sorted_Sorted l : Sorted (key_le key) (sorted key l).
Proof.
  induction l as [|x l IH]; simpl; [constructor|].
  now apply insert_sorted_Sorted.
Qed.

(** The sort is stable: the elements with one key stay in their order. *)
Lemma insert_sorted_stable v x l :
  filter (fun a => String.eqb (key a) v) (insert_sorted key x l)
  = filter (fun a => String.eqb (key a) v) (x :: l).
Proof.
  induction l as [|y l IH]; [reflexivity|]. simpl insert_sorted.
  destruct (String.ltb (key y) (key x)) eqn:E; [|reflexivity].
  apply ltb_neq in E.
  simpl filter in *. rewrite IH.
  destruct (String.eqb_spec (key y) v) as [Hy|Hy],
           (String.eqb_spec (key x) v) as [Hx|Hx]; try reflexivity.
  congruence.
Qed.

Lemma sorted_stable v l :
  filter (fun a => String.eqb (key a) v) (sorted key l)
  = filter (fun a => String.eqb (key a) v) l.
Proof.
  induction l as [|x l IH]; [reflexivity|]. simpl sorted.
  rewrite insert_sorted_stable. simpl. now rewrite IH.
Qed.

End Sorted.

(** ** [list_vms] *)

Lemma read_domains_all doms : forall vms,
  Forall2 (fun dom vm => fst vm = dom_name dom
                         /\ dom_isActive dom = inl (snd vm)) doms vms ->
  read_domains doms = inl vms.
Proof.
  induction 1 as [|dom [name running] doms vms [Hn Ha] _ IH]; simpl;
    [reflexivity|].
  simpl in Hn, Ha. now rewrite Ha, IH, Hn.
Qed.

Lemma read_domains_stops ok : forall dom rest e,
  Forall (fun dom => exists running, dom_isActive dom = inl running) ok ->
  dom_isActive dom = inr e ->
  read_domains (ok ++ dom :: rest) = inr e.
Proof.
  induction ok as [|d ok IH]; intros dom rest e Hok He; simpl.
  - now rewrite He.
  - inversion Hok as [|? ? [running Hd] Hok']; subst.
    now rewrite Hd, (IH dom rest e Hok' He).
Qed.

Lemma read_domains_names doms : forall vms,
  read_domains doms = inl vms -> map fst vms = map dom_name doms.
Proof.
  induction doms as [|dom doms IH]; simpl; intros vms.
  - now intros [= <-].
  - destruct (dom_isActive dom) as [running|e]; [|discriminate].
    destruct (read_domains doms) as [vms'|e]; [|discriminate].
    intros [= <-]. simpl. now rewrite (IH vms' eq_refl).
Qed.

(** X12.  When libvirt lists the domains and each of them answers
    [isActive()], [list_vms] returns every domain once, with its name and
    running state, in the order of the lower-cased names as [str.lower]
    gives them, and domains with one lower-cased name stay in the order in
    which libvirt listed them.  When [listAllDomains()] raises, or the
    [isActive()] of a domain does, [list_vms] raises that [libvirtError]:
    for [isActive()], that of the first domain in the list that fails.  It
    prints nothing and reads nothing. *)
Theorem list_vms_sorted str_lower conn p :
  (forall doms pairs,
      listAllDomains conn = inl doms ->
      Forall2 (fun dom vm => fst vm = dom_name dom
                             /\ dom_isActive dom = inl (snd vm)) doms pairs ->
      exists vms,
        list_vms str_lower conn p = (inl vms, p)
        /\ Permutation vms pairs
        /\ Sorted (key_le (fun x => str_lower (fst x))) vms
        /\ forall v,
             filter (fun a => String.eqb (str_lower (fst a)) v) vms
             = filter (fun a => String.eqb (str_lower (fst a)) v) pairs)
  /\ (forall e,
        listAllDomains conn = inr e ->
        list_vms str_lower conn p = (inr (LibvirtError e), p))
  /\ (forall ok dom rest e,
        listAllDomains conn = inl (ok ++ dom :: rest) ->
        Forall (fun dom => exists running, dom_isActive dom = inl running) ok ->
        dom_isActive dom = inr e ->
        list_vms str_lower conn p = (inr (LibvirtError e), p)).
Proof.
  unfold list_vms. split; [|split].
  - intros doms pairs -> Hp. rewrite (read_domains_all _ _ Hp).
    eexists. split; [reflexivity|]. split; [apply sorted_perm|]. split.
    + apply (sorted_Sorted _ (fun x : string * bool => str_lower (fst x))).
    + intros v.
      apply (sorted_stable _ (fun x : string * bool => str_lower (fst x))).
  - now intros e ->.
  - intros ok dom rest e -> Hok He.
    now rewrite (read_domains_stops ok dom rest e Hok He).
Qed.

Lemma list_vms_sorted_witness :
  (exists vms,
      list_vms ascii_lower sample_conn (mkProc [] []) = (inl vms, mkProc [] [])
      /\ Permutation vms [("web", true); ("Build", false); ("db", false)]
      /\ Sorted (key_le (fun x => ascii_lower (fst x))) vms
      /\ forall v,
           filter (fun a => String.eqb (ascii_lower (fst a)) v) vms
           = filter (fun a => String.eqb (ascii_lower (fst a)) v)
               [("web", true); ("Build", false); ("db", false)])
  /\ list_vms ascii_lower vanishing_conn (mkProc [] [])
     = (inr (LibvirtError "Domain not found: Build"), mkProc [] []).
Proof.
  split.
  - apply (proj1 (list_vms_sorted ascii_lower sample_conn (mkProc [] []))
             sample_domains
             [("web", true); ("Build", false); ("db", false)] eq_refl).
    repeat constructor.
  - apply (proj2 (proj2 (list_vms_sorted ascii_lower vanishing_conn
                           (mkProc [] [])))
             [mkDomain "web" (inl true) (inl "<domain/>")]
             (mkDomain "Build" (inr "Domain not found: Build")
                (inl "<domain/>"))
             [mkDomain "db" (inr "Domain not found: db") (inl "<domain/>")]
             "Domain not found: Build" eq_refl); [|reflexivity].
    constructor; [|constructor]. now exists true.
Defined.

(** ** [select_vm] *)

Section Select.

Variable str_lower : string -> string.

Lemma select_loop_member vms : forall input_left name,
  fst (fst (select_loop str_lower vms input_left)) = Some name ->
  In name (map fst vms).
Proof.
  induction input_left as [|i rest IH]; intros name; simpl; [discriminate|].
  destruct i as [l| |]; simpl; try discriminate.
  destruct (String.eqb (str_lower (strip l)) "q"); simpl; [discriminate|].
  destruct (int (strip l)) as [n|].
  - destruct (Z.leb 0 (n - 1) && Z.ltb (n - 1) (Z.of_nat (length vms)))%bool.
    + simpl. destruct (nth_error vms (Z.to_nat (n - 1))) as [vm|] eqn:E;
        [|discriminate].
      simpl. intros [= <-]. apply in_map. eapply nth_error_In; eauto.
    + destruct (select_loop str_lower vms rest) as [[r rest'] ev].
      simpl in *. apply IH.
  - destruct (select_loop str_lower vms rest) as [[r rest'] ev].
    simpl in *. apply IH.
Qed.

(** X13.  [select_vm] never raises and only ever returns the name of a VM
    of the list.  With an empty list it returns [None] and reads nothing.
    An answer whose stripped text [str.lower] turns into [q] gives
    [None].  Any other answer whose stripped text [int] reads as [n]
    selects the [n]-th VM of the listing when [1 <= n <= len(vms)]; for
    any other number (zero, negative, too large), and for an answer that
    [int] does not read, the question is asked again; and when the input
    ends the result is [None]. *)
Theorem select_vm_choice vms p :
  (exists r p', select_vm str_lower vms p = (inl r, p'))
  /\ (forall name p',
        select_vm str_lower vms p = (inl (Some name), p') ->
        In name (map fst vms))
  /\ (vms = [] ->
      select_vm str_lower vms p
      = (inl None, mkProc (stdin p) (events p ++ [PrintErr "No VMs found."])))
  /\ (forall l rest,
        str_lower (strip l) = "q" ->
        fst (fst (select_loop str_lower vms (Line l :: rest))) = None)
  /\ (forall l n rest,
        str_lower (strip l) <> "q" ->
        int (strip l) = Some n ->
        if (Z.leb 1 n && Z.leb n (Z.of_nat (length vms)))%bool
        then exists vm,
               nth_error vms (Z.to_nat (n - 1)) = Some vm /\
               fst (fst (select_loop str_lower vms (Line l :: rest)))
               = Some (fst vm)
        else fst (fst (select_loop str_lower vms (Line l :: rest)))
             = fst (fst (select_loop str_lower vms rest)))
  /\ (forall l rest,
        str_lower (strip l) <> "q" ->
        int (strip l) = None ->
        fst (fst (select_loop str_lower vms (Line l :: rest)))
        = fst (fst (select_loop str_lower vms rest)))
  /\ fst (fst (select_loop str_lower vms [])) = None.
Proof.
  split; [|split; [|split; [|split; [|split; [|split]]]]].
  - unfold select_vm. destruct vms as [|vm vms'].
    + do 2 eexists. reflexivity.
    + unfold io_bind, print, emit. simpl.
      destruct (select_loop str_lower (vm :: vms') (stdin p))
        as [[r rest] ev].
      do 2 eexists. reflexivity.
  - intros name p'. unfold select_vm. destruct vms as [|vm vms'].
    + discriminate.
    + unfold io_bind, print, emit. simpl.
      destruct (select_loop str_lower (vm :: vms') (stdin p))
        as [[r rest] ev] eqn:E.
      intros [= -> _].
      apply (select_loop_member (vm :: vms') (stdin p)). now rewrite E.
  - intros ->. reflexivity.
  - intros l rest Hq. simpl. now rewrite Hq.
  - intros l n rest Hq Hi. simpl.
    destruct (String.eqb_spec (str_lower (strip l)) "q") as [Hq'|_];
      [contradiction|].
    rewrite Hi.
    replace (Z.leb 0 (n - 1) && Z.ltb (n - 1) (Z.of_nat (length vms)))%bool
      with (Z.leb 1 n && Z.leb n (Z.of_nat (length vms)))%bool.
    2:{ destruct (Z.leb_spec 1 n), (Z.leb_spec n (Z.of_nat (length vms))),
          (Z.leb_spec 0 (n - 1)),
          (Z.ltb_spec (n - 1) (Z.of_nat (length vms)));
          simpl; try reflexivity; lia. }
    destruct (Z.leb 1 n && Z.leb n (Z.of_nat (length vms)))%bool eqn:Hb.
    + apply andb_true_iff in Hb as [H1 H2].
      apply Z.leb_le in H1, H2.
      destruct (nth_error vms (Z.to_nat (n - 1))) as [vm|] eqn:E.
      * exists vm. auto.
      * apply nth_error_None in E. lia.
    + destruct (select_loop str_lower vms rest) as [[r rest'] ev].
      reflexivity.
  - intros l rest Hq Hi. simpl.
    destruct (String.eqb_spec (str_lower (strip l)) "q") as [Hq'|_];
      [contradiction|].
    rewrite Hi.
    destruct (select_loop str_lower vms rest) as [[r rest'] ev].
    reflexivity.
  - reflexivity.
Qed.

End Select.

Lemma select_vm_choice_witness :
  (exists vm,
      nth_error [("Build", false); ("db", false); ("web", true)] 1 = Some vm /\
      fst (fst (select_loop ascii_lower
                  [("Build", false); ("db", false); ("web", true)]
                  [Line " ٢ "]))
      = Some (fst vm))
  /\ fst (fst (select_loop ascii_lower
                 [("Build", false); ("db", false); ("web", true)]
                 [Line "7"; Line "Q"]))
     = fst (fst (select_loop ascii_lower
                   [("Build", false); ("db", false); ("web", true)]
                   [Line "Q"]))
  /\ fst (fst (select_loop ascii_lower
                 [("Build", false); ("db", false); ("web", true)]
                 [Line "Q"; Line "1"]))
     = None.
Proof.
  pose proof (select_vm_choice ascii_lower
                [("Build", false); ("db", false); ("web", true)]
                (mkProc [] [])) as (_ & _ & _ & Hq & Hn & _).
  split; [|split].
  - apply (Hn " ٢ " 2%Z []); [discriminate | reflexivity].
  - apply (Hn "7" 7%Z [Line "Q"]); [discriminate | reflexivity].
  - apply (Hq "Q" [Line "1"]). reflexivity.
Defined.

(** * The lines of the diff *)

Lemma append_nil_r s : String.append s EmptyString = s.
Proof. induction s as [|c s IH]; simpl; congruence. Qed.

Lemma append_assoc s1 s2 s3 :
  String.append (String.append s1 s2) s3
  = String.append s1 (String.append s2 s3).
Proof. induction s1 as [|c s1 IH]; simpl; congruence. Qed.

Lemma concat_cons x l :
  String.concat EmptyString (x :: l)
  = String.append x (String.concat EmptyString l).
Proof.
  destruct l as [|y l]; simpl; [now rewrite append_nil_r | reflexivity].
Qed.

Lemma append_nonempty s c t :
  String.append (String.append s (String c EmptyString)) t <> EmptyString.
Proof. destruct s; discriminate. Qed.

Ltac split_step IH :=
  rewrite ?concat_cons, ?IH by (simpl in *; lia);
  rewrite ?append_assoc; simpl; rewrite ?append_nil_r; try reflexivity.

(** Joining the lines gives the text back. *)
Lemma splitlines_acc_concat n : forall s acc,
  String.length s <= n ->
  String.concat EmptyString (splitlines_acc acc s) = String.append acc s.
Proof.
  induction n as [|n IH]; intros s acc Hn.
  - destruct s; [|simpl in Hn; lia]. simpl.
    destruct acc; simpl; now rewrite ?append_nil_r.
  - destruct s as [|c s']; simpl.
    { destruct acc; simpl; now rewrite ?append_nil_r. }
    simpl in Hn.
    destruct (Nat.eqb (nat_of_ascii c) 13).
    { destruct s' as [|c' s'']; [split_step IH|].
      destruct (Nat.eqb (nat_of_ascii c') 10); split_step IH. }
    destruct (is_line_break c); [split_step IH|].
    destruct (Nat.eqb (nat_of_ascii c) 194).
    { destruct s' as [|c' s'']; [split_step IH|].
      destruct (Nat.eqb (nat_of_ascii c') 133); split_step IH. }
    destruct (Nat.eqb (nat_of_ascii c) 226); [|split_step IH].
    destruct s' as [|c1 [|c2 s3]]; try solve [split_step IH].
    destruct (_ && _)%bool; split_step IH.
Qed.

Lemma splitlines_acc_nonempty n : forall s acc,
  String.length s <= n ->
  Forall (fun line => line <> EmptyString) (splitlines_acc acc s).
Proof.
  induction n as [|n IH]; intros s acc Hn.
  - destruct s; [|simpl in Hn; lia]. simpl.
    destruct acc; simpl; repeat constructor. discriminate.
  - destruct s as [|c s']; simpl.
    { destruct acc; simpl; repeat constructor. discriminate. }
    simpl in Hn.
    assert (Hl : forall t,
               String.append (String.append acc (String c EmptyString)) t
               <> EmptyString) by (intros t; apply append_nonempty).
    assert (Hl0 : String.append acc (String c EmptyString) <> EmptyString)
      by (destruct acc; discriminate).
    destruct (Nat.eqb (nat_of_ascii c) 13).
    { destruct s' as [|c' s'']; [repeat constructor; auto|].
      destruct (Nat.eqb (nat_of_ascii c') 10); constructor; auto;
        apply IH; simpl in *; lia. }
    destruct (is_line_break c);
      [constructor; auto; apply IH; simpl in *; lia|].
    destruct (Nat.eqb (nat_of_ascii c) 194).
    { destruct s' as [|c' s'']; [apply IH; simpl; lia|].
      destruct (Nat.eqb (nat_of_ascii c') 133);
        [constructor; auto|]; apply IH; simpl in *; lia. }
    destruct (Nat.eqb (nat_of_ascii c) 226); [|apply IH; lia].
    destruct s' as [|c1 [|c2 s3]]; try (apply IH; simpl in *; lia).
    destruct (_ && _)%bool; [constructor; auto|]; apply IH; simpl in *; lia.
Qed.

Section Lines.

Variable fromstring : string -> option Node.
Variable tostring : Node -> string.

(** X14.  [format_xml_for_diff] loses nothing: its lines, joined, are the
    pretty-printed text of the document when the text parses, and the text
    itself when it does not (the fallback of line 297); and none of its
    lines is empty. *)
Theorem format_xml_for_diff_joins xml_str :
  String.concat EmptyString (format_xml_for_diff fromstring tostring xml_str)
  = match fromstring xml_str with
    | Some root => tostring root
    | None => xml_str
    end
  /\ Forall (fun line => line <> EmptyString)
            (format_xml_for_diff fromstring tostring xml_str).
Proof.
  unfold format_xml_for_diff, splitlines.
  destruct (fromstring xml_str) as [root|]; split;
    try (now apply (splitlines_acc_concat _ _ EmptyString (le_n _)));
    apply (splitlines_acc_nonempty _ _ EmptyString (le_n _)).
Qed.

End Lines.

(** * What [show_changes] prints *)

Section Show.

Variable fromstring : string -> option Node.
Variable tostring : Node -> string.
Variable unified_diff : list string -> list string -> list string.

Lemma show_change_known chs :
  (forall c, In c chs -> In (key c) (map fst OPTIMIZATIONS)) ->
  length (flat_map show_change chs) = 4 * length chs.
Proof.
  induction chs as [|c chs IH]; intros H; [reflexivity|].
  simpl flat_map. rewrite length_app, IH by (intros; apply H; now right).
  destruct (dict_get_known (key c) (H c (or_introl eq_refl)))
    as (opt & Hg & Hd).
  destruct c as [[k o] n]. unfold key in Hg. cbn [fst] in Hg.
  unfold show_change. rewrite Hg, Hd, length_app. cbn [length]. lia.
Qed.

Lemma show_changes_some chs original_xml optimized_xml :
  chs <> [] ->
  show_changes fromstring tostring unified_diff chs original_xml
    optimized_xml
  = let diff := unified_diff
                  (format_xml_for_diff fromstring tostring original_xml)
                  (format_xml_for_diff fromstring tostring optimized_xml) in
    (([fstr [newline; times "=" 60]; "PROPOSED OPTIMIZATIONS"; times "=" 60]
      ++ flat_map show_change chs
      ++ [fstr [newline; times "-" 60]; "XML DIFF (abbreviated)";
          times "-" 60])
     ++ map show_diff_line (firstn 50 diff)
     ++ (if Nat.ltb 50 (length diff)
         then [fstr [newline; "... ("; str_nat (length diff - 50);
                     " more lines)"]]
         else [])
     ++ [times "-" 60],
     true).
Proof.
  destruct chs as [|c chs]; [contradiction|]. intros _.
  unfold show_changes. cbv zeta. now rewrite <- !app_assoc.
Qed.

Lemma transform_known root root' chs :
  transform root = Ok (root', chs) ->
  forall c, In c chs -> In (key c) (map fst OPTIMIZATIONS).
Proof.
  intros Ht c Hin. apply (expected_keys_known root).
  unfold transform in Ht.
  destruct (apply_rules root (mkSt [] None)) as [[r s]|e] eqn:Ha;
    [|discriminate].
  injection Ht as _ Hs.
  pose proof (apply_rules_keys _ _ _ _ Ha) as Hkeys. simpl in Hkeys.
  rewrite <- Hkeys, Hs. now apply in_map.
Qed.

(** X15.  [show_changes] after [optimize_xml].  It answers [False], and
    prints the single line that the VM is already optimized, exactly when
    the run recorded nothing, which is when the run left the parsed
    document as it was.  Otherwise it prints three header lines, four
    lines for each record (description, before, after, note), three lines
    of diff header, at most the first 50 lines of the diff, one line
    counting the lines left out when the diff has more than 50, and a
    closing rule. *)
Theorem show_changes_after_optimize xml_str optimized chs :
  optimize_xml fromstring tostring xml_str = Ok (optimized, chs) ->
  let diff := unified_diff
                (format_xml_for_diff fromstring tostring xml_str)
                (format_xml_for_diff fromstring tostring optimized) in
  let shown := show_changes fromstring tostring unified_diff chs
                 xml_str optimized in
  (snd shown = false <->
   exists root, fromstring xml_str = Some root /\
                transform root = Ok (root, []))
  /\ length (fst shown)
     = (if snd shown
        then 7 + 4 * length chs + Nat.min 50 (length diff)
             + (if Nat.ltb 50 (length diff) then 1 else 0)
        else 1)
  /\ (snd shown = true ->
      exists before after,
        fst shown
        = before ++ map show_diff_line (firstn 50 diff) ++ after
        /\ (length diff <= 50 -> after = [times "-" 60])
        /\ (50 < length diff ->
            after = [fstr [newline; "... ("; str_nat (length diff - 50);
                           " more lines)"];
                     times "-" 60])).
Proof.
  unfold optimize_xml. destruct (fromstring xml_str) as [root|] eqn:Hp;
    [|discriminate].
  destruct (transform root) as [[root' chs']|e] eqn:Ht; [|discriminate].
  intros [= <- <-]. cbv zeta.
  assert (Hne : chs' = [] \/ chs' <> [])
    by (destruct chs'; [left | right]; congruence).
  destruct Hne as [->|Hne].
  - split; [|split].
    + split; [intros _|reflexivity]. exists root. split; [reflexivity|].
      now rewrite (transform_quiet _ _ Ht) in Ht.
    + reflexivity.
    + discriminate.
  - rewrite (show_changes_some _ _ _ Hne). cbv zeta. cbn [fst snd].
    split; [|split].
    + split; [discriminate|]. intros (r & [= <-] & Hr). congruence.
    + rewrite !length_app, length_map, length_firstn.
      rewrite (show_change_known _ (transform_known _ _ _ Ht)).
      destruct (Nat.ltb 50 _); cbn [length]; lia.
    + intros _. eexists. eexists. split; [reflexivity|].
      split; intros Hl.
      * apply Nat.ltb_ge in Hl. now rewrite Hl.
      * apply Nat.ltb_lt in Hl. now rewrite Hl.
Qed.

End Show.

Lemma show_changes_after_optimize_witness :
  exists optimized chs,
    optimize_xml sample_fromstring sample_tostring "<domain/>"
    = Ok (optimized, chs)
    /\ length (fst (show_changes sample_fromstring sample_tostring
                      sample_unified_diff chs "<domain/>" optimized))
       = 20.
Proof.
  do 2 eexists. split; [reflexivity|].
  exact (proj1 (proj2 (show_changes_after_optimize sample_fromstring
                         sample_tostring sample_unified_diff "<domain/>" _ _
                         eq_refl))).
Defined.

(** * What [main] does to the outside *)

Lemma calls_app l1 l2 : calls (l1 ++ l2) = calls l1 ++ calls l2.
Proof. apply filter_app. Qed.

Lemma calls_map_Print l : calls (map Print l) = [].
Proof. induction l as [|s l IH]; simpl; auto. Qed.

Lemma calls_map_PrintErr l : calls (map PrintErr l) = [].
Proof. induction l as [|s l IH]; simpl; auto. Qed.

Lemma calls_map_print {A} (f : A -> string) l :
  calls (map (fun a => Print (f a)) l) = [].
Proof. induction l as [|s l IH]; simpl; auto. Qed.

Lemma in_calls_define xml l :
  In (DefineXML xml) l -> In (DefineXML xml) (calls l).
Proof. intros H. apply filter_In. now split. Qed.

Lemma no_define l :
  (forall xml, ~ In (DefineXML xml) (calls l)) ->
  forall xml, ~ In (DefineXML xml) l.
Proof. intros H xml Hin. apply (H xml). now apply in_calls_define. Qed.

Lemma confirmed_incl str_lower l1 l2 :
  incl l1 l2 -> confirmed str_lower l1 -> confirmed str_lower l2.
Proof. intros H (l & Hl & Hm). exists l. auto. Qed.

Lemma incl_firstn {A} n (l : list A) : incl (firstn n l) l.
Proof.
  intros x Hx. rewrite <- (firstn_skipn n l). apply in_or_app. now left.
Qed.

Lemma incl_firstn_skipn {A} k (l : list A) : incl (firstn 1 (skipn k l)) l.
Proof.
  intros x Hx. apply incl_firstn in Hx.
  rewrite <- (firstn_skipn k l). apply in_or_app. now right.
Qed.

Section Main.

Variable HAS_LIBVIRT : bool.
Variable HAS_LXML : bool.
Variable libvirt_open : string -> Opened.
Variable fromstring : string -> option Node.
Variable tostring : Node -> string.
Variable unified_diff : list string -> list string -> list string.
Variable str_lower : string -> string.
Variable parse_args : list string -> Parsed.

Lemma select_loop_quiet vms : forall input_left,
  calls (snd (select_loop str_lower vms input_left)) = []
  /\ exists used,
       input_left = used ++ snd (fst (select_loop str_lower vms input_left)).
Proof.
  induction input_left as [|i rest IH]; simpl.
  - split; [reflexivity|]. now exists [].
  - destruct IH as [IH (used & Hu)].
    assert (H1 : exists u, i :: rest = u ++ rest) by (now exists [i]).
    destruct i as [l| |]; simpl; auto.
    destruct (String.eqb (str_lower (strip l)) "q"); simpl; auto.
    destruct (int (strip l)) as [n|].
    + destruct (Z.leb 0 (n - 1) && Z.ltb (n - 1) (Z.of_nat (length vms)))%bool;
        simpl; auto.
      destruct (select_loop str_lower vms rest) as [[r rest'] ev].
      simpl in *.
      split; [assumption|]. exists (Line l :: used). simpl. congruence.
    + destruct (select_loop str_lower vms rest) as [[r rest'] ev].
      simpl in *.
      split; [assumption|]. exists (Line l :: used). simpl. congruence.
Qed.

Lemma show_changes_snd chs original_xml optimized_xml :
  snd (show_changes fromstring tostring unified_diff chs original_xml
         optimized_xml)
  = match chs with [] => false | _ => true end.
Proof. destruct chs; reflexivity. Qed.

Lemma select_vm_quiet vms p :
  exists r ev used,
    select_vm str_lower vms p
    = (inl r, mkProc (skipn (length used) (stdin p)) (events p ++ ev))
    /\ calls ev = [] /\ stdin p = used ++ skipn (length used) (stdin p)
    /\ forall name, r = Some name -> In name (map fst vms).
Proof.
  unfold select_vm. destruct vms as [|v vms'].
  - exists None, [PrintErr "No VMs found."], []. simpl.
    destruct p; repeat (split; [reflexivity|]). discriminate.
  - unfold io_bind, print, emit. cbn [stdin events].
    destruct (select_loop_quiet (v :: vms') (stdin p)) as (Hc & used & Hu).
    pose proof (select_loop_member str_lower (v :: vms') (stdin p)) as Hm.
    destruct (select_loop str_lower (v :: vms') (stdin p)) as [[r rest] ev].
    cbn [fst snd] in *.
    exists r. eexists. exists used. rewrite <- !app_assoc.
    assert (Hs : skipn (length used) (stdin p) = rest).
    { rewrite Hu at 1. now rewrite skipn_app, skipn_all, Nat.sub_diag. }
    rewrite Hs. split; [reflexivity|]. split; [|split; [congruence|exact Hm]].
    rewrite !calls_app, Hc.
    rewrite (calls_map_print (fun iv => vm_line (fst iv) (snd iv))).
    reflexivity.
Qed.

(** [list_vms] returns names that the connection lists, or raises. *)
Lemma list_vms_cases conn :
  (exists vms,
      (forall q, list_vms str_lower conn q = (inl vms, q))
      /\ forall name, In name (map fst vms) -> listed conn name)
  \/ exists e, forall q, list_vms str_lower conn q = (inr (LibvirtError e), q).
Proof.
  unfold list_vms, listed.
  destruct (listAllDomains conn) as [doms|e]; [|right; now exists e].
  destruct (read_domains doms) as [vms|e] eqn:Hr; [|right; now exists e].
  left. eexists. split; [reflexivity|]. intros name Hin.
  exists doms. split; [reflexivity|].
  rewrite <- (read_domains_names _ _ Hr).
  eapply Permutation_in; [|exact Hin].
  apply Permutation_map. apply sorted_perm.
Qed.

(** A run of [apply_changes]: what it returns, what it calls, and the last
    thing it prints when it fails. *)
Lemma apply_changes_run conn vm_name optimized p :
  exists ev,
    apply_changes conn vm_name optimized p
    = (inl (match lookup_isActive conn (events p) vm_name,
                  defineXML conn optimized with
            | inl _, None => true
            | _, _ => false
            end),
       mkProc (stdin p) (events p ++ ev))
    /\ calls ev = (match lookup_isActive conn (events p) vm_name with
                   | inl _ => [DefineXML optimized]
                   | inr _ => []
                   end)
    /\ match lookup_isActive conn (events p) vm_name,
             defineXML conn optimized with
       | inl _, None => forall s, ~ In (PrintErr s) ev
       | inl _, Some e | inr e, _ =>
           exists before,
             ev = before
                  ++ [PrintErr (fstr [newline; "✗ Failed to apply changes: ";
                                      e])]
       end.
Proof.
  unfold apply_changes, lookup_isActive, io_bind, print, print_err, emit,
    io_ret.
  destruct (lookupByName conn (events p) vm_name) as [dom|e].
  - destruct (dom_isActive dom) as [[]|e].
    1,2: destruct (defineXML conn optimized);
      cbn [stdin events]; eexists; rewrite <- ?app_assoc;
      (split; [reflexivity|]); (split; [reflexivity|]);
      try (eexists; rewrite ?app_assoc; reflexivity);
      intros s Hin; simpl in Hin; intuition discriminate.
    cbn [stdin events]. eexists. split; [reflexivity|].
    split; [reflexivity|]. now exists [].
  - cbn [stdin events]. eexists. split; [reflexivity|].
    split; [reflexivity|]. now exists [].
Qed.

(** X16.  [apply_changes] never raises and reads no input.  It returns
    [True] exactly when [lookupByName], [isActive()] and [defineXML] all
    succeed, and then prints nothing on standard error.  It calls
    [defineXML] once, with the text it was given, when the lookup and
    [isActive()] succeed, and not at all otherwise.  When it returns
    [False] the last thing it prints is the message of the libvirt error,
    on standard error: that of the lookup or of [isActive()], or else that
    of [defineXML]. *)
Theorem apply_changes_outcome conn vm_name optimized p :
  exists success ev,
    apply_changes conn vm_name optimized p
    = (inl success, mkProc (stdin p) (events p ++ ev))
    /\ (success = true <->
        (exists dom running,
            lookupByName conn (events p) vm_name = inl dom
            /\ dom_isActive dom = inl running)
        /\ defineXML conn optimized = None)
    /\ calls ev = (match lookup_isActive conn (events p) vm_name with
                   | inl _ => [DefineXML optimized]
                   | inr _ => []
                   end)
    /\ (success = true -> forall s, ~ In (PrintErr s) ev)
    /\ (success = false ->
        exists before e,
          ev = before
               ++ [PrintErr (fstr [newline; "✗ Failed to apply changes: ";
                                   e])]
          /\ (lookupByName conn (events p) vm_name = inr e
              \/ (exists dom,
                     lookupByName conn (events p) vm_name = inl dom
                     /\ dom_isActive dom = inr e)
              \/ ((exists running,
                      lookup_isActive conn (events p) vm_name = inl running)
                  /\ defineXML conn optimized = Some e))).
Proof.
  destruct (apply_changes_run conn vm_name optimized p)
    as (ev & Hrun & Hcalls & Hlast).
  eexists. exists ev. split; [exact Hrun|].
  split; [|split; [exact Hcalls|]].
  - unfold lookup_isActive.
    destruct (lookupByName conn (events p) vm_name) as [dom|e].
    + destruct (dom_isActive dom) as [running|e] eqn:Ha.
      * destruct (defineXML conn optimized) as [e'|].
        -- split; [discriminate|]. now intros [_ H].
        -- split; [|reflexivity]. intros _. split; [|reflexivity].
           exists dom, running. now split.
      * split; [discriminate|]. intros [(d & r & [= <-] & H) _].
        congruence.
    + split; [discriminate|]. intros [(d & r & H & _) _]. discriminate.
  - unfold lookup_isActive in *.
    destruct (lookupByName conn (events p) vm_name) as [dom|e].
    + destruct (dom_isActive dom) as [running|e] eqn:Ha.
      * destruct (defineXML conn optimized) as [e'|].
        -- split; [discriminate|]. intros _.
           destruct Hlast as (before & ->). exists before, e'.
           split; [reflexivity|]. right. right. split; [|reflexivity].
           now exists running.
        -- split; [intros _; exact Hlast | discriminate].
      * split; [discriminate|]. intros _.
        destruct Hlast as (before & ->). exists before, e.
        split; [reflexivity|]. right. left. exists dom. now split.
    + split; [discriminate|]. intros _.
      destruct Hlast as (before & ->). exists before, e. auto.
Qed.

(** The calls of a run of [optimize_vm], case by case, and what it takes
    for [defineXML] to be called. *)
Lemma optimize_vm_calls args conn vm_name p :
  let out := optimize_vm fromstring tostring unified_diff str_lower args conn
               vm_name p in
  let analyzing := Print (fstr [newline; "Analyzing '"; vm_name; "'..."]) in
  exists ev,
    events (snd out) = events p ++ ev
    /\ match fst out with
       | inr (SysExit code) => code = 1%Z /\ calls ev = []
       | inr (Uncaught e) =>
           calls ev = [] /\
           exists original, optimize_xml fromstring tostring original = Raise e
       | inr (LibvirtError e) =>
           close conn = Some e /\
           (calls ev = [ConnClose]
            \/ exists optimized, calls ev = [DefineXML optimized; ConnClose])
       | inl code =>
           close conn = None /\
           ((calls ev = [ConnClose] /\
             (code = 0%Z
              \/ code = 1%Z /\
                 exists history e,
                   lookup_isActive conn history vm_name = inr e))
            \/ exists optimized,
                 calls ev = [DefineXML optimized; ConnClose] /\
                 code = (match defineXML conn optimized with
                         | None => 0%Z
                         | Some _ => 1%Z
                         end))
       end
    /\ forall optimized,
         In (DefineXML optimized) ev ->
         exists dom original chs post,
           ev = analyzing :: post /\
           lookupByName conn (events p ++ [analyzing]) vm_name = inl dom /\
           dom_XMLDesc dom = inl original /\
           optimize_xml fromstring tostring original = Ok (optimized, chs) /\
           chs <> [] /\ dry_run args = false /\
           (yes args = true \/ confirmed str_lower (firstn 1 (stdin p))).
Proof.
  intros out analyzing. subst out.
  set (Post := fun out : (Z + Stop) * Proc =>
    exists ev,
      events (snd out) = events p ++ ev
      /\ match fst out with
         | inr (SysExit code) => code = 1%Z /\ calls ev = []
         | inr (Uncaught e) =>
             calls ev = [] /\
             exists original,
               optimize_xml fromstring tostring original = Raise e
         | inr (LibvirtError e) =>
             close conn = Some e /\
             (calls ev = [ConnClose]
              \/ exists optimized,
                   calls ev = [DefineXML optimized; ConnClose])
         | inl code =>
             close conn = None /\
             ((calls ev = [ConnClose] /\
               (code = 0%Z
                \/ code = 1%Z /\
                   exists history e,
                     lookup_isActive conn history vm_name = inr e))
              \/ exists optimized,
                   calls ev = [DefineXML optimized; ConnClose] /\
                   code = (match defineXML conn optimized with
                           | None => 0%Z
                           | Some _ => 1%Z
                           end))
         end
      /\ forall optimized,
           In (DefineXML optimized) ev ->
           exists dom original chs post,
             ev = analyzing :: post /\
             lookupByName conn (events p ++ [analyzing]) vm_name = inl dom /\
             dom_XMLDesc dom = inl original /\
             optimize_xml fromstring tostring original
             = Ok (optimized, chs) /\
             chs <> [] /\ dry_run args = false /\
             (yes args = true \/ confirmed str_lower (firstn 1 (stdin p)))).
  change (Post (optimize_vm fromstring tostring unified_diff str_lower args
                  conn vm_name p)).
  assert (Hno : forall l,
             calls l = [] \/ calls l = [ConnClose] ->
             forall optimized, ~ In (DefineXML optimized) l).
  { intros l Hl o Hin. apply in_calls_define in Hin.
    destruct Hl as [Hl|Hl]; rewrite Hl in Hin; simpl in Hin;
      intuition discriminate. }
  unfold optimize_vm, get_vm_xml, io_bind, print, print_err, emit, sys_exit,
    uncaught, io_ret.
  cbn [stdin events]. fold analyzing.
  case_eq (lookupByName conn (events p ++ [analyzing]) vm_name);
    [intros dom Hl | intros e Hl]; cbn [stdin events].
  2:{ unfold Post. eexists. rewrite <- !app_assoc. split; [reflexivity|].
      cbn [fst]. split; [split; reflexivity|].
      intros o Hin. exfalso. revert Hin. apply Hno. now left. }
  destruct (dom_XMLDesc dom) as [original|e] eqn:Hx; cbn [stdin events].
  2:{ unfold Post. eexists. rewrite <- !app_assoc. split; [reflexivity|].
      cbn [fst]. split; [split; reflexivity|].
      intros o Hin. exfalso. revert Hin. apply Hno. now left. }
  destruct (optimize_xml fromstring tostring original)
    as [[optimized chs]|e] eqn:Ho; cbn [stdin events].
  2:{ unfold Post. eexists. split; [reflexivity|]. cbn [fst].
      split; [split; [reflexivity | eauto]|].
      intros o Hin. exfalso. revert Hin. apply Hno. now left. }
  pose proof (show_changes_snd chs original optimized) as Hs.
  destruct (show_changes fromstring tostring unified_diff chs original
              optimized) as [printed has_changes].
  simpl in Hs. subst has_changes.
  (* runs that end by closing the connection, without a write *)
  assert (Hcloses : forall (more : list Event) (q : Proc),
             calls more = [] ->
             events q = events p ++ [analyzing] ++ map Print printed ++ more ->
             Post ((conn_close conn ~~ io_ret 0%Z) q)).
  { intros more q Hmore Hq.
    unfold Post, conn_close, io_bind, emit, libvirt_error, io_ret.
    assert (Hc : calls ([analyzing] ++ map Print printed ++ more
                        ++ [ConnClose]) = [ConnClose]).
    { now rewrite !calls_app, calls_map_Print, Hmore. }
    destruct (close conn) as [ce|] eqn:Hce; cbn [fst snd stdin events];
      rewrite Hq; exists ([analyzing] ++ map Print printed ++ more
                          ++ [ConnClose]);
      (split; [now rewrite <- !app_assoc|]);
      (split; [|intros o Hin; exfalso; revert Hin; apply Hno; now right]).
    - split; [reflexivity | now left].
    - split; [reflexivity|]. left. split; [assumption | now left]. }
  (* runs that apply the changes *)
  assert (Happly : forall (more : list Event) (q : Proc),
             calls more = [] ->
             events q = events p ++ [analyzing] ++ map Print printed ++ more ->
             chs <> [] -> dry_run args = false ->
             yes args = true \/ confirmed str_lower (firstn 1 (stdin p)) ->
             Post ((success <~ apply_changes conn vm_name optimized ;;
                    conn_close conn ~~
                    io_ret (if success then 0%Z else 1%Z)) q)).
  { intros more q Hmore Hq Hne Hdry Hyes.
    unfold Post.
    destruct (apply_changes_run conn vm_name optimized q)
      as (eva & Hrun & Hca & _).
    remember (lookup_isActive conn (events q) vm_name) as la eqn:Hla.
    symmetry in Hla.
    unfold conn_close, io_bind, emit, libvirt_error, io_ret.
    rewrite Hrun. cbn [stdin events]. rewrite Hq.
    exists ([analyzing] ++ map Print printed ++ more ++ eva ++ [ConnClose]).
    assert (Hc : calls ([analyzing] ++ map Print printed ++ more ++ eva
                        ++ [ConnClose]) = calls eva ++ [ConnClose]).
    { now rewrite !calls_app, calls_map_Print, Hmore. }
    assert (Hguard : forall optimized0,
               In (DefineXML optimized0)
                  ([analyzing] ++ map Print printed ++ more ++ eva
                   ++ [ConnClose]) ->
               exists dom original chs post,
                 [analyzing] ++ map Print printed ++ more ++ eva
                 ++ [ConnClose] = analyzing :: post /\
                 lookupByName conn (events p ++ [analyzing]) vm_name
                 = inl dom /\
                 dom_XMLDesc dom = inl original /\
                 optimize_xml fromstring tostring original
                 = Ok (optimized0, chs) /\
                 chs <> [] /\ dry_run args = false /\
                 (yes args = true
                  \/ confirmed str_lower (firstn 1 (stdin p)))).
    { intros o Hin. apply in_calls_define in Hin. rewrite Hc, Hca in Hin.
      destruct la; simpl in Hin; [|intuition discriminate].
      destruct Hin as [[= <-]|[Hin|[]]]; [|discriminate].
      exists dom, original, chs. eexists.
      split; [reflexivity|]. auto 10. }
    rewrite Hc, Hca.
    destruct (close conn) as [ce|] eqn:Hce; cbn [fst snd stdin events];
      (split; [now rewrite <- !app_assoc|]); (split; [|exact Hguard]).
    - split; [reflexivity|]. destruct la; simpl; eauto.
    - split; [reflexivity|]. destruct la as [r|e]; simpl.
      + right. exists optimized. split; [reflexivity|].
        now destruct (defineXML conn optimized).
      + left. split; [reflexivity|]. right. split; [reflexivity|]. eauto. }
  destruct chs as [|c0 chs0]; cbn [negb].
  { apply (Hcloses [] (mkProc (stdin p)
                         ((events p ++ [analyzing]) ++ map Print printed)));
      [reflexivity|].
    cbn [events]. now rewrite <- !app_assoc, app_nil_r. }
  assert (Hne : c0 :: chs0 <> []) by discriminate.
  set (chs := c0 :: chs0) in *.
  destruct (dry_run args) eqn:Hdry.
  { apply (Hcloses [Print (fstr [newline; "[Dry run - no changes applied]"])]
             (mkProc (stdin p)
                (((events p ++ [analyzing]) ++ map Print printed)
                 ++ [Print (fstr [newline;
                                  "[Dry run - no changes applied]"])])));
      [reflexivity|].
    cbn [events]. now rewrite <- !app_assoc. }
  destruct (yes args) eqn:Hyes; cbn [negb].
  { apply (Happly [] (mkProc (stdin p)
                        ((events p ++ [analyzing]) ++ map Print printed)));
      auto.
    cbn [events]. now rewrite <- !app_assoc, app_nil_r. }
  unfold input. cbn [stdin events].
  set (ask := Prompt (fstr [newline; "Apply these changes? [y/N]: "])).
  destruct (stdin p) as [|[l| |] rest] eqn:Hin; cbn [stdin events].
  - apply (Hcloses [ask; Print (fstr [newline; "Cancelled."])]
             (mkProc []
                ((((events p ++ [analyzing]) ++ map Print printed) ++ [ask])
                 ++ [Print (fstr [newline; "Cancelled."])])));
      [reflexivity | cbn [events]; now rewrite <- !app_assoc].
  - destruct (mem (str_lower (strip l)) ["y"; "yes"]) eqn:Hmem; cbn [negb].
    + apply (Happly [ask]
               (mkProc rest
                  (((events p ++ [analyzing]) ++ map Print printed)
                   ++ [ask])));
        [reflexivity | cbn [events]; now rewrite <- !app_assoc
        | assumption | reflexivity |].
      right. exists l. split; [now left | assumption].
    + apply (Hcloses [ask; Print "Cancelled."]
               (mkProc rest
                  ((((events p ++ [analyzing]) ++ map Print printed)
                    ++ [ask]) ++ [Print "Cancelled."])));
        [reflexivity | cbn [events]; now rewrite <- !app_assoc].
  - apply (Hcloses [ask; Print (fstr [newline; "Cancelled."])]
             (mkProc rest
                ((((events p ++ [analyzing]) ++ map Print printed) ++ [ask])
                 ++ [Print (fstr [newline; "Cancelled."])])));
      [reflexivity | cbn [events]; now rewrite <- !app_assoc].
  - apply (Hcloses [ask; Print (fstr [newline; "Cancelled."])]
             (mkProc rest
                ((((events p ++ [analyzing]) ++ map Print printed) ++ [ask])
                 ++ [Print (fstr [newline; "Cancelled."])])));
      [reflexivity | cbn [events]; now rewrite <- !app_assoc].
Qed.

(** A run of [main]: how it ends, the calls it makes to libvirt, and what
    it takes for [defineXML] to be called. *)
Lemma main_run argv p :
  let out := main HAS_LIBVIRT HAS_LXML libvirt_open fromstring tostring
               unified_diff str_lower parse_args argv p in
  exists ev,
    events (snd out) = events p ++ ev
    /\ match parse_args argv with
       | ParserExit printed printed_err code =>
           out = (inr (SysExit code), mkProc (stdin p) (events p ++ ev))
           /\ ev = map Print printed ++ map PrintErr printed_err
       | Namespace args =>
           match fst out with
           | inr (SysExit code) =>
               code = 1%Z /\
               (calls ev = [] \/ calls ev = [LibvirtOpen (uri args)])
           | inr (Uncaught e) =>
               calls ev = [LibvirtOpen (uri args)] /\
               exists original,
                 optimize_xml fromstring tostring original = Raise e
           | inr (LibvirtError e) =>
               exists conn,
                 libvirt_open (uri args) = Connected conn /\
                 ((calls ev = [LibvirtOpen (uri args)] /\
                   forall q,
                     list_vms str_lower conn q = (inr (LibvirtError e), q))
                  \/ (close conn = Some e /\
                      (calls ev = [LibvirtOpen (uri args); ConnClose]
                       \/ exists optimized,
                            calls ev = [LibvirtOpen (uri args);
                                        DefineXML optimized; ConnClose])))
           | inl code =>
               exists conn,
                 libvirt_open (uri args) = Connected conn /\
                 close conn = None /\
                 ((calls ev = [LibvirtOpen (uri args); ConnClose] /\
                   (code = 0%Z
                    \/ code = 1%Z /\
                       exists name history e,
                         lookup_isActive conn history name = inr e))
                  \/ exists optimized,
                       calls ev = [LibvirtOpen (uri args);
                                   DefineXML optimized; ConnClose] /\
                       code = (match defineXML conn optimized with
                               | None => 0%Z
                               | Some _ => 1%Z
                               end))
           end
           /\ forall optimized,
                In (DefineXML optimized) ev ->
                exists conn name dom original chs before after,
                  libvirt_open (uri args) = Connected conn /\
                  (vm args = Some name \/ listed conn name) /\
                  ev = before ++ after /\
                  lookupByName conn (events p ++ before) name = inl dom /\
                  dom_XMLDesc dom = inl original /\
                  optimize_xml fromstring tostring original
                  = Ok (optimized, chs) /\
                  chs <> [] /\ dry_run args = false /\
                  (yes args = true \/ confirmed str_lower (stdin p))
       end.
Proof.
  intros out. subst out. unfold main.
  destruct (parse_args argv) as [args|printed printed_err code].
  2:{ unfold io_bind, emit, sys_exit. cbn [stdin events fst snd].
      eexists. split; [reflexivity|]. split; reflexivity. }
  set (connecting := Print (fstr ["Connecting to "; uri args; "..."])).
  set (Post := fun out : (Z + Stop) * Proc =>
    exists ev,
      events (snd out) = events p ++ ev
      /\ match fst out with
             | inr (SysExit code) =>
                 code = 1%Z /\
                 (calls ev = [] \/ calls ev = [LibvirtOpen (uri args)])
             | inr (Uncaught e) =>
                 calls ev = [LibvirtOpen (uri args)] /\
                 exists original,
                   optimize_xml fromstring tostring original = Raise e
             | inr (LibvirtError e) =>
                 exists conn,
                   libvirt_open (uri args) = Connected conn /\
                   ((calls ev = [LibvirtOpen (uri args)] /\
                     forall q,
                       list_vms str_lower conn q = (inr (LibvirtError e), q))
                    \/ (close conn = Some e /\
                        (calls ev = [LibvirtOpen (uri args); ConnClose]
                         \/ exists optimized,
                              calls ev = [LibvirtOpen (uri args);
                                          DefineXML optimized; ConnClose])))
             | inl code =>
                 exists conn,
                   libvirt_open (uri args) = Connected conn /\
                   close conn = None /\
                   ((calls ev = [LibvirtOpen (uri args); ConnClose] /\
                     (code = 0%Z
                      \/ code = 1%Z /\
                         exists name history e,
                           lookup_isActive conn history name = inr e))
                    \/ exists optimized,
                         calls ev = [LibvirtOpen (uri args);
                                     DefineXML optimized; ConnClose] /\
                         code = (match defineXML conn optimized with
                                 | None => 0%Z
                                 | Some _ => 1%Z
                                 end))
             end
             /\ forall optimized,
                  In (DefineXML optimized) ev ->
                  exists conn name dom original chs before after,
                    libvirt_open (uri args) = Connected conn /\
                    (vm args = Some name \/ listed conn name) /\
                    ev = before ++ after /\
                    lookupByName conn (events p ++ before) name = inl dom /\
                    dom_XMLDesc dom = inl original /\
                    optimize_xml fromstring tostring original
                    = Ok (optimized, chs) /\
                    chs <> [] /\ dry_run args = false /\
                    (yes args = true \/ confirmed str_lower (stdin p))).
  match goal with
  | |- exists ev, events (snd ?o) = _ /\ _ => change (Post o)
  end.
  unfold check_dependencies, connect_libvirt, io_bind, print, print_err, emit,
    sys_exit, io_ret.
  destruct HAS_LIBVIRT, HAS_LXML; cbn [negb app map stdin events fst snd];
    try (unfold Post; eexists; rewrite <- ?app_assoc;
         split; [reflexivity|]; cbn [fst];
         split; [split; [reflexivity | now left]|];
         intros o Ho; exfalso; revert o Ho;
         apply no_define; intros xml Hin; simpl in Hin;
         intuition discriminate).
  fold connecting.
  case_eq (libvirt_open (uri args));
    [intros conn Hopen | intros Hopen | intros msg Hopen];
    cbn [stdin events fst snd];
    try (unfold Post; eexists; rewrite <- ?app_assoc;
         split; [reflexivity|]; cbn [fst];
         split; [split; [reflexivity | now right]|];
         intros o Ho; exfalso; revert o Ho;
         apply no_define; intros xml Hin; simpl in Hin;
         intuition discriminate).
  (* the VM is chosen *)
  assert (Hvm : forall vm_name q pre,
             events q = events p ++ [connecting; LibvirtOpen (uri args)]
                        ++ pre ->
             calls pre = [] ->
             vm args = Some vm_name \/ listed conn vm_name ->
             incl (firstn 1 (stdin q)) (stdin p) ->
             Post (optimize_vm fromstring tostring unified_diff str_lower
                     args conn vm_name q)).
  { intros vm_name q pre Hq Hpre Hname Hin.
    destruct (optimize_vm_calls args conn vm_name q)
      as (ev & Hev & Hshape & Hguard).
    cbv zeta in Hev, Hshape, Hguard.
    set (analyzing := Print (fstr [newline; "Analyzing '"; vm_name; "'..."]))
      in *.
    unfold Post.
    exists ([connecting; LibvirtOpen (uri args)] ++ pre ++ ev).
    split; [rewrite Hev, Hq; now rewrite <- !app_assoc|].
    assert (Hc : calls ([connecting; LibvirtOpen (uri args)] ++ pre ++ ev)
                 = LibvirtOpen (uri args) :: calls ev).
    { rewrite !calls_app, Hpre. reflexivity. }
    rewrite Hc. split.
    - destruct (fst (optimize_vm fromstring tostring unified_diff str_lower
                       args conn vm_name q)) as [code|[code|e|e]].
      + destruct Hshape as [Hclose Hshape]. exists conn.
        split; [assumption|]. split; [assumption|].
        destruct Hshape as [[-> Hcode]|(optimized & -> & Hcode)].
        * left. split; [reflexivity|].
          destruct Hcode as [Hcode|(Hcode & history & e & He)];
            [now left | right].
          split; [assumption|]. now exists vm_name, history, e.
        * right. now exists optimized.
      + destruct Hshape as [-> ->]. split; [reflexivity | now right].
      + destruct Hshape as [-> Horig]. now split.
      + destruct Hshape as [Hclose Hshape]. exists conn.
        split; [assumption|]. right. split; [assumption|].
        destruct Hshape as [->|(optimized & ->)]; [now left | right].
        now exists optimized.
    - intros optimized Hdef.
      assert (Hdef' : In (DefineXML optimized) ev).
      { apply in_app_or in Hdef as [Hdef|Hdef].
        - simpl in Hdef. intuition discriminate.
        - apply in_app_or in Hdef as [Hdef|Hdef]; [|assumption].
          apply in_calls_define in Hdef. rewrite Hpre in Hdef.
          destruct Hdef. }
      destruct (Hguard optimized Hdef')
        as (dom & original & chs & post & Hpost & Hl & Hx & Ho & Hne & Hdry
            & Hyes).
      exists conn, vm_name, dom, original, chs,
        ([connecting; LibvirtOpen (uri args)] ++ pre ++ [analyzing]), post.
      split; [assumption|]. split; [assumption|].
      split; [rewrite Hpost; now rewrite <- !app_assoc|].
      split; [rewrite <- Hl, Hq; now rewrite <- !app_assoc|].
      do 4 (split; [assumption|]).
      destruct Hyes as [Hyes|Hyes]; [now left | right].
      eapply confirmed_incl; eauto. }
  (* the connection is closed and the run returns 0 *)
  assert (Hquit : forall q pre,
             events q = events p ++ [connecting; LibvirtOpen (uri args)]
                        ++ pre ->
             calls pre = [] ->
             Post ((conn_close conn ~~ io_ret 0%Z) q)).
  { intros q pre Hq Hpre.
    unfold Post, conn_close, io_bind, emit, libvirt_error, io_ret.
    assert (Hc : calls ([connecting; LibvirtOpen (uri args)] ++ pre
                        ++ [ConnClose])
                 = [LibvirtOpen (uri args); ConnClose]).
    { rewrite !calls_app, Hpre. reflexivity. }
    destruct (close conn) as [ce|] eqn:Hce; cbn [fst snd stdin events];
      rewrite Hq;
      exists ([connecting; LibvirtOpen (uri args)] ++ pre ++ [ConnClose]);
      (split; [now rewrite <- !app_assoc|]);
      (split; [|intros o Ho; exfalso; revert o Ho;
                apply no_define; intros xml Hin; rewrite Hc in Hin;
                simpl in Hin; intuition discriminate]);
      rewrite Hc; exists conn; (split; [assumption|]).
    - right. split; [assumption | now left].
    - split; [assumption|]. left. split; [reflexivity | now left]. }
  (* the VM is asked for *)
  assert (Hchoose : forall q,
             events q = events p ++ [connecting; LibvirtOpen (uri args)] ->
             stdin q = stdin p ->
             Post (choose_vm fromstring tostring unified_diff str_lower args
                     conn q)).
  { intros q Hq Hinq. unfold choose_vm. unfold io_bind at 1.
    destruct (list_vms_cases conn) as [(vms & Hlist & Hnames)|(e & Hlist)];
      rewrite Hlist.
    2:{ unfold Post. cbn [fst snd]. rewrite Hq.
        exists [connecting; LibvirtOpen (uri args)].
        split; [reflexivity|]. split.
        - exists conn. split; [assumption|]. left. now split.
        - intros o Ho. exfalso. revert o Ho.
          apply no_define. intros xml Hin. simpl in Hin.
          intuition discriminate. }
    unfold io_bind at 1.
    destruct (select_vm_quiet vms q) as (r & ev & used & -> & Hc & Hu & Hm).
    destruct r as [vm_name|].
    - apply (Hvm vm_name _ ev).
      + cbn [events]. rewrite Hq. now rewrite <- !app_assoc.
      + assumption.
      + right. apply Hnames. now apply Hm.
      + cbn [stdin]. rewrite <- Hinq. apply incl_firstn_skipn.
    - apply (Hquit _ ev); [|assumption].
      cbn [events]. rewrite Hq. now rewrite <- !app_assoc. }
  case_eq (vm args); [intros name Hname | intros Hname].
  - destruct (truthy name).
    + apply (Hvm name _ []); [|reflexivity | now left |].
      * cbn [events]. now rewrite <- !app_assoc.
      * cbn [stdin]. apply incl_firstn.
    + apply Hchoose; [|reflexivity].
      cbn [events]. now rewrite <- !app_assoc.
  - apply Hchoose; [|reflexivity].
    cbn [events]. now rewrite <- !app_assoc.
Qed.

(** X17.  What [main] does to libvirt.  When the parser exits (help, a
    bad argument) the run exits with the parser's status after printing
    what the parser printed, and calls nothing.  Otherwise a run makes one
    of four sequences of calls: none, [libvirt.open] alone, [libvirt.open]
    and [conn.close()], or these two with one [conn.defineXML] between
    them.  It exits with status 1 after none or [libvirt.open] alone; it
    fails with the exception of [optimize_xml] after [libvirt.open] alone;
    it fails with a [libvirtError] when [list_vms] raises (after
    [libvirt.open] alone) or when [conn.close()] raises; and it returns
    only after [conn.close()]: 0, or 1 when [apply_changes] failed, which
    without a [defineXML] call means the second lookup or [isActive()]
    raised.  [defineXML] is called only on the connection opened, for the
    VM that [--vm] names or one that the connection listed, with the text
    [optimize_xml] returns for the XML that VM had, when the list of
    records is not empty, [--dry-run] is off, and [--yes] is on or a line
    of the input says y or yes. *)
Theorem main_calls argv p :
  let out := main HAS_LIBVIRT HAS_LXML libvirt_open fromstring tostring
               unified_diff str_lower parse_args argv p in
  exists ev,
    events (snd out) = events p ++ ev
    /\ match parse_args argv with
       | ParserExit printed printed_err code =>
           out = (inr (SysExit code), mkProc (stdin p) (events p ++ ev))
           /\ ev = map Print printed ++ map PrintErr printed_err
       | Namespace args =>
           match fst out with
           | inr (SysExit code) =>
               code = 1%Z /\
               (calls ev = [] \/ calls ev = [LibvirtOpen (uri args)])
           | inr (Uncaught e) =>
               calls ev = [LibvirtOpen (uri args)] /\
               exists original,
                 optimize_xml fromstring tostring original = Raise e
           | inr (LibvirtError e) =>
               exists conn,
                 libvirt_open (uri args) = Connected conn /\
                 ((calls ev = [LibvirtOpen (uri args)] /\
                   forall q,
                     list_vms str_lower conn q = (inr (LibvirtError e), q))
                  \/ (close conn = Some e /\
                      (calls ev = [LibvirtOpen (uri args); ConnClose]
                       \/ exists optimized,
                            calls ev = [LibvirtOpen (uri args);
                                        DefineXML optimized; ConnClose])))
           | inl code =>
               exists conn,
                 libvirt_open (uri args) = Connected conn /\
                 close conn = None /\
                 ((calls ev = [LibvirtOpen (uri args); ConnClose] /\
                   (code = 0%Z
                    \/ code = 1%Z /\
                       exists name history e,
                         lookup_isActive conn history name = inr e))
                  \/ exists optimized,
                       calls ev = [LibvirtOpen (uri args);
                                   DefineXML optimized; ConnClose] /\
                       code = (match defineXML conn optimized with
                               | None => 0%Z
                               | Some _ => 1%Z
                               end))
           end
           /\ forall optimized,
                In (DefineXML optimized) ev ->
                exists conn name dom original chs before after,
                  libvirt_open (uri args) = Connected conn /\
                  (vm args = Some name \/ listed conn name) /\
                  ev = before ++ after /\
                  lookupByName conn (events p ++ before) name = inl dom /\
                  dom_XMLDesc dom = inl original /\
                  optimize_xml fromstring tostring original
                  = Ok (optimized, chs) /\
                  chs <> [] /\ dry_run args = false /\
                  (yes args = true \/ confirmed str_lower (stdin p))
       end.
Proof. exact (main_run argv p). Qed.

(** X18.  A dry run writes nothing: with [--dry-run], no run of [main]
    calls [conn.defineXML], whatever the input and the answers of
    libvirt. *)
Theorem main_dry_run argv args p :
  parse_args argv = Namespace args ->
  dry_run args = true ->
  let out := main HAS_LIBVIRT HAS_LXML libvirt_open fromstring tostring
               unified_diff str_lower parse_args argv p in
  exists ev,
    events (snd out) = events p ++ ev
    /\ forall xml, ~ In (DefineXML xml) ev.
Proof.
  intros Hparse Hdry out. destruct (main_run argv p) as (ev & Hev & Hcase).
  fold out in Hev. exists ev. split; [assumption|].
  rewrite Hparse in Hcase. destruct Hcase as [_ Hguard].
  intros xml Hin.
  destruct (Hguard xml Hin)
    as (conn & name & dom & original & chs & before & after & _ & _ & _ & _
        & _ & _ & _ & Hd & _).
  congruence.
Qed.

End Main.

Lemma main_dry_run_witness :
  exists ev,
    events (snd (main true true sample_open sample_fromstring sample_tostring
                   sample_unified_diff ascii_lower sample_parse_args
                   ["--vm"; "web"; "--dry-run"] (mkProc [] [])))
    = [] ++ ev
    /\ forall xml, ~ In (DefineXML xml) ev.
Proof.
  apply (main_dry_run true true sample_open sample_fromstring sample_tostring
           sample_unified_diff ascii_lower sample_parse_args
           ["--vm"; "web"; "--dry-run"]
           (mkArgs "qemu:///session" (Some "web") true false)
           (mkProc [] []));
    reflexivity.
Defined.

(** Three runs with [--yes]: one that writes, one whose second lookup
    fails and one whose [isActive()] fails; the last two return 1 and
    write nothing. *)
Lemma main_yes_runs :
  (let out := main true true sample_open sample_fromstring sample_tostring
                sample_unified_diff ascii_lower sample_parse_args
                ["--uri"; "qemu:///session"; "--vm"; "web"; "--yes"]
                (mkProc [] []) in
   fst out = inl 0%Z
   /\ calls (events (snd out))
      = [LibvirtOpen "qemu:///session";
         DefineXML (String.append xml_declaration "<domain/>"); ConnClose])
  /\ (let out := main true true sample_open sample_fromstring sample_tostring
                   sample_unified_diff ascii_lower sample_parse_args
                   ["--uri"; "qemu:///forgetful"; "--vm"; "web"; "--yes"]
                   (mkProc [] []) in
      fst out = inl 1%Z
      /\ calls (events (snd out))
         = [LibvirtOpen "qemu:///forgetful"; ConnClose])
  /\ (let out := main true true sample_open sample_fromstring sample_tostring
                   sample_unified_diff ascii_lower sample_parse_args
                   ["--uri"; "qemu:///unreachable"; "--vm"; "web"; "--yes"]
                   (mkProc [] []) in
      fst out = inl 1%Z
      /\ calls (events (snd out))
         = [LibvirtOpen "qemu:///unreachable"; ConnClose])
  /\ fst (main true true sample_open sample_fromstring sample_tostring
            sample_unified_diff ascii_lower sample_parse_args
            ["--help"] (mkProc [] []))
     = inr (SysExit 0)
  /\ fst (main true true sample_open sample_fromstring sample_tostring
            sample_unified_diff ascii_lower sample_parse_args
            ["--frobnicate"] (mkProc [] []))
     = inr (SysExit 2).
Proof. vm_compute. repeat split; reflexivity. Qed.

(** * Runs that ask nothing *)

Lemma prompts_app l1 l2 : prompts (l1 ++ l2) = prompts l1 ++ prompts l2.
Proof. apply filter_app. Qed.

Lemma prompts_map_Print l : prompts (map Print l) = [].
Proof. induction l as [|s l IH]; simpl; auto. Qed.

Lemma prompts_map_PrintErr l : prompts (map PrintErr l) = [].
Proof. induction l as [|s l IH]; simpl; auto. Qed.

Lemma apply_changes_asks_nothing conn vm_name optimized p :
  exists ev,
    snd (apply_changes conn vm_name optimized p)
    = mkProc (stdin p) (events p ++ ev)
    /\ (exists success,
           fst (apply_changes conn vm_name optimized p) = inl success)
    /\ prompts ev = [].
Proof.
  unfold apply_changes, io_bind, print, print_err, emit, io_ret.
  destruct (lookupByName conn (events p) vm_name) as [dom|e].
  - destruct (dom_isActive dom) as [[]|e].
    1,2: destruct (defineXML conn optimized);
      cbn [stdin events fst snd]; eexists; rewrite <- ?app_assoc;
      (split; [reflexivity|]); (split; [eauto | reflexivity]).
    cbn [stdin events fst snd]. eexists. split; [reflexivity|].
    split; [eauto | reflexivity].
  - cbn [stdin events fst snd]. eexists. split; [reflexivity|].
    split; [eauto | reflexivity].
Qed.

Section Batch.

Variable HAS_LIBVIRT : bool.
Variable HAS_LXML : bool.
Variable libvirt_open : string -> Opened.
Variable fromstring : string -> option Node.
Variable tostring : Node -> string.
Variable unified_diff : list string -> list string -> list string.
Variable str_lower : string -> string.
Variable parse_args : list string -> Parsed.

Lemma optimize_vm_asks_nothing args conn vm_name p :
  yes args = true \/ dry_run args = true ->
  exists ev,
    snd (optimize_vm fromstring tostring unified_diff str_lower args conn
           vm_name p)
    = mkProc (stdin p) (events p ++ ev)
    /\ prompts ev = [].
Proof.
  intros Hbatch.
  unfold optimize_vm, get_vm_xml, io_bind, print, print_err, emit, sys_exit,
    uncaught, io_ret.
  cbn [stdin events].
  destruct (lookupByName conn _ vm_name) as [dom|e]; cbn [stdin events].
  2:{ eexists. rewrite <- !app_assoc. split; reflexivity. }
  destruct (dom_XMLDesc dom) as [original|e]; cbn [stdin events].
  2:{ eexists. rewrite <- !app_assoc. split; reflexivity. }
  destruct (optimize_xml fromstring tostring original)
    as [[optimized chs]|e]; cbn [stdin events].
  2:{ eexists. split; reflexivity. }
  destruct (show_changes fromstring tostring unified_diff chs original
              optimized) as [printed has_changes].
  destruct has_changes; cbn [negb].
  2:{ unfold conn_close, io_bind, emit, libvirt_error, io_ret.
      destruct (close conn); cbn [stdin events fst snd];
        eexists; rewrite <- !app_assoc; (split; [reflexivity|]);
        now rewrite !prompts_app, prompts_map_Print. }
  destruct (dry_run args).
  { unfold conn_close, io_bind, emit, libvirt_error, io_ret.
    destruct (close conn); cbn [stdin events fst snd];
      eexists; rewrite <- !app_assoc; (split; [reflexivity|]);
      now rewrite !prompts_app, prompts_map_Print. }
  destruct (yes args); [|destruct Hbatch; discriminate]. cbn [negb].
  cbv beta.
  match goal with
  | |- context [apply_changes conn vm_name optimized ?q] =>
      destruct (apply_changes_asks_nothing conn vm_name optimized q)
        as (ev & Hsnd & (success & Hfst) & Hev);
      destruct (apply_changes conn vm_name optimized q) as [r q']
  end.
  cbn [fst snd stdin events] in *. subst r q'.
  unfold conn_close, io_bind, emit, libvirt_error, io_ret.
  destruct (close conn); cbn [stdin events fst snd];
    eexists; rewrite <- !app_assoc; (split; [reflexivity|]);
    now rewrite !prompts_app, prompts_map_Print, Hev.
Qed.

(** X20.  A run that names its VM with [--vm] and has [--yes] or
    [--dry-run] asks nothing: it prints no prompt and leaves standard
    input as it found it, whatever libvirt answers and whether the run
    returns, exits or fails. *)
Theorem main_asks_nothing argv args p name :
  parse_args argv = Namespace args ->
  vm args = Some name -> truthy name = true ->
  yes args = true \/ dry_run args = true ->
  let out := main HAS_LIBVIRT HAS_LXML libvirt_open fromstring tostring
               unified_diff str_lower parse_args argv p in
  exists ev,
    snd out = mkProc (stdin p) (events p ++ ev) /\ prompts ev = [].
Proof.
  intros Hparse Hvm Hname Hbatch.
  unfold main. rewrite Hparse.
  unfold check_dependencies, connect_libvirt, io_bind, print,
    print_err, emit, sys_exit, io_ret.
  destruct HAS_LIBVIRT, HAS_LXML; cbn [negb app map stdin events fst snd];
    try (eexists; rewrite <- ?app_assoc; split; reflexivity).
  destruct (libvirt_open (uri args)) as [conn| |msg];
    cbn [stdin events fst snd];
    try (eexists; rewrite <- ?app_assoc; split; reflexivity).
  rewrite Hvm, Hname.
  match goal with
  | |- context [optimize_vm _ _ _ _ args conn name ?q] =>
      destruct (optimize_vm_asks_nothing args conn name q Hbatch)
        as (ev & -> & Hev)
  end.
  cbn [stdin events]. eexists. rewrite <- !app_assoc.
  split; [reflexivity|]. now rewrite !prompts_app, Hev.
Qed.

End Batch.

Lemma main_asks_nothing_witness :
  exists ev,
    snd (main true true sample_open sample_fromstring sample_tostring
           sample_unified_diff ascii_lower sample_parse_args
           ["--vm"; "web"; "--dry-run"] (mkProc [Line "y"] []))
    = mkProc [Line "y"] ([] ++ ev)
    /\ prompts ev = [].
Proof.
  apply (main_asks_nothing true true sample_open sample_fromstring
           sample_tostring sample_unified_diff ascii_lower sample_parse_args
           ["--vm"; "web"; "--dry-run"]
           (mkArgs "qemu:///session" (Some "web") true false)
           (mkProc [Line "y"] []) "web");
    [reflexivity | reflexivity | reflexivity | now right].
Defined.

(** * The text [optimize_xml] returns *)

Section TextOut.

Variable fromstring : string -> option Node.
Variable tostring : Node -> string.

Lemma declared_prefix s :
  String.prefix "<?xml" (String.append xml_declaration s) = true.
Proof. reflexivity. Qed.

(** X19.  The text that [optimize_xml] returns starts with an XML
    declaration: it is the serialization of the tree after the rules, with
    the declaration of line 285 in front unless the serializer wrote one.
    And the declaration is not added twice: if the parser reads the
    returned text back as the tree that was serialized, [optimize_xml] on
    the returned text returns the same text and no records. *)
Theorem optimize_xml_text xml_str optimized chs :
  optimize_xml fromstring tostring xml_str = Ok (optimized, chs) ->
  String.prefix "<?xml" optimized = true
  /\ exists root root',
       fromstring xml_str = Some root
       /\ transform root = Ok (root', chs)
       /\ optimized = (if String.prefix "<?xml" (tostring root')
                       then tostring root'
                       else String.append xml_declaration (tostring root'))
       /\ (fromstring optimized = Some root' ->
           optimize_xml fromstring tostring optimized = Ok (optimized, [])).
Proof.
  unfold optimize_xml at 1.
  destruct (fromstring xml_str) as [root|] eqn:Hp; [|discriminate].
  destruct (transform root) as [[root' chs']|e] eqn:Ht; [|discriminate].
  intros [= <- <-]. split.
  - destruct (String.prefix "<?xml" (tostring root')) eqn:E;
      [assumption | apply declared_prefix].
  - exists root, root'. do 3 (split; [assumption || reflexivity|]).
    intros Hback. unfold optimize_xml. rewrite Hback.
    assert (Hq : transform root' = Ok (root', [])).
    { unfold transform in *.
      destruct (apply_rules root (mkSt [] None)) as [[r s]|e] eqn:Ha;
        [|discriminate].
      injection Ht as -> _.
      pose proof (apply_rules_optimizes _ _ _ _ Ha) as Ho.
      now rewrite (apply_rules_optimized _ _ Ho). }
    now rewrite Hq.
Qed.

End TextOut.

Lemma optimize_xml_text_witness :
  String.prefix "<?xml" (String.append xml_declaration "<domain/>") = true
  /\ optimize_xml sample_fromstring_back sample_tostring
       (String.append xml_declaration "<domain/>")
     = Ok (String.append xml_declaration "<domain/>", []).
Proof.
  destruct (optimize_xml_text sample_fromstring_back sample_tostring
              "<domain/>" (String.append xml_declaration "<domain/>")
              [("cpu_mode", "default", "host-passthrough");
               ("cpu_topology", "none", "1 socket × 1 cores × 1 thread")]
              eq_refl)
    as (Hprefix & root & root' & Hroot & Htransform & _ & Hagain).
  split; [exact Hprefix|]. apply Hagain.
  injection Hroot as <-. injection Htransform as <-. reflexivity.
Defined.

(** * The built-ins on some texts *)

(** [int] reads decimal digits of any script, with white space around
    them, a sign and single underscores between digits; it reads nothing
    else, and no more than 4300 digits. *)
Lemma int_examples :
  int "4" = Some 4%Z
  /\ int "٤" = Some 4%Z
  /\ int "４２" = Some 42%Z
  /\ int " 12 " = Some 12%Z
  /\ int (String.append (byte 194) (String.append (byte 160) "7")) = Some 7%Z
  /\ int "+7" = Some 7%Z
  /\ int "-0" = Some 0%Z
  /\ int "-12" = Some (-12)%Z
  /\ int "1_000" = Some 1000%Z
  /\ int "007" = Some 7%Z
  /\ int EmptyString = None
  /\ int " " = None
  /\ int "four" = None
  /\ int "4.0" = None
  /\ int "0x10" = None
  /\ int "1__0" = None
  /\ int "_1" = None
  /\ int "1_" = None
  /\ int "- 1" = None
  /\ int "--1" = None
  /\ int "1 2" = None
  /\ int (String.append (byte 28) "1") = None
  /\ int (times "9" 4300) <> None
  /\ int (times "9" 4301) = None
  /\ int (times "0" 4301) = None.
Proof. vm_compute. repeat split; try reflexivity; discriminate. Qed.

(** [strip] drops the white space of [str.isspace], the no-break space
    and the separators U+001C to U+001F among it. *)
Lemma strip_examples :
  strip "  y  " = "y"
  /\ strip (String.append "y" (String.append (byte 194) (byte 160))) = "y"
  /\ strip (String.append (byte 28) (String.append "2" (byte 31))) = "2"
  /\ strip "a b" = "a b"
  /\ strip "   " = EmptyString
  /\ strip (String.append "q" newline) = "q".
Proof. vm_compute. repeat split; reflexivity. Qed.
